(** * myDWM: a shallow embedding of the window-management core of [dwm.c]

    The development follows the layout of [dwm.c]: the C structures
    ([Client], [View], [Monitor] and the globals) become records, the
    intrusive lists threaded through [Client.next] and [Client.snext]
    become lists of client pointers held by the owning view, and every
    [void] function that mutates the globals becomes a function from
    states to optional states ([None] stands for a run that dereferences
    a null or dangling pointer, indexes [views] out of bounds, or links
    into a list a client that is a member of a list already, after which
    the links of the C program form no lists any more).

    Requests sent to the X server (configure, map, grab, focus, draw)
    leave no trace in the C data model and are not embedded; replies read
    from the server are arguments of the embedded handlers.

    C [int] arithmetic is rendered on [Z]: signed overflow is undefined in
    C, so the embedding describes the runs that stay in range.  Where the
    source mixes [int] with [unsigned int] the conversions are written
    out.  [float] is IEEE binary32 and [double] binary64, both computed
    with the executable operations of [SpecFloat]. *)

From Stdlib Require Import ZArith Lia Bool String.
From Stdlib Require Import Floats.SpecFloat.
From stdpp Require Import base option list gmap.

Local Open Scope Z_scope.

(** ** C numeric conversions *)

Module CInt.

Definition INT_MIN : Z := - 2 ^ 31.
Definition INT_MAX : Z := 2 ^ 31 - 1.


(** [(unsigned int) z] *)
Definition to_uint (z : Z) : Z := z mod 2 ^ 32.

(** [(int) u] for [u] an [unsigned int] value (two's complement). *)
Definition to_int (u : Z) : Z :=
  let r := u mod 2 ^ 32 in
  if r <? 2 ^ 31 then r else r - 2 ^ 32.

(** [a / n] and [a % n] with [a : int] and [n : unsigned int]: the usual
    arithmetic conversions turn [a] into an [unsigned int], and the
    result is stored back into an [int]. *)
Definition udiv (a n : Z) : Z := to_int (to_uint a / n).
Definition umod (a n : Z) : Z := to_int (to_uint a mod n).

Lemma to_uint_small z : 0 <= z < 2 ^ 32 -> to_uint z = z.
Proof. intros H. unfold to_uint. now apply Z.mod_small. Qed.

Lemma to_int_small z : 0 <= z < 2 ^ 31 -> to_int z = z.
Proof.
  intros H. unfold to_int.
  rewrite Z.mod_small by lia.
  destruct (Z.ltb_spec z (2 ^ 31)); lia.
Qed.

Lemma udiv_nonneg a n :
  0 <= a < 2 ^ 31 -> 0 < n -> udiv a n = a / n.
Proof.
  intros Ha Hn. unfold udiv. rewrite to_uint_small by lia.
  apply to_int_small. split.
  - apply Z.div_pos; lia.
  - apply Z.le_lt_trans with a; [|lia].
    apply Z.div_le_upper_bound; nia.
Qed.

Lemma umod_nonneg a n :
  0 <= a < 2 ^ 31 -> 0 < n -> umod a n = a mod n.
Proof.
  intros Ha Hn. unfold umod. rewrite to_uint_small by lia.
  apply to_int_small.
  pose proof (Z.mod_pos_bound a n Hn).
  pose proof (Z.mod_le a n ltac:(lia) Hn). lia.
Qed.

End CInt.

(** ** IEEE arithmetic for [float] and [double] *)

Module CFloat.

Definition float := spec_float.

Definition prec32 : Z := 24.
Definition emax32 : Z := 128.
Definition prec64 : Z := 53.
Definition emax64 : Z := 1024.

(** [(float) z] and [(double) z] for an integer [z]. *)
Definition of_int32 (z : Z) : float := binary_normalize prec32 emax32 z 0 false.
Definition of_int64 (z : Z) : float := binary_normalize prec64 emax64 z 0 false.

Definition mul32 : float -> float -> float := SFmul prec32 emax32.
Definition div32 : float -> float -> float := SFdiv prec32 emax32.
Definition add32 : float -> float -> float := SFadd prec32 emax32.
Definition add64 : float -> float -> float := SFadd prec64 emax64.
Definition div64 : float -> float -> float := SFdiv prec64 emax64.

(** Promotion of a [float] to [double]; every binary32 value is a
    binary64 value, so the rounding inside [binary_normalize] is exact
    here and only renormalises the mantissa. *)
Definition to_double (f : float) : float :=
  match f with
  | S754_finite s m e =>
      binary_normalize prec64 emax64 (cond_Zopp s (Zpos m)) e s
  | _ => f
  end.

(** [a < b] and [a <= b] on operands of one format; false on NaN. *)
Definition ltb (a b : float) : bool := SFltb a b.
Definition leb (a b : float) : bool := SFleb a b.

(** Conversion of a floating value to [int]: the fractional part is
    discarded.  ISO C leaves the conversion of NaN, of an infinity and
    of a value outside the range of [int] undefined; the embedding
    returns what the x86-64 conversion instruction returns, [INT_MIN]. *)
Definition to_int (f : float) : Z :=
  match f with
  | S754_zero _ => 0
  | S754_finite s m e =>
      let z := cond_Zopp s (Z.shiftl (Zpos m) e) in
      if (CInt.INT_MIN <=? z) && (z <=? CInt.INT_MAX) then z else CInt.INT_MIN
  | _ => CInt.INT_MIN
  end.

(** The literals of [dwm.c], all of type [double]. *)
Definition d0_5 : float := Eval vm_compute in div64 (of_int64 1) (of_int64 2).
Definition d0_1 : float := Eval vm_compute in div64 (of_int64 1) (of_int64 10).
Definition d0_9 : float := Eval vm_compute in div64 (of_int64 9) (of_int64 10).
Definition d1_0 : float := Eval vm_compute in of_int64 1.
Definition dm1_0 : float := Eval vm_compute in of_int64 (-1).

(** Conversion of a [double] to [float] (round to nearest even). *)
Definition to_float (d : float) : float :=
  match d with
  | S754_finite s m e =>
      binary_normalize prec32 emax32 (cond_Zopp s (Zpos m)) e s
  | _ => d
  end.

(** A decimal literal [n / d], of type [double], stored into a [float]. *)
Definition lit32 (n d : Z) : float :=
  to_float (div64 (of_int64 n) (of_int64 d)).

End CFloat.


Import CFloat.

(** ** Data model ([dwm.c], lines 83-148) *)

Definition Window := Z.
Definition Atom := Z.

(** A [Client *] is a key of the heap of client records and a
    [Monitor *] the position of the monitor in the list [mons];
    [option] adds the null pointer. *)
Abbreviation ClientPtr := nat (only parsing).
Abbreviation MonitorPtr := nat (only parsing).

Definition NUMVIEWS : nat := 9.

(** [int x, y, w, h] *)
Record Rect : Type := mkRect { r_x : Z; r_y : Z; r_w : Z; r_h : Z }.

(** [float mina, maxa] and
    [int basew, baseh, incw, inch, maxw, maxh, minw, minh] *)
Record Hints : Type := mkHints {
  mina : float; maxa : float;
  basew : Z; baseh : Z; incw : Z; inch : Z;
  maxw : Z; maxh : Z; minw : Z; minh : Z
}.

(** [struct Client].  The title [name] is only drawn, and the links
    [next] and [snext] are the tails of the lists kept in [View]. *)
Record Client : Type := mkClient {
  c_hints : Hints;
  c_rect : Rect;
  c_old : Rect;
  c_bw : Z;
  c_oldbw : Z;
  c_isfixed : bool;
  c_isfloating : bool;
  c_isurgent : bool;
  c_oldstate : bool;
  c_mon : MonitorPtr;
  c_view : nat;
  c_win : Window
}.

Definition c_x (c : Client) : Z := r_x (c_rect c).
Definition c_y (c : Client) : Z := r_y (c_rect c).
Definition c_w (c : Client) : Z := r_w (c_rect c).
Definition c_h (c : Client) : Z := r_h (c_rect c).

Definition set_c_hints (v : Hints) (c : Client) : Client :=
  mkClient v (c_rect c) (c_old c) (c_bw c) (c_oldbw c) (c_isfixed c)
    (c_isfloating c) (c_isurgent c) (c_oldstate c) (c_mon c) (c_view c) (c_win c).
Definition set_c_rect (v : Rect) (c : Client) : Client :=
  mkClient (c_hints c) v (c_old c) (c_bw c) (c_oldbw c) (c_isfixed c)
    (c_isfloating c) (c_isurgent c) (c_oldstate c) (c_mon c) (c_view c) (c_win c).
Definition set_c_old (v : Rect) (c : Client) : Client :=
  mkClient (c_hints c) (c_rect c) v (c_bw c) (c_oldbw c) (c_isfixed c)
    (c_isfloating c) (c_isurgent c) (c_oldstate c) (c_mon c) (c_view c) (c_win c).
Definition set_c_bw (v : Z) (c : Client) : Client :=
  mkClient (c_hints c) (c_rect c) (c_old c) v (c_oldbw c) (c_isfixed c)
    (c_isfloating c) (c_isurgent c) (c_oldstate c) (c_mon c) (c_view c) (c_win c).
Definition set_c_oldbw (v : Z) (c : Client) : Client :=
  mkClient (c_hints c) (c_rect c) (c_old c) (c_bw c) v (c_isfixed c)
    (c_isfloating c) (c_isurgent c) (c_oldstate c) (c_mon c) (c_view c) (c_win c).
Definition set_c_isfixed (v : bool) (c : Client) : Client :=
  mkClient (c_hints c) (c_rect c) (c_old c) (c_bw c) (c_oldbw c) v
    (c_isfloating c) (c_isurgent c) (c_oldstate c) (c_mon c) (c_view c) (c_win c).
Definition set_c_isfloating (v : bool) (c : Client) : Client :=
  mkClient (c_hints c) (c_rect c) (c_old c) (c_bw c) (c_oldbw c) (c_isfixed c)
    v (c_isurgent c) (c_oldstate c) (c_mon c) (c_view c) (c_win c).
Definition set_c_isurgent (v : bool) (c : Client) : Client :=
  mkClient (c_hints c) (c_rect c) (c_old c) (c_bw c) (c_oldbw c) (c_isfixed c)
    (c_isfloating c) v (c_oldstate c) (c_mon c) (c_view c) (c_win c).
Definition set_c_oldstate (v : bool) (c : Client) : Client :=
  mkClient (c_hints c) (c_rect c) (c_old c) (c_bw c) (c_oldbw c) (c_isfixed c)
    (c_isfloating c) (c_isurgent c) v (c_mon c) (c_view c) (c_win c).
Definition set_c_mon (v : MonitorPtr) (c : Client) : Client :=
  mkClient (c_hints c) (c_rect c) (c_old c) (c_bw c) (c_oldbw c) (c_isfixed c)
    (c_isfloating c) (c_isurgent c) (c_oldstate c) v (c_view c) (c_win c).
Definition set_c_view (v : nat) (c : Client) : Client :=
  mkClient (c_hints c) (c_rect c) (c_old c) (c_bw c) (c_oldbw c) (c_isfixed c)
    (c_isfloating c) (c_isurgent c) (c_oldstate c) (c_mon c) v (c_win c).
Definition set_c_win (v : Window) (c : Client) : Client :=
  mkClient (c_hints c) (c_rect c) (c_old c) (c_bw c) (c_oldbw c) (c_isfixed c)
    (c_isfloating c) (c_isurgent c) (c_oldstate c) (c_mon c) (c_view c) v.

(** The arrangers a [Layout] can point to; [lt_arrange = None] is the
    null function pointer of the floating layout. *)
Inductive Arranger : Type := Tile | Mirrortile | Monocle.

Record Layout : Type := mkLayout {
  lt_symbol : string;
  lt_arrange : option Arranger
}.

(** The [View] structure; [v_lt] holds the table entry [lt] points to. *)
Record View : Type := mkView {
  v_mfact : float;
  v_clients : list ClientPtr;
  v_sel : option ClientPtr;
  v_stack : list ClientPtr;
  v_lt : Layout
}.

Definition set_v_mfact (f : float) (v : View) : View :=
  mkView f (v_clients v) (v_sel v) (v_stack v) (v_lt v).
Definition set_v_clients (l : list ClientPtr) (v : View) : View :=
  mkView (v_mfact v) l (v_sel v) (v_stack v) (v_lt v).
Definition set_v_sel (c : option ClientPtr) (v : View) : View :=
  mkView (v_mfact v) (v_clients v) c (v_stack v) (v_lt v).
Definition set_v_stack (l : list ClientPtr) (v : View) : View :=
  mkView (v_mfact v) (v_clients v) (v_sel v) l (v_lt v).
Definition set_v_lt (l : Layout) (v : View) : View :=
  mkView (v_mfact v) (v_clients v) (v_sel v) (v_stack v) l.

(** [struct Monitor] without the bar text [ltsymbol]; [next] is the
    position in [mons]. *)
Record Monitor : Type := mkMonitor {
  m_num : Z;
  m_by : Z;
  m_mx : Z; m_my : Z; m_mw : Z; m_mh : Z;
  m_wx : Z; m_wy : Z; m_ww : Z; m_wh : Z;
  m_showbar : bool;
  m_topbar : bool;
  m_barwin : Window;
  m_selview : nat;
  m_views : list View
}.

Definition set_m_selview (v : nat) (m : Monitor) : Monitor :=
  mkMonitor (m_num m) (m_by m) (m_mx m) (m_my m) (m_mw m) (m_mh m)
    (m_wx m) (m_wy m) (m_ww m) (m_wh m) (m_showbar m) (m_topbar m)
    (m_barwin m) v (m_views m).
Definition set_m_views (v : list View) (m : Monitor) : Monitor :=
  mkMonitor (m_num m) (m_by m) (m_mx m) (m_my m) (m_mw m) (m_mh m)
    (m_wx m) (m_wy m) (m_ww m) (m_wh m) (m_showbar m) (m_topbar m)
    (m_barwin m) (m_selview m) v.

(** The mutable globals [mons], [selmon] and the allocated clients. *)
Record State : Type := mkState {
  mons : list Monitor;
  selmon : MonitorPtr;
  heap : gmap ClientPtr Client
}.

Definition set_mons (l : list Monitor) (s : State) : State :=
  mkState l (selmon s) (heap s).
Definition set_selmon (m : MonitorPtr) (s : State) : State :=
  mkState (mons s) m (heap s).
Definition set_heap (h : gmap ClientPtr Client) (s : State) : State :=
  mkState (mons s) (selmon s) h.

(** [config.h] is not part of the sources at hand: its constants are
    the fields of [Config]. *)
Record Config : Type := mkConfig {
  borderpx : Z;
  mfact : float;
  resizehints : bool;
  showbar : bool;
  topbar : bool;
  layouts0 : Layout;      (* [layouts[0]] *)
  VERSION : string
}.

(** Globals written once by [setup]: the display size [sw], [sh], the
    bar height [bh], the root window and the interned atoms. *)
Record Screen : Type := mkScreen {
  sw : Z;
  sh : Z;
  bh : Z;
  root : Window;
  NetWMName : Atom;
  NetWMState : Atom;
  NetWMFullscreen : Atom
}.

(** *** Accessors shared by the functions below *)

(** [m->views[v]] *)
Definition get_view (s : State) (m : MonitorPtr) (v : nat) : option View :=
  mon ← mons s !! m; m_views mon !! v.

(** [m->views[v] = vw] *)
Definition put_view (m : MonitorPtr) (v : nat) (vw : View) (s : State) : State :=
  set_mons (alter (λ mon, set_m_views (<[v := vw]> (m_views mon)) mon) m (mons s)) s.

(** [SELVIEW(m)] *)
Definition SELVIEW (s : State) (m : MonitorPtr) : option View :=
  mon ← mons s !! m; m_views mon !! m_selview mon.

(** [*c = cl] *)
Definition store (c : ClientPtr) (cl : Client) (s : State) : State :=
  set_heap (<[c := cl]> (heap s)) s.

Definition WIDTH (c : Client) : Z := c_w c + 2 * c_bw c.
Definition HEIGHT (c : Client) : Z := c_h c + 2 * c_bw c.

(** ** The functions of [dwm.c] *)

Section Dwm.

Variable cfg : Config.
Variable scr : Screen.

(** *** Geometry and size hints *)

(** The aspect block of [applysizehints] (lines 312-317):
    [maxa] bounds [w / h] from above and [mina] bounds [h / w] from
    above.  The quotients are single-precision divisions; the products
    are single-precision too and are widened to [double] for the
    addition of the literal [0.5] before the conversion to [int]. *)
Definition aspect (hn : Hints) (w h : Z) : Z * Z :=
  if ltb (of_int32 0) (mina hn) && ltb (of_int32 0) (maxa hn) then
    if ltb (maxa hn) (div32 (of_int32 w) (of_int32 h)) then
      (to_int (add64 (to_double (mul32 (of_int32 h) (maxa hn))) d0_5), h)
    else if ltb (mina hn) (div32 (of_int32 h) (of_int32 w)) then
      (w, to_int (add64 (to_double (mul32 (of_int32 w) (mina hn))) d0_5))
    else (w, h)
  else (w, h).

(** The ICCCM 4.1.2.3 block of [applysizehints] (lines 306-337). *)
Definition icccm (hn : Hints) (w h : Z) : Z * Z :=
  let baseismin := (basew hn =? minw hn) && (baseh hn =? minh hn) in
  let w := if negb baseismin then w - basew hn else w in
  let h := if negb baseismin then h - baseh hn else h in
  let '(w, h) := aspect hn w h in
  let w := if baseismin then w - basew hn else w in
  let h := if baseismin then h - baseh hn else h in
  let w := if negb (incw hn =? 0) then w - Z.rem w (incw hn) else w in
  let h := if negb (inch hn =? 0) then h - Z.rem h (inch hn) else h in
  let w := w + basew hn in
  let h := h + baseh hn in
  let w := Z.max w (minw hn) in
  let h := Z.max h (minh hn) in
  let w := if negb (maxw hn =? 0) then Z.min w (maxw hn) else w in
  let h := if negb (maxh hn =? 0) then Z.min h (maxh hn) else h in
  (w, h).

(** [applysizehints(c, &x, &y, &w, &h, interact)] with [m = c->mon]:
    the returned rectangle holds the final [*x, *y, *w, *h]. *)
Definition applysizehints (c : Client) (m : Monitor) (x y w h : Z)
    (interact : bool) : bool * Rect :=
  let w := Z.max 1 w in
  let h := Z.max 1 h in
  let x :=
    if interact then
      let x := if x >? sw scr then sw scr - WIDTH c else x in
      if x + w + 2 * c_bw c <? 0 then 0 else x
    else
      let x := if x >? m_mx m + m_mw m then m_mx m + m_mw m - WIDTH c else x in
      if x + w + 2 * c_bw c <? m_mx m then m_mx m else x in
  let y :=
    if interact then
      let y := if y >? sh scr then sh scr - HEIGHT c else y in
      if y + h + 2 * c_bw c <? 0 then 0 else y
    else
      let y := if y >? m_my m + m_mh m then m_my m + m_mh m - HEIGHT c else y in
      if y + h + 2 * c_bw c <? m_my m then m_my m else y in
  let h := if h <? bh scr then bh scr else h in
  let w := if w <? bh scr then bh scr else w in
  let '(w, h) :=
    if resizehints cfg || c_isfloating c then icccm (c_hints c) w h
    else (w, h) in
  (negb (x =? c_x c) || negb (y =? c_y c) || negb (w =? c_w c)
     || negb (h =? c_h c),
   mkRect x y w h).

(** [resizeclient]: the current rectangle is saved and replaced. *)
Definition resizeclient (c : ClientPtr) (x y w h : Z) (s : State)
    : option State :=
  cl ← heap s !! c;
  Some (store c (set_c_rect (mkRect x y w h) (set_c_old (c_rect cl) cl)) s).

Definition resize (c : ClientPtr) (x y w h : Z) (interact : bool)
    (s : State) : option State :=
  cl ← heap s !! c;
  m ← mons s !! c_mon cl;
  let '(changed, r) := applysizehints cl m x y w h interact in
  if changed then resizeclient c (r_x r) (r_y r) (r_w r) (r_h r) s
  else Some s.

(** *** Client list and focus stack *)

(** The walk of [detach] and [detachstack] along the links until it
    meets [c], followed by the store of [c]'s successor in the link
    that pointed to [c]: the first occurrence of [c] is unlinked;
    walking off the end of the list dereferences the null pointer. *)
Fixpoint unlink (c : ClientPtr) (l : list ClientPtr)
    : option (list ClientPtr) :=
  match l with
  | [] => None
  | d :: l' => if decide (d = c) then Some l' else cons d <$> unlink c l'
  end.

(** Whether [c] is a member of the client list, of the focus stack of
    some view. *)
Definition linked (c : ClientPtr) (s : State) : bool :=
  existsb (λ mon, existsb (λ vw, bool_decide (c ∈ v_clients vw))
                    (m_views mon)) (mons s).

Definition stacked (c : ClientPtr) (s : State) : bool :=
  existsb (λ mon, existsb (λ vw, bool_decide (c ∈ v_stack vw))
                    (m_views mon)) (mons s).

(** [attach(c)] overwrites [c->next] with the head of the client list
    of [c]'s view and makes [c] the head.  When [c] is a member of a
    client list already, the store closes a cycle or makes two lists
    share their tail; no list of the embedding describes that. *)
Definition attach (c : ClientPtr) (s : State) : option State :=
  cl ← heap s !! c;
  vw ← get_view s (c_mon cl) (c_view cl);
  if linked c s then None
  else Some (put_view (c_mon cl) (c_view cl)
               (set_v_clients (c :: v_clients vw) vw) s).

(** [attachstack(c)], the same along [snext]. *)
Definition attachstack (c : ClientPtr) (s : State) : option State :=
  cl ← heap s !! c;
  vw ← get_view s (c_mon cl) (c_view cl);
  if stacked c s then None
  else Some (put_view (c_mon cl) (c_view cl)
               (set_v_stack (c :: v_stack vw) vw) s).

Definition detach (c : ClientPtr) (s : State) : option State :=
  cl ← heap s !! c;
  vw ← get_view s (c_mon cl) (c_view cl);
  l ← unlink c (v_clients vw);
  Some (put_view (c_mon cl) (c_view cl) (set_v_clients l vw) s).

Definition detachstack (c : ClientPtr) (s : State) : option State :=
  cl ← heap s !! c;
  vw ← get_view s (c_mon cl) (c_view cl);
  l ← unlink c (v_stack vw);
  let vw := set_v_stack l vw in
  let vw := if decide (v_sel vw = Some c) then set_v_sel (head l) vw else vw in
  Some (put_view (c_mon cl) (c_view cl) vw s).

(** [nexttiled(c)]: the suffix of the client list that starts at the
    first client that is not floating ([[]] is the null pointer). *)
Fixpoint nexttiled (hp : gmap ClientPtr Client) (l : list ClientPtr)
    : option (list ClientPtr) :=
  match l with
  | [] => Some []
  | c :: l' =>
      cl ← hp !! c;
      if c_isfloating cl then nexttiled hp l' else Some l
  end.

(** [clearurgent] without the update of the window's WM hints. *)
Definition clearurgent (c : ClientPtr) (s : State) : option State :=
  cl ← heap s !! c;
  Some (store c (set_c_isurgent false cl) s).

(** [unfocus(c, setfocus)]: [grabbuttons] and [XSetWindowBorder] read
    [c->win]; the requests themselves leave the state alone. *)
Definition unfocus (c : option ClientPtr) (s : State) : option State :=
  match c with
  | None => Some s
  | Some p => _ ← heap s !! p; Some s
  end.

(** [focus(c)]; [grabbuttons] and the requests to the server leave the
    state alone, and so does [drawbars]. *)
Definition focus (c : option ClientPtr) (s : State) : option State :=
  sv ← SELVIEW s (selmon s);
  let c := match c with None => head (v_stack sv) | Some _ => c end in
  _ ← (if decide (v_sel sv ≠ None ∧ v_sel sv ≠ c)
       then unfocus (v_sel sv) s else Some s);
  s1 ← match c with
       | Some p =>
           cl ← heap s !! p;
           let s := if decide (c_mon cl = selmon s) then s
                    else set_selmon (c_mon cl) s in
           s ← (if c_isurgent cl then clearurgent p s else Some s);
           s ← detachstack p s;
           attachstack p s
       | None => Some s
       end;
  mon ← mons s1 !! selmon s1;
  sv1 ← m_views mon !! m_selview mon;
  Some (put_view (selmon s1) (m_selview mon) (set_v_sel c sv1) s1).

(** [showhide(c)] along [snext], given as the list that starts at [c]. *)
Fixpoint showhide (l : list ClientPtr) (s : State) : option State :=
  match l with
  | [] => Some s
  | c :: l' =>
      cl ← heap s !! c;
      vw ← get_view s (c_mon cl) (c_view cl);
      s1 ← (if negb (negb (c_isfloating cl)
                     && bool_decide (is_Some (lt_arrange (v_lt vw))))
            then resize c (c_x cl) (c_y cl) (c_w cl) (c_h cl) false s
            else Some s);
      showhide l' s1
  end.

(** *** Layouts *)

(** The counting loop of the arrangers:
    [for (n = 0, c = nexttiled(clients); c; c = nexttiled(c->next), n++)]. *)
Fixpoint count_tiled (hp : gmap ClientPtr Client) (l : list ClientPtr)
    : option Z :=
  match l with
  | [] => Some 0
  | c :: l' =>
      cl ← hp !! c;
      n ← count_tiled hp l';
      Some (if c_isfloating cl then n else n + 1)
  end.

(** [mw = SELVIEW(m).mfact * m->ww]: the [int] operand is converted to
    [float], the product is a [float] and its integer part is stored. *)
Definition master_size (f : float) (extent : Z) : Z :=
  to_int (mul32 f (of_int32 extent)).

(** The stack loop of [tile] (lines 1672-1679); [l] starts at the
    successor of the master and floating clients are stepped over as
    [nexttiled] does. *)
Fixpoint tile_stack (m : Monitor) (n x w h : Z) (l : list ClientPtr)
    (i y rh : Z) (s : State) : option State :=
  match l with
  | [] => Some s
  | c :: l' =>
      cl ← heap s !! c;
      if c_isfloating cl then tile_stack m n x w h l' i y rh s
      else
        s1 ← resize c x y (w - 2 * c_bw cl)
               ((if i + 1 =? n then m_wy m + m_wh m - y - 2 * c_bw cl
                 else h - 2 * c_bw cl)
                + (if 0 <? rh then 1 else 0))
               false s;
        cl1 ← heap s1 !! c;
        let y := if negb (h =? m_wh m) then c_y cl1 + HEIGHT cl1 else y in
        tile_stack m n x w h l' (i + 1) y (rh - 1) s1
  end.

Definition tile (m : MonitorPtr) (s : State) : option State :=
  mon ← mons s !! m;
  vw ← m_views mon !! m_selview mon;
  n ← count_tiled (heap s) (v_clients vw);
  if n =? 0 then Some s
  else
    l ← nexttiled (heap s) (v_clients vw);
    match l with
    | [] => None
    | c :: l' =>
        (* master *)
        cl ← heap s !! c;
        let mw := master_size (v_mfact vw) (m_ww mon) in
        s1 ← resize c (m_wx mon) (m_wy mon)
               ((if n =? 1 then m_ww mon else mw) - 2 * c_bw cl)
               (m_wh mon - 2 * c_bw cl) false s;
        let n := n - 1 in
        if n =? 0 then Some s1
        else
          (* tile stack *)
          cl ← heap s1 !! c;
          let abut := m_wx mon + mw >? c_x cl + c_w cl in
          let x := if abut then c_x cl + c_w cl + 2 * c_bw cl
                   else m_wx mon + mw in
          let y := m_wy mon in
          let w := if abut then m_wx mon + m_ww mon - x
                   else m_ww mon - mw in
          let h := CInt.udiv (m_wh mon) n in
          let rh := CInt.umod (m_wh mon) n in
          let '(h, rh) := if h <? bh scr then (m_wh mon, 0) else (h, rh) in
          tile_stack mon n x w h l' 0 y rh s1
    end.

(** The stack loop of [mirrortile] (lines 1167-1174). *)
Fixpoint mirrortile_stack (m : Monitor) (n y w h : Z) (l : list ClientPtr)
    (i x rw : Z) (s : State) : option State :=
  match l with
  | [] => Some s
  | c :: l' =>
      cl ← heap s !! c;
      if c_isfloating cl then mirrortile_stack m n y w h l' i x rw s
      else
        s1 ← resize c x y
               ((if i + 1 =? n then m_wx m + m_mw m - x - 2 * c_bw cl
                 else w - 2 * c_bw cl)
                + (if 0 <? rw then 1 else 0))
               (h - 2 * c_bw cl) false s;
        cl1 ← heap s1 !! c;
        let x := if negb (w =? m_ww m) then c_x cl1 + WIDTH cl1 else x in
        mirrortile_stack m n y w h l' (i + 1) x (rw - 1) s1
  end.

Definition mirrortile (m : MonitorPtr) (s : State) : option State :=
  mon ← mons s !! m;
  vw ← m_views mon !! m_selview mon;
  n ← count_tiled (heap s) (v_clients vw);
  if n =? 0 then Some s
  else
    l ← nexttiled (heap s) (v_clients vw);
    match l with
    | [] => None
    | c :: l' =>
        cl ← heap s !! c;
        let mh := master_size (v_mfact vw) (m_wh mon) in
        s1 ← resize c (m_wx mon) (m_wy mon) (m_ww mon - 2 * c_bw cl)
               ((if n =? 1 then m_wh mon else mh) - 2 * c_bw cl) false s;
        let n := n - 1 in
        if n =? 0 then Some s1
        else
          cl ← heap s1 !! c;
          let abut := m_wy mon + mh >? c_y cl + c_h cl in
          let x := m_wx mon in
          let y := if abut then c_y cl + c_h cl + 2 * c_bw cl
                   else m_wy mon + mh in
          let w := CInt.udiv (m_ww mon) n in
          let rw := CInt.umod (m_ww mon) n in
          let h := if abut then m_wy mon + m_wh mon - y
                   else m_wh mon - mh in
          mirrortile_stack mon n y w h l' 0 x rw s1
    end.

(** The resize loop of [monocle]; the rewrite of the bar text is not
    embedded. *)
Fixpoint monocle_loop (m : Monitor) (l : list ClientPtr) (s : State)
    : option State :=
  match l with
  | [] => Some s
  | c :: l' =>
      cl ← heap s !! c;
      if c_isfloating cl then monocle_loop m l' s
      else
        s1 ← resize c (m_wx m) (m_wy m) (m_ww m - 2 * c_bw cl)
               (m_wh m - 2 * c_bw cl) false s;
        monocle_loop m l' s1
  end.

Definition monocle (m : MonitorPtr) (s : State) : option State :=
  mon ← mons s !! m;
  vw ← m_views mon !! m_selview mon;
  monocle_loop mon (v_clients vw) s.

(** [arrangemon]; [restack] only talks to the server and to the bar. *)
Definition arrangemon (m : MonitorPtr) (s : State) : option State :=
  vw ← SELVIEW s m;
  match lt_arrange (v_lt vw) with
  | None => Some s
  | Some Tile => tile m s
  | Some Mirrortile => mirrortile m s
  | Some Monocle => monocle m s
  end.

(** [for (m = mons; m; m = m->next) f(m)] *)
Fixpoint for_mons (f : MonitorPtr → State → option State)
    (ms : list MonitorPtr) (s : State) : option State :=
  match ms with
  | [] => Some s
  | m :: ms' => s1 ← f m s; for_mons f ms' s1
  end.

Definition all_mons (s : State) : list MonitorPtr := seq 0 (length (mons s)).

Definition showhide_mon (m : MonitorPtr) (s : State) : option State :=
  vw ← SELVIEW s m; showhide (v_stack vw) s.

(** [arrange(m)]; [m = None] is the call [arrange(NULL)]. *)
Definition arrange (m : option MonitorPtr) (s : State) : option State :=
  s1 ← match m with
       | Some p => showhide_mon p s
       | None => for_mons showhide_mon (all_mons s) s
       end;
  s2 ← focus None s1;
  match m with
  | Some p => arrangemon p s2
  | None => for_mons arrangemon (all_mons s2) s2
  end.

(** *** Lookup *)

(** The innermost loop of [wintoclient] over one client list. *)
Fixpoint find_win (hp : gmap ClientPtr Client) (w : Window)
    (l : list ClientPtr) : option (option ClientPtr) :=
  match l with
  | [] => Some None
  | c :: l' =>
      cl ← hp !! c;
      if decide (w = c_win cl) then Some (Some c) else find_win hp w l'
  end.

(** The loop over [i < NUMVIEWS] of [wintoclient] on one monitor. *)
Fixpoint find_win_views (hp : gmap ClientPtr Client) (w : Window)
    (vs : list View) (ix : list nat) : option (option ClientPtr) :=
  match ix with
  | [] => Some None
  | i :: ix' =>
      vw ← vs !! i;
      r ← find_win hp w (v_clients vw);
      match r with
      | Some c => Some (Some c)
      | None => find_win_views hp w vs ix'
      end
  end.

Fixpoint find_win_mons (hp : gmap ClientPtr Client) (w : Window)
    (ms : list Monitor) : option (option ClientPtr) :=
  match ms with
  | [] => Some None
  | m :: ms' =>
      r ← find_win_views hp w (m_views m) (seq 0 NUMVIEWS);
      match r with
      | Some c => Some (Some c)
      | None => find_win_mons hp w ms'
      end
  end.

Definition wintoclient (s : State) (w : Window) : option (option ClientPtr) :=
  find_win_mons (heap s) w (mons s).

(** *** Size hints *)

(** The fields of [XSizeHints] that [updatesizehints] reads. *)
Record XSizeHints : Type := mkXSizeHints {
  sz_flags : Z;
  sz_min_width : Z; sz_min_height : Z;
  sz_max_width : Z; sz_max_height : Z;
  sz_width_inc : Z; sz_height_inc : Z;
  sz_min_aspect_x : Z; sz_min_aspect_y : Z;
  sz_max_aspect_x : Z; sz_max_aspect_y : Z;
  sz_base_width : Z; sz_base_height : Z
}.

(** Flag bits of [X11/Xutil.h]. *)
Definition PSize : Z := 8.
Definition PMinSize : Z := 16.
Definition PMaxSize : Z := 32.
Definition PResizeInc : Z := 64.
Definition PAspect : Z := 128.
Definition PBaseSize : Z := 256.
Definition XUrgencyHint : Z := 256.

Definition has_flag (flags bit : Z) : bool := negb (Z.land flags bit =? 0).

(** When [XGetWMNormalHints] fails only [flags = PSize] is defined; no
    other field is read then. *)
Definition no_size_hints : XSizeHints :=
  mkXSizeHints PSize 0 0 0 0 0 0 0 0 0 0 0 0.

(** The assignments of [updatesizehints] to the client record;
    [reply] is what [XGetWMNormalHints] returned. *)
Definition updatesizehints_client (reply : option XSizeHints) (c : Client)
    : Client :=
  let size := default no_size_hints reply in
  let fl := sz_flags size in
  let '(bsw, bsh) :=
    if has_flag fl PBaseSize then (sz_base_width size, sz_base_height size)
    else if has_flag fl PMinSize then (sz_min_width size, sz_min_height size)
    else (0, 0) in
  let '(icw, ich) :=
    if has_flag fl PResizeInc then (sz_width_inc size, sz_height_inc size)
    else (0, 0) in
  let '(mxw, mxh) :=
    if has_flag fl PMaxSize then (sz_max_width size, sz_max_height size)
    else (0, 0) in
  let '(mnw, mnh) :=
    if has_flag fl PMinSize then (sz_min_width size, sz_min_height size)
    else if has_flag fl PBaseSize then (sz_base_width size, sz_base_height size)
    else (0, 0) in
  let '(mna, mxa) :=
    if has_flag fl PAspect then
      (div32 (of_int32 (sz_min_aspect_y size)) (of_int32 (sz_min_aspect_x size)),
       div32 (of_int32 (sz_max_aspect_x size)) (of_int32 (sz_max_aspect_y size)))
    else (of_int32 0, of_int32 0) in
  let fixed :=
    negb (mxw =? 0) && negb (mnw =? 0) && negb (mxh =? 0) && negb (mnh =? 0)
    && (mxw =? mnw) && (mxh =? mnh) in
  set_c_isfixed fixed
    (set_c_hints (mkHints mna mxa bsw bsh icw ich mxw mxh mnw mnh) c).

Definition updatesizehints (c : ClientPtr) (reply : option XSizeHints)
    (s : State) : option State :=
  cl ← heap s !! c;
  Some (store c (updatesizehints_client reply cl) s).

(** [updatewmhints]; [reply] is the [flags] field of the hints that
    [XGetWMHints] returned, if any. *)
Definition updatewmhints (c : ClientPtr) (reply : option Z) (s : State)
    : option State :=
  match reply with
  | None => Some s
  | Some fl =>
      sv ← SELVIEW s (selmon s);
      if bool_decide (v_sel sv = Some c) && has_flag fl XUrgencyHint
      then Some s
      else cl ← heap s !! c;
           Some (store c (set_c_isurgent (has_flag fl XUrgencyHint) cl) s)
  end.

(** *** Managing and unmanaging windows *)

(** The fields of [XWindowAttributes] that [manage] reads. *)
Record XWindowAttributes : Type := mkXWindowAttributes {
  wa_x : Z; wa_y : Z; wa_width : Z; wa_height : Z; wa_border_width : Z
}.

(** [static Client cz]: the zero-initialised client. *)
Definition cz : Client :=
  mkClient (mkHints (S754_zero false) (S754_zero false) 0 0 0 0 0 0 0 0)
    (mkRect 0 0 0 0) (mkRect 0 0 0 0) 0 0 false false false false
    0%nat 0%nat 0.

(** The geometry block of [manage] (lines 1079-1098) on the record of
    the new client, whose [mon] is [m]. *)
Definition manage_geometry (wa : XWindowAttributes) (m : Monitor)
    (c : Client) : Client :=
  let r := mkRect (wa_x wa + m_wx m) (wa_y wa + m_wy m)
             (wa_width wa) (wa_height wa) in
  let c := set_c_oldbw (wa_border_width wa) (set_c_old r (set_c_rect r c)) in
  if (c_w c =? m_mw m) && (c_h c =? m_mh m) then
    set_c_bw 0
      (set_c_rect (mkRect (m_mx m) (m_my m) (c_w c) (c_h c))
         (set_c_isfloating true c))
  else
    let x := if c_x c + WIDTH c >? m_mx m + m_mw m
             then m_mx m + m_mw m - WIDTH c else c_x c in
    let y := if c_y c + HEIGHT c >? m_my m + m_mh m
             then m_my m + m_mh m - HEIGHT c else c_y c in
    let x := Z.max x (m_mx m) in
    (* only fix client y-offset, if the client center might cover the bar *)
    let y := Z.max y
               (if (m_by m =? 0) && (x + Z.quot (c_w c) 2 >=? m_wx m)
                   && (x + Z.quot (c_w c) 2 <? m_wx m + m_ww m)
                then bh scr else m_my m) in
    set_c_bw (borderpx cfg) (set_c_rect (mkRect x y (c_w c) (c_h c)) c).

(** [malloc]: a pointer that is not in use. *)
Definition malloc (s : State) : ClientPtr := fresh (dom (heap s)).

(** [manage(w, wa)].  [transient] is the window stored by
    [XGetTransientForHint] when it succeeds and [normal] the reply of
    [XGetWMNormalHints]. *)
Definition manage (w : Window) (wa : XWindowAttributes)
    (transient : option Window) (normal : option XSizeHints) (s : State)
    : option State :=
  let c := malloc s in
  let cl := set_c_win w cz in
  let trans := default 0 transient in
  t ← match transient with
      | Some tw => wintoclient s tw
      | None => Some None
      end;
  mp ← match t with
       | Some tp => tcl ← heap s !! tp; Some (c_mon tcl)
       | None => Some (selmon s)
       end;
  mon ← mons s !! mp;
  let cl := set_c_view (m_selview mon) (set_c_mon mp cl) in
  let cl := manage_geometry wa mon cl in
  let cl := updatesizehints_client normal cl in
  let cl :=
    if negb (c_isfloating cl) then
      let b := negb (trans =? 0) || c_isfixed cl in
      set_c_isfloating b (set_c_oldstate b cl)
    else cl in
  s ← attach c (store c cl s);
  s ← attachstack c s;
  arrange (Some mp) s.

(** [unmanage(c, destroyed)]: both values of [destroyed] differ only in
    requests to the server. *)
Definition unmanage (c : ClientPtr) (s : State) : option State :=
  cl ← heap s !! c;
  let m := c_mon cl in
  s ← detach c s;
  s ← detachstack c s;
  let s := set_heap (delete c (heap s)) s in
  s ← focus None s;
  arrange (Some m) s.

(** *** Actions *)

Definition dirtomon (dir : Z) (s : State) : option MonitorPtr :=
  _ ← mons s !! selmon s;
  if dir >? 0 then
    Some (if decide (S (selmon s) < length (mons s))%nat
          then S (selmon s) else 0%nat)
  else
    Some (if decide (selmon s = 0%nat) then pred (length (mons s))
          else pred (selmon s)).

Definition sendmon (c : ClientPtr) (m : MonitorPtr) (s : State)
    : option State :=
  cl ← heap s !! c;
  if decide (c_mon cl = m) then Some s
  else
    s ← detach c s;
    s ← detachstack c s;
    mon ← mons s !! m;
    cl ← heap s !! c;
    let s := store c (set_c_view (m_selview mon) (set_c_mon m cl)) s in
    s ← attach c s;
    s ← attachstack c s;
    s ← focus None s;
    arrange None s.

(** [tag(arg)] with [ui = arg->ui]. *)
Definition tag (ui : nat) (s : State) : option State :=
  sv ← SELVIEW s (selmon s);
  match v_sel sv with
  | None => Some s
  | Some c =>
      s ← detach c s;
      s ← detachstack c s;
      cl ← heap s !! c;
      let s := store c (set_c_view ui cl) s in
      s ← attach c s;
      s ← attachstack c s;
      arrange (Some (selmon s)) s
  end.

(** [tagmon(arg)] with [i = arg->i]. *)
Definition tagmon (i : Z) (s : State) : option State :=
  sv ← SELVIEW s (selmon s);
  match v_sel sv with
  | None => Some s
  | Some c => m ← dirtomon i s; sendmon c m s
  end.

(** [view(arg)] with [ui = arg->ui]. *)
Definition view (ui : nat) (s : State) : option State :=
  mon ← mons s !! selmon s;
  if decide (ui = m_selview mon) then Some s
  else
    arrange (Some (selmon s))
      (set_mons (alter (set_m_selview ui) (selmon s) (mons s)) s).

(** [setmfact(arg)]; [arg = None] is the null argument.  The literals
    of the two tests are [double]s, so the [float] operands are
    promoted before they are compared. *)
Definition setmfact (arg : option float) (s : State) : option State :=
  match arg with
  | None => Some s
  | Some d =>
      if ltb dm1_0 (to_double d) && ltb (to_double d) d1_0 then
        sv ← SELVIEW s (selmon s);
        if bool_decide (is_Some (lt_arrange (v_lt sv))) then
          let f := add32 d (v_mfact sv) in
          if leb d0_1 (to_double f) && leb (to_double f) d0_9 then
            mon ← mons s !! selmon s;
            arrange (Some (selmon s))
              (put_view (selmon s) (m_selview mon) (set_v_mfact f sv) s)
          else Some s
        else Some s
      else Some s
  end.

Definition togglefloating (s : State) : option State :=
  sv ← SELVIEW s (selmon s);
  match v_sel sv with
  | None => Some s
  | Some c =>
      cl ← heap s !! c;
      let cl := set_c_isfloating (negb (c_isfloating cl) || c_isfixed cl) cl in
      let s := store c cl s in
      s ← (if c_isfloating cl
           then resize c (c_x cl) (c_y cl) (c_w cl) (c_h cl) false s
           else Some s);
      arrange (Some (selmon s)) s
  end.

(** *** Event handlers *)

(** The fields of [XClientMessageEvent] that [clientmessage] reads;
    [cme_data0] and [cme_data1] are [data.l[0]] and [data.l[1]]. *)
Record XClientMessageEvent : Type := mkXClientMessageEvent {
  cme_window : Window;
  cme_message_type : Atom;
  cme_data0 : Z;
  cme_data1 : Z
}.

(** The first branch of [clientmessage] (lines 1317-1324). *)
Definition enter_fullscreen (c : ClientPtr) (s : State) : option State :=
  cl ← heap s !! c;
  let cl := set_c_oldstate (c_isfloating cl) cl in
  let cl := set_c_oldbw (c_bw cl) cl in
  let cl := set_c_bw 0 cl in
  let cl := set_c_isfloating true cl in
  m ← mons s !! c_mon cl;
  resizeclient c (m_mx m) (m_my m) (m_mw m) (m_mh m) (store c cl s).

(** The assignments of the second branch (lines 1329-1334), up to the
    call of [resizeclient]. *)
Definition restore_fields (cl : Client) : Client :=
  let cl := set_c_isfloating (c_oldstate cl) cl in
  let cl := set_c_bw (c_oldbw cl) cl in
  set_c_rect (c_old cl) cl.

(** The second branch without its last statement, [arrange(c->mon)]. *)
Definition leave_fullscreen (c : ClientPtr) (s : State) : option State :=
  cl ← heap s !! c;
  let cl := restore_fields cl in
  resizeclient c (c_x cl) (c_y cl) (c_w cl) (c_h cl) (store c cl s).

Definition clientmessage (cme : XClientMessageEvent) (s : State)
    : option State :=
  r ← wintoclient s (cme_window cme);
  match r with
  | Some c =>
      if bool_decide (cme_message_type cme = NetWMState scr)
         && bool_decide (cme_data1 cme = NetWMFullscreen scr)
      then
        if negb (cme_data0 cme =? 0) then enter_fullscreen c s
        else
          s ← leave_fullscreen c s;
          cl ← heap s !! c;
          arrange (Some (c_mon cl)) s
      else Some s
  | None => Some s
  end.

(** Predefined atoms of [X11/Xatom.h] and [PropertyDelete] of [X11/X.h]. *)
Definition XA_WM_HINTS : Atom := 35.
Definition XA_WM_NAME : Atom := 39.
Definition XA_WM_NORMAL_HINTS : Atom := 40.
Definition XA_WM_TRANSIENT_FOR : Atom := 68.
Definition PropertyDelete : Z := 1.

Record XPropertyEvent : Type := mkXPropertyEvent {
  pe_window : Window;
  pe_atom : Atom;
  pe_state : Z
}.

(** What the server answers when [propertynotify] asks for the
    property that changed. *)
Record PropertyReply : Type := mkPropertyReply {
  pr_transient : Window;
  pr_normal : option XSizeHints;
  pr_wmhints : option Z
}.

(** [propertynotify]; the refresh of the status text and of the title
    only reaches the bar. *)
Definition propertynotify (ev : XPropertyEvent) (rp : PropertyReply)
    (s : State) : option State :=
  if bool_decide (pe_window ev = root scr)
     && bool_decide (pe_atom ev = XA_WM_NAME)
  then Some s
  else if bool_decide (pe_state ev = PropertyDelete) then Some s
  else
    r ← wintoclient s (pe_window ev);
    match r with
    | None => Some s
    | Some c =>
        if bool_decide (pe_atom ev = XA_WM_TRANSIENT_FOR) then
          cl ← heap s !! c;
          if negb (c_isfloating cl) then
            t ← wintoclient s (pr_transient rp);
            let s := store c (set_c_isfloating (bool_decide (is_Some t)) cl) s in
            if bool_decide (is_Some t) then arrange (Some (c_mon cl)) s
            else Some s
          else Some s
        else if bool_decide (pe_atom ev = XA_WM_NORMAL_HINTS) then
          updatesizehints c (pr_normal rp) s
        else if bool_decide (pe_atom ev = XA_WM_HINTS) then
          updatewmhints c (pr_wmhints rp) s
        else Some s
    end.

(** *** Monitors *)

(** [createmon].  [malloc] leaves the other fields of the monitor and
    the list heads of its views undefined; they read as zero and null
    here, and [updategeom] assigns the geometry before any use. *)
Definition createmon : Monitor :=
  mkMonitor 0 0 0 0 0 0 0 0 0 0 (showbar cfg) (topbar cfg) 0 0%nat
    (replicate NUMVIEWS (mkView (mfact cfg) [] None [] (layouts0 cfg))).

(** *** The bar *)

Inductive Square : Type := FilledSquare | EmptySquare.

(** What [drawsquare(filled, empty, invert, col)] paints. *)
Definition drawsquare (filled empty : bool) : option Square :=
  if filled then Some FilledSquare
  else if empty then Some EmptySquare
  else None.

Fixpoint hasurgentclient (hp : gmap ClientPtr Client) (l : list ClientPtr)
    : option bool :=
  match l with
  | [] => Some false
  | c :: l' =>
      cl ← hp !! c;
      if c_isurgent cl then Some true else hasurgentclient hp l'
  end.

(** One tag label of the bar: whether it uses the colours of the
    selected view, whether they are inverted, and its square. *)
Record TagLabel : Type := mkTagLabel {
  tl_selected : bool;
  tl_invert : bool;
  tl_square : option Square
}.

(** The body of the loop over the tags in [drawbar] (lines 651-659). *)
Definition drawbar_tag (s : State) (m : MonitorPtr) (mon : Monitor)
    (i : nat) : option TagLabel :=
  vw ← m_views mon !! i;
  let occ := bool_decide (v_clients vw = []) in
  urg ← hasurgentclient (heap s) (v_clients vw);
  Some (mkTagLabel (bool_decide (i = m_selview mon)) urg
          (drawsquare (bool_decide (m = selmon s)
                       && bool_decide (is_Some (v_sel vw))
                       && bool_decide (i = m_selview mon))
                      occ)).

(** The tag labels that [drawbar(m)] draws, left to right. *)
Definition drawbar_tags (m : MonitorPtr) (s : State)
    : option (list TagLabel) :=
  mon ← mons s !! m;
  mapM (drawbar_tag s m mon) (seq 0 NUMVIEWS).

(** *** Bar position, pointer and further actions *)

(** [updatebarpos(m)]: the window area and the bar share the height of
    the screen of the monitor. *)
Definition updatebarpos (m : Monitor) : Monitor :=
  let wy := m_my m in
  let wh := m_mh m in
  if m_showbar m then
    let wh := wh - bh scr in
    let by' := if m_topbar m then wy else wy + wh in
    let wy := if m_topbar m then wy + bh scr else wy in
    mkMonitor (m_num m) by' (m_mx m) (m_my m) (m_mw m) (m_mh m)
      (m_wx m) wy (m_ww m) wh (m_showbar m) (m_topbar m)
      (m_barwin m) (m_selview m) (m_views m)
  else
    mkMonitor (m_num m) (- bh scr) (m_mx m) (m_my m) (m_mw m) (m_mh m)
      (m_wx m) wy (m_ww m) wh (m_showbar m) (m_topbar m)
      (m_barwin m) (m_selview m) (m_views m).

Definition set_m_showbar (b : bool) (m : Monitor) : Monitor :=
  mkMonitor (m_num m) (m_by m) (m_mx m) (m_my m) (m_mw m) (m_mh m)
    (m_wx m) (m_wy m) (m_ww m) (m_wh m) b (m_topbar m)
    (m_barwin m) (m_selview m) (m_views m).

(** [togglebar(arg)]; moving the bar window is a request to the server. *)
Definition togglebar (s : State) : option State :=
  mon ← mons s !! selmon s;
  let mon := updatebarpos (set_m_showbar (negb (m_showbar mon)) mon) in
  arrange (Some (selmon s)) (set_mons (<[selmon s := mon]> (mons s)) s).

(** [INRECT(X,Y,RX,RY,RW,RH)] *)
Definition INRECT (x y rx ry rw rh : Z) : bool :=
  (x >=? rx) && (x <? rx + rw) && (y >=? ry) && (y <? ry + rh).

(** [ptrtomon(x, y)]: the first monitor whose window area holds the
    point, [selmon] when there is none. *)
Definition ptrtomon (x y : Z) (s : State) : MonitorPtr :=
  match list_find
          (λ m, INRECT x y (m_wx m) (m_wy m) (m_ww m) (m_wh m) = true)
          (mons s) with
  | Some (i, _) => i
  | None => selmon s
  end.

(** [focusmon(arg)] with [i = arg->i]. *)
Definition focusmon (i : Z) (s : State) : option State :=
  m ← dirtomon i s;
  if decide (m = selmon s) then Some s
  else
    sv ← SELVIEW s (selmon s);
    s ← unfocus (v_sel sv) s;
    focus None (set_selmon m s).

(** [zoom(arg)].  [target] is the pointer [c] that reaches [detach]:
    [None] is the early [return], [Some None] the null pointer. *)
Definition zoom (s : State) : option State :=
  sv ← SELVIEW s (selmon s);
  if match lt_arrange (v_lt sv) with
     | Some Tile | Some Mirrortile => true
     | Some Monocle | None => false
     end then
    fl ← match v_sel sv with
         | Some c => c_isfloating <$> heap s !! c
         | None => Some false
         end;
    if negb fl then
      target ← match v_sel sv
                     return option (option (option ClientPtr)) with
               | None => Some (Some None)
               | Some c =>
                   nt ← nexttiled (heap s) (v_clients sv);
                   if bool_decide (head nt = Some c) then
                     nt' ← nexttiled (heap s) (tail nt);
                     match nt' with
                     | [] => Some None
                     | d :: _ => Some (Some (Some d))
                     end
                   else Some (Some (Some c))
               end;
      match target with
      | None => Some s
      | Some None => None
      | Some (Some c) =>
          s ← detach c s;
          s ← attach c s;
          s ← focus (Some c) s;
          cl ← heap s !! c;
          arrange (Some (c_mon cl)) s
      end
    else Some s
  else Some s.

(** The clients linked behind [c] in a client list ([c->next] and its
    successors), if [c] is in the list. *)
Fixpoint after (c : ClientPtr) (l : list ClientPtr)
    : option (list ClientPtr) :=
  match l with
  | [] => None
  | d :: l' => if decide (d = c) then Some l' else after c l'
  end.

(** The walk [for (i = clients; i != sel; i = i->next) c = i] of
    [focusstack]: the client visited last before [sel]; a walk that
    does not meet [sel] reads the link of the null pointer. *)
Fixpoint walk_to (sel : ClientPtr) (l : list ClientPtr)
    (c : option ClientPtr) : option (option ClientPtr) :=
  match l with
  | [] => None
  | d :: l' => if decide (d = sel) then Some c else walk_to sel l' (Some d)
  end.

(** [focusstack(arg)] with [i = arg->i]; [restack] only talks to the
    server. *)
Definition focusstack (i : Z) (s : State) : option State :=
  sv ← SELVIEW s (selmon s);
  match v_sel sv with
  | None => Some s
  | Some p =>
      c ← (if i >? 0 then
             pl ← heap s !! p;
             pv ← get_view s (c_mon pl) (c_view pl);
             nx ← after p (v_clients pv);
             Some (match nx with
                   | d :: _ => Some d
                   | [] => head (v_clients sv)
                   end)
           else
             c ← walk_to p (v_clients sv) None;
             match c with
             | Some d => Some (Some d)
             | None => nx ← after p (v_clients sv); Some (last (p :: nx))
             end);
      match c with
      | Some d => focus (Some d) s
      | None => Some s
      end
  end.

(** [maprequest]: [wa] is what [XGetWindowAttributes] stored, if it
    succeeded, with its [override_redirect] field. *)
Definition maprequest (w : Window) (wa : option (XWindowAttributes * bool))
    (transient : option Window) (normal : option XSizeHints) (s : State)
    : option State :=
  match wa with
  | None => Some s
  | Some (wa, override_redirect) =>
      if override_redirect then Some s
      else
        r ← wintoclient s w;
        match r with
        | Some _ => Some s
        | None => manage w wa transient normal s
        end
  end.


(** *** Program start *)

Inductive Stream : Type := Stdout | Stderr.

(** How the argument check at the head of [main] ends: the process
    exits after writing [text], or goes on to open the display. *)
Inductive Outcome : Type :=
| Exited (out : Stream) (text : string) (status : Z)
| Started.

Definition EXIT_FAILURE : Z := 1.

(** [die]: the message goes to [stderr], the status is [EXIT_FAILURE]. *)
Definition die (errstr : string) : Outcome :=
  Exited Stderr errstr EXIT_FAILURE.

Definition version_text : string :=
  "dwm-" ++ VERSION cfg
    ++ ", © 2006-2010 dwm engineers, see LICENSE for details"
    ++ String (Ascii.ascii_of_nat 10) EmptyString.

Definition usage_text : string :=
  "usage: dwm [-v]" ++ String (Ascii.ascii_of_nat 10) EmptyString.

(** [main], up to the call of [setlocale]; [argv] holds the program
    name and its arguments, so that [argc = length argv]. *)
Definition main (argv : list string) : Outcome :=
  if bool_decide (length argv = 2%nat)
     && bool_decide (argv !! 1%nat = Some "-v"%string)
  then die version_text
  else if negb (bool_decide (length argv = 1%nat)) then die usage_text
  else Started.

End Dwm.

(** ** A concrete screen

    One 1920x1080 monitor with the bar on top: [mfact = 0.55],
    [borderpx = 1], [bh = 14], hence the window area [wx = 0], [wy = 14],
    [ww = 1920], [wh = 1066].  Size hints are not applied to tiled
    clients and [tile] is the first layout. *)

Module Scenario.

Definition lt_tile : Layout := mkLayout "[]=" (Some Tile).
Definition lt_floating : Layout := mkLayout "><>" None.

Definition cfg : Config :=
  mkConfig 1 (lit32 55 100) false true true lt_tile "5.8.2".

Definition scr : Screen := mkScreen 1920 1080 14 1 300 301 302.

Definition mon0 : Monitor :=
  mkMonitor 0 0 0 0 1920 1080 0 14 1920 1066 true true 2 0%nat
    (m_views (createmon cfg)).

(** A second monitor to the right of the first. *)
Definition mon1 : Monitor :=
  mkMonitor 1 0 1920 0 1920 1080 1920 14 1920 1066 true true 3 0%nat
    (m_views (createmon cfg)).

Definition empty1 : State := mkState [mon0] 0%nat ∅.
Definition empty2 : State := mkState [mon0; mon1] 0%nat ∅.

(** Two ordinary windows and the replies of the server about them. *)
Definition W1 : Window := 101.
Definition W2 : Window := 102.
Definition wa_small : XWindowAttributes := mkXWindowAttributes 0 0 800 600 0.

(** A window that asks for the whole screen. *)
Definition wa_full : XWindowAttributes := mkXWindowAttributes 0 0 1920 1080 0.

Definition map_window (w : Window) (s : State) : option State :=
  manage cfg scr w wa_small None None s.

(** The client record that belongs to a window. *)
Definition client_of (w : Window) (s : State) : option Client :=
  r ← wintoclient s w; c ← r; heap s !! c.

Definition rect_of (w : Window) (s : State) : option Rect :=
  c_rect <$> client_of w s.

(** [W1] is mapped, then [W2]. *)
Definition two_tiled : option State :=
  map_window W1 empty1 ≫= map_window W2.

Definition two_tiled_state : State := default empty1 two_tiled.

(** The parts of a state that the statements below name. *)
Definition monitor_at (m : MonitorPtr) (s : State) : Monitor :=
  default mon0 (mons s !! m).
Definition selview_at (m : MonitorPtr) (s : State) : View :=
  default (mkView (mfact cfg) [] None [] lt_tile) (SELVIEW s m).
Definition client_at (c : ClientPtr) (s : State) : Client :=
  default cz (heap s !! c).

(** A screen that is only 44 pixels high, so that the window area
    below the bar is 30 pixels high, with three windows mapped on it. *)
Definition scr_low : Screen := mkScreen 1920 44 14 1 300 301 302.

Definition mon_low : Monitor :=
  mkMonitor 0 0 0 0 1920 44 0 14 1920 30 true true 2 0%nat
    (m_views (createmon cfg)).

Definition W3 : Window := 103.

Definition three_low : option State :=
  s ← manage cfg scr_low W1 wa_small None None (mkState [mon_low] 0%nat ∅);
  s ← manage cfg scr_low W2 wa_small None None s;
  manage cfg scr_low W3 wa_small None None s.

Definition three_low_state : State := default empty1 three_low.

End Scenario.

(** * Properties *)

(** ** Program start *)

(** C9: [main] answers [-v] through [die], so the version text is
    written to [stderr] and the exit status is [EXIT_FAILURE], not
    standard output and status 0. *)
Theorem main_version_exit (c : Config) :
  main c ["dwm"; "-v"]%string = Exited Stderr (version_text c) EXIT_FAILURE
  ∧ EXIT_FAILURE ≠ 0.
Proof. split; [reflexivity | discriminate]. Qed.

(** Every other argument list that is not just the program name ends in
    the usage message on [stderr] with a non-zero status. *)
Lemma main_usage (c : Config) (argv : list string) :
  length argv ≠ 1%nat →
  ¬ (length argv = 2%nat ∧ argv !! 1%nat = Some "-v"%string) →
  main c argv = Exited Stderr usage_text EXIT_FAILURE.
Proof.
  intros H1 H2. unfold main.
  destruct (bool_decide (length argv = 2%nat)) eqn:E2;
    destruct (bool_decide (argv !! 1%nat = Some "-v"%string)) eqn:Ev; simpl.
  - apply bool_decide_eq_true in E2, Ev. tauto.
  - rewrite bool_decide_eq_false_2 by assumption. reflexivity.
  - rewrite bool_decide_eq_false_2 by assumption. reflexivity.
  - rewrite bool_decide_eq_false_2 by assumption. reflexivity.
Qed.

(** Without arguments the window manager starts. *)
Lemma main_no_argument (c : Config) (prog : string) : main c [prog] = Started.
Proof. reflexivity. Qed.

(** ** The tag squares of the bar *)

Module BarExample.
Import Scenario.

(** [W1] is mapped on the first view, then the second view is selected. *)
Definition second_view : option State :=
  map_window W1 empty1 ≫= view cfg scr 1%nat.

Definition squares (s : State) : option (list (option Square)) :=
  map tl_square <$> drawbar_tags 0%nat s.

End BarExample.

(** [drawsquare] paints the empty square exactly when it is asked for
    an empty one and not for a filled one. *)
Lemma drawsquare_empty (filled empty : bool) :
  drawsquare filled empty = Some EmptySquare ↔ filled = false ∧ empty = true.
Proof. destruct filled, empty; simpl; split; intros; intuition congruence. Qed.

(** In [drawbar] the flag handed to [drawsquare] as [empty] is
    [NULL == m->views[i].clients]: a tag whose square is not the filled
    one carries the empty square exactly when its view has no client. *)
Lemma drawbar_tag_empty_square (s : State) (m : MonitorPtr) (mon : Monitor)
    (i : nat) (vw : View) (lbl : TagLabel) :
  m_views mon !! i = Some vw →
  drawbar_tag s m mon i = Some lbl →
  tl_square lbl ≠ Some FilledSquare →
  (tl_square lbl = Some EmptySquare ↔ v_clients vw = []).
Proof.
  intros Hv Hd Hf. unfold drawbar_tag in Hd. rewrite Hv in Hd. simpl in Hd.
  destruct (hasurgentclient (heap s) (v_clients vw)) as [urg|]; [|discriminate].
  simpl in Hd. injection Hd as <-. simpl in *.
  rewrite drawsquare_empty. unfold drawsquare in Hf.
  destruct (bool_decide (m = selmon s) && bool_decide (is_Some (v_sel vw))
            && bool_decide (i = m_selview mon)); [congruence|].
  rewrite bool_decide_eq_true. tauto.
Qed.

(** C8: with one client on the first view and the second view
    selected, the bar shows no square on the first tag, the only one
    whose view has a client, and the empty square on the eight tags
    whose views have none. *)
Theorem drawbar_squares_inverted :
  (BarExample.second_view ≫= λ s, map v_clients <$> (m_views <$> mons s !! 0%nat))
    = Some [[0%nat]; []; []; []; []; []; []; []; []]
  ∧ (BarExample.second_view ≫= BarExample.squares)
    = Some [None; Some EmptySquare; Some EmptySquare; Some EmptySquare;
            Some EmptySquare; Some EmptySquare; Some EmptySquare;
            Some EmptySquare; Some EmptySquare].
Proof. split; vm_compute; reflexivity. Qed.

(** ** The aspect step of [applysizehints] *)

(** ** Conversions and quotients of integers are numbers *)

(** [SpecFloat] rounds with shifts of the mantissa; the lemmas below
    follow the number of binary digits through these shifts. *)


Section Digits.













Variable prec emax : Z.
Hypothesis Hprec : 0 < prec.




End Digits.









Module AspectExample.

(** A window that may be between twice and three times as wide as it is
    high: [min_aspect = 2/1] gives [mina = 1/2], [max_aspect = 3/1]
    gives [maxa = 3]. *)
Definition wide : Hints :=
  mkHints (div32 (of_int32 1) (of_int32 2)) (div32 (of_int32 3) (of_int32 1))
    0 0 0 0 0 0 0 0.

End AspectExample.





(** A 0x0 rectangle is left alone too, but its quotient [0/0] is NaN
    and no comparison with it holds. *)
Example aspect_zero_by_zero :
  aspect AspectExample.wide 0 0 = (0, 0)
  ∧ leb (div32 (of_int32 0) (of_int32 0)) (maxa AspectExample.wide) = false
  ∧ leb (div32 (of_int32 0) (of_int32 0)) (mina AspectExample.wide) = false.
Proof. vm_compute. repeat split. Qed.

(** The conversion to [int] discards the fraction, which is rounding to
    the nearest integer for positive products only: with [maxa = 0.6]
    the -9x-3 rectangle gets the width [(int)(-1.8 + 0.5) = -1], and
    90x30 gets [(int)(18 + 0.5) = 18]. *)
Example aspect_truncates :
  let hn := mkHints (lit32 1 2) (lit32 6 10) 0 0 0 0 0 0 0 0 in
  aspect hn (-9) (-3) = (-1, -3) ∧ aspect hn 90 30 = (18, 30).
Proof. vm_compute. repeat split. Qed.


(** ** What resizing changes *)

(** A client record without its rectangles and its urgency flag: the
    part that no arranger and no focus change touches. *)
Definition forget (c : Client) : Client :=
  set_c_isurgent false
    (set_c_old (mkRect 0 0 0 0) (set_c_rect (mkRect 0 0 0 0) c)).

Definition same_attrs (a b : Client) : Prop := forget a = forget b.

Lemma same_attrs_refl (a : Client) : same_attrs a a.
Proof. reflexivity. Qed.

Lemma same_attrs_trans (a b c : Client) :
  same_attrs a b → same_attrs b c → same_attrs a c.
Proof. unfold same_attrs. congruence. Qed.

Lemma same_attrs_sym (a b : Client) : same_attrs a b → same_attrs b a.
Proof. unfold same_attrs. congruence. Qed.

Lemma same_attrs_fields (a b : Client) :
  same_attrs a b →
  c_hints a = c_hints b ∧ c_bw a = c_bw b ∧ c_oldbw a = c_oldbw b
  ∧ c_isfixed a = c_isfixed b ∧ c_isfloating a = c_isfloating b
  ∧ c_oldstate a = c_oldstate b ∧ c_mon a = c_mon b
  ∧ c_view a = c_view b ∧ c_win a = c_win b.
Proof.
  unfold same_attrs, forget, set_c_isurgent, set_c_old, set_c_rect. simpl.
  intros H. injection H. intros. repeat split; assumption.
Qed.

Lemma same_attrs_rect (r o : Rect) (a : Client) :
  same_attrs a (set_c_rect r (set_c_old o a)).
Proof. reflexivity. Qed.

Lemma same_attrs_urgent (b : bool) (a : Client) :
  same_attrs a (set_c_isurgent b a).
Proof. reflexivity. Qed.

Create HintDb dwm.
#[local] Hint Resolve same_attrs_refl same_attrs_rect same_attrs_urgent : dwm.

Ltac attrs H :=
  let F := fresh "F" in
  pose proof (same_attrs_fields _ _ H) as F;
  destruct F as (? & ? & ? & ? & ? & ? & ? & ? & ?).

Section Resize.

Variable cfg : Config.
Variable scr : Screen.

Lemma rect_eta (r : Rect) : mkRect (r_x r) (r_y r) (r_w r) (r_h r) = r.
Proof. destruct r; reflexivity. Qed.

(** When [applysizehints] reports no change the client already has the
    rectangle it returns. *)
Lemma applysizehints_unchanged (cl : Client) (m : Monitor) (x y w h : Z)
    (i : bool) (r : Rect) :
  applysizehints cfg scr cl m x y w h i = (false, r) → c_rect cl = r.
Proof.
  unfold applysizehints.
  destruct (if resizehints cfg || c_isfloating cl then _ else _) as [w' h'].
  intros H. injection H as H <-.
  repeat (apply orb_false_elim in H; destruct H as [H ?]).
  repeat match goal with
         | H : negb _ = false |- _ =>
             apply negb_false_iff, Z.eqb_eq in H
         end.
  unfold c_x, c_y, c_w, c_h in *. destruct (c_rect cl); simpl in *. congruence.
Qed.

(** [resize] succeeds on a live client of a live monitor; afterwards
    the client has the rectangle computed by [applysizehints] and
    nothing else in the state has changed but its saved rectangle. *)
Lemma resize_spec (c : ClientPtr) (x y w h : Z) (i : bool) (s : State)
    (cl : Client) (m : Monitor) :
  heap s !! c = Some cl →
  mons s !! c_mon cl = Some m →
  ∃ s' cl',
    resize cfg scr c x y w h i s = Some s'
    ∧ mons s' = mons s ∧ selmon s' = selmon s
    ∧ heap s' = <[c := cl']> (heap s)
    ∧ c_rect cl' = (applysizehints cfg scr cl m x y w h i).2
    ∧ same_attrs cl cl'.
Proof.
  intros Hc Hm. unfold resize. rewrite Hc. simpl. rewrite Hm. simpl.
  destruct (applysizehints cfg scr cl m x y w h i) as [[|] r] eqn:E.
  - unfold resizeclient. rewrite Hc. simpl.
    eexists _, _. split; [reflexivity|]. simpl.
    rewrite rect_eta. repeat split; auto with dwm.
  - exists s, cl. apply applysizehints_unchanged in E.
    repeat split; auto with dwm. now rewrite insert_id.
Qed.

(** The same in the other direction. *)
Lemma resize_inv (c : ClientPtr) (x y w h : Z) (i : bool) (s s' : State) :
  resize cfg scr c x y w h i s = Some s' →
  ∃ cl m cl',
    heap s !! c = Some cl ∧ mons s !! c_mon cl = Some m
    ∧ mons s' = mons s ∧ selmon s' = selmon s
    ∧ heap s' = <[c := cl']> (heap s)
    ∧ c_rect cl' = (applysizehints cfg scr cl m x y w h i).2
    ∧ same_attrs cl cl'.
Proof.
  intros H.
  destruct (heap s !! c) as [cl|] eqn:Hc;
    [|unfold resize in H; rewrite Hc in H; discriminate].
  destruct (mons s !! c_mon cl) as [m|] eqn:Hm;
    [|unfold resize in H; rewrite Hc in H; simpl in H; rewrite Hm in H;
      discriminate].
  destruct (resize_spec c x y w h i s cl m Hc Hm) as (s1 & cl' & E & ?).
  rewrite E in H. injection H as <-. exists cl, m, cl'. tauto.
Qed.

(** The rectangle asked for is the rectangle set when size hints are
    not applied and no bound of [applysizehints] is hit. *)
Lemma applysizehints_plain (cl : Client) (m : Monitor) (x y w h : Z) :
  resizehints cfg = false → c_isfloating cl = false →
  1 <= w → 1 <= h → bh scr <= w → bh scr <= h →
  x <= m_mx m + m_mw m → y <= m_my m + m_mh m →
  m_mx m <= x + w + 2 * c_bw cl → m_my m <= y + h + 2 * c_bw cl →
  (applysizehints cfg scr cl m x y w h false).2 = mkRect x y w h.
Proof.
  intros Hr Hf Hw Hh Hbw Hbh Hx Hy Hx' Hy'.
  unfold applysizehints. rewrite Hr, Hf. simpl.
  rewrite !Z.max_r by lia.
  repeat match goal with
         | |- context [?a >? ?b] => destruct (Z.gtb_spec a b); [lia|]
         | |- context [?a <? ?b] => destruct (Z.ltb_spec a b); [lia|]
         end.
  reflexivity.
Qed.

End Resize.

(** ** The [tile] arranger *)

(** The height, borders included, that the tiled clients of [l] take
    together. *)
Fixpoint stack_height (hp : gmap ClientPtr Client) (l : list ClientPtr) : Z :=
  match l with
  | [] => 0
  | c :: l' =>
      match hp !! c with
      | Some cl =>
          if c_isfloating cl then stack_height hp l'
          else HEIGHT cl + stack_height hp l'
      | None => stack_height hp l'
      end
  end.

(** The tiled clients of [l], in order. *)
Definition tiled (hp : gmap ClientPtr Client) (l : list ClientPtr)
    : list ClientPtr :=
  filter (λ c, c_isfloating <$> hp !! c = Some false) l.

Lemma count_tiled_ext (hp hp' : gmap ClientPtr Client) (l : list ClientPtr) :
  (∀ c, c ∈ l → hp' !! c = hp !! c) → count_tiled hp' l = count_tiled hp l.
Proof.
  induction l as [|c l IH]; intros H; simpl; [reflexivity|].
  rewrite (H c) by (left; reflexivity).
  rewrite IH; [reflexivity|]. intros d Hd. apply H. now right.
Qed.

Lemma stack_height_ext (hp hp' : gmap ClientPtr Client) (l : list ClientPtr) :
  (∀ c, c ∈ l → hp' !! c = hp !! c) → stack_height hp' l = stack_height hp l.
Proof.
  induction l as [|c l IH]; intros H; simpl; [reflexivity|].
  rewrite (H c) by (left; reflexivity).
  rewrite IH; [reflexivity|]. intros d Hd. apply H. now right.
Qed.

Lemma count_tiled_nonneg (hp : gmap ClientPtr Client) (l : list ClientPtr)
    (k : Z) :
  count_tiled hp l = Some k → 0 <= k.
Proof.
  revert k. induction l as [|c l IH]; simpl; intros k H.
  - injection H as <-. lia.
  - destruct (hp !! c) as [cl|]; [|discriminate]. simpl in H.
    destruct (count_tiled hp l) as [n|]; [|discriminate]. simpl in H.
    specialize (IH n eq_refl). injection H as <-.
    destruct (c_isfloating cl); lia.
Qed.

Section Tile.

Variable cfg : Config.
Variable scr : Screen.

(** The rows of the stack: started with [k] tiled clients left, [rh]
    spare pixels and the room [k * h + max rh 0] below [y], the loop
    gives every tiled client the column [x], [w] and fills the room. *)
Lemma tile_stack_spec (mp : MonitorPtr) (m : Monitor) (n x w h : Z) :
  resizehints cfg = false →
  m_mx m <= x <= m_mx m + m_mw m →
  m_wy m + m_wh m <= m_my m + m_mh m →
  ∀ (l : list ClientPtr) (i y rh k : Z) (s : State),
    mons s !! mp = Some m →
    NoDup l →
    (∀ c, c ∈ l → ∃ cl,
        heap s !! c = Some cl ∧ c_mon cl = mp
        ∧ (c_isfloating cl = false →
           0 <= c_bw cl ∧ Z.max 1 (bh scr) <= w - 2 * c_bw cl
           ∧ Z.max 1 (bh scr) <= h - 2 * c_bw cl)) →
    count_tiled (heap s) l = Some k →
    i + k = n →
    rh <= k - 1 →
    m_my m <= y →
    (0 < k → m_wy m + m_wh m - y = k * h + Z.max rh 0) →
    (h ≠ m_wh m ∨ k <= 1) →
    ∃ s',
      tile_stack cfg scr m n x w h l i y rh s = Some s'
      ∧ mons s' = mons s ∧ selmon s' = selmon s
      ∧ (∀ d, d ∉ l → heap s' !! d = heap s !! d)
      ∧ (∀ c, c ∈ l → ∃ cl cl',
            heap s !! c = Some cl ∧ heap s' !! c = Some cl'
            ∧ same_attrs cl cl'
            ∧ (c_isfloating cl = false → c_x cl' = x ∧ WIDTH cl' = w))
      ∧ stack_height (heap s') l
        = (if 0 <? k then m_wy m + m_wh m - y else 0).
Proof.
  intros Hr Hx Hwy.
  induction l as [|c l IH]; intros i y rh k s Hm Hnd Hl Hk Hik Hrh Hy Hroom Hh.
  - simpl in *. injection Hk as <-. exists s. repeat split; auto.
    intros c Hc. inversion Hc.
  - apply NoDup_cons in Hnd as [Hcl Hnd].
    destruct (Hl c) as (cl & Hc & Hmon & Hcl'); [left; reflexivity|].
    simpl in Hk. rewrite Hc in Hk. simpl in Hk.
    destruct (count_tiled (heap s) l) as [k'|] eqn:Hk'; [|discriminate].
    simpl in Hk. injection Hk as Hk.
    pose proof (count_tiled_nonneg _ _ _ Hk') as Hk0.
    simpl. rewrite Hc. simpl.
    destruct (c_isfloating cl) eqn:Hf.
    + (* stepped over by nexttiled *)
      subst k'.
      destruct (IH i y rh k s) as (s' & E & Hm' & Hs' & Hout & Hin & Hsum);
        auto.
      { intros d Hd. apply Hl. now right. }
      exists s'. repeat split; auto.
      * intros d Hd. apply Hout. intros ?. apply Hd. now right.
      * intros d Hd. apply elem_of_cons in Hd as [->|Hd]; [|auto].
        exists cl, cl. rewrite Hout by assumption.
        repeat split; auto with dwm; congruence.
      * rewrite Hout by assumption. rewrite Hc, Hf. exact Hsum.
    + (* a row *)
      destruct (Hcl' eq_refl) as (Hbw & Hw & Hhh).
      assert (Hk1 : 0 < k) by lia.
      specialize (Hroom Hk1).
      set (hh := (if i + 1 =? n then m_wy m + m_wh m - y - 2 * c_bw cl
                  else h - 2 * c_bw cl) + (if 0 <? rh then 1 else 0)).
      assert (Hhh' : Z.max 1 (bh scr) <= hh
                     ∧ hh + 2 * c_bw cl
                       = (if k' =? 0 then m_wy m + m_wh m - y
                          else h + (if 0 <? rh then 1 else 0))).
      { unfold hh.
        destruct (Z.eqb_spec (i + 1) n), (Z.eqb_spec k' 0),
          (Z.ltb_spec 0 rh); lia. }
      destruct Hhh' as [Hlim Hheight].
      assert (Hm0 : mons s !! c_mon cl = Some m) by now rewrite Hmon.
      destruct (resize_spec cfg scr c x y (w - 2 * c_bw cl) hh false s cl m
                  Hc Hm0) as (s1 & cl1 & E1 & Hm1 & Hs1 & Hh1 & Hr1 & Ha1).
      rewrite applysizehints_plain in Hr1; try assumption; try lia.
      2:{ assert (0 <= k * h + Z.max rh 0) by nia. lia. }
      fold hh. rewrite E1. simpl.
      assert (Hc1 : heap s1 !! c = Some cl1)
        by (rewrite Hh1; apply lookup_insert_eq).
      rewrite Hc1. simpl.
      attrs Ha1.
      assert (Hgeo : c_x cl1 = x ∧ c_y cl1 = y ∧ c_w cl1 = w - 2 * c_bw cl
                     ∧ c_h cl1 = hh)
        by (unfold c_x, c_y, c_w, c_h; rewrite Hr1; simpl; auto).
      destruct Hgeo as (Hx1 & Hy1 & Hw1 & Hh1').
      assert (Hother : ∀ d, d ≠ c → heap s1 !! d = heap s !! d)
        by (intros d Hd; rewrite Hh1; now apply lookup_insert_ne).
      set (y' := if negb (h =? m_wh m) then c_y cl1 + HEIGHT cl1 else y).
      destruct (IH (i + 1) y' (rh - 1) k' s1)
        as (s' & E & Hm' & Hs' & Hout & Hin & Hsum); auto.
      { now rewrite Hm1. }
      { intros d Hd. destruct (Hl d) as (dl & ? & ?); [now right|].
        exists dl. rewrite Hother by (intros ->; contradiction). auto. }
      { rewrite <- Hk'. apply count_tiled_ext. intros d Hd.
        apply Hother. intros ->. contradiction. }
      { lia. }
      { lia. }
      { unfold y'. destruct (negb (h =? m_wh m)); [|assumption].
        unfold HEIGHT. rewrite Hy1, Hh1'. lia. }
      { intros Hk2. unfold y'.
        destruct Hh as [Hh|Hh]; [|lia].
        destruct (Z.eqb_spec h (m_wh m)) as [|_]; [contradiction|]. simpl.
        unfold HEIGHT. rewrite Hy1, Hh1'.
        replace (c_bw cl1) with (c_bw cl) by assumption.
        rewrite Hheight. destruct (Z.eqb_spec k' 0); [lia|].
        destruct (Z.ltb_spec 0 rh); lia. }
      { destruct Hh as [Hh|Hh]; [now left|]. right. lia. }
      exists s'. repeat split; auto; try congruence.
      * intros d Hd. rewrite Hout by (intros ?; apply Hd; now right).
        apply Hother. intros ->. apply Hd. now left.
      * intros d Hd. apply elem_of_cons in Hd as [->|Hd].
        -- exists cl, cl1. rewrite Hout by assumption.
           repeat split; auto. unfold WIDTH. rewrite Hw1.
           replace (c_bw cl1) with (c_bw cl) by assumption. lia.
        -- destruct (Hin d Hd) as (dl & dl' & Hd1 & Hd2 & Hd3).
           exists dl, dl'. rewrite <- (Hother d) by (intros ->; contradiction).
           auto.
      * rewrite Hout by assumption. rewrite Hc1.
        replace (c_isfloating cl1) with false by congruence.
        rewrite Hsum. destruct (Z.ltb_spec 0 k); [|lia].
        unfold HEIGHT at 1. rewrite Hh1'.
        replace (c_bw cl1) with (c_bw cl) by assumption.
        rewrite Hheight.
        destruct (Z.eqb_spec k' 0), (Z.ltb_spec 0 k'); try lia.
        unfold y'. destruct Hh as [Hh|Hh]; [|lia].
        destruct (Z.eqb_spec h (m_wh m)) as [|_]; [contradiction|]. simpl.
        unfold HEIGHT. rewrite Hy1, Hh1'.
        replace (c_bw cl1) with (c_bw cl) by assumption.
        rewrite Hheight. destruct (Z.eqb_spec k' 0); lia.
Qed.

End Tile.

Lemma nexttiled_split (hp : gmap ClientPtr Client) (l r : list ClientPtr) :
  nexttiled hp l = Some r →
  ∃ pre, l = pre ++ r
    ∧ (∀ d, d ∈ pre → ∃ dl, hp !! d = Some dl ∧ c_isfloating dl = true)
    ∧ match r with
      | [] => True
      | c :: _ => ∃ cl, hp !! c = Some cl ∧ c_isfloating cl = false
      end.
Proof.
  revert r. induction l as [|c l IH]; simpl; intros r H.
  - injection H as <-. exists []. repeat split; auto.
    intros d Hd. inversion Hd.
  - destruct (hp !! c) as [cl|] eqn:Hc; [|discriminate]. simpl in H.
    destruct (c_isfloating cl) eqn:Hf.
    + destruct (IH r H) as (pre & -> & Hpre & Hr).
      exists (c :: pre). repeat split; auto.
      intros d Hd. apply elem_of_cons in Hd as [->|Hd]; eauto.
    + injection H as <-. exists []. repeat split; eauto.
      intros d Hd. inversion Hd.
Qed.

Lemma count_tiled_floating_prefix (hp : gmap ClientPtr Client)
    (pre r : list ClientPtr) :
  (∀ d, d ∈ pre → ∃ dl, hp !! d = Some dl ∧ c_isfloating dl = true) →
  count_tiled hp (pre ++ r) = count_tiled hp r.
Proof.
  induction pre as [|c pre IH]; intros H; simpl; [reflexivity|].
  destruct (H c) as (cl & -> & Hf); [left; reflexivity|]. simpl.
  rewrite IH by (intros d Hd; apply H; now right).
  destruct (count_tiled hp r); simpl; [|reflexivity]. now rewrite Hf.
Qed.

Lemma count_tiled_total (hp : gmap ClientPtr Client) (l : list ClientPtr) :
  (∀ c, c ∈ l → is_Some (hp !! c)) → is_Some (count_tiled hp l).
Proof.
  induction l as [|c l IH]; intros H; simpl; [eauto|].
  destruct (H c) as [cl ->]; [left; reflexivity|]. simpl.
  destruct IH as [k ->]; [intros d Hd; apply H; now right|]. simpl. eauto.
Qed.

Lemma count_tiled_pos (hp : gmap ClientPtr Client) (l : list ClientPtr)
    (k : Z) :
  count_tiled hp l = Some k → 0 < k →
  ∃ c cl, c ∈ l ∧ hp !! c = Some cl ∧ c_isfloating cl = false.
Proof.
  revert k. induction l as [|c l IH]; simpl; intros k H Hk.
  - injection H as <-. lia.
  - destruct (hp !! c) as [cl|] eqn:Hc; [|discriminate]. simpl in H.
    destruct (count_tiled hp l) as [n|]; [|discriminate]. simpl in H.
    injection H as <-. destruct (c_isfloating cl) eqn:Hf.
    + destruct (IH n eq_refl Hk) as (d & dl & Hd & ?).
      exists d, dl. split; [now right|assumption].
    + exists c, cl. split; [now left|auto].
Qed.

Section TileWhole.

Variable cfg : Config.
Variable scr : Screen.

(** C2, with the bounds of [applysizehints] kept out of the way: when
    no rectangle that [tile] asks for is below the bar height (or below
    one pixel) once the borders are taken off, the master column and the
    stack column fill the width of the window area, and the rows of the
    stack fill its height.  [c0] is the master, [l] the client list
    behind it and [k] the number of tiled clients in [l]. *)
Theorem tile_fills_window_area (s : State) (mp : MonitorPtr) (m : Monitor)
    (vw : View) (c0 : ClientPtr) (cl0 : Client) (l : list ClientPtr) (k : Z) :
  resizehints cfg = false →
  mons s !! mp = Some m →
  m_views m !! m_selview m = Some vw →
  m_mx m <= m_wx m → m_wx m + m_ww m <= m_mx m + m_mw m →
  m_my m <= m_wy m → m_wy m + m_wh m <= m_my m + m_mh m →
  0 <= m_wh m < 2 ^ 31 →
  NoDup (v_clients vw) →
  (∀ c, c ∈ v_clients vw → ∃ cl, heap s !! c = Some cl ∧ c_mon cl = mp) →
  nexttiled (heap s) (v_clients vw) = Some (c0 :: l) →
  heap s !! c0 = Some cl0 →
  count_tiled (heap s) l = Some k →
  let mw := master_size (v_mfact vw) (m_ww m) in
  let lim := Z.max 1 (bh scr) in
  0 <= c_bw cl0 →
  lim <= (if k =? 0 then m_ww m else mw) - 2 * c_bw cl0 →
  lim <= m_wh m - 2 * c_bw cl0 →
  (∀ c cl, c ∈ l → heap s !! c = Some cl → c_isfloating cl = false →
     0 <= c_bw cl ∧ lim <= m_ww m - mw - 2 * c_bw cl
     ∧ lim <= m_wh m / k - 2 * c_bw cl) →
  ∃ s' cl0',
    tile cfg scr mp s = Some s'
    ∧ heap s' !! c0 = Some cl0'
    ∧ HEIGHT cl0' = m_wh m
    ∧ (k = 0 → WIDTH cl0' = m_ww m)
    ∧ (∀ c cl, c ∈ l → heap s !! c = Some cl → c_isfloating cl = false →
         ∃ cl', heap s' !! c = Some cl' ∧ WIDTH cl0' + WIDTH cl' = m_ww m)
    ∧ (0 < k → stack_height (heap s') l = m_wh m).
Proof.
  intros Hr Hm Hv Hwx Hww Hwy Hwh Hrange Hnd Hown Hnt Hc0 Hk mw lim
    Hbw0 Hw0 Hh0 Hstack.
  destruct (nexttiled_split _ _ _ Hnt) as (pre & Hsplit & Hpre & cl & Hcl & Hf0).
  rewrite Hc0 in Hcl. injection Hcl as <-.
  pose proof (count_tiled_nonneg _ _ _ Hk) as Hk0.
  assert (Hcount : count_tiled (heap s) (v_clients vw) = Some (k + 1)).
  { rewrite Hsplit, count_tiled_floating_prefix by assumption.
    simpl. rewrite Hc0. simpl. rewrite Hk. simpl. now rewrite Hf0. }
  rewrite Hsplit in Hnd. apply NoDup_app in Hnd as (_ & _ & Hnd).
  apply NoDup_cons in Hnd as [Hc0l Hndl].
  assert (Hin : ∀ c, c ∈ c0 :: l → c ∈ v_clients vw).
  { intros c Hc. rewrite Hsplit. apply elem_of_app. now right. }
  destruct (Hown c0) as (cl & Hcl & Hmon0); [apply Hin; now left|].
  rewrite Hc0 in Hcl. injection Hcl as <-.
  assert (Hm0 : mons s !! c_mon cl0 = Some m) by now rewrite Hmon0.
  unfold tile. rewrite Hm. simpl. rewrite Hv. simpl. rewrite Hcount. simpl.
  destruct (Z.eqb_spec (k + 1) 0) as [|_]; [lia|].
  rewrite Hnt. simpl. rewrite Hc0. simpl.
  fold mw.
  replace (k + 1 =? 1) with (k =? 0)
    by (destruct (Z.eqb_spec k 0), (Z.eqb_spec (k + 1) 1); lia).
  set (w0 := (if k =? 0 then m_ww m else mw) - 2 * c_bw cl0) in *.
  destruct (resize_spec cfg scr c0 (m_wx m) (m_wy m) w0
              (m_wh m - 2 * c_bw cl0) false s cl0 m Hc0 Hm0)
    as (s1 & cl1 & E1 & Hm1 & Hs1 & Hh1 & Hr1 & Ha1).
  assert (Hww0 : 1 <= m_ww m).
  { unfold w0 in Hw0. destruct (Z.eqb_spec k 0) as [|Hk1]; [lia|].
    destruct (count_tiled_pos _ _ _ Hk) as (d & dl & Hd & Hdl & Hfd); [lia|].
    destruct (Hstack d dl Hd Hdl Hfd) as (? & ? & ?). lia. }
  rewrite applysizehints_plain in Hr1; try assumption; try lia.
  rewrite E1. simpl.
  assert (Hc1 : heap s1 !! c0 = Some cl1)
    by (rewrite Hh1; apply lookup_insert_eq).
  attrs Ha1.
  assert (Hgeo : c_x cl1 = m_wx m ∧ c_w cl1 = w0
                 ∧ c_h cl1 = m_wh m - 2 * c_bw cl0)
    by (unfold c_x, c_w, c_h; rewrite Hr1; simpl; auto).
  destruct Hgeo as (Hx1 & Hw1 & Hh1').
  assert (Hother : ∀ d, d ≠ c0 → heap s1 !! d = heap s !! d)
    by (intros d Hd; rewrite Hh1; now apply lookup_insert_ne).
  replace (k + 1 - 1) with k by lia.
  destruct (Z.eqb_spec k 0) as [->|Hk1].
  - (* a single tiled client *)
    exists s1, cl1. repeat split; auto.
    + unfold HEIGHT. rewrite Hh1'. lia.
    + intros _. unfold WIDTH. rewrite Hw1. unfold w0. lia.
    + intros c cl Hc Hcl Hf.
      destruct (count_tiled_pos (heap s) (c :: l) 1) as (d & dl & Hd & Hdl & Hfd);
        [|lia|].
      { simpl. rewrite Hcl. simpl. rewrite Hk. simpl. now rewrite Hf. }
      exfalso. clear Hd.
      assert (Hone : count_tiled (heap s) l = Some 0) by assumption.
      revert Hone Hc Hcl Hf. clear. revert c cl.
      induction l as [|a l IH]; intros c cl Hone Hc Hcl Hf; [inversion Hc|].
      simpl in Hone. destruct (heap s !! a) as [al|] eqn:Ha; [|discriminate].
      simpl in Hone.
      destruct (count_tiled (heap s) l) as [j|] eqn:Hj; [|discriminate].
      simpl in Hone. pose proof (count_tiled_nonneg _ _ _ Hj).
      apply elem_of_cons in Hc as [->|Hc].
      * rewrite Ha in Hcl. injection Hcl as ->. rewrite Hf in Hone.
        injection Hone as ?. lia.
      * destruct (c_isfloating al); injection Hone as ?; [|lia].
        subst j. eauto.
    + lia.
  - (* a master and a stack *)
    rewrite Hc1. simpl.
    assert (Hkpos : 0 < k) by lia.
    destruct (count_tiled_pos _ _ _ Hk Hkpos) as (d & dl & Hd & Hdl & Hfd).
    destruct (Hstack d dl Hd Hdl Hfd) as (Hbd & Hwd & Hhd).
    set (x := if m_wx m + mw >? c_x cl1 + c_w cl1
              then c_x cl1 + c_w cl1 + 2 * c_bw cl1 else m_wx m + mw).
    set (w := if m_wx m + mw >? c_x cl1 + c_w cl1
              then m_wx m + m_ww m - x else m_ww m - mw).
    assert (Hxw : x = m_wx m + mw ∧ w = m_ww m - mw).
    { unfold w, x. rewrite Hx1, Hw1. unfold w0.
      replace (c_bw cl1) with (c_bw cl0) by assumption.
      destruct (Z.eqb_spec k 0); [lia|].
      destruct (Z.gtb_spec (m_wx m + mw) (m_wx m + (mw - 2 * c_bw cl0))); lia. }
    destruct Hxw as [Hx Hw]. clearbody x w.
    rewrite CInt.udiv_nonneg, CInt.umod_nonneg by lia.
    assert (Hdiv : m_wh m = k * (m_wh m / k) + m_wh m mod k)
      by (apply Z.div_mod; lia).
    pose proof (Z.mod_pos_bound (m_wh m) k Hkpos) as Hmod.
    destruct (Z.ltb_spec (m_wh m / k) (bh scr)) as [Hlt|_]; [lia|].
    unfold w0 in Hw0. destruct (Z.eqb_spec k 0) as [|_]; [lia|].
    destruct (tile_stack_spec cfg scr mp m k x w (m_wh m / k) Hr
                ltac:(lia) Hwh l 0 (m_wy m) (m_wh m mod k) k s1)
      as (s' & E & Hm' & Hs' & Hout & Hin' & Hsum); auto; try lia;
      try (now rewrite Hm1).
    { intros c Hc. destruct (Hown c) as (cl & Hcl & Hmc); [apply Hin; now right|].
      exists cl. rewrite Hother by (intros ->; contradiction).
      split; [assumption|]. split; [assumption|]. intros Hf.
      destruct (Hstack c cl Hc Hcl Hf) as (? & ? & ?). unfold lim in *. lia. }
    { rewrite <- Hk. apply count_tiled_ext. intros c Hc. apply Hother.
      intros ->. contradiction. }
    { destruct (Z.le_gt_cases k 1); [now right|left]. nia. }
    exists s', cl1. rewrite E. repeat split; auto.
    + now rewrite Hout.
    + unfold HEIGHT. rewrite Hh1'. lia.
    + lia.
    + intros c cl Hc Hcl Hf.
      destruct (Hin' c Hc) as (cl' & cl'' & Hcl' & Hcl'' & Ha & Hgeo).
      rewrite Hother in Hcl' by (intros ->; contradiction).
      rewrite Hcl in Hcl'. injection Hcl' as <-.
      exists cl''. split; [assumption|].
      destruct (Hgeo Hf) as [_ ->]. unfold WIDTH. rewrite Hw1. lia.
    + intros _. rewrite Hsum. destruct (Z.ltb_spec 0 k); lia.
Qed.

End TileWhole.

(** ** Two tiled windows on the 1920x1080 screen *)

Lemma master_size_1920 : master_size (lit32 55 100) 1920 = 1056.
Proof. vm_compute. reflexivity. Qed.

Section TwoTiled.

Variable cfg : Config.
Variable scr : Screen.

(** C1, with the clients in the order of the client list: [manage]
    attaches a new client at the head, so of two windows the one mapped
    last, [c2], is the master and gets (0, 14, 1054, 1064); the one
    mapped first, [c1], gets the stack rectangle (1056, 14, 862, 1064). *)
Theorem tile_two_clients (s : State) (mp : MonitorPtr) (m : Monitor)
    (vw : View) (c1 c2 : ClientPtr) (cl1 cl2 : Client) :
  resizehints cfg = false → bh scr = 14 →
  mons s !! mp = Some m →
  m_views m !! m_selview m = Some vw →
  mkRect (m_mx m) (m_my m) (m_mw m) (m_mh m) = mkRect 0 0 1920 1080 →
  mkRect (m_wx m) (m_wy m) (m_ww m) (m_wh m) = mkRect 0 14 1920 1066 →
  v_mfact vw = lit32 55 100 →
  v_clients vw = [c2; c1] → c1 ≠ c2 →
  heap s !! c1 = Some cl1 → heap s !! c2 = Some cl2 →
  c_isfloating cl1 = false → c_isfloating cl2 = false →
  c_bw cl1 = 1 → c_bw cl2 = 1 →
  c_mon cl1 = mp → c_mon cl2 = mp →
  ∃ s',
    tile cfg scr mp s = Some s'
    ∧ c_rect <$> heap s' !! c2 = Some (mkRect 0 14 1054 1064)
    ∧ c_rect <$> heap s' !! c1 = Some (mkRect 1056 14 862 1064).
Proof.
  intros Hr Hbh Hm Hv Hscreen Harea Hmf Hl Hne Hc1 Hc2 Hf1 Hf2 Hb1 Hb2 Hm1 Hm2.
  injection Hscreen as Hmx Hmy Hmw Hmh. injection Harea as Hwx Hwy Hww Hwh.
  unfold tile. rewrite Hm. simpl. rewrite Hv. simpl. rewrite Hl. simpl.
  repeat (first [rewrite Hc1 | rewrite Hc2 | rewrite Hf1 | rewrite Hf2]; simpl).
  rewrite Hmf, Hww, Hwx, Hwy, Hwh, Hb2, master_size_1920. simpl.
  change (1056 - 2 * 1) with 1054. change (1066 - 2 * 1) with 1064.
  change (0 + 1 + 1 - 1) with 1.
  assert (Hmon2 : mons s !! c_mon cl2 = Some m) by now rewrite Hm2.
  destruct (resize_spec cfg scr c2 0 14 1054 1064 false s cl2 m Hc2 Hmon2)
    as (s1 & cl2' & E1 & Hms1 & Hs1 & Hh1 & Hr1 & Ha1).
  rewrite applysizehints_plain in Hr1; try assumption; try lia.
  rewrite E1. simpl.
  assert (Hc2' : heap s1 !! c2 = Some cl2')
    by (rewrite Hh1; apply lookup_insert_eq).
  assert (Hc1' : heap s1 !! c1 = Some cl1)
    by (rewrite Hh1, lookup_insert_ne; auto).
  rewrite Hc2'. simpl. attrs Ha1.
  unfold c_x, c_w. rewrite Hr1. simpl.
  replace (c_bw cl2') with 1 by congruence. simpl.
  change (CInt.udiv 1066 1) with 1066. change (CInt.umod 1066 1) with 0.
  rewrite Hbh. simpl. rewrite Hc1'. simpl. rewrite Hf1, Hb1. simpl.
  change (0 + 1054 + 2 * 1) with 1056.
  change (0 + 1920 - 1056 - 2 * 1) with 862.
  change (14 + 1066 - 14 - 2 * 1 + 0) with 1064.
  assert (Hmon1 : mons s1 !! c_mon cl1 = Some m) by now rewrite Hms1, Hm1.
  destruct (resize_spec cfg scr c1 1056 14 862 1064 false s1 cl1 m Hc1' Hmon1)
    as (s2 & cl1' & E2 & Hms2 & Hs2 & Hh2 & Hr2 & Ha2).
  rewrite applysizehints_plain in Hr2; try assumption; try lia.
  rewrite E2. simpl.
  assert (Hc1'' : heap s2 !! c1 = Some cl1')
    by (rewrite Hh2; apply lookup_insert_eq).
  rewrite Hc1''. simpl.
  exists s2. split; [reflexivity|]. split.
  - rewrite Hh2, lookup_insert_ne by auto. rewrite Hc2'. simpl. now rewrite Hr1.
  - rewrite Hc1''. simpl. now rewrite Hr2.
Qed.

End TwoTiled.

Ltac by_compute := vm_compute; reflexivity.

Ltac each_member H :=
  repeat (apply elem_of_cons in H as [->|H]);
  [..|apply elem_of_nil in H; contradiction].

(** The two windows of [Scenario.two_tiled]: client 0 is [W1], client 1
    is [W2], and the client list is [W2, W1]. *)
Lemma tile_two_clients_witness :
  ∃ s',
    tile Scenario.cfg Scenario.scr 0%nat Scenario.two_tiled_state = Some s'
    ∧ c_rect <$> heap s' !! 1%nat = Some (mkRect 0 14 1054 1064)
    ∧ c_rect <$> heap s' !! 0%nat = Some (mkRect 1056 14 862 1064).
Proof.
  apply (tile_two_clients Scenario.cfg Scenario.scr Scenario.two_tiled_state
           0%nat (Scenario.monitor_at 0%nat Scenario.two_tiled_state)
           (Scenario.selview_at 0%nat Scenario.two_tiled_state)
           0%nat 1%nat
           (Scenario.client_at 0%nat Scenario.two_tiled_state)
           (Scenario.client_at 1%nat Scenario.two_tiled_state));
    try by_compute.
  discriminate.
Defined.

(** C1 as stated fails: after [W1] and [W2] have been mapped in this
    order, [tile] gives the master rectangle to [W2] and the stack
    rectangle to [W1]. *)
Lemma tile_two_first_mapped_is_stacked :
  Scenario.two_tiled = Some Scenario.two_tiled_state
  ∧ ∃ s',
      tile Scenario.cfg Scenario.scr 0%nat Scenario.two_tiled_state = Some s'
      ∧ Scenario.rect_of Scenario.W1 s' = Some (mkRect 1056 14 862 1064)
      ∧ Scenario.rect_of Scenario.W2 s' = Some (mkRect 0 14 1054 1064)
      ∧ Scenario.rect_of Scenario.W1 s' ≠ Some (mkRect 0 14 1054 1064)
      ∧ Scenario.rect_of Scenario.W2 s' ≠ Some (mkRect 1056 14 862 1064).
Proof.
  split; [by_compute|].
  destruct (tile Scenario.cfg Scenario.scr 0%nat Scenario.two_tiled_state)
    as [s'|] eqn:E; [|vm_compute in E; discriminate].
  exists s'. split; [reflexivity|].
  vm_compute in E. injection E as <-.
  repeat split; try by_compute; vm_compute; discriminate.
Qed.

(** C2 as the claim states it: only the base height of a row is asked
    to reach the bar height. *)
Definition tile_fills_as_stated (cfg : Config) (scr : Screen) : Prop :=
  ∀ (s : State) (mp : MonitorPtr) (m : Monitor) (vw : View)
    (c0 : ClientPtr) (cl0 : Client) (l : list ClientPtr) (k : Z),
    resizehints cfg = false →
    mons s !! mp = Some m →
    m_views m !! m_selview m = Some vw →
    m_mx m <= m_wx m → m_wx m + m_ww m <= m_mx m + m_mw m →
    m_my m <= m_wy m → m_wy m + m_wh m <= m_my m + m_mh m →
    0 <= m_wh m < 2 ^ 31 →
    NoDup (v_clients vw) →
    (∀ c, c ∈ v_clients vw → ∃ cl, heap s !! c = Some cl ∧ c_mon cl = mp) →
    nexttiled (heap s) (v_clients vw) = Some (c0 :: l) →
    heap s !! c0 = Some cl0 →
    count_tiled (heap s) l = Some k →
    (0 < k → bh scr <= m_wh m / k) →
    ∃ s' cl0',
      tile cfg scr mp s = Some s'
      ∧ heap s' !! c0 = Some cl0'
      ∧ (k = 0 → WIDTH cl0' = m_ww m)
      ∧ (∀ c cl, c ∈ l → heap s !! c = Some cl → c_isfloating cl = false →
           ∃ cl', heap s' !! c = Some cl' ∧ WIDTH cl0' + WIDTH cl' = m_ww m)
      ∧ (0 < k → stack_height (heap s') l = m_wh m).

(** On the low screen the two rows of the stack are asked to be
    [15 - 2] pixels high, [applysizehints] raises both to the bar height
    14, and the rows take 32 pixels of the 30 there are. *)
Lemma tile_rows_overflow :
  ¬ tile_fills_as_stated Scenario.cfg Scenario.scr_low.
Proof.
  intros H.
  destruct (H Scenario.three_low_state 0%nat
              (Scenario.monitor_at 0%nat Scenario.three_low_state)
              (Scenario.selview_at 0%nat Scenario.three_low_state)
              2%nat (Scenario.client_at 2%nat Scenario.three_low_state)
              [1%nat; 0%nat] 2)
    as (s' & cl0' & E & _ & _ & _ & Hsum); try by_compute.
  - vm_compute. intros; discriminate.
  - vm_compute. intros; discriminate.
  - vm_compute. intros; discriminate.
  - vm_compute. intros; discriminate.
  - vm_compute. split; [intros; discriminate|reflexivity].
  - apply (bool_decide_unpack _). by_compute.
  - intros c Hc. vm_compute in Hc. each_member Hc; eexists; split; by_compute.
  - intros _. vm_compute. intros; discriminate.
  - vm_compute in E. injection E as <-.
    specialize (Hsum ltac:(lia)). vm_compute in Hsum. discriminate.
Qed.

(** The two windows of [Scenario.two_tiled] fill the 1920x1066 window
    area. *)
Lemma tile_fills_window_area_witness :
  let s := Scenario.two_tiled_state in
  let m := Scenario.monitor_at 0%nat s in
  ∃ s' cl0',
    tile Scenario.cfg Scenario.scr 0%nat s = Some s'
    ∧ heap s' !! 1%nat = Some cl0'
    ∧ HEIGHT cl0' = m_wh m
    ∧ (1 = 0 → WIDTH cl0' = m_ww m)
    ∧ (∀ c cl, c ∈ [0%nat] → heap s !! c = Some cl →
         c_isfloating cl = false →
         ∃ cl', heap s' !! c = Some cl' ∧ WIDTH cl0' + WIDTH cl' = m_ww m)
    ∧ (0 < 1 → stack_height (heap s') [0%nat] = m_wh m).
Proof.
  intros s m.
  apply (tile_fills_window_area Scenario.cfg Scenario.scr s 0%nat m
           (Scenario.selview_at 0%nat s) 1%nat (Scenario.client_at 1%nat s)
           [0%nat] 1); try by_compute.
  - vm_compute. intros; discriminate.
  - vm_compute. intros; discriminate.
  - vm_compute. intros; discriminate.
  - vm_compute. intros; discriminate.
  - vm_compute. split; [intros; discriminate|reflexivity].
  - apply (bool_decide_unpack _). by_compute.
  - intros c Hc. vm_compute in Hc. each_member Hc; eexists; split; by_compute.
  - vm_compute. intros; discriminate.
  - vm_compute. intros; discriminate.
  - vm_compute. intros; discriminate.
  - intros c cl Hc Hcl _. each_member Hc. vm_compute in Hcl.
    injection Hcl as <-. vm_compute. repeat split; intros; discriminate.
Defined.

(** ** The shape of a state *)

(** The client [c] is recorded on view [v] of monitor [m]. *)
Definition at_view (s : State) (c : ClientPtr) (m : MonitorPtr) (v : nat)
    : Prop :=
  ∃ cl, heap s !! c = Some cl ∧ c_mon cl = m ∧ c_view cl = v.

(** [selmon] points to a monitor, every monitor has its nine views and
    selects one of them. *)
Definition shape_ok (s : State) : Prop :=
  is_Some (mons s !! selmon s)
  ∧ ∀ m mon, mons s !! m = Some mon →
      length (m_views mon) = NUMVIEWS ∧ (m_selview mon < NUMVIEWS)%nat.

(** The focus stack of every view has no cycle and holds clients of
    that view only. *)
Definition stack_ok (s : State) : Prop :=
  ∀ m v vw, get_view s m v = Some vw →
    NoDup (v_stack vw) ∧ ∀ c, c ∈ v_stack vw → at_view s c m v.

(** The client list of every view holds clients of that view only. *)
Definition clients_ok (s : State) : Prop :=
  ∀ m v vw, get_view s m v = Some vw →
    ∀ c, c ∈ v_clients vw → at_view s c m v.

(** The lists of a state are sound. *)
Definition lists_ok (s : State) : Prop :=
  shape_ok s ∧ stack_ok s ∧ clients_ok s.

(** The selection of the selected view of the selected monitor, the
    client that the next [focus] hands to [unfocus], is allocated. *)
Definition sel_live (s : State) : Prop :=
  ∀ sv c, SELVIEW s (selmon s) = Some sv → v_sel sv = Some c →
    is_Some (heap s !! c).

(** A state as the event loop finds it. *)
Definition wf (s : State) : Prop := lists_ok s ∧ sel_live s.

(** Invariant 2 of the data model on monitor [m]. *)
Definition sel_is_head (s : State) (m : MonitorPtr) : Prop :=
  ∃ vw, SELVIEW s m = Some vw
    ∧ (v_sel vw = None ∨ v_sel vw = head (v_stack vw)).

(** Two states that differ in the rectangles and urgency flags of their
    clients only. *)
Definition geom_only (s s' : State) : Prop :=
  mons s' = mons s ∧ selmon s' = selmon s
  ∧ ∀ c, forget <$> heap s' !! c = forget <$> heap s !! c.

Lemma geom_only_refl (s : State) : geom_only s s.
Proof. repeat split. Qed.

Lemma geom_only_trans (s1 s2 s3 : State) :
  geom_only s1 s2 → geom_only s2 s3 → geom_only s1 s3.
Proof.
  intros (? & ? & H12) (? & ? & H23). repeat split; try congruence.
Qed.

Lemma geom_only_client (s s' : State) (c : ClientPtr) (cl : Client) :
  geom_only s s' → heap s !! c = Some cl →
  ∃ cl', heap s' !! c = Some cl' ∧ same_attrs cl cl'.
Proof.
  intros (_ & _ & H) Hc. specialize (H c). rewrite Hc in H.
  destruct (heap s' !! c) as [cl'|]; [|discriminate].
  exists cl'. split; [reflexivity|]. simpl in H. unfold same_attrs. congruence.
Qed.

Lemma geom_only_client_back (s s' : State) (c : ClientPtr) (cl' : Client) :
  geom_only s s' → heap s' !! c = Some cl' →
  ∃ cl, heap s !! c = Some cl ∧ same_attrs cl cl'.
Proof.
  intros (_ & _ & H) Hc. specialize (H c). rewrite Hc in H.
  destruct (heap s !! c) as [cl|]; [|discriminate].
  exists cl. split; [reflexivity|]. simpl in H. unfold same_attrs. congruence.
Qed.

Lemma geom_only_at_view (s s' : State) (c : ClientPtr) (m : MonitorPtr)
    (v : nat) :
  geom_only s s' → at_view s c m v → at_view s' c m v.
Proof.
  intros H (cl & Hc & Hm & Hv).
  destruct (geom_only_client _ _ _ _ H Hc) as (cl' & Hc' & Ha). attrs Ha.
  exists cl'. repeat split; congruence.
Qed.

Lemma geom_only_get_view (s s' : State) (m : MonitorPtr) (v : nat) :
  geom_only s s' → get_view s' m v = get_view s m v.
Proof. intros (H & _). unfold get_view. now rewrite H. Qed.

Lemma geom_only_SELVIEW (s s' : State) (m : MonitorPtr) :
  geom_only s s' → SELVIEW s' m = SELVIEW s m.
Proof. intros (H & _). unfold SELVIEW. now rewrite H. Qed.

Lemma geom_only_shape (s s' : State) :
  geom_only s s' → shape_ok s → shape_ok s'.
Proof. intros (Hm & Hs & _). unfold shape_ok. now rewrite Hm, Hs. Qed.

Lemma geom_only_stack (s s' : State) :
  geom_only s s' → stack_ok s → stack_ok s'.
Proof.
  intros H Hok m v vw Hv. rewrite (geom_only_get_view _ _ _ _ H) in Hv.
  destruct (Hok m v vw Hv) as [Hnd Hown]. split; [assumption|].
  intros c Hc. eapply geom_only_at_view; eauto.
Qed.

Lemma geom_only_clients (s s' : State) :
  geom_only s s' → clients_ok s → clients_ok s'.
Proof.
  intros H Hok m v vw Hv c Hc. rewrite (geom_only_get_view _ _ _ _ H) in Hv.
  eapply geom_only_at_view; eauto.
Qed.

Lemma geom_only_sel_live (s s' : State) :
  geom_only s s' → sel_live s → sel_live s'.
Proof.
  intros (Hm & Hs & Hh) Hl sv c Hsv Hc. unfold SELVIEW in Hsv.
  rewrite Hm, Hs in Hsv. destruct (Hl sv c Hsv Hc) as [cl Hcl].
  specialize (Hh c). rewrite Hcl in Hh.
  destruct (heap s' !! c); [eauto|discriminate].
Qed.

Lemma geom_only_wf (s s' : State) : geom_only s s' → lists_ok s → lists_ok s'.
Proof.
  intros H (? & ? & ?).
  split; [|split];
    eauto using geom_only_shape, geom_only_stack, geom_only_clients.
Qed.

Lemma geom_only_sel_is_head (s s' : State) (m : MonitorPtr) :
  geom_only s s' → sel_is_head s m → sel_is_head s' m.
Proof.
  intros H (vw & Hv & Hs). exists vw.
  now rewrite (geom_only_SELVIEW _ _ _ H).
Qed.

(** *** Reading a view after a view has been written *)

Lemma put_view_mon_eq (s : State) (m : MonitorPtr) (v : nat) (vw : View)
    (mon : Monitor) :
  mons s !! m = Some mon →
  mons (put_view m v vw s) !! m
  = Some (set_m_views (<[v := vw]> (m_views mon)) mon).
Proof.
  intros H. unfold put_view. simpl. rewrite list_lookup_alter_eq. now rewrite H.
Qed.

Lemma put_view_mon_ne (s : State) (m m' : MonitorPtr) (v : nat) (vw : View) :
  m ≠ m' → mons (put_view m v vw s) !! m' = mons s !! m'.
Proof. intros H. unfold put_view. simpl. now apply list_lookup_alter_ne. Qed.

Lemma get_view_put_view (s : State) (m m' : MonitorPtr) (v v' : nat)
    (vw : View) :
  is_Some (get_view s m v) →
  get_view (put_view m v vw s) m' v'
  = if decide (m = m' ∧ v = v') then Some vw else get_view s m' v'.
Proof.
  intros [vw0 H]. unfold get_view in *.
  destruct (mons s !! m) as [mon|] eqn:Hm; [|discriminate]. simpl in H.
  destruct (decide (m = m')) as [<-|Hne].
  - rewrite (put_view_mon_eq _ _ _ _ _ Hm), Hm. simpl.
    destruct (decide (v = v')) as [<-|Hv].
    + rewrite decide_True by auto.
      apply list_lookup_insert_eq. eapply lookup_lt_Some; eauto.
    + rewrite decide_False by tauto. now apply list_lookup_insert_ne.
  - rewrite put_view_mon_ne by assumption. rewrite decide_False by tauto.
    reflexivity.
Qed.

Lemma put_view_selview (s : State) (m m' : MonitorPtr) (v : nat) (vw : View) :
  m_selview <$> mons (put_view m v vw s) !! m' = m_selview <$> mons s !! m'.
Proof.
  destruct (decide (m = m')) as [<-|Hne].
  - destruct (mons s !! m) as [mon|] eqn:Hm.
    + now rewrite (put_view_mon_eq _ _ _ _ _ Hm).
    + unfold put_view. simpl. rewrite list_lookup_alter_eq. now rewrite Hm.
  - now rewrite put_view_mon_ne.
Qed.

Lemma put_view_shape (s : State) (m : MonitorPtr) (v : nat) (vw : View) :
  shape_ok s → shape_ok (put_view m v vw s).
Proof.
  intros [Hsel Hall]. split.
  - change (selmon (put_view m v vw s)) with (selmon s).
    destruct Hsel as [mon Hmon]. destruct (decide (m = selmon s)) as [->|Hne].
    + rewrite (put_view_mon_eq _ _ _ _ _ Hmon). eauto.
    + rewrite put_view_mon_ne by assumption. eauto.
  - intros m' mon' Hm'. destruct (decide (m = m')) as [<-|Hne].
    + destruct (mons s !! m) as [mon|] eqn:Hm.
      * rewrite (put_view_mon_eq _ _ _ _ _ Hm) in Hm'. injection Hm' as <-.
        simpl. rewrite length_insert. now apply (Hall m).
      * unfold put_view in Hm'. simpl in Hm'.
        rewrite list_lookup_alter_eq, Hm in Hm'. discriminate.
    + rewrite put_view_mon_ne in Hm' by assumption. now apply (Hall m').
Qed.

Lemma SELVIEW_put_view (s : State) (m m' : MonitorPtr) (v : nat) (vw : View) :
  is_Some (get_view s m v) →
  SELVIEW (put_view m v vw s) m'
  = (mon ← mons s !! m';
     if decide (m = m' ∧ v = m_selview mon) then Some vw
     else m_views mon !! m_selview mon).
Proof.
  intros H. pose proof (get_view_put_view s m m' v) as G.
  pose proof (put_view_selview s m m' v vw) as Hsv.
  unfold SELVIEW, get_view in *.
  destruct (mons s !! m') as [mon|] eqn:Hm;
    destruct (mons (put_view m v vw s) !! m') as [mon'|] eqn:Hm';
    simpl in Hsv; try discriminate; [|reflexivity].
  injection Hsv as Hsv. specialize (G (m_selview mon) vw H).
  simpl in *. rewrite Hm' in G. simpl in G. now rewrite Hsv.
Qed.

(** ** What the arrangers and [showhide] change *)

(** Splits the hypothesis [H : (x ← e; k x) = Some _] on the result of [e]. *)
Ltac bind_inv H :=
  match type of H with
  | (?e ≫= _) = Some _ =>
      let E := fresh "E" in
      destruct e eqn:E; simpl in H; [|discriminate H]
  end.

(** A [geom_only] step that leaves the floating clients alone. *)
Definition tiled_only (s s' : State) : Prop :=
  geom_only s s'
  ∧ ∀ c cl, heap s !! c = Some cl → c_isfloating cl = true →
      heap s' !! c = Some cl.

Lemma tiled_only_refl (s : State) : tiled_only s s.
Proof. split; [apply geom_only_refl|auto]. Qed.

Lemma tiled_only_trans (s1 s2 s3 : State) :
  tiled_only s1 s2 → tiled_only s2 s3 → tiled_only s1 s3.
Proof.
  intros [G12 F12] [G23 F23]. split; [eapply geom_only_trans; eauto|].
  intros c cl Hc Hf. apply F23; auto.
Qed.

Section Frames.

Variable cfg : Config.
Variable scr : Screen.

Lemma resize_geom (c : ClientPtr) (x y w h : Z) (i : bool) (s s' : State) :
  resize cfg scr c x y w h i s = Some s' → geom_only s s'.
Proof.
  intros H. apply resize_inv in H
    as (cl & m & cl' & Hc & Hm & Hms & Hs & Hh & _ & Ha).
  repeat split; auto. intros d. rewrite Hh.
  destruct (decide (c = d)) as [<-|Hne].
  - rewrite lookup_insert_eq, Hc. simpl. f_equal. symmetry. exact Ha.
  - now rewrite lookup_insert_ne.
Qed.

Lemma resize_tiled_only (c : ClientPtr) (x y w h : Z) (i : bool)
    (s s' : State) (cl : Client) :
  heap s !! c = Some cl → c_isfloating cl = false →
  resize cfg scr c x y w h i s = Some s' → tiled_only s s'.
Proof.
  intros Hc Hf H. split; [eapply resize_geom; eauto|].
  apply resize_inv in H as (cl0 & m & cl' & Hc0 & _ & _ & _ & Hh & _).
  intros d dl Hd Hfd. rewrite Hh, lookup_insert_ne; [assumption|].
  intros <-. congruence.
Qed.

Lemma showhide_geom (l : list ClientPtr) (s s' : State) :
  showhide cfg scr l s = Some s' → geom_only s s'.
Proof.
  revert s. induction l as [|c l IH]; simpl; intros s H.
  - injection H as <-. apply geom_only_refl.
  - bind_inv H. bind_inv H. bind_inv H.
    eapply geom_only_trans; [|eapply IH; eassumption].
    match goal with
    | E : (if ?b then _ else _) = Some _ |- _ => destruct b
    end.
    + eapply resize_geom; eassumption.
    + match goal with E : Some _ = Some _ |- _ => injection E as <- end.
      apply geom_only_refl.
Qed.

Lemma tile_stack_tiled_only (m : Monitor) (n x w h : Z) (l : list ClientPtr)
    (i y rh : Z) (s s' : State) :
  tile_stack cfg scr m n x w h l i y rh s = Some s' → tiled_only s s'.
Proof.
  revert i y rh s. induction l as [|c l IH]; simpl; intros i y rh s H.
  - injection H as <-. apply tiled_only_refl.
  - bind_inv H. destruct (c_isfloating c0) eqn:Hf; [eapply IH; eassumption|].
    bind_inv H. bind_inv H.
    eapply tiled_only_trans; [|eapply IH; eassumption].
    eapply resize_tiled_only; eassumption.
Qed.

Lemma mirrortile_stack_tiled_only (m : Monitor) (n y w h : Z)
    (l : list ClientPtr) (i x rw : Z) (s s' : State) :
  mirrortile_stack cfg scr m n y w h l i x rw s = Some s' → tiled_only s s'.
Proof.
  revert i x rw s. induction l as [|c l IH]; simpl; intros i x rw s H.
  - injection H as <-. apply tiled_only_refl.
  - bind_inv H. destruct (c_isfloating c0) eqn:Hf; [eapply IH; eassumption|].
    bind_inv H. bind_inv H.
    eapply tiled_only_trans; [|eapply IH; eassumption].
    eapply resize_tiled_only; eassumption.
Qed.

Lemma monocle_loop_tiled_only (m : Monitor) (l : list ClientPtr)
    (s s' : State) :
  monocle_loop cfg scr m l s = Some s' → tiled_only s s'.
Proof.
  revert s. induction l as [|c l IH]; simpl; intros s H.
  - injection H as <-. apply tiled_only_refl.
  - bind_inv H. destruct (c_isfloating c0) eqn:Hf; [eapply IH; eassumption|].
    bind_inv H.
    eapply tiled_only_trans; [|eapply IH; eassumption].
    eapply resize_tiled_only; eassumption.
Qed.

Lemma tile_tiled_only (m : MonitorPtr) (s s' : State) :
  tile cfg scr m s = Some s' → tiled_only s s'.
Proof.
  unfold tile. intros H. bind_inv H. bind_inv H. bind_inv H.
  destruct (z =? 0); [injection H as <-; apply tiled_only_refl|].
  bind_inv H. destruct l as [|c l]; [discriminate|].
  match goal with E : nexttiled _ _ = Some _ |- _ =>
    apply nexttiled_split in E as (_ & _ & _ & cl & Hc & Hf) end.
  bind_inv H. injection Hc as <-. bind_inv H.
  assert (T : tiled_only s s0) by (eapply resize_tiled_only; eassumption).
  destruct (z - 1 =? 0); [now injection H as <-|].
  bind_inv H.
  destruct (if CInt.udiv (m_wh m0) (z - 1) <? bh scr then _ else _) as [h rh].
  eapply tiled_only_trans; [exact T|].
  eapply tile_stack_tiled_only; eassumption.
Qed.

Lemma mirrortile_tiled_only (m : MonitorPtr) (s s' : State) :
  mirrortile cfg scr m s = Some s' → tiled_only s s'.
Proof.
  unfold mirrortile. intros H. bind_inv H. bind_inv H. bind_inv H.
  destruct (z =? 0); [injection H as <-; apply tiled_only_refl|].
  bind_inv H. destruct l as [|c l]; [discriminate|].
  match goal with E : nexttiled _ _ = Some _ |- _ =>
    apply nexttiled_split in E as (_ & _ & _ & cl & Hc & Hf) end.
  bind_inv H. injection Hc as <-. bind_inv H.
  assert (T : tiled_only s s0) by (eapply resize_tiled_only; eassumption).
  destruct (z - 1 =? 0); [now injection H as <-|].
  bind_inv H.
  eapply tiled_only_trans; [exact T|].
  eapply mirrortile_stack_tiled_only; eassumption.
Qed.

Lemma monocle_tiled_only (m : MonitorPtr) (s s' : State) :
  monocle cfg scr m s = Some s' → tiled_only s s'.
Proof.
  unfold monocle. intros H. bind_inv H. bind_inv H.
  eapply monocle_loop_tiled_only; eassumption.
Qed.

Lemma arrangemon_tiled_only (m : MonitorPtr) (s s' : State) :
  arrangemon cfg scr m s = Some s' → tiled_only s s'.
Proof.
  unfold arrangemon. intros H. bind_inv H.
  destruct (lt_arrange (v_lt v)) as [[| |]|].
  - eapply tile_tiled_only; eassumption.
  - eapply mirrortile_tiled_only; eassumption.
  - eapply monocle_tiled_only; eassumption.
  - injection H as <-. apply tiled_only_refl.
Qed.

Lemma showhide_mon_geom (m : MonitorPtr) (s s' : State) :
  showhide_mon cfg scr m s = Some s' → geom_only s s'.
Proof.
  unfold showhide_mon. intros H. bind_inv H. eapply showhide_geom; eassumption.
Qed.

Lemma for_mons_rel (R : State → State → Prop)
    (f : MonitorPtr → State → option State) :
  (∀ s, R s s) → (∀ s1 s2 s3, R s1 s2 → R s2 s3 → R s1 s3) →
  (∀ m s s', f m s = Some s' → R s s') →
  ∀ ms s s', for_mons f ms s = Some s' → R s s'.
Proof.
  intros Hrefl Htrans Hf ms. induction ms as [|m ms IH]; simpl; intros s s' H.
  - injection H as <-. apply Hrefl.
  - bind_inv H. eapply Htrans; [eapply Hf|eapply IH]; eassumption.
Qed.

End Frames.

(** ** Focus *)

Lemma selmon_put_view (s : State) (m : MonitorPtr) (v : nat) (vw : View) :
  selmon (put_view m v vw s) = selmon s.
Proof. reflexivity. Qed.

Lemma heap_put_view (s : State) (m : MonitorPtr) (v : nat) (vw : View) :
  heap (put_view m v vw s) = heap s.
Proof. reflexivity. Qed.

Lemma mons_store (s : State) (c : ClientPtr) (cl : Client) :
  mons (store c cl s) = mons s.
Proof. reflexivity. Qed.

Lemma selmon_store (s : State) (c : ClientPtr) (cl : Client) :
  selmon (store c cl s) = selmon s.
Proof. reflexivity. Qed.

Lemma heap_store (s : State) (c : ClientPtr) (cl : Client) :
  heap (store c cl s) = <[c := cl]> (heap s).
Proof. reflexivity. Qed.

Lemma get_view_store (s : State) (c : ClientPtr) (cl : Client)
    (m : MonitorPtr) (v : nat) :
  get_view (store c cl s) m v = get_view s m v.
Proof. reflexivity. Qed.

#[local] Arguments put_view : simpl never.
#[local] Arguments store : simpl never.

Lemma put_view_put_view (s : State) (m : MonitorPtr) (v : nat) (a b : View) :
  put_view m v b (put_view m v a s) = put_view m v b s.
Proof.
  unfold put_view, set_mons. simpl. f_equal.
  apply list_eq. intros i. destruct (decide (m = i)) as [<-|Hne].
  - rewrite !list_lookup_alter_eq.
    destruct (mons s !! m) as [mon|]; simpl; [|reflexivity].
    now rewrite list_insert_insert_eq.
  - now rewrite !list_lookup_alter_ne by assumption.
Qed.

Lemma view_eta (vw : View) :
  mkView (v_mfact vw) (v_clients vw) (v_sel vw) (v_stack vw) (v_lt vw) = vw.
Proof. destruct vw; reflexivity. Qed.

Lemma detachstack_eq (s : State) (c : ClientPtr) (cl : Client) (vw : View)
    (l : list ClientPtr) :
  heap s !! c = Some cl →
  get_view s (c_mon cl) (c_view cl) = Some vw →
  unlink c (v_stack vw) = Some l →
  detachstack c s
  = Some (put_view (c_mon cl) (c_view cl)
            (if decide (v_sel vw = Some c)
             then set_v_sel (head l) (set_v_stack l vw)
             else set_v_stack l vw) s).
Proof.
  intros Hc Hv Hl. unfold detachstack. rewrite Hc. simpl. rewrite Hv. simpl.
  rewrite Hl. reflexivity.
Qed.

Lemma existsb_views_false (P : View → bool) (s : State) :
  existsb (λ mon, existsb P (m_views mon)) (mons s) = false
  ↔ ∀ m v vw, get_view s m v = Some vw → P vw = false.
Proof.
  split.
  - intros H m v vw Hv. unfold get_view in Hv.
    destruct (mons s !! m) as [mon|] eqn:Hm; [|discriminate].
    cbn [mbind option_bind] in Hv.
    destruct (P vw) eqn:HP; [|reflexivity].
    rewrite <- H. symmetry. apply existsb_exists. exists mon. split.
    + apply list_elem_of_In. eapply list_elem_of_lookup_2; eauto.
    + apply existsb_exists. exists vw. split; [|exact HP].
      apply list_elem_of_In. eapply list_elem_of_lookup_2; eauto.
  - intros H. apply not_true_is_false. intros E.
    apply existsb_exists in E as (mon & Hin & E).
    apply existsb_exists in E as (vw & Hin' & E).
    apply list_elem_of_In, list_elem_of_lookup_1 in Hin as [m Hm].
    apply list_elem_of_In, list_elem_of_lookup_1 in Hin' as [v Hv].
    rewrite (H m v vw) in E; [discriminate|].
    unfold get_view. now rewrite Hm.
Qed.

Lemma linked_false (s : State) (c : ClientPtr) :
  linked c s = false
  ↔ ∀ m v vw, get_view s m v = Some vw → c ∉ v_clients vw.
Proof.
  unfold linked. rewrite existsb_views_false.
  split; intros H m v vw Hv; specialize (H m v vw Hv).
  - now apply bool_decide_eq_false in H.
  - now apply bool_decide_eq_false.
Qed.

Lemma stacked_false (s : State) (c : ClientPtr) :
  stacked c s = false
  ↔ ∀ m v vw, get_view s m v = Some vw → c ∉ v_stack vw.
Proof.
  unfold stacked. rewrite existsb_views_false.
  split; intros H m v vw Hv; specialize (H m v vw Hv).
  - now apply bool_decide_eq_false in H.
  - now apply bool_decide_eq_false.
Qed.

Lemma attach_eq (s : State) (c : ClientPtr) (cl : Client) (vw : View) :
  heap s !! c = Some cl →
  get_view s (c_mon cl) (c_view cl) = Some vw →
  (∀ m v vw, get_view s m v = Some vw → c ∉ v_clients vw) →
  attach c s
  = Some (put_view (c_mon cl) (c_view cl)
            (set_v_clients (c :: v_clients vw) vw) s).
Proof.
  intros Hc Hv Hun. unfold attach. rewrite Hc. simpl. rewrite Hv. simpl.
  now rewrite (proj2 (linked_false s c) Hun).
Qed.

Lemma attachstack_eq (s : State) (c : ClientPtr) (cl : Client) (vw : View) :
  heap s !! c = Some cl →
  get_view s (c_mon cl) (c_view cl) = Some vw →
  (∀ m v vw, get_view s m v = Some vw → c ∉ v_stack vw) →
  attachstack c s
  = Some (put_view (c_mon cl) (c_view cl)
            (set_v_stack (c :: v_stack vw) vw) s).
Proof.
  intros Hc Hv Hun. unfold attachstack. rewrite Hc. simpl. rewrite Hv. simpl.
  now rewrite (proj2 (stacked_false s c) Hun).
Qed.

Lemma unlink_head (c : ClientPtr) (l : list ClientPtr) :
  unlink c (c :: l) = Some l.
Proof. simpl. now rewrite decide_True. Qed.

(** With sound focus stacks a client is in the stack of its own view
    only: once it is out of that one it is in none. *)
Lemma unstacked_put_view (s : State) (p : ClientPtr) (cl : Client)
    (a : View) :
  stack_ok s → heap s !! p = Some cl →
  is_Some (get_view s (c_mon cl) (c_view cl)) → p ∉ v_stack a →
  ∀ m v vw, get_view (put_view (c_mon cl) (c_view cl) a s) m v = Some vw →
    p ∉ v_stack vw.
Proof.
  intros Hst Hp Hgv Ha m v vw Hv. rewrite get_view_put_view in Hv by assumption.
  destruct (decide (c_mon cl = m ∧ c_view cl = v)) as [[<- <-]|Hne].
  - now injection Hv as <-.
  - intros Hin. destruct (Hst _ _ _ Hv) as [_ Hown].
    destruct (Hown p Hin) as (cl' & Hp' & <- & <-).
    rewrite Hp in Hp'. injection Hp' as <-. tauto.
Qed.

(** Moving the client at the head of the focus stack of the selected
    view of the selected monitor to the head of that stack and selecting
    it: only [sel] changes. *)
Lemma focus_head (s : State) (p : ClientPtr) (cl : Client) (mon : Monitor)
    (sv : View) (rest : list ClientPtr) :
  stack_ok s →
  mons s !! selmon s = Some mon →
  m_views mon !! m_selview mon = Some sv →
  v_stack sv = p :: rest →
  heap s !! p = Some cl → c_mon cl = selmon s → c_view cl = m_selview mon →
  (s2 ← (s1 ← detachstack p s; attachstack p s1);
   mon ← mons s2 !! selmon s2;
   sv1 ← m_views mon !! m_selview mon;
   Some (put_view (selmon s2) (m_selview mon) (set_v_sel (Some p) sv1) s2))
  = Some (put_view (selmon s) (m_selview mon) (set_v_sel (Some p) sv) s).
Proof.
  intros Hst Hmon Hsv Hstk Hp Hpm Hpv.
  assert (Hgv : get_view s (selmon s) (m_selview mon) = Some sv)
    by (unfold get_view; rewrite Hmon; exact Hsv).
  rewrite (detachstack_eq s p cl sv rest); try congruence;
    [|rewrite Hstk; apply unlink_head].
  set (a := if decide (v_sel sv = Some p)
            then set_v_sel (head rest) (set_v_stack rest sv)
            else set_v_stack rest sv).
  assert (Ha : v_stack a = rest ∧ v_mfact a = v_mfact sv
               ∧ v_clients a = v_clients sv ∧ v_lt a = v_lt sv)
    by (unfold a; destruct (decide (v_sel sv = Some p)); simpl; auto).
  destruct Ha as (Ha1 & Ha2 & Ha3 & Ha4).
  assert (Hun : ∀ m v vw,
             get_view (put_view (c_mon cl) (c_view cl) a s) m v = Some vw →
             p ∉ v_stack vw).
  { apply unstacked_put_view; auto; [rewrite Hpm, Hpv; eauto|].
    rewrite Ha1. destruct (Hst _ _ _ Hgv) as [Hnd _]. rewrite Hstk in Hnd.
    now apply NoDup_cons in Hnd. }
  rewrite Hpm, Hpv in Hun |- *. cbn [mbind option_bind].
  rewrite (attachstack_eq _ p cl a); try assumption;
    [|rewrite Hpm, Hpv, get_view_put_view by eauto;
      now rewrite decide_True].
  rewrite Hpm, Hpv, put_view_put_view. cbn [mbind option_bind].
  rewrite selmon_put_view, (put_view_mon_eq _ _ _ _ _ Hmon).
  cbn [mbind option_bind m_views m_selview set_m_views].
  rewrite list_lookup_insert_eq by (eapply lookup_lt_Some; eauto).
  cbn [mbind option_bind].
  rewrite put_view_put_view. do 2 f_equal.
  rewrite Ha1. unfold set_v_sel, set_v_stack. simpl.
  rewrite Ha2, Ha3, Ha4. now rewrite <- Hstk.
Qed.

Lemma unfocus_live (s : State) (sv : View) (c : option ClientPtr) :
  (∀ q, v_sel sv = Some q → c = Some q ∨ is_Some (heap s !! q)) →
  (if decide (v_sel sv ≠ None ∧ v_sel sv ≠ c)
   then unfocus (v_sel sv) s else Some s) = Some s.
Proof.
  intros H. destruct (decide (v_sel sv ≠ None ∧ v_sel sv ≠ c)) as [[_ Hne]|];
    [|reflexivity].
  destruct (v_sel sv) as [q|]; [|reflexivity].
  destruct (H q eq_refl) as [Hq|[cl Hq]].
  - congruence.
  - simpl. now rewrite Hq.
Qed.

Lemma unfocus_inv (s s' : State) (sv : View) (c : option ClientPtr) :
  (if decide (v_sel sv ≠ None ∧ v_sel sv ≠ c)
   then unfocus (v_sel sv) s else Some s) = Some s' →
  s' = s ∧ ∀ q, v_sel sv = Some q → c = Some q ∨ is_Some (heap s !! q).
Proof.
  destruct (decide (v_sel sv ≠ None ∧ v_sel sv ≠ c)) as [[_ Hne]|Hn].
  - destruct (v_sel sv) as [q|]; simpl.
    + destruct (heap s !! q) as [cl|] eqn:Hq; [|discriminate].
      intros [= <-]. split; [reflexivity|]. intros ? [= <-]. eauto.
    + intros [= <-]. split; [reflexivity|]. discriminate.
  - intros [= <-]. split; [reflexivity|]. intros q Hq. left.
    rewrite Hq in Hn. destruct (decide (c = Some q)) as [|Hd]; [assumption|].
    exfalso. apply Hn. split; congruence.
Qed.

Lemma stack_ok_store (s : State) (c : ClientPtr) (cl cl0 : Client) :
  stack_ok s → heap s !! c = Some cl0 →
  c_mon cl = c_mon cl0 → c_view cl = c_view cl0 →
  stack_ok (store c cl s).
Proof.
  intros Hst Hc Hm Hv m v vw Hgv. rewrite get_view_store in Hgv.
  destruct (Hst _ _ _ Hgv) as [Hnd Hown]. split; [exact Hnd|].
  intros d Hd. destruct (Hown d Hd) as (dl & Hdl & ? & ?).
  unfold at_view. rewrite heap_store. destruct (decide (c = d)) as [<-|Hne].
  - rewrite lookup_insert_eq. exists cl. rewrite Hc in Hdl.
    injection Hdl as <-. repeat split; congruence.
  - rewrite lookup_insert_ne by assumption. eauto.
Qed.

(** [focus(NULL)] on a state whose focus stacks are sound and whose
    selection is allocated: it succeeds, selects the head of the focus
    stack of the selected view and clears the urgency flag of that
    client; the stacks stay as they are. *)
Lemma focus_None_spec (s : State) :
  shape_ok s → stack_ok s → sel_live s →
  ∃ s' mon sv,
    focus None s = Some s'
    ∧ mons s !! selmon s = Some mon
    ∧ m_views mon !! m_selview mon = Some sv
    ∧ selmon s' = selmon s
    ∧ mons s'
      = mons (put_view (selmon s) (m_selview mon)
                (set_v_sel (head (v_stack sv)) sv) s)
    ∧ ∀ c, heap s' !! c = heap s !! c
           ∨ ∃ cl, heap s !! c = Some cl
                   ∧ heap s' !! c = Some (set_c_isurgent false cl).
Proof.
  intros [[mon Hmon] Hall] Hst Hlive.
  destruct (Hall _ _ Hmon) as [Hlen Hlt].
  destruct (lookup_lt_is_Some_2 (m_views mon) (m_selview mon)) as [sv Hsv];
    [now rewrite Hlen|].
  assert (Hgv : get_view s (selmon s) (m_selview mon) = Some sv)
    by (unfold get_view; rewrite Hmon; exact Hsv).
  assert (Hsel : SELVIEW s (selmon s) = Some sv)
    by (unfold SELVIEW; rewrite Hmon; exact Hsv).
  unfold focus. rewrite Hsel. cbn [mbind option_bind].
  rewrite unfocus_live by (intros q Hq; right; eapply Hlive; eauto).
  cbn [mbind option_bind].
  destruct (v_stack sv) as [|p rest] eqn:Hstk; cbn [head mbind option_bind].
  - rewrite Hmon. cbn [mbind option_bind]. rewrite Hsv.
    cbn [mbind option_bind].
    eexists _, mon, sv. split; [reflexivity|]. rewrite Hstk.
    repeat split; auto.
  - destruct (Hst _ _ _ Hgv) as [_ Hown].
    destruct (Hown p) as (cl & Hp & Hpm & Hpv); [rewrite Hstk; now left|].
    rewrite Hp. cbn [mbind option_bind]. rewrite decide_True by assumption.
    destruct (c_isurgent cl) eqn:Hu.
    + unfold clearurgent. rewrite Hp. cbn [mbind option_bind].
      set (su := store p (set_c_isurgent false cl) s).
      rewrite (focus_head su p (set_c_isurgent false cl) mon sv rest);
        auto; [|eapply stack_ok_store; eauto|apply lookup_insert_eq].
      eexists _, mon, sv. split; [reflexivity|]. rewrite Hstk.
      repeat split; auto.
      intros c. rewrite heap_put_view. unfold su. rewrite heap_store.
      destruct (decide (p = c)) as [<-|Hne].
      * right. exists cl. now rewrite lookup_insert_eq.
      * left. now rewrite lookup_insert_ne.
    + cbn [mbind option_bind].
      rewrite (focus_head s p cl mon sv rest); auto.
      eexists _, mon, sv. split; [reflexivity|]. rewrite Hstk.
      repeat split; auto.
Qed.

(** A [focus(NULL)] that returns has found the selection allocated. *)
Lemma focus_None_live (s s' : State) :
  stack_ok s → focus None s = Some s' → sel_live s.
Proof.
  intros Hst H sv c Hsv Hc. unfold focus in H. rewrite Hsv in H.
  cbn [mbind option_bind] in H.
  destruct (if decide (v_sel sv ≠ None ∧ v_sel sv ≠ head (v_stack sv))
            then unfocus (v_sel sv) s else Some s) as [s0|] eqn:E;
    [|discriminate].
  apply unfocus_inv in E as [_ E]. destruct (E c Hc) as [Hh|Hl]; [|exact Hl].
  unfold SELVIEW in Hsv. destruct (mons s !! selmon s) as [mon|] eqn:Hmon;
    [|discriminate].
  assert (Hgv : get_view s (selmon s) (m_selview mon) = Some sv)
    by (unfold get_view; rewrite Hmon; exact Hsv).
  destruct (Hst _ _ _ Hgv) as [_ Hown].
  destruct (Hown c) as (cl & Hcl & _); [|eauto].
  destruct (v_stack sv); [discriminate|]. injection Hh as ->. now left.
Qed.

(** ** What [arrange] changes *)

(** [arrange] moves and resizes clients, clears urgency flags and
    rewrites the [sel] field of one view. *)
Definition arranged (s s' : State) : Prop :=
  selmon s' = selmon s
  ∧ (∀ c, forget <$> heap s' !! c = forget <$> heap s !! c)
  ∧ ∃ m v sv x,
      get_view s m v = Some sv
      ∧ mons s' = mons (put_view m v (set_v_sel x sv) s).

Lemma mons_put_view_congr (s1 s2 : State) (m : MonitorPtr) (v : nat)
    (vw : View) :
  mons s1 = mons s2 → mons (put_view m v vw s1) = mons (put_view m v vw s2).
Proof. unfold put_view, set_mons. simpl. now intros ->. Qed.

Lemma forget_urgent (cl : Client) (b : bool) :
  forget (set_c_isurgent b cl) = forget cl.
Proof. reflexivity. Qed.

Lemma arranged_client (s s' : State) (c : ClientPtr) (cl : Client) :
  arranged s s' → heap s !! c = Some cl →
  ∃ cl', heap s' !! c = Some cl' ∧ same_attrs cl cl'.
Proof.
  intros (_ & H & _) Hc. specialize (H c). rewrite Hc in H.
  destruct (heap s' !! c) as [cl'|]; [|discriminate].
  exists cl'. split; [reflexivity|]. simpl in H. unfold same_attrs. congruence.
Qed.

Lemma arranged_get_view (s s' : State) (m : MonitorPtr) (v : nat) :
  arranged s s' →
  match get_view s m v with
  | Some vw =>
      ∃ vw', get_view s' m v = Some vw'
             ∧ v_mfact vw' = v_mfact vw ∧ v_clients vw' = v_clients vw
             ∧ v_stack vw' = v_stack vw ∧ v_lt vw' = v_lt vw
  | None => get_view s' m v = None
  end.
Proof.
  intros (_ & _ & m0 & v0 & sv & x & Hsv & Hm).
  assert (G : get_view s' m v
              = get_view (put_view m0 v0 (set_v_sel x sv) s) m v)
    by (unfold get_view; now rewrite Hm).
  rewrite get_view_put_view in G by eauto.
  destruct (decide (m0 = m ∧ v0 = v)) as [[<- <-]|Hne].
  - rewrite Hsv. eexists. split; [exact G|]. simpl. auto.
  - rewrite G. destruct (get_view s m v) as [vw|]; eauto 10.
Qed.

Lemma arranged_mfact (s s' : State) (m : MonitorPtr) (v : nat) :
  arranged s s' → v_mfact <$> get_view s' m v = v_mfact <$> get_view s m v.
Proof.
  intros H. pose proof (arranged_get_view s s' m v H) as G.
  destruct (get_view s m v) as [vw|].
  - destruct G as (vw' & -> & Hmf & _). simpl. now rewrite Hmf.
  - now rewrite G.
Qed.

Section Arrange.

Variable cfg : Config.
Variable scr : Screen.

Lemma showhide_phase (mo : option MonitorPtr) (s s' : State) :
  match mo with
  | Some p => showhide_mon cfg scr p s
  | None => for_mons (showhide_mon cfg scr) (all_mons s) s
  end = Some s' →
  geom_only s s'.
Proof.
  destruct mo as [p|]; [apply showhide_mon_geom|].
  apply for_mons_rel;
    eauto using geom_only_refl, geom_only_trans, showhide_mon_geom.
Qed.

Lemma tiled_only_geom (s s' : State) : tiled_only s s' → geom_only s s'.
Proof. now intros [H _]. Qed.

Lemma arrangemon_phase (mo : option MonitorPtr) (s s' : State) :
  match mo with
  | Some p => arrangemon cfg scr p s
  | None => for_mons (arrangemon cfg scr) (all_mons s) s
  end = Some s' →
  tiled_only s s'.
Proof.
  destruct mo as [p|]; [apply arrangemon_tiled_only|].
  apply for_mons_rel;
    eauto using tiled_only_refl, tiled_only_trans, arrangemon_tiled_only.
Qed.

(** Whenever [arrange] returns on a state whose focus stacks are sound,
    the selected view of the selected monitor has the head of its focus
    stack selected. *)
Lemma arrange_inv (mo : option MonitorPtr) (s s' : State) :
  shape_ok s → stack_ok s →
  arrange cfg scr mo s = Some s' →
  arranged s s' ∧ sel_is_head s' (selmon s') ∧ shape_ok s' ∧ stack_ok s'
  ∧ (clients_ok s → clients_ok s').
Proof.
  intros Hshape Hstack H. unfold arrange in H.
  bind_inv H. rename s0 into s1.
  match goal with E : _ = Some s1 |- _ => apply showhide_phase in E end.
  bind_inv H. rename s0 into s2.
  apply arrangemon_phase, tiled_only_geom in H.
  pose proof (geom_only_shape _ _ E Hshape) as Hshape1.
  pose proof (geom_only_stack _ _ E Hstack) as Hstack1.
  destruct (focus_None_spec s1 Hshape1 Hstack1
              (focus_None_live _ _ Hstack1 E0))
    as (s2' & mon & sv & Ef & Hmon & Hsv & Hsel & Hmons & Hheap).
  rewrite Ef in E0. injection E0 as ->.
  assert (Hgv1 : get_view s1 (selmon s1) (m_selview mon) = Some sv)
    by (unfold get_view; rewrite Hmon; exact Hsv).
  set (sv' := set_v_sel (head (v_stack sv)) sv) in *.
  assert (Hgv2 : ∀ m v, get_view s2 m v
                        = if decide (selmon s1 = m ∧ m_selview mon = v)
                          then Some sv' else get_view s1 m v).
  { intros m v. rewrite <- get_view_put_view by eauto.
    unfold get_view. now rewrite Hmons. }
  assert (Hat : ∀ c m v, at_view s1 c m v → at_view s2 c m v).
  { intros c m v (cl & Hc & ? & ?). destruct (Hheap c) as [Hh|(cl0 & Hc0 & Hh)].
    - exists cl. rewrite Hh. auto.
    - rewrite Hc in Hc0. injection Hc0 as <-. eexists. split; [exact Hh|].
      auto. }
  assert (Hshape2 : shape_ok s2).
  { destruct (put_view_shape s1 (selmon s1) (m_selview mon) sv' Hshape1)
      as [Hs Ha]. split.
    - rewrite Hsel, Hmons. exact Hs.
    - intros m mon' Hm. rewrite Hmons in Hm. eauto. }
  assert (Hstack2 : stack_ok s2).
  { intros m v vw Hv. rewrite Hgv2 in Hv.
    destruct (decide (selmon s1 = m ∧ m_selview mon = v)) as [[<- <-]|Hne].
    - injection Hv as <-. destruct (Hstack1 _ _ _ Hgv1) as [Hnd Hown].
      split; [exact Hnd|]. intros c Hc. apply Hat, Hown, Hc.
    - destruct (Hstack1 _ _ _ Hv) as [Hnd Hown].
      split; [exact Hnd|]. intros c Hc. apply Hat, Hown, Hc. }
  assert (Hhead2 : sel_is_head s2 (selmon s2)).
  { exists sv'. split; [|right; reflexivity].
    unfold SELVIEW. rewrite Hsel, Hmons.
    rewrite (put_view_mon_eq _ _ _ _ _ Hmon). simpl.
    apply list_lookup_insert_eq. eapply lookup_lt_Some; eauto. }
  assert (Hsel3 : selmon s' = selmon s2) by apply H.
  split; [|split; [|split; [|split]]].
  - split; [|split].
    + rewrite Hsel3, Hsel. apply E.
    + intros c. destruct H as (_ & _ & H3). rewrite H3.
      destruct E as (_ & _ & H1). rewrite <- H1.
      destruct (Hheap c) as [->|(cl0 & -> & ->)]; [reflexivity|].
      simpl. now rewrite forget_urgent.
    + exists (selmon s1), (m_selview mon), sv, (head (v_stack sv)). split.
      * now rewrite <- (geom_only_get_view _ _ _ _ E).
      * destruct H as (-> & _). rewrite Hmons.
        apply mons_put_view_congr, E.
  - rewrite Hsel3. eapply geom_only_sel_is_head; eauto.
  - eapply geom_only_shape; eauto.
  - eapply geom_only_stack; eauto.
  - intros Hcl. eapply geom_only_clients; [exact H|].
    pose proof (geom_only_clients _ _ E Hcl) as Hcl1.
    intros m v vw Hv c Hc. rewrite Hgv2 in Hv.
    destruct (decide (selmon s1 = m ∧ m_selview mon = v)) as [[<- <-]|Hne].
    + injection Hv as <-. apply Hat, (Hcl1 _ _ _ Hgv1), Hc.
    + apply Hat, (Hcl1 _ _ _ Hv), Hc.
Qed.

End Arrange.

(** ** [arrange] returns *)

(** A client record that points to a view that exists. *)
Definition live (s : State) (c : ClientPtr) : Prop :=
  ∃ cl, heap s !! c = Some cl
        ∧ is_Some (get_view s (c_mon cl) (c_view cl)).

Lemma geom_only_live (s s' : State) (c : ClientPtr) :
  geom_only s s' → live s c → live s' c.
Proof.
  intros H (cl & Hc & Hv).
  destruct (geom_only_client _ _ _ _ H Hc) as (cl' & Hc' & Ha). attrs Ha.
  exists cl'. split; [assumption|].
  rewrite (geom_only_get_view _ _ _ _ H). congruence.
Qed.

Lemma at_view_live (s : State) (c : ClientPtr) (m : MonitorPtr) (v : nat) :
  is_Some (get_view s m v) → at_view s c m v → live s c.
Proof. intros Hv (cl & Hc & <- & <-). exists cl. auto. Qed.

Lemma get_view_mon (s : State) (m : MonitorPtr) (v : nat) :
  is_Some (get_view s m v) → is_Some (mons s !! m).
Proof.
  unfold get_view. destruct (mons s !! m); [eauto|]. intros [? H]. discriminate.
Qed.

Lemma nexttiled_total (hp : gmap nat Client) (l : list nat) :
  (∀ c, c ∈ l → is_Some (hp !! c)) → is_Some (nexttiled hp l).
Proof.
  induction l as [|c l IH]; intros H; simpl; [eauto|].
  destruct (H c) as [cl ->]; [now left|]. simpl.
  destruct (c_isfloating cl); [|eauto].
  apply IH. intros d Hd. apply H. now right.
Qed.

Section Total.

Variable cfg : Config.
Variable scr : Screen.

Lemma resize_total (c : nat) (x y w h : Z) (i : bool) (s : State) :
  live s c → is_Some (resize cfg scr c x y w h i s).
Proof.
  intros (cl & Hc & Hv). apply get_view_mon in Hv as [m Hm].
  destruct (resize_spec cfg scr c x y w h i s cl m Hc Hm) as (s' & _ & -> & _).
  eauto.
Qed.

Lemma showhide_total (l : list nat) (s : State) :
  (∀ c, c ∈ l → live s c) → is_Some (showhide cfg scr l s).
Proof.
  revert s. induction l as [|c l IH]; intros s H; simpl; [eauto|].
  destruct (H c) as (cl & Hc & [vw Hv]); [now left|].
  rewrite Hc. simpl. rewrite Hv. simpl.
  set (b := negb (negb (c_isfloating cl)
                  && bool_decide (is_Some (lt_arrange (v_lt vw))))).
  assert (Hs : ∃ s1, (if b then resize cfg scr c (c_x cl) (c_y cl) (c_w cl)
                                  (c_h cl) false s else Some s) = Some s1
                     ∧ geom_only s s1).
  { destruct b.
    - destruct (resize_total c (c_x cl) (c_y cl) (c_w cl) (c_h cl) false s)
        as [s1 E]; [apply H; now left|].
      exists s1. split; [exact E|]. eapply resize_geom; eauto.
    - exists s. split; [reflexivity|apply geom_only_refl]. }
  destruct Hs as (s1 & -> & G). simpl. apply IH.
  intros d Hd. eapply geom_only_live; [exact G|]. apply H. now right.
Qed.

Lemma tile_stack_total (m : Monitor) (n x w h : Z) (l : list nat)
    (i y rh : Z) (s : State) :
  (∀ c, c ∈ l → live s c) →
  is_Some (tile_stack cfg scr m n x w h l i y rh s).
Proof.
  revert i y rh s. induction l as [|c l IH]; intros i y rh s H; simpl;
    [eauto|].
  destruct (H c) as (cl & Hc & Hv); [now left|]. rewrite Hc. simpl.
  destruct (c_isfloating cl).
  - apply IH. intros d Hd. apply H. now right.
  - match goal with |- context [resize cfg scr c ?a ?b ?c' ?d false s] =>
      destruct (resize_total c a b c' d false s) as [s1 E];
        [apply H; now left|]; rewrite E
    end. simpl.
    pose proof (resize_geom cfg scr _ _ _ _ _ _ _ _ E) as G.
    destruct (geom_only_client _ _ _ _ G Hc) as (cl1 & -> & _). simpl.
    apply IH. intros d Hd. eapply geom_only_live; [exact G|]. apply H.
    now right.
Qed.

Lemma mirrortile_stack_total (m : Monitor) (n y w h : Z) (l : list nat)
    (i x rw : Z) (s : State) :
  (∀ c, c ∈ l → live s c) →
  is_Some (mirrortile_stack cfg scr m n y w h l i x rw s).
Proof.
  revert i x rw s. induction l as [|c l IH]; intros i x rw s H; simpl;
    [eauto|].
  destruct (H c) as (cl & Hc & Hv); [now left|]. rewrite Hc. simpl.
  destruct (c_isfloating cl).
  - apply IH. intros d Hd. apply H. now right.
  - match goal with |- context [resize cfg scr c ?a ?b ?c' ?d false s] =>
      destruct (resize_total c a b c' d false s) as [s1 E];
        [apply H; now left|]; rewrite E
    end. simpl.
    pose proof (resize_geom cfg scr _ _ _ _ _ _ _ _ E) as G.
    destruct (geom_only_client _ _ _ _ G Hc) as (cl1 & -> & _). simpl.
    apply IH. intros d Hd. eapply geom_only_live; [exact G|]. apply H.
    now right.
Qed.

Lemma monocle_loop_total (m : Monitor) (l : list nat) (s : State) :
  (∀ c, c ∈ l → live s c) → is_Some (monocle_loop cfg scr m l s).
Proof.
  revert s. induction l as [|c l IH]; intros s H; simpl; [eauto|].
  destruct (H c) as (cl & Hc & Hv); [now left|]. rewrite Hc. simpl.
  destruct (c_isfloating cl).
  - apply IH. intros d Hd. apply H. now right.
  - match goal with |- context [resize cfg scr c ?a ?b ?c' ?d false s] =>
      destruct (resize_total c a b c' d false s) as [s1 E];
        [apply H; now left|]; rewrite E
    end. simpl.
    pose proof (resize_geom cfg scr _ _ _ _ _ _ _ _ E) as G.
    apply IH. intros d Hd. eapply geom_only_live; [exact G|]. apply H.
    now right.
Qed.

(** The head of a tiling arranger: the count, the master and what is
    left of the client list behind it. *)
Lemma master_total (s : State) (l : list nat) :
  (∀ c, c ∈ l → live s c) →
  ∃ n, count_tiled (heap s) l = Some n
    ∧ (n = 0
       ∨ ∃ c cl l', n ≠ 0 ∧ nexttiled (heap s) l = Some (c :: l')
           ∧ heap s !! c = Some cl ∧ live s c ∧ ∀ d, d ∈ l' → live s d).
Proof.
  intros H.
  assert (Hh : ∀ c, c ∈ l → is_Some (heap s !! c)).
  { intros c Hc. destruct (H c Hc) as (cl & -> & _). eauto. }
  destruct (count_tiled_total _ _ Hh) as [n Hn].
  destruct (nexttiled_total _ _ Hh) as [r Hr].
  exists n. split; [exact Hn|].
  destruct (nexttiled_split _ _ _ Hr) as (pre & Hl & Hpre & Hhead).
  rewrite Hl, count_tiled_floating_prefix in Hn by assumption.
  destruct r as [|c l'].
  - left. simpl in Hn. congruence.
  - destruct Hhead as (cl & Hc & Hf).
    destruct (Z.eq_dec n 0) as [->|Hn0]; [now left|right].
    exists c, cl, l'. repeat split; auto.
    + apply H. rewrite Hl. apply elem_of_app. right. now left.
    + intros d Hd. apply H. rewrite Hl. apply elem_of_app. right. now right.
Qed.

Lemma tile_total (m : nat) (s : State) (mon : Monitor) (vw : View) :
  mons s !! m = Some mon → m_views mon !! m_selview mon = Some vw →
  (∀ c, c ∈ v_clients vw → live s c) →
  is_Some (tile cfg scr m s).
Proof.
  intros Hm Hv H. unfold tile. rewrite Hm. simpl. rewrite Hv. simpl.
  destruct (master_total s _ H)
    as (n & -> & [->|(c & cl & l' & Hn & -> & Hc & Hlive & Hl')]); simpl;
    [eauto|].
  destruct (Z.eqb_spec n 0) as [|_]; [contradiction|]. rewrite Hc. simpl.
  match goal with |- context [resize cfg scr c ?a ?b ?c' ?d false s] =>
    destruct (resize_total c a b c' d false s) as [s1 E]; [exact Hlive|];
      rewrite E
  end. simpl.
  destruct (n - 1 =? 0); [eauto|].
  pose proof (resize_geom cfg scr _ _ _ _ _ _ _ _ E) as G.
  destruct (geom_only_client _ _ _ _ G Hc) as (cl1 & -> & _). simpl.
  destruct (if CInt.udiv (m_wh mon) (n - 1) <? bh scr then _ else _) as [h rh].
  apply tile_stack_total. intros d Hd. eapply geom_only_live; eauto.
Qed.

Lemma mirrortile_total (m : nat) (s : State) (mon : Monitor) (vw : View) :
  mons s !! m = Some mon → m_views mon !! m_selview mon = Some vw →
  (∀ c, c ∈ v_clients vw → live s c) →
  is_Some (mirrortile cfg scr m s).
Proof.
  intros Hm Hv H. unfold mirrortile. rewrite Hm. simpl. rewrite Hv. simpl.
  destruct (master_total s _ H)
    as (n & -> & [->|(c & cl & l' & Hn & -> & Hc & Hlive & Hl')]); simpl;
    [eauto|].
  destruct (Z.eqb_spec n 0) as [|_]; [contradiction|]. rewrite Hc. simpl.
  match goal with |- context [resize cfg scr c ?a ?b ?c' ?d false s] =>
    destruct (resize_total c a b c' d false s) as [s1 E]; [exact Hlive|];
      rewrite E
  end. simpl.
  destruct (n - 1 =? 0); [eauto|].
  pose proof (resize_geom cfg scr _ _ _ _ _ _ _ _ E) as G.
  destruct (geom_only_client _ _ _ _ G Hc) as (cl1 & -> & _). simpl.
  apply mirrortile_stack_total. intros d Hd. eapply geom_only_live; eauto.
Qed.

Lemma arrangemon_total (m : nat) (s : State) :
  shape_ok s → clients_ok s → is_Some (mons s !! m) →
  is_Some (arrangemon cfg scr m s).
Proof.
  intros [_ Hall] Hcl [mon Hm].
  destruct (Hall _ _ Hm) as [Hlen Hlt].
  destruct (lookup_lt_is_Some_2 (m_views mon) (m_selview mon)) as [vw Hv];
    [now rewrite Hlen|].
  assert (Hgv : get_view s m (m_selview mon) = Some vw)
    by (unfold get_view; rewrite Hm; exact Hv).
  assert (Hlive : ∀ c, c ∈ v_clients vw → live s c).
  { intros c Hc. eapply at_view_live; [|eapply Hcl; eauto]. eauto. }
  unfold arrangemon, SELVIEW. rewrite Hm. simpl. rewrite Hv. simpl.
  destruct (lt_arrange (v_lt vw)) as [[| |]|]; [| | |eauto].
  - eapply tile_total; eauto.
  - eapply mirrortile_total; eauto.
  - unfold monocle. rewrite Hm. simpl. rewrite Hv. simpl.
    now apply monocle_loop_total.
Qed.

(** [arrange(m)] returns on every well-formed state. *)
Lemma arrange_total (m : nat) (s : State) :
  lists_ok s → sel_live s → is_Some (mons s !! m) →
  is_Some (arrange cfg scr (Some m) s).
Proof.
  intros (Hshape & Hstack & Hcl) Hlive [mon Hm].
  destruct Hshape as [Hsel Hall]. destruct (Hall _ _ Hm) as [Hlen Hlt].
  destruct (lookup_lt_is_Some_2 (m_views mon) (m_selview mon)) as [vw Hv];
    [now rewrite Hlen|].
  assert (Hgv : get_view s m (m_selview mon) = Some vw)
    by (unfold get_view; rewrite Hm; exact Hv).
  destruct (showhide_total (v_stack vw) s) as [s1 E1].
  { intros c Hc. eapply at_view_live; [|eapply Hstack; eauto]. eauto. }
  pose proof (showhide_geom _ _ _ _ _ E1) as G1.
  assert (Hshape1 : shape_ok s1) by (eapply geom_only_shape; eauto; now split).
  assert (Hstack1 : stack_ok s1) by (eapply geom_only_stack; eauto).
  assert (Hlive1 : sel_live s1) by (eapply geom_only_sel_live; eauto).
  destruct (focus_None_spec s1 Hshape1 Hstack1 Hlive1)
    as (s2 & ? & ? & E2 & _).
  assert (A : arrange cfg scr (Some m) s
              = arrangemon cfg scr m s2).
  { unfold arrange, showhide_mon, SELVIEW. rewrite Hm. simpl. rewrite Hv.
    simpl. rewrite E1. simpl. now rewrite E2. }
  rewrite A.
  pose proof (geom_only_clients _ _ G1 Hcl) as Hcl1.
  destruct (focus_None_spec s1 Hshape1 Hstack1 Hlive1)
    as (s2' & mon1 & sv1 & E2' & Hmon1 & Hsv1 & Hsel2 & Hmons2 & Hheap2).
  rewrite E2 in E2'. injection E2' as <-.
  assert (Hgv1 : get_view s1 (selmon s1) (m_selview mon1) = Some sv1)
    by (unfold get_view; rewrite Hmon1; exact Hsv1).
  apply arrangemon_total.
  - destruct (put_view_shape s1 (selmon s1) (m_selview mon1)
                (set_v_sel (head (v_stack sv1)) sv1) Hshape1) as [Hs Ha].
    split.
    + rewrite Hsel2, Hmons2. exact Hs.
    + intros m' mon' Hm'. rewrite Hmons2 in Hm'. eauto.
  - intros m' v' vw' Hv' c Hc.
    assert (G : get_view s2 m' v'
                = get_view (put_view (selmon s1) (m_selview mon1)
                              (set_v_sel (head (v_stack sv1)) sv1) s1) m' v')
      by (unfold get_view; now rewrite Hmons2).
    rewrite G, get_view_put_view in Hv' by eauto.
    assert (Hat : at_view s1 c m' v').
    { destruct (decide (selmon s1 = m' ∧ m_selview mon1 = v'))
        as [[<- <-]|Hne].
      - injection Hv' as <-. eapply Hcl1; eauto.
      - eapply Hcl1; eauto. }
    destruct Hat as (cl & Hcl' & ? & ?).
    destruct (Hheap2 c) as [Hh|(cl0 & Hc0 & Hh)].
    + exists cl. rewrite Hh. auto.
    + rewrite Hcl' in Hc0. injection Hc0 as <-. eexists. split; [exact Hh|].
      auto.
  - destruct G1 as (Hms1 & _).
    assert (Hm1 : mons s1 !! m = Some mon) by now rewrite Hms1.
    rewrite Hmons2. destruct (decide (selmon s1 = m)) as [->|Hne].
    + rewrite (put_view_mon_eq _ _ _ _ _ Hm1). eauto.
    + rewrite put_view_mon_ne by assumption. eauto.
Qed.

End Total.

(** ** Updates that keep a state well formed *)

Lemma at_view_store (s : State) (c d : nat) (cl dl : Client)
    (m : nat) (v : nat) :
  heap s !! d = Some dl → c_mon cl = c_mon dl → c_view cl = c_view dl →
  at_view s c m v → at_view (store d cl s) c m v.
Proof.
  intros Hd Hm Hv (cl0 & Hc & ? & ?). unfold at_view. rewrite heap_store.
  destruct (decide (d = c)) as [->|Hne].
  - rewrite lookup_insert_eq. exists cl. rewrite Hc in Hd.
    injection Hd as ->. repeat split; congruence.
  - rewrite lookup_insert_ne by assumption. eauto.
Qed.

(** Rewriting a client record in place, on the same view. *)
Lemma store_wf (s : State) (d : nat) (cl dl : Client) :
  heap s !! d = Some dl → c_mon cl = c_mon dl → c_view cl = c_view dl →
  lists_ok s → lists_ok (store d cl s).
Proof.
  intros Hd Hm Hv (Hshape & Hstack & Hcl). split; [exact Hshape|]. split.
  - intros m v vw Hgv. rewrite get_view_store in Hgv.
    destruct (Hstack _ _ _ Hgv) as [Hnd Hown]. split; [exact Hnd|].
    intros c Hc. eapply at_view_store; eauto.
  - intros m v vw Hgv c Hc. rewrite get_view_store in Hgv.
    eapply at_view_store; eauto.
Qed.

(** Rewriting a view without touching its two lists. *)
Lemma put_view_wf (s : State) (m : nat) (v : nat) (vw sv : View) :
  get_view s m v = Some sv →
  v_clients vw = v_clients sv → v_stack vw = v_stack sv →
  lists_ok s → lists_ok (put_view m v vw s).
Proof.
  intros Hsv Hc Hs (Hshape & Hstack & Hcl).
  split; [now apply put_view_shape|]. split.
  - intros m' v' vw' Hgv. rewrite get_view_put_view in Hgv by eauto.
    destruct (decide (m = m' ∧ v = v')) as [[<- <-]|Hne].
    + injection Hgv as <-. rewrite Hs. apply (Hstack _ _ _ Hsv).
    + apply (Hstack _ _ _ Hgv).
  - intros m' v' vw' Hgv. rewrite get_view_put_view in Hgv by eauto.
    destruct (decide (m = m' ∧ v = v')) as [[<- <-]|Hne].
    + injection Hgv as <-. rewrite Hc. apply (Hcl _ _ _ Hsv).
    + apply (Hcl _ _ _ Hgv).
Qed.

Lemma wf_selview (s : State) (m : nat) (mon : Monitor) :
  lists_ok s → mons s !! m = Some mon →
  ∃ sv, m_views mon !! m_selview mon = Some sv
        ∧ get_view s m (m_selview mon) = Some sv.
Proof.
  intros ([_ Hall] & _) Hm. destruct (Hall _ _ Hm) as [Hlen Hlt].
  destruct (lookup_lt_is_Some_2 (m_views mon) (m_selview mon)) as [sv Hsv];
    [now rewrite Hlen|].
  exists sv. split; [exact Hsv|]. unfold get_view. now rewrite Hm.
Qed.

(** *** The selection stays allocated *)

Lemma head_live (s : State) :
  stack_ok s → sel_is_head s (selmon s) → sel_live s.
Proof.
  intros Hst (vw & Hvw & Hh) sv c Hsv Hc. rewrite Hvw in Hsv.
  injection Hsv as <-. destruct Hh as [Hh|Hh]; [congruence|].
  unfold SELVIEW in Hvw.
  destruct (mons s !! selmon s) as [mon|] eqn:Hmon; [|discriminate].
  assert (Hgv : get_view s (selmon s) (m_selview mon) = Some vw)
    by (unfold get_view; rewrite Hmon; exact Hvw).
  destruct (Hst _ _ _ Hgv) as [_ Hown].
  destruct (Hown c) as (cl & Hcl & _); [|eauto].
  rewrite Hc in Hh. destruct (v_stack vw); [discriminate|].
  injection Hh as ->. now left.
Qed.

Lemma head_wf (s : State) :
  lists_ok s → sel_is_head s (selmon s) → wf s.
Proof. intros H Hh. split; [exact H|]. apply head_live; [apply H|exact Hh]. Qed.

Lemma sel_live_store (s : State) (d : nat) (cl : Client) :
  sel_live s → sel_live (store d cl s).
Proof.
  intros Hl sv c Hsv Hc. rewrite heap_store.
  destruct (decide (d = c)) as [->|Hne].
  - rewrite lookup_insert_eq. eauto.
  - rewrite lookup_insert_ne by assumption. eapply Hl; eauto.
Qed.

Lemma sel_live_put_view (s : State) (m v : nat) (vw sv : View) :
  get_view s m v = Some sv →
  (∀ c, v_sel vw = Some c → is_Some (heap s !! c)) →
  sel_live s → sel_live (put_view m v vw s).
Proof.
  intros Hsv Hvw Hl sv' c Hsv' Hc. rewrite heap_put_view.
  rewrite selmon_put_view, SELVIEW_put_view in Hsv' by eauto.
  destruct (mons s !! selmon s) as [mon|] eqn:Hmon; [|discriminate].
  cbn [mbind option_bind] in Hsv'.
  destruct (decide (m = selmon s ∧ v = m_selview mon)) as [_|_].
  - injection Hsv' as <-. auto.
  - eapply Hl; [|exact Hc]. unfold SELVIEW. rewrite Hmon. exact Hsv'.
Qed.

(** Rewriting a view without touching its selection. *)
Lemma sel_live_put_view_sel (s : State) (m v : nat) (vw sv : View) :
  get_view s m v = Some sv → v_sel vw = v_sel sv →
  sel_live s → sel_live (put_view m v vw s).
Proof.
  intros Hsv Hvw Hl sv' c Hsv' Hc. rewrite heap_put_view.
  rewrite selmon_put_view, SELVIEW_put_view in Hsv' by eauto.
  destruct (mons s !! selmon s) as [mon|] eqn:Hmon; [|discriminate].
  cbn [mbind option_bind] in Hsv'.
  destruct (decide (m = selmon s ∧ v = m_selview mon)) as [[-> ->]|_].
  - injection Hsv' as <-. eapply Hl; [|rewrite <- Hvw; exact Hc].
    unfold SELVIEW. rewrite Hmon. unfold get_view in Hsv.
    now rewrite Hmon in Hsv.
  - eapply Hl; [|exact Hc]. unfold SELVIEW. rewrite Hmon. exact Hsv'.
Qed.

(** Whenever [arrange] returns, the state is one the event loop can
    take. *)
Lemma arrange_wf (cfg : Config) (scr : Screen) (mo : option MonitorPtr)
    (s s' : State) :
  lists_ok s → arrange cfg scr mo s = Some s' → wf s'.
Proof.
  intros (Hshape & Hstack & Hcl) H.
  destruct (arrange_inv cfg scr mo s s' Hshape Hstack H)
    as (_ & Hh & Hshape' & Hstack' & Hcl').
  apply head_wf; [|exact Hh]. split; [exact Hshape'|]. split; auto.
Qed.

(** ** The master fraction *)

(** The range test of [setmfact], [0.1 <= f && f <= 0.9], with the
    [double] literals of the source. *)
Definition mfact_ok (f : float) : bool :=
  leb d0_1 (to_double f) && leb (to_double f) d0_9.

Definition all_mfact_ok (s : State) : Prop :=
  ∀ m v vw, get_view s m v = Some vw → mfact_ok (v_mfact vw) = true.

(** The deltas that [setmfact] accepts on a view. *)
Definition mfact_delta_ok (d : float) (sv : View) : bool :=
  ltb dm1_0 (to_double d) && ltb (to_double d) d1_0
  && bool_decide (is_Some (lt_arrange (v_lt sv)))
  && mfact_ok (add32 d (v_mfact sv)).

Module MfactExample.
Import Scenario.

(** The first view of the screen switched to the floating layout. *)
Definition floating_view : State :=
  put_view 0%nat 0%nat
    (set_v_lt lt_floating (selview_at 0%nat two_tiled_state)) two_tiled_state.

(** The delta [0.05]. *)
Definition step : float := lit32 5 100.

End MfactExample.

Example mfact_ok_default : mfact_ok (lit32 55 100) = true.
Proof. reflexivity. Qed.

Example mfact_ok_bounds :
  mfact_ok (lit32 1 10) = true ∧ mfact_ok (lit32 9 10) = true
  ∧ mfact_ok (lit32 95 100) = false ∧ mfact_ok (lit32 5 100) = false.
Proof. repeat split. Qed.

Section Mfact.

Variable cfg : Config.
Variable scr : Screen.

(** C6, without the case the code sets apart: a fraction in range in
    [config.h] puts every view of a new monitor in range, [setmfact]
    keeps every view of every monitor in range, it returns, and it
    changes the state only for a delta strictly between -1 and 1 whose
    single-precision sum with the fraction of the selected view is in
    range while that view has an arranger; then the fraction becomes
    that sum. *)
Theorem setmfact_in_range (s : State) (arg : option float) :
  mfact_ok (mfact cfg) = true →
  wf s → all_mfact_ok s →
  Forall (λ vw, mfact_ok (v_mfact vw) = true) (m_views (createmon cfg))
  ∧ ∃ s' mon sv,
      setmfact cfg scr arg s = Some s'
      ∧ mons s !! selmon s = Some mon
      ∧ m_views mon !! m_selview mon = Some sv
      ∧ all_mfact_ok s'
      ∧ match arg with
        | Some d =>
            if mfact_delta_ok d sv
            then v_mfact <$> get_view s' (selmon s) (m_selview mon)
                 = Some (add32 d (v_mfact sv))
            else s' = s
        | None => s' = s
        end.
Proof.
  intros Hcfg [Hwf Hlive] Hok. split.
  { simpl. repeat constructor; exact Hcfg. }
  pose proof Hwf as (Hshape & Hstack & Hcl).
  destruct (proj1 Hshape) as [mon Hmon].
  destruct (wf_selview s _ mon Hwf Hmon) as (sv & Hsv & Hgv).
  assert (HS : SELVIEW s (selmon s) = Some sv)
    by (unfold SELVIEW; rewrite Hmon; exact Hsv).
  enough (∃ s', setmfact cfg scr arg s = Some s' ∧ all_mfact_ok s'
            ∧ match arg with
              | Some d =>
                  if mfact_delta_ok d sv
                  then v_mfact <$> get_view s' (selmon s) (m_selview mon)
                       = Some (add32 d (v_mfact sv))
                  else s' = s
              | None => s' = s
              end) as (s' & ? & ? & ?) by (exists s', mon, sv; auto).
  unfold setmfact, mfact_delta_ok, mfact_ok.
  destruct arg as [d|]; [|exists s; auto].
  destruct (ltb dm1_0 (to_double d) && ltb (to_double d) d1_0); simpl;
    [|exists s; auto].
  rewrite HS. simpl.
  destruct (bool_decide (is_Some (lt_arrange (v_lt sv)))); simpl;
    [|exists s; auto].
  set (f := add32 d (v_mfact sv)).
  destruct (leb d0_1 (to_double f) && leb (to_double f) d0_9) eqn:Hf;
    [|exists s; auto].
  rewrite Hmon. simpl.
  set (s1 := put_view (selmon s) (m_selview mon) (set_v_mfact f sv) s).
  assert (Hwf1 : lists_ok s1) by (eapply put_view_wf; eauto).
  assert (Hlive1 : sel_live s1)
    by (eapply sel_live_put_view_sel; eauto).
  destruct (arrange_total cfg scr (selmon s) s1 Hwf1 Hlive1) as [s' E].
  { unfold s1. rewrite (put_view_mon_eq _ _ _ _ _ Hmon). eauto. }
  destruct Hwf1 as (Hshape1 & Hstack1 & _).
  destruct (arrange_inv cfg scr _ _ _ Hshape1 Hstack1 E) as (A & _).
  exists s'. split; [exact E|]. split.
  - intros m v vw Hv. pose proof (arranged_mfact s1 s' m v A) as Hmf.
    rewrite Hv in Hmf. simpl in Hmf. unfold s1 in Hmf.
    rewrite get_view_put_view in Hmf by eauto.
    destruct (decide (selmon s = m ∧ m_selview mon = v)) as [_|_].
    + simpl in Hmf. injection Hmf as ->. exact Hf.
    + destruct (get_view s m v) as [vw0|] eqn:Hv0; [|discriminate].
      simpl in Hmf. injection Hmf as ->. eapply Hok; eauto.
  - rewrite (arranged_mfact s1 s' _ _ A). unfold s1.
    rewrite get_view_put_view by eauto. now rewrite decide_True.
Qed.

End Mfact.

(** ** Checking a concrete state *)

Fixpoint all_idx {A : Type} (p : nat → A → bool) (i : nat) (l : list A)
    : bool :=
  match l with
  | [] => true
  | x :: l' => p i x && all_idx p (S i) l'
  end.

Definition at_viewb (s : State) (m v : nat) (c : nat) : bool :=
  match heap s !! c with
  | Some cl => bool_decide (c_mon cl = m) && bool_decide (c_view cl = v)
  | None => false
  end.

Definition view_okb (s : State) (m v : nat) (vw : View) : bool :=
  bool_decide (NoDup (v_stack vw))
  && forallb (at_viewb s m v) (v_stack vw)
  && forallb (at_viewb s m v) (v_clients vw)
  && mfact_ok (v_mfact vw).

Definition mon_okb (s : State) (m : nat) (mon : Monitor) : bool :=
  bool_decide (length (m_views mon) = NUMVIEWS)
  && bool_decide (m_selview mon < NUMVIEWS)%nat
  && all_idx (view_okb s m) 0 (m_views mon).

(** A boolean test for [lists_ok] and [all_mfact_ok] together. *)
Definition lists_okb (s : State) : bool :=
  bool_decide (is_Some (mons s !! selmon s)) && all_idx (mon_okb s) 0 (mons s).

Definition sel_liveb (s : State) : bool :=
  match SELVIEW s (selmon s) with
  | Some sv =>
      match v_sel sv with
      | Some c => bool_decide (is_Some (heap s !! c))
      | None => true
      end
  | None => true
  end.

(** A boolean test for [wf] and [all_mfact_ok] together. *)
Definition wfb (s : State) : bool := lists_okb s && sel_liveb s.

Lemma all_idx_lookup {A : Type} (p : nat → A → bool) (l : list A) :
  ∀ i, all_idx p i l = true →
       ∀ j x, l !! j = Some x → p (i + j)%nat x = true.
Proof.
  induction l as [|y l IH]; intros i H j x Hj; [discriminate|].
  simpl in H. apply andb_true_iff in H as [Hy Hl].
  destruct j as [|j]; simpl in Hj.
  - injection Hj as <-. now rewrite Nat.add_0_r.
  - rewrite Nat.add_succ_r. apply (IH (S i) Hl j x Hj).
Qed.

Lemma at_viewb_sound (s : State) (m v c : nat) :
  at_viewb s m v c = true → at_view s c m v.
Proof.
  unfold at_viewb, at_view. destruct (heap s !! c) as [cl|]; [|discriminate].
  intros H. apply andb_true_iff in H as [H1 H2].
  apply bool_decide_eq_true in H1, H2. eauto.
Qed.

Lemma forallb_at_view (s : State) (m v : nat) (l : list nat) :
  forallb (at_viewb s m v) l = true → ∀ c, c ∈ l → at_view s c m v.
Proof.
  intros H c Hc. apply at_viewb_sound.
  rewrite forallb_forall in H. apply H. now apply list_elem_of_In.
Qed.

Lemma lists_okb_view (s : State) (m v : nat) (vw : View) :
  lists_okb s = true → get_view s m v = Some vw → view_okb s m v vw = true.
Proof.
  unfold lists_okb, get_view. intros H Hv. apply andb_true_iff in H as [_ H].
  destruct (mons s !! m) as [mon|] eqn:Hm; [|discriminate]. simpl in Hv.
  pose proof (all_idx_lookup _ _ _ H _ _ Hm) as Hmon. simpl in Hmon.
  unfold mon_okb in Hmon. apply andb_true_iff in Hmon as [_ Hviews].
  exact (all_idx_lookup _ _ _ Hviews _ _ Hv).
Qed.

Lemma lists_okb_sound (s : State) :
  lists_okb s = true → lists_ok s ∧ all_mfact_ok s.
Proof.
  intros H. split; [split; [|split]|].
  - pose proof H as H0. unfold lists_okb in H0.
    apply andb_true_iff in H0 as [Hsel Hall].
    apply bool_decide_eq_true in Hsel. split; [exact Hsel|].
    intros m mon Hm.
    pose proof (all_idx_lookup _ _ _ Hall _ _ Hm) as Hmon. simpl in Hmon.
    unfold mon_okb in Hmon.
    apply andb_true_iff in Hmon as [Hmon _].
    apply andb_true_iff in Hmon as [H1 H2].
    apply bool_decide_eq_true in H1, H2. auto.
  - intros m v vw Hv. pose proof (lists_okb_view s m v vw H Hv) as Hok.
    unfold view_okb in Hok. repeat (apply andb_true_iff in Hok as [Hok ?]).
    apply bool_decide_eq_true in Hok. split; [exact Hok|].
    now apply forallb_at_view.
  - intros m v vw Hv. pose proof (lists_okb_view s m v vw H Hv) as Hok.
    unfold view_okb in Hok. repeat (apply andb_true_iff in Hok as [Hok ?]).
    now apply forallb_at_view.
  - intros m v vw Hv. pose proof (lists_okb_view s m v vw H Hv) as Hok.
    unfold view_okb in Hok. now apply andb_true_iff in Hok as [_ ?].
Qed.

Lemma sel_liveb_sound (s : State) : sel_liveb s = true → sel_live s.
Proof.
  unfold sel_liveb. intros H sv c Hsv Hc. rewrite Hsv, Hc in H.
  now apply bool_decide_eq_true in H.
Qed.

Lemma wfb_lists_ok (s : State) : wfb s = true → lists_ok s.
Proof.
  intros H. apply andb_true_iff in H as [H _]. apply (lists_okb_sound s H).
Qed.

Lemma wfb_wf (s : State) : wfb s = true → wf s.
Proof.
  intros H. split; [now apply wfb_lists_ok|].
  apply andb_true_iff in H as [_ H]. now apply sel_liveb_sound.
Qed.

Lemma wfb_mfact (s : State) : wfb s = true → all_mfact_ok s.
Proof.
  intros H. apply andb_true_iff in H as [H _]. apply (lists_okb_sound s H).
Qed.

(** The state of [Scenario.two_tiled] and the delta [0.05]: the sum
    [0.6] is in range and becomes the fraction of the selected view. *)
Lemma setmfact_in_range_witness :
  let s := Scenario.two_tiled_state in
  Forall (λ vw, mfact_ok (v_mfact vw) = true)
    (m_views (createmon Scenario.cfg))
  ∧ ∃ s' mon sv,
      setmfact Scenario.cfg Scenario.scr (Some MfactExample.step) s = Some s'
      ∧ mons s !! selmon s = Some mon
      ∧ m_views mon !! m_selview mon = Some sv
      ∧ all_mfact_ok s'
      ∧ (if mfact_delta_ok MfactExample.step sv
         then v_mfact <$> get_view s' (selmon s) (m_selview mon)
              = Some (add32 MfactExample.step (v_mfact sv))
         else s' = s).
Proof.
  intros s.
  apply (setmfact_in_range Scenario.cfg Scenario.scr s
           (Some MfactExample.step)).
  - reflexivity.
  - apply wfb_wf. by_compute.
  - apply wfb_mfact. by_compute.
Defined.

(** C6 as stated fails under the floating layout: the delta [0.05] is
    valid on the fraction [0.55], yet [setmfact] leaves the fraction
    (and the state) as it is. *)
Lemma setmfact_floating_ignored :
  let s := MfactExample.floating_view in
  let d := MfactExample.step in
  ∃ sv,
    SELVIEW s (selmon s) = Some sv
    ∧ v_mfact sv = lit32 55 100
    ∧ mfact_ok (add32 d (v_mfact sv)) = true
    ∧ setmfact Scenario.cfg Scenario.scr (Some d) s = Some s
    ∧ add32 d (v_mfact sv) ≠ v_mfact sv.
Proof.
  intros s d.
  exists (set_v_lt Scenario.lt_floating
            (Scenario.selview_at 0%nat Scenario.two_tiled_state)).
  repeat split; try by_compute. vm_compute. discriminate.
Qed.

(** ** Lookup by window *)

Lemma find_win_total (hp : gmap nat Client) (w : Window) (l : list nat) :
  (∀ c, c ∈ l → is_Some (hp !! c)) → is_Some (find_win hp w l).
Proof.
  induction l as [|c l IH]; intros H; simpl; [eauto|].
  destruct (H c) as [cl ->]; [now left|]. simpl.
  destruct (decide (w = c_win cl)); [eauto|].
  apply IH. intros d Hd. apply H. now right.
Qed.

Lemma find_win_found (hp : gmap nat Client) (w : Window) (l : list nat)
    (c : nat) :
  find_win hp w l = Some (Some c) →
  c ∈ l ∧ ∃ cl, hp !! c = Some cl ∧ c_win cl = w.
Proof.
  induction l as [|d l IH]; simpl; intros H; [discriminate|].
  destruct (hp !! d) as [dl|] eqn:Hd; [|discriminate]. simpl in H.
  destruct (decide (w = c_win dl)) as [->|Hne].
  - injection H as <-. split; [now left|eauto].
  - destruct (IH H) as [Hc Hcl]. split; [now right|exact Hcl].
Qed.

Lemma find_win_ext (hp hp' : gmap nat Client) (w : Window) (l : list nat) :
  (∀ c, c_win <$> hp' !! c = c_win <$> hp !! c) →
  find_win hp' w l = find_win hp w l.
Proof.
  intros H. induction l as [|c l IH]; simpl; [reflexivity|].
  specialize (H c).
  destruct (hp !! c) as [cl|], (hp' !! c) as [cl'|]; simpl in *;
    try discriminate; [|reflexivity].
  injection H as ->. now rewrite IH.
Qed.

Lemma find_win_views_total (hp : gmap nat Client) (w : Window)
    (vs : list View) (ix : list nat) :
  (∀ i, i ∈ ix → ∃ vw, vs !! i = Some vw
                       ∧ ∀ c, c ∈ v_clients vw → is_Some (hp !! c)) →
  is_Some (find_win_views hp w vs ix).
Proof.
  induction ix as [|i ix IH]; intros H; simpl; [eauto|].
  destruct (H i) as (vw & -> & Hvw); [now left|]. simpl.
  destruct (find_win_total hp w _ Hvw) as [[c|] ->]; simpl; [eauto|].
  apply IH. intros j Hj. apply H. now right.
Qed.

Lemma find_win_views_found (hp : gmap nat Client) (w : Window)
    (vs : list View) (ix : list nat) (c : nat) :
  find_win_views hp w vs ix = Some (Some c) →
  ∃ i vw cl, vs !! i = Some vw ∧ c ∈ v_clients vw
             ∧ hp !! c = Some cl ∧ c_win cl = w.
Proof.
  induction ix as [|i ix IH]; simpl; intros H; [discriminate|].
  destruct (vs !! i) as [vw|] eqn:Hv; [|discriminate]. simpl in H.
  destruct (find_win hp w (v_clients vw)) as [[d|]|] eqn:Hf;
    [| |discriminate]; simpl in H.
  - injection H as <-. apply find_win_found in Hf as (Hd & cl & Hcl & Hw).
    eauto 10.
  - auto.
Qed.

Lemma find_win_views_ext (hp hp' : gmap nat Client) (w : Window)
    (vs : list View) (ix : list nat) :
  (∀ c, c_win <$> hp' !! c = c_win <$> hp !! c) →
  find_win_views hp' w vs ix = find_win_views hp w vs ix.
Proof.
  intros H. induction ix as [|i ix IH]; simpl; [reflexivity|].
  destruct (vs !! i) as [vw|]; simpl; [|reflexivity].
  rewrite (find_win_ext hp hp' w _ H).
  destruct (find_win hp w (v_clients vw)) as [[d|]|]; simpl; auto.
Qed.

Lemma find_win_mons_ext (hp hp' : gmap nat Client) (w : Window)
    (ms : list Monitor) :
  (∀ c, c_win <$> hp' !! c = c_win <$> hp !! c) →
  find_win_mons hp' w ms = find_win_mons hp w ms.
Proof.
  intros H. induction ms as [|m ms IH]; [reflexivity|].
  cbn [find_win_mons]. rewrite (find_win_views_ext hp hp' w _ _ H).
  destruct (find_win_views hp w (m_views m) (seq 0 NUMVIEWS)) as [[d|]|];
    cbn [mbind option_bind]; auto.
Qed.

(** [wintoclient] only reads the client lists and the [win] fields. *)
Lemma wintoclient_ext (s s' : State) (w : Window) :
  (∀ m v, v_clients <$> get_view s' m v = v_clients <$> get_view s m v) →
  length (mons s') = length (mons s) →
  (∀ m mon mon', mons s !! m = Some mon → mons s' !! m = Some mon' →
     length (m_views mon') = length (m_views mon)) →
  (∀ c, c_win <$> heap s' !! c = c_win <$> heap s !! c) →
  wintoclient s' w = wintoclient s w.
Proof.
  intros Hv Hlen Hlens Hh. unfold wintoclient.
  rewrite (find_win_mons_ext (heap s) (heap s') w _ Hh).
  assert (G : ∀ m i, (mons s' !! m ≫= λ mon, v_clients <$> m_views mon !! i)
                     = (mons s !! m ≫= λ mon, v_clients <$> m_views mon !! i)).
  { intros m i. specialize (Hv m i). unfold get_view in Hv.
    destruct (mons s' !! m), (mons s !! m); simpl in *; auto. }
  revert G Hlen. generalize (mons s) (mons s').
  intros ms. induction ms as [|mon ms IH]; intros [|mon' ms'] G Hlen;
    try discriminate; [reflexivity|]. cbn [find_win_mons].
  assert (Hsame : ∀ ix, find_win_views (heap s) w (m_views mon') ix
                        = find_win_views (heap s) w (m_views mon) ix).
  { intros ix. induction ix as [|i ix IHix]; simpl; [reflexivity|].
    specialize (G 0%nat i). simpl in G.
    destruct (m_views mon' !! i) as [vw'|], (m_views mon !! i) as [vw|];
      simpl in *; try discriminate; [|reflexivity].
    injection G as ->. rewrite IHix. reflexivity. }
  rewrite Hsame.
  destruct (find_win_views (heap s) w (m_views mon) (seq 0 NUMVIEWS))
    as [[d|]|]; cbn [mbind option_bind]; auto.
  apply IH; [|simpl in Hlen; lia].
  intros m i. exact (G (S m) i).
Qed.

Lemma wintoclient_total (s : State) (w : Window) :
  lists_ok s → is_Some (wintoclient s w).
Proof.
  intros (Hshape & _ & Hcl). unfold wintoclient.
  assert (H : ∀ m mon, mons s !! m = Some mon →
                length (m_views mon) = NUMVIEWS
                ∧ ∀ v vw, m_views mon !! v = Some vw →
                    ∀ c, c ∈ v_clients vw → is_Some (heap s !! c)).
  { intros m mon Hm. split; [apply (proj2 Hshape _ _ Hm)|].
    intros v vw Hv c Hc.
    destruct (Hcl m v vw) with (c := c) as (cl & -> & _); eauto.
    unfold get_view. now rewrite Hm. }
  clear Hshape Hcl. revert H. generalize (mons s). intros ms.
  induction ms as [|mon ms IH]; intros H; [simpl; eauto|].
  cbn [find_win_mons].
  destruct (H 0%nat mon eq_refl) as [Hlen Hviews].
  destruct (find_win_views_total (heap s) w (m_views mon) (seq 0 NUMVIEWS))
    as [[c|] ->]; cbn [mbind option_bind]; eauto.
  - intros i Hi. apply elem_of_seq in Hi.
    destruct (lookup_lt_is_Some_2 (m_views mon) i) as [vw Hvw];
      [rewrite Hlen; lia|].
    exists vw. split; [exact Hvw|]. eauto.
  - apply IH. intros m mon' Hm. exact (H (S m) mon' Hm).
Qed.

Lemma wintoclient_found (s : State) (w : Window) (c : nat) :
  lists_ok s → wintoclient s w = Some (Some c) →
  ∃ cl vw, heap s !! c = Some cl ∧ c_win cl = w
           ∧ get_view s (c_mon cl) (c_view cl) = Some vw
           ∧ c ∈ v_clients vw.
Proof.
  intros (_ & _ & Hcl) H. unfold wintoclient in H.
  assert (G : ∃ m mon i vw cl, mons s !! m = Some mon
                ∧ m_views mon !! i = Some vw ∧ c ∈ v_clients vw
                ∧ heap s !! c = Some cl ∧ c_win cl = w).
  { revert H. generalize (mons s). intros ms.
    induction ms as [|mon ms IH]; intros H; [discriminate|].
    cbn [find_win_mons] in H.
    destruct (find_win_views (heap s) w (m_views mon) (seq 0 NUMVIEWS))
      as [[d|]|] eqn:Hf; [| |discriminate]; cbn [mbind option_bind] in H.
    - injection H as <-.
      apply find_win_views_found in Hf as (i & vw & cl & ? & ? & ? & ?).
      exists 0%nat, mon, i, vw, cl. auto.
    - destruct (IH H) as (m & mon' & i & vw & cl & ? & ?).
      exists (S m), mon', i, vw, cl. auto. }
  destruct G as (m & mon & i & vw & cl & Hm & Hv & Hc & Hh & Hw).
  assert (Hgv : get_view s m i = Some vw)
    by (unfold get_view; now rewrite Hm).
  destruct (Hcl _ _ _ Hgv c Hc) as (cl' & Hh' & <- & <-).
  rewrite Hh in Hh'. injection Hh' as <-. exists cl, vw. auto.
Qed.

(** ** Managing a window *)

Lemma malloc_fresh (s : State) : heap s !! malloc s = None.
Proof. apply not_elem_of_dom. unfold malloc. apply is_fresh. Qed.

Lemma at_view_store_fresh (s : State) (c d : nat) (cl : Client) (m v : nat) :
  heap s !! c = None → at_view s d m v → at_view (store c cl s) d m v.
Proof.
  intros Hc (dl & Hd & ? & ?). exists dl. rewrite heap_store.
  rewrite lookup_insert_ne by congruence. auto.
Qed.

(** A new client record linked at the head of both lists of its view. *)
Lemma insert_wf (s : State) (c : nat) (cl : Client) (sv : View) :
  lists_ok s → heap s !! c = None →
  get_view s (c_mon cl) (c_view cl) = Some sv →
  let s3 := put_view (c_mon cl) (c_view cl)
              (set_v_stack (c :: v_stack sv)
                 (set_v_clients (c :: v_clients sv) sv))
              (store c cl s) in
  (s1 ← attach c (store c cl s); attachstack c s1) = Some s3 ∧ lists_ok s3.
Proof.
  intros (Hshape & Hstack & Hcl) Hc Hsv s3. split.
  - assert (Hfresh : ∀ m v vw, get_view s m v = Some vw →
                       (c ∉ v_clients vw) ∧ (c ∉ v_stack vw)).
    { intros m v vw Hv. split; intros Hin.
      - destruct (Hcl _ _ _ Hv c Hin) as (? & ? & _). congruence.
      - destruct (Hstack _ _ _ Hv) as [_ Hown].
        destruct (Hown c Hin) as (? & ? & _). congruence. }
    erewrite attach_eq;
      [|rewrite heap_store; apply lookup_insert_eq
       |rewrite get_view_store; exact Hsv
       |intros m v vw Hv; rewrite get_view_store in Hv;
        apply (Hfresh _ _ _ Hv)].
    cbn [mbind option_bind].
    erewrite attachstack_eq;
      [|rewrite heap_put_view, heap_store; apply lookup_insert_eq
       |rewrite get_view_put_view by (rewrite get_view_store; eauto);
        now rewrite decide_True
       |].
    + now rewrite put_view_put_view.
    + intros m v vw Hv.
      rewrite get_view_put_view in Hv by (rewrite get_view_store; eauto).
      destruct (decide (c_mon cl = m ∧ c_view cl = v)) as [_|_].
      * injection Hv as <-. apply (Hfresh _ _ _ Hsv).
      * rewrite get_view_store in Hv. apply (Hfresh _ _ _ Hv).
  - assert (Hnew : at_view s3 c (c_mon cl) (c_view cl)).
    { exists cl. unfold s3. rewrite heap_put_view, heap_store.
      now rewrite lookup_insert_eq. }
    assert (Hold : ∀ d m v, at_view s d m v → at_view s3 d m v).
    { intros d m v H. now apply at_view_store_fresh. }
    assert (Hgv : ∀ m v, get_view s3 m v
                         = if decide (c_mon cl = m ∧ c_view cl = v)
                           then Some (set_v_stack (c :: v_stack sv)
                                        (set_v_clients (c :: v_clients sv) sv))
                           else get_view s m v).
    { intros m v. unfold s3.
      now rewrite get_view_put_view by (rewrite get_view_store; eauto). }
    split; [|split].
    + unfold s3. apply put_view_shape. exact Hshape.
    + intros m v vw Hv. rewrite Hgv in Hv.
      destruct (decide (c_mon cl = m ∧ c_view cl = v)) as [[<- <-]|Hne].
      * injection Hv as <-. simpl. destruct (Hstack _ _ _ Hsv) as [Hnd Hown].
        split.
        -- apply NoDup_cons. split; [|exact Hnd]. intros Hin.
           destruct (Hown c Hin) as (? & Hc' & _). congruence.
        -- intros d Hd. apply elem_of_cons in Hd as [->|Hd]; auto.
      * destruct (Hstack _ _ _ Hv) as [Hnd Hown]. split; auto.
    + intros m v vw Hv d Hd. rewrite Hgv in Hv.
      destruct (decide (c_mon cl = m ∧ c_view cl = v)) as [[<- <-]|Hne].
      * injection Hv as <-. simpl in Hd.
        apply elem_of_cons in Hd as [->|Hd]; [auto|].
        apply Hold. eapply Hcl; eauto.
      * apply Hold. eapply Hcl; eauto.
Qed.

Section Manage.

Variable cfg : Config.
Variable scr : Screen.

(** The monitor that [manage] picks for the new client. *)
Lemma manage_monitor (s : State) (transient : option Window) :
  lists_ok s →
  ∃ mp mon,
    mons s !! mp = Some mon
    ∧ ∀ K : nat → Monitor → option State,
        (t ← match transient with
             | Some tw => wintoclient s tw
             | None => Some None
             end;
         mp' ← match t with
               | Some tp => tcl ← heap s !! tp; Some (c_mon tcl)
               | None => Some (selmon s)
               end;
         mon' ← mons s !! mp'; K mp' mon') = K mp mon.
Proof.
  intros Hwf. pose proof Hwf as ([[smon Hsmon] _] & _).
  assert (Hnone : ∃ mp mon, mons s !! mp = Some mon
            ∧ ∀ K : nat → Monitor → option State,
                (mp' ← Some (selmon s); mon' ← mons s !! mp'; K mp' mon')
                = K mp mon).
  { exists (selmon s), smon. split; [exact Hsmon|]. intros K. simpl.
    now rewrite Hsmon. }
  destruct transient as [tw|]; [|exact Hnone].
  destruct (wintoclient_total s tw Hwf) as [[tp|] Ht]; rewrite Ht;
    [|exact Hnone].
  destruct (wintoclient_found s tw tp Hwf Ht) as (tcl & vw & Htp & _ & Hv & _).
  destruct (get_view_mon s _ _ (ex_intro _ vw Hv)) as [mon Hmon].
  exists (c_mon tcl), mon. split; [exact Hmon|]. intros K. simpl.
  rewrite Htp. simpl. now rewrite Hmon.
Qed.

(** The new client record as [manage] fills it in before linking it. *)
Definition manage_record (w : Window) (wa : XWindowAttributes)
    (transient : option Window) (normal : option XSizeHints)
    (mp : nat) (mon : Monitor) : Client :=
  let cl := set_c_view (m_selview mon) (set_c_mon mp (set_c_win w cz)) in
  let cl := manage_geometry cfg scr wa mon cl in
  let cl := updatesizehints_client normal cl in
  if negb (c_isfloating cl) then
    let b := negb (default 0 transient =? 0) || c_isfixed cl in
    set_c_isfloating b (set_c_oldstate b cl)
  else cl.

Lemma manage_geometry_spec (wa : XWindowAttributes) (m : Monitor)
    (c : Client) :
  let c' := manage_geometry cfg scr wa m c in
  c_mon c' = c_mon c ∧ c_view c' = c_view c ∧ c_win c' = c_win c
  ∧ (if (wa_width wa =? m_mw m) && (wa_height wa =? m_mh m)
     then c_isfloating c' = true ∧ c_bw c' = 0
          ∧ c_x c' = m_mx m ∧ c_y c' = m_my m
     else c_bw c' = borderpx cfg).
Proof.
  unfold manage_geometry, c_x, c_y, c_w, c_h. destruct c. simpl.
  destruct ((wa_width wa =? m_mw m) && (wa_height wa =? m_mh m)); simpl;
    repeat split.
Qed.

Lemma updatesizehints_client_spec (reply : option XSizeHints) (c : Client) :
  let c' := updatesizehints_client reply c in
  c_rect c' = c_rect c ∧ c_old c' = c_old c ∧ c_bw c' = c_bw c
  ∧ c_oldbw c' = c_oldbw c ∧ c_isfloating c' = c_isfloating c
  ∧ c_isurgent c' = c_isurgent c ∧ c_oldstate c' = c_oldstate c
  ∧ c_mon c' = c_mon c ∧ c_view c' = c_view c ∧ c_win c' = c_win c.
Proof.
  unfold updatesizehints_client.
  repeat match goal with
         | |- context [let '(_, _) := ?e in _] => destruct e
         end.
  simpl. repeat split.
Qed.

Lemma manage_record_spec (w : Window) (wa : XWindowAttributes)
    (transient : option Window) (normal : option XSizeHints)
    (mp : nat) (mon : Monitor) :
  let cl := manage_record w wa transient normal mp mon in
  c_mon cl = mp ∧ c_view cl = m_selview mon ∧ c_win cl = w
  ∧ (c_isfixed cl = true → c_isfloating cl = true)
  ∧ (if (wa_width wa =? m_mw mon) && (wa_height wa =? m_mh mon)
     then c_isfloating cl = true ∧ c_bw cl = 0
          ∧ c_x cl = m_mx mon ∧ c_y cl = m_my mon
     else c_bw cl = borderpx cfg).
Proof.
  unfold manage_record.
  set (c0 := set_c_view (m_selview mon) (set_c_mon mp (set_c_win w cz))).
  pose proof (manage_geometry_spec wa mon c0) as (G1 & G2 & G3 & G4).
  set (c1 := manage_geometry cfg scr wa mon c0) in *.
  pose proof (updatesizehints_client_spec normal c1)
    as (U1 & U2 & U3 & U4 & U5 & U6 & U7 & U8 & U9 & U10).
  set (c2 := updatesizehints_client normal c1) in *.
  assert (Hxy : c_x c2 = c_x c1 ∧ c_y c2 = c_y c1)
    by (unfold c_x, c_y; now rewrite U1).
  destruct Hxy as [Hx Hy].
  destruct (c_isfloating c2) eqn:Hf; simpl.
  - rewrite U8, U9, U10, G1, G2, G3. repeat split; auto.
    destruct ((wa_width wa =? m_mw mon) && (wa_height wa =? m_mh mon)).
    + destruct G4 as (? & ? & ? & ?). repeat split; congruence.
    + congruence.
  - rewrite U8, U9, U10, G1, G2, G3. repeat split; auto.
    + intros ->. apply orb_true_r.
    + destruct ((wa_width wa =? m_mw mon) && (wa_height wa =? m_mh mon)).
      * destruct G4 as (? & ? & ? & ?). congruence.
      * congruence.
Qed.

(** [manage] is the linking of [manage_record] followed by [arrange]. *)
Lemma manage_eq (s : State) (w : Window) (wa : XWindowAttributes)
    (transient : option Window) (normal : option XSizeHints) :
  lists_ok s →
  ∃ mp mon sv s3,
    mons s !! mp = Some mon
    ∧ get_view s mp (m_selview mon) = Some sv
    ∧ s3 = put_view mp (m_selview mon)
             (set_v_stack (malloc s :: v_stack sv)
                (set_v_clients (malloc s :: v_clients sv) sv))
             (store (malloc s)
                (manage_record w wa transient normal mp mon) s)
    ∧ lists_ok s3
    ∧ manage cfg scr w wa transient normal s
      = arrange cfg scr (Some mp) s3.
Proof.
  intros Hwf. destruct (manage_monitor s transient Hwf) as (mp & mon & Hmon & HK).
  destruct (wf_selview s mp mon Hwf Hmon) as (sv & _ & Hsv).
  pose proof (manage_record_spec w wa transient normal mp mon)
    as (Rm & Rv & _).
  set (cl := manage_record w wa transient normal mp mon) in *.
  destruct (insert_wf s (malloc s) cl sv Hwf (malloc_fresh s)) as [E Hwf3].
  { now rewrite Rm, Rv. }
  rewrite Rm, Rv in E, Hwf3.
  eexists mp, mon, sv, _. split; [exact Hmon|]. split; [exact Hsv|].
  split; [reflexivity|]. split; [exact Hwf3|].
  unfold manage. rewrite HK. fold (manage_record w wa transient normal mp mon).
  fold cl.
  change (attach (malloc s) (store (malloc s) cl s) ≫=
            (λ s0, attachstack (malloc s) s0 ≫= λ s1,
               arrange cfg scr (Some mp) s1))
    with ((attach (malloc s) (store (malloc s) cl s)) ≫=
            (λ s0, attachstack (malloc s) s0 ≫= arrange cfg scr (Some mp))).
  destruct (attach (malloc s) (store (malloc s) cl s)) as [s1|];
    [|discriminate]. simpl in *.
  now rewrite E.
Qed.

End Manage.

(** ** Clients that sit at the origin of their monitor *)

(** A floating client without border on monitor [mp] whose corner is
    [(X, Y)]. *)
Definition anchored (X Y : Z) (mp : nat) (a : Client) : Prop :=
  c_isfloating a = true ∧ c_bw a = 0 ∧ c_x a = X ∧ c_y a = Y ∧ c_mon a = mp.

(** Monitor [mp] has its screen origin at [(X, Y)]. *)
Definition origin_at (X Y : Z) (mp : nat) (s : State) : Prop :=
  ∀ m, mons s !! mp = Some m →
       m_mx m = X ∧ m_my m = Y ∧ 0 <= m_mw m ∧ 0 <= m_mh m.

Section Anchor.

Variable cfg : Config.
Variable scr : Screen.
Variables X Y : Z.
Variable mp : nat.

Lemma applysizehints_anchor (cl : Client) (m : Monitor) (w h : Z) :
  c_bw cl = 0 → 0 <= m_mw m → 0 <= m_mh m →
  let r := (applysizehints cfg scr cl m (m_mx m) (m_my m) w h false).2 in
  r_x r = m_mx m ∧ r_y r = m_my m.
Proof.
  intros Hbw Hw Hh. unfold applysizehints.
  destruct (if resizehints cfg || c_isfloating cl then _ else _) as [w' h'].
  cbn [snd r_x r_y]. rewrite Hbw.
  split;
    repeat match goal with
           | |- context [?a >? ?b] => destruct (Z.gtb_spec a b)
           | |- context [?a <? ?b] => destruct (Z.ltb_spec a b)
           end; lia.
Qed.

Lemma resize_anchor (c d : nat) (s s' : State) (cl dl : Client) :
  origin_at X Y mp s →
  heap s !! d = Some dl →
  resize cfg scr d (c_x dl) (c_y dl) (c_w dl) (c_h dl) false s = Some s' →
  heap s !! c = Some cl → anchored X Y mp cl →
  ∃ cl', heap s' !! c = Some cl' ∧ anchored X Y mp cl' ∧ same_attrs cl cl'.
Proof.
  intros Ho Hd H Hc (Hf & Hbw & Hx & Hy & Hm).
  apply resize_inv in H as (dl0 & m & dl' & Hd0 & Hmon & _ & _ & Hh & Hr & Ha).
  rewrite Hd in Hd0. injection Hd0 as <-.
  destruct (decide (d = c)) as [->|Hne].
  - rewrite Hc in Hd. injection Hd as <-. exists dl'. rewrite Hh.
    split; [apply lookup_insert_eq|]. split; [|exact Ha]. attrs Ha.
    rewrite Hm in Hmon. destruct (Ho _ Hmon) as (Hmx & Hmy & Hw0 & Hh0).
    rewrite Hx, Hy, <- Hmx, <- Hmy in Hr.
    destruct (applysizehints_anchor cl m (c_w cl) (c_h cl) Hbw Hw0 Hh0)
      as [Rx Ry].
    unfold anchored, c_x, c_y. rewrite Hr.
    repeat split; congruence.
  - exists cl. rewrite Hh, lookup_insert_ne by assumption.
    repeat split; assumption.
Qed.

Lemma showhide_anchor (l : list nat) :
  ∀ (s s' : State) (c : nat) (cl : Client),
    origin_at X Y mp s →
    showhide cfg scr l s = Some s' →
    heap s !! c = Some cl → anchored X Y mp cl →
    ∃ cl', heap s' !! c = Some cl' ∧ anchored X Y mp cl' ∧ same_attrs cl cl'.
Proof.
  induction l as [|d l IH]; simpl; intros s s' c cl Ho H Hc Han.
  - injection H as <-. exists cl. auto with dwm.
  - bind_inv H. bind_inv H. bind_inv H.
    match goal with
    | E : (if ?b then _ else _) = Some _ |- _ => destruct b
    end.
    + pose proof E1 as Hr. apply resize_inv in Hr
        as (_ & _ & _ & _ & _ & Hmons & _).
      destruct (resize_anchor c d s s0 cl c0 Ho E E1 Hc Han)
        as (cl1 & Hc1 & Han1 & Ha1).
      destruct (IH s0 s' c cl1) as (cl' & Hc' & Han' & Ha'); auto.
      { unfold origin_at. now rewrite Hmons. }
      exists cl'. eauto using same_attrs_trans.
    + injection E1 as <-. eauto.
Qed.

Lemma arrange_anchor (p : nat) (s s' : State) (c : nat) (cl : Client) :
  shape_ok s → stack_ok s → origin_at X Y mp s →
  arrange cfg scr (Some p) s = Some s' →
  heap s !! c = Some cl → anchored X Y mp cl →
  ∃ cl', heap s' !! c = Some cl' ∧ anchored X Y mp cl' ∧ same_attrs cl cl'.
Proof.
  intros Hshape Hstack Ho H Hc Han. unfold arrange in H.
  bind_inv H. rename s0 into s1. bind_inv H. rename s0 into s2.
  pose proof (showhide_mon_geom _ _ _ _ _ E) as G1.
  unfold showhide_mon in E. bind_inv E.
  destruct (showhide_anchor _ _ _ _ _ Ho E Hc Han) as (cl1 & Hc1 & Han1 & Ha1).
  destruct (focus_None_spec s1 (geom_only_shape _ _ G1 Hshape)
              (geom_only_stack _ _ G1 Hstack)
              (focus_None_live _ _ (geom_only_stack _ _ G1 Hstack) E0))
    as (s2' & _ & _ & Ef & _ & _ & _ & _ & Hheap).
  rewrite Ef in E0. injection E0 as ->.
  apply arrangemon_tiled_only in H as [_ Hfl].
  destruct (Hheap c) as [Hh|(cl0 & Hc0 & Hh)].
  - exists cl1. rewrite Hc1 in Hh. split; [|auto].
    apply Hfl; [exact Hh|apply Han1].
  - rewrite Hc1 in Hc0. injection Hc0 as <-.
    exists (set_c_isurgent false cl1). split; [|split].
    + apply Hfl; [exact Hh|apply Han1].
    + exact Han1.
    + eapply same_attrs_trans; [exact Ha1|]. auto with dwm.
Qed.

End Anchor.

Section ManageClaim.

Variable cfg : Config.
Variable scr : Screen.

(** What [manage] returns in terms of the record it builds: the record
    of the new client keeps every field but its rectangle, the other
    clients keep theirs. *)
Lemma manage_spec (s : State) (w : Window) (wa : XWindowAttributes)
    (transient : option Window) (normal : option XSizeHints) :
  wf s →
  ∃ s' mp mon s3 cl,
    manage cfg scr w wa transient normal s = Some s'
    ∧ arrange cfg scr (Some mp) s3 = Some s'
    ∧ lists_ok s3 ∧ lists_ok s'
    ∧ mons s !! mp = Some mon
    ∧ (∀ m, mons s3 !! mp = Some m →
            m_mx m = m_mx mon ∧ m_my m = m_my mon
            ∧ m_mw m = m_mw mon ∧ m_mh m = m_mh mon)
    ∧ heap s !! malloc s = None
    ∧ heap s3 = <[malloc s := manage_record cfg scr w wa transient normal mp mon]>
                  (heap s)
    ∧ heap s' !! malloc s = Some cl
    ∧ same_attrs (manage_record cfg scr w wa transient normal mp mon) cl
    ∧ arranged s3 s'.
Proof.
  intros [Hwf Hlive].
  destruct (manage_eq cfg scr s w wa transient normal Hwf)
    as (mp & mon & sv & s3 & Hmon & Hsv & Hs3 & Hwf3 & Heq).
  assert (Hmon3 : mons s3 !! mp
                  = Some (set_m_views
                            (<[m_selview mon :=
                                 set_v_stack (malloc s :: v_stack sv)
                                   (set_v_clients (malloc s :: v_clients sv)
                                      sv)]> (m_views mon)) mon)).
  { rewrite Hs3. apply put_view_mon_eq. now rewrite mons_store. }
  assert (Hlive3 : sel_live s3).
  { rewrite Hs3. eapply sel_live_put_view_sel;
      [rewrite get_view_store; exact Hsv|reflexivity
      |apply sel_live_store, Hlive]. }
  destruct (arrange_total cfg scr mp s3 Hwf3 Hlive3) as [s' Hs']; [eauto|].
  pose proof Hwf3 as (Hshape3 & Hstack3 & Hcl3).
  destruct (arrange_inv cfg scr _ _ _ Hshape3 Hstack3 Hs')
    as (Harr & _ & Hshape' & Hstack' & Hcl').
  pose proof Harr as (_ & Hforget & _).
  assert (Hh3 : heap s3
                = <[malloc s := manage_record cfg scr w wa transient normal
                                  mp mon]> (heap s)).
  { rewrite Hs3. now rewrite heap_put_view, heap_store. }
  assert (Hnew : ∃ cl, heap s' !! malloc s = Some cl
                       ∧ same_attrs (manage_record cfg scr w wa transient
                                       normal mp mon) cl).
  { specialize (Hforget (malloc s)). rewrite Hh3, lookup_insert_eq in Hforget.
    destruct (heap s' !! malloc s) as [cl|]; [|discriminate].
    exists cl. split; [reflexivity|]. simpl in Hforget.
    unfold same_attrs. congruence. }
  destruct Hnew as (cl & Hcl & Ha).
  exists s', mp, mon, s3, cl.
  split; [now rewrite Heq|]. split; [exact Hs'|]. split; [exact Hwf3|].
  split; [split; [|split]; auto|]. split; [exact Hmon|].
  split; [|split; [apply malloc_fresh|split; [exact Hh3|]]].
  - intros m Hm. rewrite Hmon3 in Hm. injection Hm as <-. repeat split.
  - split; [exact Hcl|]. split; [exact Ha|exact Harr].
Qed.

(** C10: [manage] returns on every sound state; the window attributes
    of a window as wide and as high as the screen of its monitor give a
    floating client with border width 0 at the screen origin of that
    monitor, those of any other window give a client with the
    configured border width. *)
Theorem manage_fullscreen_size (s : State) (w : Window)
    (wa : XWindowAttributes) (transient : option Window)
    (normal : option XSizeHints) :
  wf s → 0 <= wa_width wa → 0 <= wa_height wa →
  ∃ s' mon cl,
    manage cfg scr w wa transient normal s = Some s'
    ∧ heap s !! malloc s = None
    ∧ heap s' !! malloc s = Some cl
    ∧ c_win cl = w
    ∧ mons s !! c_mon cl = Some mon
    ∧ if (wa_width wa =? m_mw mon) && (wa_height wa =? m_mh mon)
      then c_isfloating cl = true ∧ c_bw cl = 0
           ∧ c_x cl = m_mx mon ∧ c_y cl = m_my mon
      else c_bw cl = borderpx cfg.
Proof.
  intros Hwf Hw Hh.
  destruct (manage_spec s w wa transient normal Hwf)
    as (s' & mp & mon & s3 & cl & Hman & Harr & Hwf3 & _ & Hmon & Hgeo
        & Hfresh & Hh3 & Hcl & Ha & _).
  pose proof (manage_record_spec cfg scr w wa transient normal mp mon)
    as (Rm & Rv & Rw & _ & Rfull).
  set (rec := manage_record cfg scr w wa transient normal mp mon) in *.
  attrs Ha.
  exists s', mon, cl.
  split; [exact Hman|]. split; [exact Hfresh|]. split; [exact Hcl|].
  split; [congruence|]. split; [congruence|].
  destruct ((wa_width wa =? m_mw mon) && (wa_height wa =? m_mh mon)) eqn:Efull;
    [|congruence].
  apply andb_true_iff in Efull as [Ew Eh].
  apply Z.eqb_eq in Ew, Eh.
  destruct Rfull as (Rf & Rbw & Rx & Ry).
  pose proof Hwf3 as (Hshape3 & Hstack3 & _).
  destruct (arrange_anchor cfg scr (m_mx mon) (m_my mon) mp mp s3 s'
              (malloc s) rec Hshape3 Hstack3) as (cl' & Hcl' & Han & _).
  - intros m Hm. destruct (Hgeo m Hm) as (-> & -> & -> & ->).
    repeat split; lia.
  - exact Harr.
  - rewrite Hh3. apply lookup_insert_eq.
  - repeat split; assumption.
  - rewrite Hcl in Hcl'. injection Hcl' as <-.
    destruct Han as (? & ? & ? & ? & ?). repeat split; assumption.
Qed.

End ManageClaim.

(** A third window, as large as the screen, mapped after the two of
    [Scenario.two_tiled]. *)
Lemma manage_fullscreen_size_witness :
  let s := Scenario.two_tiled_state in
  ∃ s' mon cl,
    manage Scenario.cfg Scenario.scr Scenario.W3 Scenario.wa_full None None s
    = Some s'
    ∧ heap s !! malloc s = None
    ∧ heap s' !! malloc s = Some cl
    ∧ c_win cl = Scenario.W3
    ∧ mons s !! c_mon cl = Some mon
    ∧ if (wa_width Scenario.wa_full =? m_mw mon)
         && (wa_height Scenario.wa_full =? m_mh mon)
      then c_isfloating cl = true ∧ c_bw cl = 0
           ∧ c_x cl = m_mx mon ∧ c_y cl = m_my mon
      else c_bw cl = borderpx Scenario.cfg.
Proof.
  intros s.
  apply (manage_fullscreen_size Scenario.cfg Scenario.scr s Scenario.W3
           Scenario.wa_full None None).
  - apply wfb_wf. by_compute.
  - simpl. lia.
  - simpl. lia.
Defined.

(** The two branches on concrete windows. *)
Example manage_full_and_small :
  (c_isfloating <$> Scenario.client_of Scenario.W3
     (default Scenario.empty1
        (manage Scenario.cfg Scenario.scr Scenario.W3 Scenario.wa_full
           None None Scenario.two_tiled_state)),
   c_bw <$> Scenario.client_of Scenario.W3
     (default Scenario.empty1
        (manage Scenario.cfg Scenario.scr Scenario.W3 Scenario.wa_full
           None None Scenario.two_tiled_state)),
   c_bw <$> Scenario.client_of Scenario.W1 Scenario.two_tiled_state)
  = (Some true, Some 0, Some 1).
Proof. by_compute. Qed.

(** ** Fixed clients *)

(** Invariant 5 of the data model: a fixed client is floating. *)
Definition fixed_floats (s : State) : Prop :=
  map_Forall (λ _ cl, c_isfixed cl = true → c_isfloating cl = true) (heap s).

Lemma fixed_floats_forget (s s' : State) :
  (∀ c, forget <$> heap s' !! c = forget <$> heap s !! c) →
  fixed_floats s → fixed_floats s'.
Proof.
  intros H Hs c cl' Hc'. specialize (H c). rewrite Hc' in H.
  destruct (heap s !! c) as [cl|] eqn:Hc; [|discriminate].
  simpl in H. assert (Ha : same_attrs cl cl') by (unfold same_attrs; congruence).
  intros Hf. attrs Ha. pose proof (Hs c cl Hc) as Hcl. simpl in Hcl.
  assert (c_isfloating cl = true) by (apply Hcl; congruence). congruence.
Qed.

Lemma fixed_floats_store (s : State) (c : nat) (cl : Client) :
  (c_isfixed cl = true → c_isfloating cl = true) →
  fixed_floats s → fixed_floats (store c cl s).
Proof.
  intros Hcl Hs d dl. rewrite heap_store. intros Hd.
  destruct (decide (c = d)) as [->|Hne].
  - rewrite lookup_insert_eq in Hd. injection Hd as <-. exact Hcl.
  - rewrite lookup_insert_ne in Hd by assumption. exact (Hs d dl Hd).
Qed.

Module HintsExample.
Import Scenario.

(** Size hints whose minimum and maximum sizes are both 640x480. *)
Definition fixed_hints : XSizeHints :=
  mkXSizeHints (Z.lor PMinSize PMaxSize) 640 480 640 480 0 0 0 0 0 0 0 0.

(** The server reports that [WM_NORMAL_HINTS] of [W1] has changed. *)
Definition normal_hints_changed : XPropertyEvent :=
  mkXPropertyEvent W1 XA_WM_NORMAL_HINTS 0.

Definition reply : PropertyReply := mkPropertyReply 0 (Some fixed_hints) None.

End HintsExample.

Section Fixed.

Variable cfg : Config.
Variable scr : Screen.

Lemma manage_fixed_floats (s : State) (w : Window) (wa : XWindowAttributes)
    (transient : option Window) (normal : option XSizeHints) :
  wf s → fixed_floats s →
  ∃ s', manage cfg scr w wa transient normal s = Some s' ∧ fixed_floats s'.
Proof.
  intros Hwf Hff.
  destruct (manage_spec cfg scr s w wa transient normal Hwf)
    as (s' & mp & mon & s3 & cl & Hman & _ & _ & _ & _ & _ & _ & Hh3 & _ & _
        & (_ & Hforget & _)).
  exists s'. split; [exact Hman|].
  apply (fixed_floats_forget s3 s' Hforget).
  intros d dl. rewrite Hh3. intros Hd.
  destruct (decide (malloc s = d)) as [<-|Hne].
  - rewrite lookup_insert_eq in Hd. injection Hd as <-.
    apply (manage_record_spec cfg scr w wa transient normal mp mon).
  - rewrite lookup_insert_ne in Hd by assumption. exact (Hff d dl Hd).
Qed.

Lemma togglefloating_fixed_floats (s : State) :
  lists_ok s → sel_is_head s (selmon s) → fixed_floats s →
  ∃ s', togglefloating cfg scr s = Some s' ∧ fixed_floats s'.
Proof.
  intros Hwf (sv & Hsv & Hsel) Hff. unfold togglefloating. rewrite Hsv.
  cbn [mbind option_bind].
  destruct (v_sel sv) as [c|] eqn:Hc; [|eauto].
  destruct Hsel as [Hsel|Hsel]; [discriminate|].
  pose proof Hwf as (Hshape & Hstack & _).
  unfold SELVIEW in Hsv.
  destruct (mons s !! selmon s) as [mon|] eqn:Hmon; [|discriminate].
  cbn [mbind option_bind] in Hsv.
  assert (Hgv : get_view s (selmon s) (m_selview mon) = Some sv)
    by (unfold get_view; rewrite Hmon; exact Hsv).
  destruct (Hstack _ _ _ Hgv) as [_ Hown].
  destruct (Hown c) as (cl & Hcl & Hcm & Hcv).
  { destruct (v_stack sv) as [|d rest]; [discriminate|].
    simpl in Hsel. injection Hsel as ->. now left. }
  rewrite Hcl. cbn [mbind option_bind].
  set (cl' := set_c_isfloating (negb (c_isfloating cl) || c_isfixed cl) cl).
  set (s1 := store c cl' s).
  assert (Hwf1 : lists_ok s1) by (apply (store_wf s c cl' cl); auto).
  assert (Hff1 : fixed_floats s1).
  { apply fixed_floats_store; [|exact Hff]. simpl. intros ->.
    apply orb_true_r. }
  assert (Hs2 : ∃ s2, (if c_isfloating cl'
                        then resize cfg scr c (c_x cl') (c_y cl') (c_w cl')
                               (c_h cl') false s1
                        else Some s1) = Some s2
                      ∧ geom_only s1 s2).
  { destruct (c_isfloating cl').
    - destruct (resize_spec cfg scr c (c_x cl') (c_y cl') (c_w cl') (c_h cl')
                  false s1 cl' mon) as (s2 & ? & E & _).
      + unfold s1. rewrite heap_store. apply lookup_insert_eq.
      + unfold s1. rewrite mons_store. simpl. now rewrite Hcm.
      + exists s2. split; [exact E|]. eapply resize_geom; exact E.
    - exists s1. split; [reflexivity|apply geom_only_refl]. }
  destruct Hs2 as (s2 & -> & G12). cbn [mbind option_bind].
  pose proof (geom_only_wf _ _ G12 Hwf1) as Hwf2.
  assert (Hlive2 : sel_live s2).
  { apply (geom_only_sel_live _ _ G12), sel_live_store, head_live;
      [exact Hstack|].
    exists sv. split; [|right; congruence].
    unfold SELVIEW. rewrite Hmon. exact Hsv. }
  destruct (arrange_total cfg scr (selmon s2) s2 Hwf2 Hlive2) as [s' Hs'];
    [apply Hwf2|].
  exists s'. split; [exact Hs'|].
  pose proof Hwf2 as (Hshape2 & Hstack2 & _).
  destruct (arrange_inv cfg scr _ _ _ Hshape2 Hstack2 Hs')
    as ((_ & Hforget & _) & _).
  apply (fixed_floats_forget s2 s' Hforget).
  apply (fixed_floats_forget s1 s2); [apply G12|exact Hff1].
Qed.

(** [propertynotify] for [WM_NORMAL_HINTS]: the record of the client
    of the window, if there is one, gets the assignments of
    [updatesizehints] and nothing else changes. *)
Lemma propertynotify_normal_hints (s : State) (ev : XPropertyEvent)
    (rp : PropertyReply) :
  lists_ok s → pe_atom ev = XA_WM_NORMAL_HINTS →
  ∃ s', propertynotify cfg scr ev rp s = Some s'
        ∧ mons s' = mons s ∧ selmon s' = selmon s
        ∧ ∀ c cl, heap s !! c = Some cl →
            heap s' !! c = Some cl
            ∨ (pe_state ev ≠ PropertyDelete
               ∧ wintoclient s (pe_window ev) = Some (Some c)
               ∧ heap s' !! c
                 = Some (updatesizehints_client (pr_normal rp) cl)).
Proof.
  intros Hwf Hat. unfold propertynotify. rewrite Hat.
  rewrite (bool_decide_eq_false_2 (XA_WM_NORMAL_HINTS = XA_WM_NAME))
    by discriminate.
  rewrite andb_false_r.
  destruct (bool_decide (pe_state ev = PropertyDelete)) eqn:Hst; [eauto 6|].
  apply bool_decide_eq_false in Hst.
  destruct (wintoclient_total s (pe_window ev) Hwf) as [r Hr]. rewrite Hr.
  cbn [mbind option_bind]. destruct r as [c|]; [|eauto 6].
  rewrite (bool_decide_eq_false_2 (XA_WM_NORMAL_HINTS = XA_WM_TRANSIENT_FOR))
    by discriminate.
  rewrite (bool_decide_eq_true_2 (XA_WM_NORMAL_HINTS = XA_WM_NORMAL_HINTS))
    by reflexivity.
  destruct (wintoclient_found s _ c Hwf Hr) as (cl & _ & Hcl & _).
  unfold updatesizehints. rewrite Hcl. cbn [mbind option_bind].
  eexists. split; [reflexivity|]. rewrite mons_store, selmon_store, heap_store.
  split; [reflexivity|]. split; [reflexivity|].
  intros d dl Hd. destruct (decide (c = d)) as [<-|Hne].
  - right. rewrite Hcl in Hd. injection Hd as <-.
    rewrite lookup_insert_eq. auto.
  - left. now rewrite lookup_insert_ne.
Qed.

End Fixed.

Lemma fixed_floats_decide (s : State) :
  bool_decide (fixed_floats s) = true → fixed_floats s.
Proof. apply bool_decide_eq_true_1. Qed.

(** C4: [manage] and [togglefloating] make a fixed client floating
    ([manage_fixed_floats], [togglefloating_fixed_floats]), but
    [propertynotify] does not.  [W1] is tiled and every fixed client is
    floating; after the size hints of [W1] have changed to equal
    minimum and maximum sizes, [propertynotify] returns to the event
    loop with a client that is fixed and not floating. *)
Theorem normal_hints_fixed_not_floating :
  let s := Scenario.two_tiled_state in
  fixed_floats s
  ∧ ∃ s' cl,
      propertynotify Scenario.cfg Scenario.scr HintsExample.normal_hints_changed
        HintsExample.reply s = Some s'
      ∧ Scenario.client_of Scenario.W1 s' = Some cl
      ∧ c_isfixed cl = true ∧ c_isfloating cl = false
      ∧ ¬ fixed_floats s'.
Proof.
  intros s. split; [apply fixed_floats_decide; by_compute|].
  destruct (propertynotify Scenario.cfg Scenario.scr HintsExample.normal_hints_changed
              HintsExample.reply s) as [s'|] eqn:E;
    [|vm_compute in E; discriminate].
  destruct (Scenario.client_of Scenario.W1 s') as [cl|] eqn:Ecl;
    [|vm_compute in E; injection E as <-; vm_compute in Ecl; discriminate].
  exists s', cl. split; [reflexivity|]. split; [exact Ecl|].
  assert (Hfx : c_isfixed cl = true ∧ c_isfloating cl = false).
  { vm_compute in E. injection E as <-. vm_compute in Ecl.
    injection Ecl as <-. split; reflexivity. }
  destruct Hfx as [Hfx Hfl]. split; [exact Hfx|]. split; [exact Hfl|].
  intros Hff. unfold Scenario.client_of in Ecl. clear E.
  destruct (wintoclient s' Scenario.W1) as [[c|]|]; simpl in Ecl;
    try discriminate Ecl.
  specialize (Hff c cl Ecl Hfx). rewrite Hff in Hfl. discriminate Hfl.
Qed.

(** ** Fullscreen *)

(** The record of a client of monitor [m] after the first branch of
    [clientmessage]. *)
Definition fullscreen_record (m : Monitor) (cl : Client) : Client :=
  set_c_rect (mkRect (m_mx m) (m_my m) (m_mw m) (m_mh m))
    (set_c_old (c_rect cl)
       (set_c_isfloating true
          (set_c_bw 0
             (set_c_oldbw (c_bw cl) (set_c_oldstate (c_isfloating cl) cl))))).

(** The record of a client after the second branch, before [arrange]. *)
Definition restored_record (cl : Client) : Client :=
  let r := restore_fields cl in set_c_rect (c_rect r) (set_c_old (c_rect r) r).

(** [applysizehints] would leave the rectangle of the client alone. *)
Definition settled (cfg : Config) (scr : Screen) (m : Monitor) (cl : Client)
    : Prop :=
  (applysizehints cfg scr cl m (c_x cl) (c_y cl) (c_w cl) (c_h cl) false).1
  = false.

Module FullscreenExample.
Import Scenario.

(** A window of 100x100 pixels that is transient for a window that is
    not managed, with a resize increment of 10 and a maximum size of
    95 in both directions. *)
Definition wa_100 : XWindowAttributes := mkXWindowAttributes 0 0 100 100 0.

Definition step_hints : XSizeHints :=
  mkXSizeHints (Z.lor PResizeInc PMaxSize) 0 0 95 95 10 10 0 0 0 0 0 0.

Definition dialog : option State :=
  manage cfg scr W1 wa_100 (Some 55) (Some step_hints) empty1.

Definition dialog_state : State := default empty1 dialog.

(** The same window without size hints. *)
Definition plain_dialog : option State :=
  manage cfg scr W1 wa_100 (Some 55) None empty1.

Definition plain_dialog_state : State := default empty1 plain_dialog.

Definition set_fullscreen (w : Window) : XClientMessageEvent :=
  mkXClientMessageEvent w (NetWMState scr) 1 (NetWMFullscreen scr).

Definition unset_fullscreen (w : Window) : XClientMessageEvent :=
  mkXClientMessageEvent w (NetWMState scr) 0 (NetWMFullscreen scr).

(** Size hints whose minimum and maximum sizes are both the size of
    the screen. *)
Definition screen_hints : XSizeHints :=
  mkXSizeHints (Z.lor PMinSize PMaxSize) 1920 1080 1920 1080 0 0 0 0 0 0 0 0.

End FullscreenExample.

(** The second way to a fixed client that is not floating: a window
    of the size of the screen is made floating by the geometry block
    of [manage], which leaves [oldstate] at 0; the message that unsets
    fullscreen then assigns [oldstate] to [isfloating]. *)
Example unset_fullscreen_fixed_not_floating :
  let s := default Scenario.two_tiled_state
             (manage Scenario.cfg Scenario.scr Scenario.W3 Scenario.wa_full
                None (Some FullscreenExample.screen_hints)
                Scenario.two_tiled_state) in
  bool_decide (fixed_floats s) = true
  ∧ (cl ← Scenario.client_of Scenario.W3 s;
     Some (c_isfixed cl, c_isfloating cl, c_oldstate cl))
    = Some (true, true, false)
  ∧ (s' ← clientmessage Scenario.cfg Scenario.scr
            (FullscreenExample.unset_fullscreen Scenario.W3) s;
     cl ← Scenario.client_of Scenario.W3 s';
     Some (c_isfixed cl, c_isfloating cl))
    = Some (true, false).
Proof. repeat split; by_compute. Qed.

Lemma store_store (s : State) (c : nat) (a b : Client) :
  store c a (store c b s) = store c a s.
Proof.
  unfold store, set_heap. simpl. f_equal. apply insert_insert_eq.
Qed.

Lemma round_trip_record (m : Monitor) (cl : Client) :
  let r := restored_record (fullscreen_record m cl) in
  c_rect r = c_rect cl ∧ c_bw r = c_bw cl
  ∧ c_isfloating r = c_isfloating cl ∧ c_hints r = c_hints cl
  ∧ c_mon r = c_mon cl ∧ c_view r = c_view cl ∧ c_win r = c_win cl.
Proof. destruct cl. simpl. repeat split. Qed.

Section Fullscreen.

Variable cfg : Config.
Variable scr : Screen.

Lemma applysizehints_ext (a b : Client) (m : Monitor) (x y w h : Z)
    (i : bool) :
  c_hints a = c_hints b → c_bw a = c_bw b → c_rect a = c_rect b →
  c_isfloating a = c_isfloating b →
  applysizehints cfg scr a m x y w h i = applysizehints cfg scr b m x y w h i.
Proof.
  unfold applysizehints, WIDTH, HEIGHT, c_x, c_y, c_w, c_h.
  now intros -> -> -> ->.
Qed.

Lemma enter_fullscreen_eq (c : nat) (s : State) (cl : Client) (m : Monitor) :
  heap s !! c = Some cl → mons s !! c_mon cl = Some m →
  enter_fullscreen c s = Some (store c (fullscreen_record m cl) s).
Proof.
  intros Hc Hm. unfold enter_fullscreen. rewrite Hc. simpl. rewrite Hm.
  simpl. unfold resizeclient. rewrite heap_store, lookup_insert_eq. simpl.
  now rewrite store_store.
Qed.

Lemma leave_fullscreen_eq (c : nat) (s : State) (cl : Client) :
  heap s !! c = Some cl →
  leave_fullscreen c s = Some (store c (restored_record cl) s).
Proof.
  intros Hc. unfold leave_fullscreen. rewrite Hc. simpl.
  unfold resizeclient. rewrite heap_store, lookup_insert_eq. simpl.
  rewrite store_store. unfold restored_record, c_x, c_y, c_w, c_h.
  now rewrite rect_eta.
Qed.

(** [showhide] leaves a settled client as it is. *)
Lemma showhide_settled (l : list nat) :
  ∀ (s s' : State) (c : nat) (cl : Client) (m : Monitor),
    heap s !! c = Some cl → mons s !! c_mon cl = Some m →
    settled cfg scr m cl →
    showhide cfg scr l s = Some s' →
    heap s' !! c = Some cl.
Proof.
  induction l as [|d l IH]; simpl; intros s s' c cl m Hc Hm Hst H.
  - now injection H as <-.
  - bind_inv H. bind_inv H. bind_inv H.
    assert (Hs0 : heap s0 !! c = Some cl ∧ mons s0 = mons s).
    { match goal with
      | E : (if ?b then _ else _) = Some _ |- _ => destruct b
      end; [|injection E1 as <-; auto].
      destruct (decide (d = c)) as [->|Hne].
      - rewrite Hc in E. injection E as <-. unfold resize in E1.
        rewrite Hc in E1. simpl in E1. rewrite Hm in E1. simpl in E1.
        unfold settled in Hst.
        destruct (applysizehints cfg scr cl m (c_x cl) (c_y cl) (c_w cl)
                    (c_h cl) false) as [ch r].
        simpl in Hst. subst ch. injection E1 as <-. auto.
      - apply resize_inv in E1
          as (? & ? & ? & _ & _ & Hmons & _ & Hh & _).
        rewrite Hh, lookup_insert_ne by assumption. auto. }
    destruct Hs0 as [Hc0 Hm0].
    apply (IH s0 s' c cl m); auto. now rewrite Hm0.
Qed.

(** [arrange] leaves the rectangle of a settled floating client as it
    is. *)
Lemma arrange_settled (p : nat) (s s' : State) (c : nat) (cl : Client)
    (m : Monitor) :
  shape_ok s → stack_ok s →
  heap s !! c = Some cl → mons s !! c_mon cl = Some m →
  c_isfloating cl = true → settled cfg scr m cl →
  arrange cfg scr (Some p) s = Some s' →
  ∃ cl', heap s' !! c = Some cl' ∧ c_rect cl' = c_rect cl.
Proof.
  intros Hshape Hstack Hc Hm Hf Hst H. unfold arrange in H.
  bind_inv H. rename s0 into s1. bind_inv H. rename s0 into s2.
  pose proof (showhide_mon_geom _ _ _ _ _ E) as G1.
  unfold showhide_mon in E. bind_inv E.
  pose proof (showhide_settled _ _ _ _ _ _ Hc Hm Hst E) as Hc1.
  destruct (focus_None_spec s1 (geom_only_shape _ _ G1 Hshape)
              (geom_only_stack _ _ G1 Hstack)
              (focus_None_live _ _ (geom_only_stack _ _ G1 Hstack) E0))
    as (s2' & _ & _ & Ef & _ & _ & _ & _ & Hheap).
  rewrite Ef in E0. injection E0 as ->.
  apply arrangemon_tiled_only in H as [_ Hfl].
  destruct (Hheap c) as [Hh|(cl0 & Hc0 & Hh)].
  - exists cl. rewrite Hc1 in Hh. split; [|reflexivity]. now apply Hfl.
  - rewrite Hc1 in Hc0. injection Hc0 as <-.
    exists (set_c_isurgent false cl). split; [|reflexivity]. now apply Hfl.
Qed.

(** The two branches of [clientmessage] one after the other, with the
    state between the assignments of the second branch and its call of
    [arrange] made explicit. *)
Lemma fullscreen_messages (s : State) (w : Window) (c : nat)
    (cl : Client) (d0 : Z) :
  wf s → wintoclient s w = Some (Some c) → heap s !! c = Some cl →
  d0 ≠ 0 →
  let set := mkXClientMessageEvent w (NetWMState scr) d0 (NetWMFullscreen scr) in
  let unset := mkXClientMessageEvent w (NetWMState scr) 0 (NetWMFullscreen scr) in
  ∃ m s1 cl1 s1' cl1' s2 cl2,
    mons s !! c_mon cl = Some m
    ∧ clientmessage cfg scr set s = Some s1
    ∧ heap s1 !! c = Some cl1
    ∧ c_isfloating cl1 = true ∧ c_bw cl1 = 0
    ∧ c_rect cl1 = mkRect (m_mx m) (m_my m) (m_mw m) (m_mh m)
    ∧ leave_fullscreen c s1 = Some s1'
    ∧ heap s1' !! c = Some cl1'
    ∧ c_rect cl1' = c_rect cl ∧ c_bw cl1' = c_bw cl
    ∧ c_isfloating cl1' = c_isfloating cl
    ∧ arrange cfg scr (Some (c_mon cl)) s1' = Some s2
    ∧ clientmessage cfg scr unset s1 = Some s2
    ∧ heap s2 !! c = Some cl2
    ∧ c_bw cl2 = c_bw cl ∧ c_isfloating cl2 = c_isfloating cl
    ∧ (c_isfloating cl = true → settled cfg scr m cl →
       c_rect cl2 = c_rect cl).
Proof.
  intros [Hwf Hlive] Hw Hc Hd0 set unset.
  destruct (wintoclient_found s w c Hwf Hw) as (cl0 & vw & Hc0 & _ & Hv & _).
  rewrite Hc in Hc0. injection Hc0 as <-.
  destruct (get_view_mon s _ _ (ex_intro _ vw Hv)) as [m Hm].
  set (cl1 := fullscreen_record m cl).
  set (s1 := store c cl1 s).
  set (cl1' := restored_record cl1).
  set (s1' := store c cl1' s1).
  pose proof (round_trip_record m cl) as (Rr & Rbw & Rf & Rh & Rm & Rv & Rw).
  fold cl1 cl1' in Rr, Rbw, Rf, Rh, Rm, Rv, Rw.
  assert (Hwf1 : lists_ok s1) by (apply (store_wf s c cl1 cl); auto).
  assert (Hc1 : heap s1 !! c = Some cl1)
    by (unfold s1; rewrite heap_store; apply lookup_insert_eq).
  assert (Hwf1' : lists_ok s1') by (apply (store_wf s1 c cl1' cl1); auto; congruence).
  assert (Hc1' : heap s1' !! c = Some cl1')
    by (unfold s1'; rewrite heap_store; apply lookup_insert_eq).
  assert (Hw1 : wintoclient s1 w = Some (Some c)).
  { rewrite <- Hw. apply wintoclient_ext; try reflexivity.
    - intros i mon mon' H1 H2. unfold s1 in H2. rewrite mons_store in H2.
      congruence.
    - intros d. unfold s1. rewrite heap_store.
      destruct (decide (c = d)) as [<-|Hne].
      + now rewrite lookup_insert_eq, Hc.
      + now rewrite lookup_insert_ne. }
  assert (Hm1' : is_Some (mons s1' !! c_mon cl)) by (exists m; exact Hm).
  assert (Hlive1' : sel_live s1') by (do 2 apply sel_live_store; exact Hlive).
  destruct (arrange_total cfg scr (c_mon cl) s1' Hwf1' Hlive1' Hm1')
    as [s2 Hs2].
  pose proof Hwf1' as (Hshape1' & Hstack1' & _).
  destruct (arrange_inv cfg scr _ _ _ Hshape1' Hstack1' Hs2) as (Harr & _).
  destruct (arranged_client _ _ _ _ Harr Hc1') as (cl2 & Hc2 & Ha2).
  attrs Ha2.
  exists m, s1, cl1, s1', cl1', s2, cl2.
  split; [exact Hm|]. split.
  { unfold clientmessage, set.
    cbn [cme_window cme_message_type cme_data0 cme_data1].
    rewrite Hw. cbn [mbind option_bind].
    rewrite !bool_decide_eq_true_2 by reflexivity.
    apply Z.eqb_neq in Hd0. rewrite Hd0. cbn [andb negb].
    now apply enter_fullscreen_eq. }
  split; [exact Hc1|]. split; [reflexivity|]. split; [reflexivity|].
  split; [reflexivity|].
  split; [now apply leave_fullscreen_eq|].
  split; [exact Hc1'|]. split; [exact Rr|]. split; [exact Rbw|].
  split; [exact Rf|]. split; [exact Hs2|]. split.
  { unfold clientmessage, unset.
    cbn [cme_window cme_message_type cme_data0 cme_data1].
    rewrite Hw1. cbn [mbind option_bind].
    rewrite !bool_decide_eq_true_2 by reflexivity.
    change (0 =? 0) with true. cbn [andb negb].
    rewrite (leave_fullscreen_eq c s1 cl1 Hc1). fold cl1' s1'.
    cbn [mbind option_bind]. rewrite Hc1'. cbn [mbind option_bind].
    rewrite Rm. exact Hs2. }
  split; [exact Hc2|]. split; [congruence|]. split; [congruence|].
  intros Hf Hst.
  destruct (arrange_settled (c_mon cl) s1' s2 c cl1' m Hshape1' Hstack1' Hc1')
    as (cl2' & Hc2' & Hr2); try congruence.
  - rewrite Rm. exact Hm.
  - unfold settled, c_x, c_y, c_w, c_h. rewrite Rr.
    rewrite (applysizehints_ext cl1' cl) by assumption. exact Hst.
Qed.

(** Both [_NET_WM_STATE] messages for the fullscreen atom are answered.
    After the one that sets fullscreen the client is floating, without
    border, on the screen rectangle of its monitor.  The one that
    unsets it assigns the saved rectangle, border width and floating
    flag, which are those of before, and ends in [arrange]; border
    width and floating flag are not touched by that call, the
    rectangle is not touched when the client was floating and
    settled. *)
Theorem fullscreen_round_trip (s : State) (w : Window) (c : nat)
    (cl : Client) (d0 : Z) :
  wf s → wintoclient s w = Some (Some c) → heap s !! c = Some cl →
  d0 ≠ 0 →
  let set := mkXClientMessageEvent w (NetWMState scr) d0 (NetWMFullscreen scr) in
  let unset := mkXClientMessageEvent w (NetWMState scr) 0 (NetWMFullscreen scr) in
  ∃ m s1 cl1 s1' cl1' s2 cl2,
    mons s !! c_mon cl = Some m
    ∧ clientmessage cfg scr set s = Some s1
    ∧ heap s1 !! c = Some cl1
    ∧ c_isfloating cl1 = true ∧ c_bw cl1 = 0
    ∧ c_rect cl1 = mkRect (m_mx m) (m_my m) (m_mw m) (m_mh m)
    ∧ leave_fullscreen c s1 = Some s1'
    ∧ heap s1' !! c = Some cl1'
    ∧ c_rect cl1' = c_rect cl ∧ c_bw cl1' = c_bw cl
    ∧ c_isfloating cl1' = c_isfloating cl
    ∧ arrange cfg scr (Some (c_mon cl)) s1' = Some s2
    ∧ clientmessage cfg scr unset s1 = Some s2
    ∧ heap s2 !! c = Some cl2
    ∧ c_bw cl2 = c_bw cl ∧ c_isfloating cl2 = c_isfloating cl
    ∧ (c_isfloating cl = true → settled cfg scr m cl →
       c_rect cl2 = c_rect cl).
Proof. apply fullscreen_messages. Qed.


End Fullscreen.

(** * Further properties of the code *)

(** ** Position of the bar *)

Section BarPosition.

Variable cfg : Config.
Variable scr : Screen.

(** [updatebarpos]: a bar that is shown and the window area split the
    height of the screen of the monitor between them, the bar above or
    below the window area; a hidden bar ends at the upper edge of the
    display and the window area is the whole screen of the monitor.
    Running the function again changes nothing, and no field other
    than [by], [wy] and [wh] is ever written. *)
Theorem updatebarpos_splits (m : Monitor) :
  let m' := updatebarpos scr m in
  (if m_showbar m then
     m_wh m' + bh scr = m_mh m
     ∧ (if m_topbar m
        then m_by m' = m_my m ∧ m_wy m' = m_by m' + bh scr
        else m_wy m' = m_my m ∧ m_by m' = m_wy m' + m_wh m')
   else m_wy m' = m_my m ∧ m_wh m' = m_mh m ∧ m_by m' + bh scr = 0)
  ∧ updatebarpos scr m' = m'
  ∧ (m_num m', m_mx m', m_my m', m_mw m', m_mh m', m_wx m', m_ww m')
    = (m_num m, m_mx m, m_my m, m_mw m, m_mh m, m_wx m, m_ww m)
  ∧ (m_showbar m', m_topbar m', m_barwin m', m_selview m', m_views m')
    = (m_showbar m, m_topbar m, m_barwin m, m_selview m, m_views m).
Proof.
  unfold updatebarpos.
  destruct (m_showbar m) eqn:Hs; destruct (m_topbar m) eqn:Ht; simpl;
    rewrite ?Hs, ?Ht; simpl; repeat split; lia.
Qed.

(** ** Monitor under the pointer *)

(** [ptrtomon] returns a monitor of the list: the first one whose
    window area holds the point, or the selected monitor when no window
    area holds it. *)
Theorem ptrtomon_first_hit (x y : Z) (s : State) :
  is_Some (mons s !! selmon s) →
  ∃ m, mons s !! ptrtomon x y s = Some m
    ∧ (INRECT x y (m_wx m) (m_wy m) (m_ww m) (m_wh m) = true
       ∧ (∀ j mj, mons s !! j = Some mj → (j < ptrtomon x y s)%nat →
                  INRECT x y (m_wx mj) (m_wy mj) (m_ww mj) (m_wh mj) = false)
       ∨ ptrtomon x y s = selmon s
         ∧ ∀ j mj, mons s !! j = Some mj →
                   INRECT x y (m_wx mj) (m_wy mj) (m_ww mj) (m_wh mj) = false).
Proof.
  intros [sm Hsm]. unfold ptrtomon.
  destruct (list_find _ (mons s)) as [[i m]|] eqn:E.
  - apply list_find_Some in E as (Hi & Hin & Hbefore).
    exists m. split; [exact Hi|]. left. split; [exact Hin|].
    intros j mj Hj Hlt. specialize (Hbefore j mj Hj Hlt).
    now apply not_true_is_false.
  - exists sm. split; [exact Hsm|]. right. split; [reflexivity|].
    intros j mj Hj. apply list_find_None in E.
    rewrite Forall_forall in E. apply not_true_is_false, E.
    apply list_elem_of_lookup. eauto.
Qed.

(** [INRECT] is the half-open rectangle. *)
Lemma INRECT_spec (x y rx ry rw rh : Z) :
  INRECT x y rx ry rw rh = true
  ↔ rx <= x < rx + rw ∧ ry <= y < ry + rh.
Proof. unfold INRECT. rewrite !andb_true_iff. lia. Qed.

(** ** Neighbouring monitors *)

Lemma dirtomon_valid (dir : Z) (s : State) :
  is_Some (mons s !! selmon s) →
  ∃ m, dirtomon dir s = Some m
    ∧ is_Some (mons s !! m)
    ∧ (length (mons s) = 1%nat → m = selmon s)
    ∧ dirtomon (if dir >? 0 then -1 else 1) (set_selmon m s)
      = Some (selmon s).
Proof.
  intros Hsel. pose proof Hsel as [sm Hsm].
  pose proof (lookup_lt_Some _ _ _ Hsm) as Hlt.
  unfold dirtomon. rewrite Hsm. cbn [mbind option_bind].
  destruct (dir >? 0) eqn:Hd.
  - destruct (decide (S (selmon s) < length (mons s))%nat) as [Hn|Hn].
    + eexists. split; [reflexivity|].
      split; [apply lookup_lt_is_Some_2; exact Hn|].
      split; [lia|]. simpl.
      destruct (lookup_lt_is_Some_2 (mons s) (S (selmon s)) Hn) as [? ->].
      reflexivity.
    + eexists. split; [reflexivity|].
      split; [apply lookup_lt_is_Some_2; lia|].
      split; [lia|]. simpl.
      destruct (lookup_lt_is_Some_2 (mons s) 0%nat) as [? ->]; [lia|].
      simpl. f_equal. lia.
  - destruct (decide (selmon s = 0%nat)) as [Hz|Hz].
    + eexists. split; [reflexivity|].
      split; [apply lookup_lt_is_Some_2; lia|].
      split; [lia|]. simpl.
      destruct (lookup_lt_is_Some_2 (mons s) (pred (length (mons s))))
        as [? ->]; [lia|].
      simpl. rewrite decide_False by lia. now rewrite Hz.
    + eexists. split; [reflexivity|].
      split; [apply lookup_lt_is_Some_2; lia|].
      split; [lia|]. simpl.
      destruct (lookup_lt_is_Some_2 (mons s) (pred (selmon s)))
        as [? ->]; [lia|].
      simpl. rewrite decide_True by lia. f_equal. lia.
Qed.


End BarPosition.

(** The pointer at [(2000, 500)] is over the second monitor of
    [Scenario.empty2]. *)
Lemma ptrtomon_first_hit_witness :
  let s := Scenario.empty2 in
  ∃ m, mons s !! ptrtomon 2000 500 s = Some m
    ∧ (INRECT 2000 500 (m_wx m) (m_wy m) (m_ww m) (m_wh m) = true
       ∧ (∀ j mj, mons s !! j = Some mj → (j < ptrtomon 2000 500 s)%nat →
                  INRECT 2000 500 (m_wx mj) (m_wy mj) (m_ww mj) (m_wh mj)
                  = false)
       ∨ ptrtomon 2000 500 s = selmon s
         ∧ ∀ j mj, mons s !! j = Some mj →
                   INRECT 2000 500 (m_wx mj) (m_wy mj) (m_ww mj) (m_wh mj)
                   = false).
Proof.
  intros s. apply (ptrtomon_first_hit 2000 500 s).
  exists Scenario.mon0. reflexivity.
Defined.

Example ptrtomon_second : ptrtomon 2000 500 Scenario.empty2 = 1%nat.
Proof. reflexivity. Qed.


(** ** Client lists *)

Lemma unlink_split (c : nat) (l : list nat) :
  match unlink c l with
  | Some l' => ∃ l1 l2, l = l1 ++ c :: l2 ∧ (c ∉ l1) ∧ l' = l1 ++ l2
  | None => c ∉ l
  end.
Proof.
  induction l as [|d l IH]; simpl.
  - apply not_elem_of_nil.
  - destruct (decide (d = c)) as [->|Hne].
    + exists [], l. split; [reflexivity|]. split; [apply not_elem_of_nil|].
      reflexivity.
    + destruct (unlink c l) as [l'|]; simpl.
      * destruct IH as (l1 & l2 & -> & Hni & ->).
        exists (d :: l1), l2. split; [reflexivity|].
        split; [|reflexivity]. rewrite not_elem_of_cons. auto.
      * rewrite not_elem_of_cons. auto.
Qed.

(** The walk of [detach] and [detachstack]: a client that is linked is
    unlinked at its first occurrence and the order of the others is
    kept; for a client that is not linked the walk reaches the null
    pointer. *)
Theorem unlink_first_occurrence (c : nat) (l : list nat) :
  match unlink c l with
  | Some l' => ∃ l1 l2, l = l1 ++ c :: l2 ∧ (c ∉ l1) ∧ l' = l1 ++ l2
  | None => c ∉ l
  end.
Proof. apply unlink_split. Qed.

(** [nexttiled] skips floating clients only and stops at the first
    client that is not floating. *)
Theorem nexttiled_first_tiled (hp : gmap nat Client) (l r : list nat) :
  nexttiled hp l = Some r →
  ∃ pre, l = pre ++ r
    ∧ (∀ d, d ∈ pre → ∃ dl, hp !! d = Some dl ∧ c_isfloating dl = true)
    ∧ match r with
      | [] => True
      | c :: _ => ∃ cl, hp !! c = Some cl ∧ c_isfloating cl = false
      end.
Proof. apply nexttiled_split. Qed.

(** The selected client [W2], the head of the client list, has been
    made floating: [nexttiled] skips it and stops at [W1]. *)
Lemma nexttiled_first_tiled_witness :
  let s := default Scenario.two_tiled_state
             (togglefloating Scenario.cfg Scenario.scr
                Scenario.two_tiled_state) in
  ∃ pre, [1%nat; 0%nat] = pre ++ [0%nat]
    ∧ (∀ d, d ∈ pre → ∃ dl, heap s !! d = Some dl ∧ c_isfloating dl = true)
    ∧ ∃ cl, heap s !! 0%nat = Some cl ∧ c_isfloating cl = false.
Proof.
  intros s. apply (nexttiled_first_tiled (heap s) [1%nat; 0%nat] [0%nat]).
  by_compute.
Defined.

Lemma hasurgentclient_spec (hp : gmap nat Client) (l : list nat) (b : bool) :
  hasurgentclient hp l = Some b →
  b = true ↔ ∃ c cl, c ∈ l ∧ hp !! c = Some cl ∧ c_isurgent cl = true.
Proof.
  revert b. induction l as [|d l IH]; simpl; intros b H.
  - injection H as <-. split; [discriminate|].
    intros (c & _ & Hc & _). now apply elem_of_nil in Hc.
  - destruct (hp !! d) as [dl|] eqn:Hd; [|discriminate]. simpl in H.
    destruct (c_isurgent dl) eqn:Hu.
    + injection H as <-. split; [|reflexivity]. intros _.
      exists d, dl. split; [now left|auto].
    + rewrite (IH b H). split.
      * intros (c & cl & Hc & Hcl & Hcu). exists c, cl. split; [now right|auto].
      * intros (c & cl & Hc & Hcl & Hcu).
        apply elem_of_cons in Hc as [->|Hc]; [congruence|].
        exists c, cl. auto.
Qed.

(** [hasurgentclient] answers whether a client of the list has its
    urgency flag set. *)
Theorem hasurgentclient_iff (hp : gmap nat Client) (l : list nat) (b : bool) :
  hasurgentclient hp l = Some b →
  b = true ↔ ∃ c cl, c ∈ l ∧ hp !! c = Some cl ∧ c_isurgent cl = true.
Proof. apply hasurgentclient_spec. Qed.

(** [W1], which is not selected, has set the urgency hint. *)
Lemma hasurgentclient_iff_witness :
  let s := default Scenario.two_tiled_state
             (updatewmhints 0%nat (Some XUrgencyHint)
                Scenario.two_tiled_state) in
  true = true
  ↔ ∃ c cl, c ∈ [1%nat; 0%nat] ∧ heap s !! c = Some cl ∧ c_isurgent cl = true.
Proof.
  intros s. apply (hasurgentclient_iff (heap s) [1%nat; 0%nat] true).
  by_compute.
Defined.

(** Without an urgent client the answer is no. *)
Example hasurgentclient_none :
  hasurgentclient (heap Scenario.two_tiled_state) [1%nat; 0%nat] = Some false.
Proof. by_compute. Qed.

(** ** Size hints *)

Section SizeHints.

Variable cfg : Config.
Variable scr : Screen.

Lemma icccm_bounds (hn : Hints) (w h : Z) :
  let r := icccm hn w h in
  (maxw hn ≠ 0 → r.1 <= maxw hn)
  ∧ (maxh hn ≠ 0 → r.2 <= maxh hn)
  ∧ (maxw hn = 0 ∨ minw hn <= maxw hn → minw hn <= r.1)
  ∧ (maxh hn = 0 ∨ minh hn <= maxh hn → minh hn <= r.2).
Proof.
  unfold icccm.
  destruct (aspect hn _ _) as [w1 h1]. cbn [fst snd].
  destruct (Z.eqb_spec (maxw hn) 0); destruct (Z.eqb_spec (maxh hn) 0);
    cbn [negb]; repeat split; lia.
Qed.

(** The size that [applysizehints] returns: without size hints it is
    at least one pixel and at least the bar height in both directions;
    with size hints a maximum size that is set is never exceeded, and
    the minimum size is reached whenever it does not contradict the
    maximum. *)
Theorem applysizehints_size_bounds (cl : Client) (m : Monitor)
    (x y w h : Z) (i : bool) :
  let r := (applysizehints cfg scr cl m x y w h i).2 in
  let hn := c_hints cl in
  if resizehints cfg || c_isfloating cl then
    (maxw hn ≠ 0 → r_w r <= maxw hn)
    ∧ (maxh hn ≠ 0 → r_h r <= maxh hn)
    ∧ (maxw hn = 0 ∨ minw hn <= maxw hn → minw hn <= r_w r)
    ∧ (maxh hn = 0 ∨ minh hn <= maxh hn → minh hn <= r_h r)
  else 1 <= r_w r ∧ 1 <= r_h r ∧ bh scr <= r_w r ∧ bh scr <= r_h r.
Proof.
  unfold applysizehints.
  destruct (resizehints cfg || c_isfloating cl).
  - match goal with
    | |- context [icccm ?hn ?a ?b] =>
        pose proof (icccm_bounds hn a b) as H;
        destruct (icccm hn a b) as [w' h']
    end.
    exact H.
  - cbn [snd r_w r_h].
    repeat match goal with
           | |- context [?a <? ?b] => destruct (Z.ltb_spec a b)
           end; lia.
Qed.

Lemma applysizehints_flag (cl : Client) (m : Monitor)
    (x y w h : Z) (i : bool) :
  (applysizehints cfg scr cl m x y w h i).1 = false
  ↔ (applysizehints cfg scr cl m x y w h i).2 = c_rect cl.
Proof.
  split.
  - intros H.
    destruct (applysizehints cfg scr cl m x y w h i) as [b r] eqn:E.
    simpl in *. subst b. symmetry. eapply applysizehints_unchanged. exact E.
  - unfold applysizehints.
    destruct (if resizehints cfg || c_isfloating cl then _ else _) as [w' h'].
    cbn [fst snd]. unfold c_x, c_y, c_w, c_h. intros <-. cbn [r_x r_y r_w r_h].
    now rewrite !Z.eqb_refl.
Qed.

(** [resize] touches the record of its client only, and of that record
    the rectangle and the saved rectangle: either nothing changes, or
    the rectangle changes and the one the client had is saved. *)
Theorem resize_saves_rectangle (c : nat) (x y w h : Z) (i : bool)
    (s s' : State) :
  resize cfg scr c x y w h i s = Some s' →
  mons s' = mons s ∧ selmon s' = selmon s
  ∧ (∀ d, d ≠ c → heap s' !! d = heap s !! d)
  ∧ ∃ cl cl',
      heap s !! c = Some cl ∧ heap s' !! c = Some cl'
      ∧ same_attrs cl cl' ∧ c_isurgent cl' = c_isurgent cl
      ∧ (s' = s ∨ c_rect cl' ≠ c_rect cl ∧ c_old cl' = c_rect cl).
Proof.
  unfold resize. intros H. bind_inv H. bind_inv H.
  destruct (applysizehints cfg scr c0 m x y w h i) as [[|] r] eqn:Ea.
  - unfold resizeclient in H. rewrite E in H. simpl in H. injection H as <-.
    rewrite rect_eta. split; [reflexivity|]. split; [reflexivity|].
    split; [intros d Hd; rewrite heap_store; now apply lookup_insert_ne|].
    eexists c0, _. split; [reflexivity|].
    split; [rewrite heap_store; apply lookup_insert_eq|].
    split; [auto with dwm|]. split; [reflexivity|]. right. simpl.
    split; [|reflexivity]. intros Hr.
    assert (Hf : (applysizehints cfg scr c0 m x y w h i).1 = false)
      by (apply applysizehints_flag; rewrite Ea; exact Hr).
    rewrite Ea in Hf. discriminate.
  - injection H as <-. repeat split; auto.
    exists c0, c0. repeat split; auto.
Qed.

(** [updatesizehints] assigns the size hints and the fixed flag and
    nothing else; without a reply of [XGetWMNormalHints] every hint is
    zero and the client is not fixed; a client is made fixed only by a
    reply with a maximum size and a minimum or a base size. *)
Theorem updatesizehints_fixed_needs_sizes (reply : option XSizeHints)
    (c : Client) :
  let c' := updatesizehints_client reply c in
  (c_rect c' = c_rect c ∧ c_old c' = c_old c ∧ c_bw c' = c_bw c
   ∧ c_oldbw c' = c_oldbw c ∧ c_isfloating c' = c_isfloating c
   ∧ c_isurgent c' = c_isurgent c ∧ c_oldstate c' = c_oldstate c
   ∧ c_mon c' = c_mon c ∧ c_view c' = c_view c ∧ c_win c' = c_win c)
  ∧ (reply = None →
     c_isfixed c' = false
     ∧ c_hints c' = mkHints (of_int32 0) (of_int32 0) 0 0 0 0 0 0 0 0)
  ∧ (c_isfixed c' = true →
     ∃ size, reply = Some size
       ∧ has_flag (sz_flags size) PMaxSize = true
       ∧ (has_flag (sz_flags size) PMinSize = true
          ∨ has_flag (sz_flags size) PBaseSize = true)
       ∧ sz_max_width size ≠ 0 ∧ sz_max_height size ≠ 0
       ∧ maxw (c_hints c') = minw (c_hints c')
       ∧ maxh (c_hints c') = minh (c_hints c')).
Proof.
  split; [apply updatesizehints_client_spec|]. split.
  - intros ->. split; reflexivity.
  - unfold updatesizehints_client.
    destruct reply as [size|]; [|discriminate].
    change (default no_size_hints (Some size)) with size.
    destruct (has_flag (sz_flags size) PBaseSize) eqn:Hb;
      destruct (has_flag (sz_flags size) PMinSize) eqn:Hm;
      destruct (has_flag (sz_flags size) PResizeInc) eqn:Hi;
      destruct (has_flag (sz_flags size) PMaxSize) eqn:Hx;
      destruct (has_flag (sz_flags size) PAspect) eqn:Ha;
      cbn [c_isfixed set_c_isfixed set_c_hints c_hints maxw minw maxh minh];
      intros H; try discriminate H;
      repeat (apply andb_true_iff in H; destruct H as [H ?]);
      repeat match goal with
             | H : negb (_ =? _) = true |- _ =>
                 apply negb_true_iff, Z.eqb_neq in H
             | H : (_ =? _) = true |- _ => apply Z.eqb_eq in H
             end;
      exists size; repeat split; auto.
Qed.

End SizeHints.

(** The client of [W1] resized to 500x500 pixels. *)
Lemma resize_saves_rectangle_witness :
  let s := Scenario.two_tiled_state in
  let s' :=
    default s (resize Scenario.cfg Scenario.scr 0%nat 0 14 500 500 false s) in
  mons s' = mons s ∧ selmon s' = selmon s
  ∧ (∀ d, d ≠ 0%nat → heap s' !! d = heap s !! d)
  ∧ ∃ cl cl',
      heap s !! 0%nat = Some cl ∧ heap s' !! 0%nat = Some cl'
      ∧ same_attrs cl cl' ∧ c_isurgent cl' = c_isurgent cl
      ∧ (s' = s ∨ c_rect cl' ≠ c_rect cl ∧ c_old cl' = c_rect cl).
Proof.
  intros s s'.
  apply (resize_saves_rectangle Scenario.cfg Scenario.scr 0%nat 0 14 500 500
           false s s').
  by_compute.
Defined.

(** ** Urgency *)

(** [updatewmhints] with a reply of [XGetWMHints]: only the urgency
    flag of the client can change.  The client selected on the selected
    monitor is not marked by an urgency hint; any other client gets the
    bit of the hint. *)
Theorem updatewmhints_selected_not_marked (c : nat) (fl : Z) (s : State)
    (cl : Client) (sv : View) :
  heap s !! c = Some cl → SELVIEW s (selmon s) = Some sv →
  ∃ s' cl',
    updatewmhints c (Some fl) s = Some s'
    ∧ mons s' = mons s ∧ selmon s' = selmon s
    ∧ (∀ d, d ≠ c → heap s' !! d = heap s !! d)
    ∧ heap s' !! c = Some cl'
    ∧ same_attrs cl cl' ∧ c_rect cl' = c_rect cl ∧ c_old cl' = c_old cl
    ∧ if bool_decide (v_sel sv = Some c)
      then (has_flag fl XUrgencyHint = true → cl' = cl)
           ∧ (has_flag fl XUrgencyHint = false → c_isurgent cl' = false)
      else c_isurgent cl' = has_flag fl XUrgencyHint.
Proof.
  intros Hc Hsv. unfold updatewmhints. rewrite Hsv. cbn [mbind option_bind].
  assert (Hstore : ∀ b,
            ∃ s' cl',
              Some (store c (set_c_isurgent b cl) s) = Some s'
              ∧ mons s' = mons s ∧ selmon s' = selmon s
              ∧ (∀ d, d ≠ c → heap s' !! d = heap s !! d)
              ∧ heap s' !! c = Some cl'
              ∧ same_attrs cl cl' ∧ c_rect cl' = c_rect cl
              ∧ c_old cl' = c_old cl ∧ c_isurgent cl' = b).
  { intros b. eexists _, _. split; [reflexivity|].
    rewrite mons_store, selmon_store, heap_store.
    split; [reflexivity|]. split; [reflexivity|].
    split; [intros d Hd; now apply lookup_insert_ne|].
    split; [apply lookup_insert_eq|]. split; [auto with dwm|].
    split; [reflexivity|]. split; reflexivity. }
  destruct (bool_decide (v_sel sv = Some c)) eqn:Hsel;
    destruct (has_flag fl XUrgencyHint) eqn:Hu; cbn [andb].
  - exists s, cl. split; [reflexivity|]. split; [reflexivity|].
    split; [reflexivity|]. split; [auto|]. split; [exact Hc|].
    split; [auto with dwm|]. split; [reflexivity|]. split; [reflexivity|].
    split; [reflexivity|discriminate].
  - rewrite Hc. cbn [mbind option_bind].
    destruct (Hstore false) as (s' & cl' & E & ? & ? & ? & ? & ? & ? & ? & ?).
    exists s', cl'. repeat (split; [assumption|]). split; [discriminate|auto].
  - rewrite Hc. cbn [mbind option_bind].
    destruct (Hstore true) as (s' & cl' & E & ? & ? & ? & ? & ? & ? & ? & ?).
    exists s', cl'. repeat (split; [assumption|]). assumption.
  - rewrite Hc. cbn [mbind option_bind].
    destruct (Hstore false) as (s' & cl' & E & ? & ? & ? & ? & ? & ? & ? & ?).
    exists s', cl'. repeat (split; [assumption|]). assumption.
Qed.

(** [W2] is selected in [Scenario.two_tiled_state] and asks for
    attention. *)
Lemma updatewmhints_selected_not_marked_witness :
  let s := Scenario.two_tiled_state in
  let cl := Scenario.client_at 1%nat s in
  let sv := Scenario.selview_at 0%nat s in
  ∃ s' cl',
    updatewmhints 1%nat (Some XUrgencyHint) s = Some s'
    ∧ mons s' = mons s ∧ selmon s' = selmon s
    ∧ (∀ d, d ≠ 1%nat → heap s' !! d = heap s !! d)
    ∧ heap s' !! 1%nat = Some cl'
    ∧ same_attrs cl cl' ∧ c_rect cl' = c_rect cl ∧ c_old cl' = c_old cl
    ∧ if bool_decide (v_sel sv = Some 1%nat)
      then (has_flag XUrgencyHint XUrgencyHint = true → cl' = cl)
           ∧ (has_flag XUrgencyHint XUrgencyHint = false
              → c_isurgent cl' = false)
      else c_isurgent cl' = has_flag XUrgencyHint XUrgencyHint.
Proof.
  intros s cl sv.
  apply (updatewmhints_selected_not_marked 1%nat XUrgencyHint s cl sv);
    by_compute.
Defined.

(** ** Linking and unlinking *)

Lemma put_view_id (s : State) (m v : nat) (vw : View) :
  get_view s m v = Some vw → put_view m v vw s = s.
Proof.
  unfold get_view, put_view, set_mons. intros H.
  destruct (mons s !! m) as [mon|] eqn:Hm; [|discriminate]. simpl in H.
  destruct s as [ms sm hp]. simpl in *. f_equal.
  apply list_eq. intros i. destruct (decide (i = m)) as [->|Hne].
  - rewrite list_lookup_alter_eq, Hm. simpl. f_equal.
    rewrite list_insert_id by exact H. now destruct mon.
  - now rewrite list_lookup_alter_ne.
Qed.

(** For a client that is in no list, [detach] undoes [attach], and
    [detachstack] undoes [attachstack] unless the client is the
    selection of its view, which then moves to the head of the focus
    stack. *)
Theorem attach_detach_round_trip (c : nat) (s : State) (cl : Client)
    (vw : View) :
  heap s !! c = Some cl →
  get_view s (c_mon cl) (c_view cl) = Some vw →
  linked c s = false → stacked c s = false →
  (attach c s ≫= detach c) = Some s
  ∧ (attachstack c s ≫= detachstack c)
    = Some (if decide (v_sel vw = Some c)
            then put_view (c_mon cl) (c_view cl)
                   (set_v_sel (head (v_stack vw)) vw) s
            else s).
Proof.
  intros Hc Hv Hl Hs. split.
  - rewrite (attach_eq s c cl vw Hc Hv) by now apply linked_false.
    cbn [mbind option_bind]. unfold detach. rewrite heap_put_view, Hc.
    cbn [mbind option_bind].
    rewrite get_view_put_view by eauto. rewrite decide_True by auto.
    cbn [mbind option_bind]. cbn [v_clients set_v_clients].
    rewrite unlink_head. cbn [mbind option_bind].
    rewrite put_view_put_view. f_equal.
    replace (set_v_clients (v_clients vw) (set_v_clients (c :: v_clients vw) vw))
      with vw by (now destruct vw).
    now apply put_view_id.
  - rewrite (attachstack_eq s c cl vw Hc Hv) by now apply stacked_false.
    cbn [mbind option_bind].
    erewrite detachstack_eq;
      [|rewrite heap_put_view; exact Hc
       |rewrite get_view_put_view by eauto; now rewrite decide_True
       |cbn [v_stack set_v_stack]; apply unlink_head].
    rewrite put_view_put_view. f_equal. cbn [v_sel set_v_stack set_v_sel].
    replace (set_v_stack (v_stack vw) (set_v_stack (c :: v_stack vw) vw))
      with vw by (now destruct vw).
    destruct (decide (v_sel vw = Some c)) as [Hsel|Hsel]; [reflexivity|].
    now apply put_view_id.
Qed.

(** [W1] taken out of both lists of [Scenario.two_tiled_state], as
    [tag] and [sendmon] do before they link the client again. *)
Lemma attach_detach_round_trip_witness :
  let s := default Scenario.two_tiled_state
             (detach 0%nat Scenario.two_tiled_state ≫= detachstack 0%nat) in
  let cl := Scenario.client_at 0%nat s in
  let vw := Scenario.selview_at 0%nat s in
  (attach 0%nat s ≫= detach 0%nat) = Some s
  ∧ (attachstack 0%nat s ≫= detachstack 0%nat)
    = Some (if decide (v_sel vw = Some 0%nat)
            then put_view (c_mon cl) (c_view cl)
                   (set_v_sel (head (v_stack vw)) vw) s
            else s).
Proof.
  intros s cl vw.
  apply (attach_detach_round_trip 0%nat s cl vw); by_compute.
Defined.

(** On a client that is linked the model of [attach] stops: for [W1]
    of [Scenario.two_tiled_state] the store into [c->next] would close
    the cycle W1, W2, W1. *)
Example attach_linked_client :
  attach 0%nat Scenario.two_tiled_state = None
  ∧ attachstack 0%nat Scenario.two_tiled_state = None.
Proof. split; by_compute. Qed.

(** ** Fullscreen on concrete windows *)

(** [W1] of [Scenario.two_tiled_state] goes fullscreen and back. *)
Lemma fullscreen_round_trip_witness :
  let s := Scenario.two_tiled_state in
  let cl := Scenario.client_at 0%nat s in
  let set := FullscreenExample.set_fullscreen Scenario.W1 in
  let unset := FullscreenExample.unset_fullscreen Scenario.W1 in
  ∃ m s1 cl1 s1' cl1' s2 cl2,
    mons s !! c_mon cl = Some m
    ∧ clientmessage Scenario.cfg Scenario.scr set s = Some s1
    ∧ heap s1 !! 0%nat = Some cl1
    ∧ c_isfloating cl1 = true ∧ c_bw cl1 = 0
    ∧ c_rect cl1 = mkRect (m_mx m) (m_my m) (m_mw m) (m_mh m)
    ∧ leave_fullscreen 0%nat s1 = Some s1'
    ∧ heap s1' !! 0%nat = Some cl1'
    ∧ c_rect cl1' = c_rect cl ∧ c_bw cl1' = c_bw cl
    ∧ c_isfloating cl1' = c_isfloating cl
    ∧ arrange Scenario.cfg Scenario.scr (Some (c_mon cl)) s1' = Some s2
    ∧ clientmessage Scenario.cfg Scenario.scr unset s1 = Some s2
    ∧ heap s2 !! 0%nat = Some cl2
    ∧ c_bw cl2 = c_bw cl ∧ c_isfloating cl2 = c_isfloating cl
    ∧ (c_isfloating cl = true → settled Scenario.cfg Scenario.scr m cl →
       c_rect cl2 = c_rect cl).
Proof.
  intros s cl set unset.
  apply (fullscreen_round_trip Scenario.cfg Scenario.scr s Scenario.W1 0%nat
           cl 1).
  - apply wfb_wf. by_compute.
  - by_compute.
  - by_compute.
  - discriminate.
Defined.

(** A floating client that is not settled: the dialog of
    [FullscreenExample] is 95 pixels wide and high after [manage]; the
    round trip hands this size to [arrange], which takes it down to the
    next multiple of the resize increment. *)
Example fullscreen_unsettled_shrinks :
  let s := FullscreenExample.dialog_state in
  FullscreenExample.dialog = Some s
  ∧ Scenario.rect_of Scenario.W1 s = Some (mkRect 0 14 95 95)
  ∧ (c_isfloating <$> Scenario.client_of Scenario.W1 s) = Some true
  ∧ ∃ s1 s2,
      clientmessage Scenario.cfg Scenario.scr
        (FullscreenExample.set_fullscreen Scenario.W1) s = Some s1
      ∧ Scenario.rect_of Scenario.W1 s1 = Some (mkRect 0 0 1920 1080)
      ∧ clientmessage Scenario.cfg Scenario.scr
          (FullscreenExample.unset_fullscreen Scenario.W1) s1 = Some s2
      ∧ Scenario.rect_of Scenario.W1 s2 = Some (mkRect 0 14 90 90).
Proof.
  intros s. split; [by_compute|]. split; [by_compute|]. split; [by_compute|].
  destruct (clientmessage Scenario.cfg Scenario.scr
              (FullscreenExample.set_fullscreen Scenario.W1) s)
    as [s1|] eqn:E1; [|vm_compute in E1; discriminate E1].
  exists s1.
  destruct (clientmessage Scenario.cfg Scenario.scr
              (FullscreenExample.unset_fullscreen Scenario.W1) s1)
    as [s2|] eqn:E2;
    [|vm_compute in E1; injection E1 as <-; vm_compute in E2;
      discriminate E2].
  exists s2. vm_compute in E1. injection E1 as <-.
  vm_compute in E2. injection E2 as <-.
  repeat split; by_compute.
Qed.


(** That dialog is floating and settled, so the last clause of
    [fullscreen_restores] applies to it: rectangle, border width and
    floating flag after the round trip are those of before. *)
Example fullscreen_restores_plain_dialog :
  let s := FullscreenExample.plain_dialog_state in
  let seen := λ s, cl ← Scenario.client_of Scenario.W1 s;
                   Some (c_rect cl, c_bw cl, c_isfloating cl) in
  FullscreenExample.plain_dialog = Some s
  ∧ seen s = Some (mkRect 0 14 100 100, 1, true)
  ∧ settled Scenario.cfg Scenario.scr Scenario.mon0
      (Scenario.client_at 0%nat s)
  ∧ (s1 ← clientmessage Scenario.cfg Scenario.scr
            (FullscreenExample.set_fullscreen Scenario.W1) s;
     seen s1) = Some (mkRect 0 0 1920 1080, 0, true)
  ∧ (s1 ← clientmessage Scenario.cfg Scenario.scr
            (FullscreenExample.set_fullscreen Scenario.W1) s;
     s2 ← clientmessage Scenario.cfg Scenario.scr
            (FullscreenExample.unset_fullscreen Scenario.W1) s1;
     seen s2) = Some (mkRect 0 14 100 100, 1, true).
Proof.
  intros s seen. split; [by_compute|]. split; [by_compute|].
  split; [by_compute|]. split; by_compute.
Qed.


(** ** Looking a window up *)

Lemma find_win_none (hp : gmap nat Client) (w : Window) (l : list nat) :
  find_win hp w l = Some None →
  ∀ c cl, c ∈ l → hp !! c = Some cl → c_win cl ≠ w.
Proof.
  induction l as [|d l IH]; simpl; intros H c cl Hc Hcl.
  - now apply elem_of_nil in Hc.
  - destruct (hp !! d) as [dl|] eqn:Hd; [|discriminate]. simpl in H.
    destruct (decide (w = c_win dl)) as [->|Hne]; [discriminate|].
    apply elem_of_cons in Hc as [->|Hc]; [congruence|]. eauto.
Qed.

Lemma find_win_views_none (hp : gmap nat Client) (w : Window)
    (vs : list View) (ix : list nat) :
  find_win_views hp w vs ix = Some None →
  ∀ i vw c cl, i ∈ ix → vs !! i = Some vw → c ∈ v_clients vw →
               hp !! c = Some cl → c_win cl ≠ w.
Proof.
  induction ix as [|j ix IH]; simpl; intros H i vw c cl Hi Hv Hc Hcl.
  - now apply elem_of_nil in Hi.
  - destruct (vs !! j) as [vj|] eqn:Hj; [|discriminate]. simpl in H.
    destruct (find_win hp w (v_clients vj)) as [[d|]|] eqn:Hf;
      try discriminate. simpl in H.
    apply elem_of_cons in Hi as [->|Hi].
    + rewrite Hj in Hv. injection Hv as <-. eapply find_win_none; eauto.
    + eapply IH; eauto.
Qed.

Lemma find_win_mons_none (hp : gmap nat Client) (w : Window)
    (ms : list Monitor) :
  find_win_mons hp w ms = Some None →
  ∀ m mon i vw c cl, ms !! m = Some mon → (i < NUMVIEWS)%nat →
    m_views mon !! i = Some vw → c ∈ v_clients vw → hp !! c = Some cl →
    c_win cl ≠ w.
Proof.
  induction ms as [|mon0 ms IH]; intros H m mon i vw c cl Hm Hi Hv Hc Hcl;
    [discriminate|].
  cbn [find_win_mons] in H.
  destruct (find_win_views hp w (m_views mon0) (seq 0 NUMVIEWS))
    as [[d|]|] eqn:Hf; try discriminate. cbn [mbind option_bind] in H.
  destruct m as [|m]; simpl in Hm.
  - injection Hm as <-.
    eapply (find_win_views_none _ _ _ _ Hf i); eauto.
    apply elem_of_seq. lia.
  - eapply IH; eauto.
Qed.

Lemma wintoclient_spec (s : State) (w : Window) :
  lists_ok s →
  ∃ r, wintoclient s w = Some r
    ∧ match r with
      | Some c =>
          ∃ cl vw, heap s !! c = Some cl ∧ c_win cl = w
                   ∧ get_view s (c_mon cl) (c_view cl) = Some vw
                   ∧ c ∈ v_clients vw
      | None =>
          ∀ m v vw c cl, get_view s m v = Some vw → c ∈ v_clients vw →
                         heap s !! c = Some cl → c_win cl ≠ w
      end.
Proof.
  intros Hwf. destruct (wintoclient_total s w Hwf) as [r Hr].
  exists r. split; [exact Hr|]. destruct r as [c|].
  - now apply wintoclient_found.
  - intros m v vw c cl Hv Hc Hcl. unfold get_view in Hv.
    destruct (mons s !! m) as [mon|] eqn:Hm; [|discriminate]. simpl in Hv.
    destruct Hwf as ((_ & Hall) & _). destruct (Hall m mon Hm) as [Hlen _].
    apply (find_win_mons_none _ _ _ Hr m mon v vw c cl); auto.
    rewrite <- Hlen. eapply lookup_lt_Some; eauto.
Qed.

(** On a sound state [wintoclient] returns.  A client it returns is
    linked in the client list of its view and has the window asked
    for; when it returns the null pointer no linked client has that
    window. *)
Theorem wintoclient_finds_linked (s : State) (w : Window) :
  lists_ok s →
  ∃ r, wintoclient s w = Some r
    ∧ match r with
      | Some c =>
          ∃ cl vw, heap s !! c = Some cl ∧ c_win cl = w
                   ∧ get_view s (c_mon cl) (c_view cl) = Some vw
                   ∧ c ∈ v_clients vw
      | None =>
          ∀ m v vw c cl, get_view s m v = Some vw → c ∈ v_clients vw →
                         heap s !! c = Some cl → c_win cl ≠ w
      end.
Proof. apply wintoclient_spec. Qed.

Lemma wintoclient_finds_linked_witness :
  let s := Scenario.two_tiled_state in
  ∃ r, wintoclient s Scenario.W2 = Some r
    ∧ match r with
      | Some c =>
          ∃ cl vw, heap s !! c = Some cl ∧ c_win cl = Scenario.W2
                   ∧ get_view s (c_mon cl) (c_view cl) = Some vw
                   ∧ c ∈ v_clients vw
      | None =>
          ∀ m v vw c cl, get_view s m v = Some vw → c ∈ v_clients vw →
                         heap s !! c = Some cl → c_win cl ≠ Scenario.W2
      end.
Proof.
  intros s. apply (wintoclient_finds_linked s Scenario.W2).
  apply wfb_lists_ok. by_compute.
Defined.

(** ** Mapping a window *)

Section MapWindow.

Variable cfg : Config.
Variable scr : Screen.

(** The lists of a state and of the state [arrange] makes of it. *)
Lemma arranged_lists (s s' : State) (m v : nat) (vw' : View) :
  arranged s s' → get_view s' m v = Some vw' →
  ∃ vw, get_view s m v = Some vw
        ∧ v_clients vw' = v_clients vw ∧ v_stack vw' = v_stack vw.
Proof.
  intros Harr Hv'. pose proof (arranged_get_view s s' m v Harr) as H.
  destruct (get_view s m v) as [vw|]; [|congruence].
  destruct H as (vw'' & Hv'' & _ & Hc & Hs & _).
  rewrite Hv' in Hv''. injection Hv'' as <-. eauto.
Qed.

Lemma manage_links (s : State) (w : Window) (wa : XWindowAttributes)
    (transient : option Window) (normal : option XSizeHints) :
  wf s →
  ∃ s' mp mon sv vw' cl',
    manage cfg scr w wa transient normal s = Some s'
    ∧ wf s'
    ∧ mons s !! mp = Some mon
    ∧ get_view s mp (m_selview mon) = Some sv
    ∧ get_view s' mp (m_selview mon) = Some vw'
    ∧ v_clients vw' = malloc s :: v_clients sv
    ∧ v_stack vw' = malloc s :: v_stack sv
    ∧ heap s !! malloc s = None
    ∧ heap s' !! malloc s = Some cl'
    ∧ c_win cl' = w ∧ c_mon cl' = mp ∧ c_view cl' = m_selview mon
    ∧ (∀ d dl, heap s !! d = Some dl →
         ∃ dl', heap s' !! d = Some dl' ∧ same_attrs dl dl')
    ∧ (∀ m v vw2, get_view s' m v = Some vw2 →
         (m, v) ≠ (mp, m_selview mon) →
         ∃ vw, get_view s m v = Some vw
               ∧ v_clients vw2 = v_clients vw ∧ v_stack vw2 = v_stack vw).
Proof.
  intros [Hwf Hlive].
  destruct (manage_eq cfg scr s w wa transient normal Hwf)
    as (mp & mon & sv & s3 & Hmon & Hsv & Hs3 & Hwf3 & Heq).
  assert (Hlive3 : sel_live s3).
  { rewrite Hs3. eapply sel_live_put_view_sel;
      [rewrite get_view_store; exact Hsv|reflexivity
      |apply sel_live_store, Hlive]. }
  destruct (arrange_total cfg scr mp s3 Hwf3 Hlive3) as [s' Hs'].
  { rewrite Hs3. erewrite put_view_mon_eq by (rewrite mons_store; exact Hmon).
    eauto. }
  pose proof Hwf3 as (Hshape3 & Hstack3 & Hcl3).
  destruct (arrange_inv cfg scr _ _ _ Hshape3 Hstack3 Hs')
    as (Harr & _ & Hshape' & Hstack' & Hcl').
  pose proof (manage_record_spec cfg scr w wa transient normal mp mon)
    as (Rm & Rv & Rw & _).
  set (rec := manage_record cfg scr w wa transient normal mp mon) in *.
  assert (Hh3 : heap s3 = <[malloc s := rec]> (heap s))
    by (rewrite Hs3; now rewrite heap_put_view, heap_store).
  assert (Hgv3 : ∀ m v, get_view s3 m v
                        = if decide (mp = m ∧ m_selview mon = v)
                          then Some (set_v_stack (malloc s :: v_stack sv)
                                       (set_v_clients
                                          (malloc s :: v_clients sv) sv))
                          else get_view s m v).
  { intros m v. rewrite Hs3.
    now rewrite get_view_put_view by (rewrite get_view_store; eauto). }
  pose proof (arranged_get_view s3 s' mp (m_selview mon) Harr) as Hnew.
  rewrite Hgv3, decide_True in Hnew by auto.
  destruct Hnew as (vw' & Hvw' & _ & Hc' & Hst' & _).
  assert (Hrec : heap s3 !! malloc s = Some rec)
    by (rewrite Hh3; apply lookup_insert_eq).
  destruct (arranged_client _ _ _ _ Harr Hrec) as (cl' & Hcl'' & Ha).
  attrs Ha.
  exists s', mp, mon, sv, vw', cl'.
  split; [now rewrite Heq|]. split; [eapply arrange_wf; eauto|].
  split; [exact Hmon|]. split; [exact Hsv|]. split; [exact Hvw'|].
  split; [exact Hc'|]. split; [exact Hst'|].
  split; [apply malloc_fresh|]. split; [exact Hcl''|].
  split; [congruence|]. split; [congruence|]. split; [congruence|]. split.
  - intros d dl Hd. apply (arranged_client _ _ _ _ Harr).
    rewrite Hh3, lookup_insert_ne; [exact Hd|].
    intros <-. rewrite malloc_fresh in Hd. discriminate.
  - intros m v vw2 Hv2 Hne.
    destruct (arranged_lists _ _ _ _ _ Harr Hv2) as (vw3 & Hv3 & ? & ?).
    rewrite Hgv3 in Hv3. rewrite decide_False in Hv3; [eauto|].
    intros [<- <-]. now apply Hne.
Qed.

Lemma manage_lookup (s : State) (w : Window) (wa : XWindowAttributes)
    (transient : option Window) (normal : option XSizeHints) :
  wf s → wintoclient s w = Some None →
  ∃ s', manage cfg scr w wa transient normal s = Some s' ∧ wf s'
        ∧ wintoclient s' w = Some (Some (malloc s)).
Proof.
  intros Hwf0 Hnone.
  destruct (manage_links s w wa transient normal Hwf0)
    as (s' & mp & mon & sv & vw' & cl' & Hman & Hwf' & Hmon & Hsv & Hvw'
        & Hc' & _ & Hfresh & Hcl' & Hw & Hm & Hv & Hold & Hrest).
  destruct Hwf0 as [Hwf _].
  exists s'. split; [exact Hman|]. split; [exact Hwf'|].
  destruct (wintoclient_spec s w Hwf) as (r0 & Hr0 & Hnone').
  rewrite Hnone in Hr0. injection Hr0 as <-.
  destruct (wintoclient_spec s' w (proj1 Hwf')) as (r & Hr & Hspec).
  rewrite Hr. destruct r as [d|].
  - destruct Hspec as (dl' & vw2 & Hd' & Hdw & Hv2 & Hin).
    destruct (decide (d = malloc s)) as [->|Hne]; [reflexivity|].
    exfalso.
    assert (Hlinked : ∃ vw, get_view s (c_mon dl') (c_view dl') = Some vw
                            ∧ d ∈ v_clients vw).
    { destruct (decide ((c_mon dl', c_view dl') = (mp, m_selview mon)))
        as [E|E].
      - injection E as E1 E2. rewrite E1, E2 in Hv2. rewrite Hvw' in Hv2.
        injection Hv2 as <-. rewrite Hc' in Hin.
        apply elem_of_cons in Hin as [->|Hin]; [congruence|].
        exists sv. rewrite E1, E2. auto.
      - destruct (Hrest _ _ _ Hv2 E) as (vw & Hvw & Hcs & _).
        exists vw. rewrite <- Hcs. auto. }
    destruct Hlinked as (vw & Hvw & Hin0).
    destruct Hwf as (_ & _ & Hclients).
    destruct (Hclients _ _ _ Hvw d Hin0) as (dl & Hd & _).
    destruct (Hold d dl Hd) as (dl2 & Hd2 & Ha). attrs Ha.
    rewrite Hd' in Hd2. injection Hd2 as <-.
    apply (Hnone' _ _ _ _ _ Hvw Hin0 Hd). congruence.
  - exfalso. apply (Hspec mp (m_selview mon) vw' (malloc s) cl' Hvw');
      [rewrite Hc'; now left|exact Hcl'|exact Hw].
Qed.

(** [manage] on a sound state: it returns a sound state in which the
    new client heads the client list and the focus stack of the
    selected view of its monitor, every other list is as it was, every
    client that was there keeps its attributes, and [wintoclient] finds
    the new window if it was not managed before. *)
Theorem manage_links_at_head (s : State) (w : Window)
    (wa : XWindowAttributes) (transient : option Window)
    (normal : option XSizeHints) :
  wf s →
  ∃ s' mp mon sv vw' cl',
    manage cfg scr w wa transient normal s = Some s'
    ∧ wf s'
    ∧ mons s !! mp = Some mon
    ∧ get_view s mp (m_selview mon) = Some sv
    ∧ get_view s' mp (m_selview mon) = Some vw'
    ∧ v_clients vw' = malloc s :: v_clients sv
    ∧ v_stack vw' = malloc s :: v_stack sv
    ∧ heap s !! malloc s = None
    ∧ heap s' !! malloc s = Some cl'
    ∧ c_win cl' = w ∧ c_mon cl' = mp ∧ c_view cl' = m_selview mon
    ∧ (∀ d dl, heap s !! d = Some dl →
         ∃ dl', heap s' !! d = Some dl' ∧ same_attrs dl dl')
    ∧ (∀ m v vw2, get_view s' m v = Some vw2 →
         (m, v) ≠ (mp, m_selview mon) →
         ∃ vw, get_view s m v = Some vw
               ∧ v_clients vw2 = v_clients vw ∧ v_stack vw2 = v_stack vw)
    ∧ (wintoclient s w = Some None →
       wintoclient s' w = Some (Some (malloc s))).
Proof.
  intros Hwf.
  destruct (manage_links s w wa transient normal Hwf)
    as (s' & mp & mon & sv & vw' & cl' & Hman & H).
  exists s', mp, mon, sv, vw', cl'. split; [exact Hman|].
  repeat (destruct H as [? H]; split; [assumption|]).
  split; [exact H|]. intros Hnone.
  destruct (manage_lookup s w wa transient normal Hwf Hnone)
    as (s2 & Hman2 & _ & Hl).
  rewrite Hman in Hman2. injection Hman2 as <-. exact Hl.
Qed.

(** A [MapRequest] that is repeated changes nothing: after
    [maprequest] has returned, the same request is answered with the
    state as it is, and so is every request for a window that is
    managed. *)
Theorem maprequest_once (s : State) (w : Window)
    (wa : option (XWindowAttributes * bool)) (transient : option Window)
    (normal : option XSizeHints) :
  wf s →
  ∃ s', maprequest cfg scr w wa transient normal s = Some s'
        ∧ wf s'
        ∧ maprequest cfg scr w wa transient normal s' = Some s'
        ∧ ∀ c wa2 transient2 normal2,
            wintoclient s' w = Some (Some c) →
            maprequest cfg scr w wa2 transient2 normal2 s' = Some s'.
Proof.
  intros Hwf.
  assert (Hstay : ∀ s0 c wa2 transient2 normal2,
            wintoclient s0 w = Some (Some c) →
            maprequest cfg scr w wa2 transient2 normal2 s0 = Some s0).
  { intros s0 c wa2 t2 n2 Hr. unfold maprequest.
    destruct wa2 as [[wa2 [|]]|]; try reflexivity.
    rewrite Hr. reflexivity. }
  destruct (wintoclient_total s w (proj1 Hwf)) as [r Hr].
  destruct r as [c|].
  - exists s. split; [now apply (Hstay s c)|]. split; [exact Hwf|].
    split; [now apply (Hstay s c)|]. intros; eapply Hstay; eauto.
  - destruct wa as [[wa0 [|]]|].
    + exists s. split; [reflexivity|]. split; [exact Hwf|].
      split; [reflexivity|]. intros; eapply Hstay; eauto.
    + destruct (manage_lookup s w wa0 transient normal Hwf Hr)
        as (s' & Hman & Hwf' & Hl).
      exists s'. split.
      { unfold maprequest. rewrite Hr. exact Hman. }
      split; [exact Hwf'|].
      split; [now apply (Hstay s' (malloc s))|].
      intros; eapply Hstay; eauto.
    + exists s. split; [reflexivity|]. split; [exact Hwf|].
      split; [reflexivity|]. intros; eapply Hstay; eauto.
Qed.

End MapWindow.

Lemma manage_links_at_head_witness :
  let s := Scenario.two_tiled_state in
  let w := Scenario.W3 in
  ∃ s' mp mon sv vw' cl',
    manage Scenario.cfg Scenario.scr w Scenario.wa_small None None s = Some s'
    ∧ wf s'
    ∧ mons s !! mp = Some mon
    ∧ get_view s mp (m_selview mon) = Some sv
    ∧ get_view s' mp (m_selview mon) = Some vw'
    ∧ v_clients vw' = malloc s :: v_clients sv
    ∧ v_stack vw' = malloc s :: v_stack sv
    ∧ heap s !! malloc s = None
    ∧ heap s' !! malloc s = Some cl'
    ∧ c_win cl' = w ∧ c_mon cl' = mp ∧ c_view cl' = m_selview mon
    ∧ (∀ d dl, heap s !! d = Some dl →
         ∃ dl', heap s' !! d = Some dl' ∧ same_attrs dl dl')
    ∧ (∀ m v vw2, get_view s' m v = Some vw2 →
         (m, v) ≠ (mp, m_selview mon) →
         ∃ vw, get_view s m v = Some vw
               ∧ v_clients vw2 = v_clients vw ∧ v_stack vw2 = v_stack vw)
    ∧ (wintoclient s w = Some None →
       wintoclient s' w = Some (Some (malloc s))).
Proof.
  intros s w.
  apply (manage_links_at_head Scenario.cfg Scenario.scr s w Scenario.wa_small
           None None).
  apply wfb_wf. by_compute.
Defined.

Lemma maprequest_once_witness :
  let s := Scenario.two_tiled_state in
  let w := Scenario.W3 in
  let wa := Some (Scenario.wa_small, false) in
  ∃ s', maprequest Scenario.cfg Scenario.scr w wa None None s = Some s'
        ∧ wf s'
        ∧ maprequest Scenario.cfg Scenario.scr w wa None None s' = Some s'
        ∧ ∀ c wa2 transient2 normal2,
            wintoclient s' w = Some (Some c) →
            maprequest Scenario.cfg Scenario.scr w wa2 transient2 normal2 s'
            = Some s'.
Proof.
  intros s w wa.
  apply (maprequest_once Scenario.cfg Scenario.scr s w wa None None).
  apply wfb_wf. by_compute.
Defined.

(** ** Moving clients between lists *)

(** The client list of every view has no cycle and the same members as
    the focus stack of the view. *)
Definition paired (s : State) : Prop :=
  ∀ m v vw, get_view s m v = Some vw →
    NoDup (v_clients vw) ∧ ∀ c, c ∈ v_clients vw ↔ c ∈ v_stack vw.

(** The client is in no list. *)
Definition unlinked (s : State) (c : nat) : Prop :=
  ∀ m v vw, get_view s m v = Some vw →
    (c ∉ v_clients vw) ∧ (c ∉ v_stack vw).

(** A boolean test for [paired]. *)
Definition pairedb_view (vw : View) : bool :=
  bool_decide (NoDup (v_clients vw))
  && forallb (λ c, bool_decide (c ∈ v_stack vw)) (v_clients vw)
  && forallb (λ c, bool_decide (c ∈ v_clients vw)) (v_stack vw).

Definition pairedb (s : State) : bool :=
  forallb (λ mon, forallb pairedb_view (m_views mon)) (mons s).

Lemma pairedb_paired (s : State) : pairedb s = true → paired s.
Proof.
  unfold pairedb, paired, get_view. intros H m v vw Hv.
  destruct (mons s !! m) as [mon|] eqn:Hm; [|discriminate]. simpl in Hv.
  rewrite forallb_forall in H.
  specialize (H mon). rewrite <- list_elem_of_In in H.
  assert (Hmon : mon ∈ mons s) by (apply list_elem_of_lookup; eauto).
  specialize (H Hmon). rewrite forallb_forall in H.
  specialize (H vw). rewrite <- list_elem_of_In in H.
  assert (Hvw : vw ∈ m_views mon) by (apply list_elem_of_lookup; eauto).
  specialize (H Hvw). unfold pairedb_view in H.
  apply andb_true_iff in H as [H H3]. apply andb_true_iff in H as [H1 H2].
  apply bool_decide_eq_true in H1. split; [exact H1|].
  rewrite forallb_forall in H2, H3. intros c. split; intros Hc.
  - apply list_elem_of_In, H2 in Hc. now apply bool_decide_eq_true in Hc.
  - apply list_elem_of_In, H3 in Hc. now apply bool_decide_eq_true in Hc.
Qed.

Lemma unlink_members (c : nat) (l l' : list nat) :
  unlink c l = Some l' → NoDup l →
  NoDup l' ∧ ∀ d, d ∈ l' ↔ d ∈ l ∧ d ≠ c.
Proof.
  intros H Hnd. pose proof (unlink_split c l) as Hs. rewrite H in Hs.
  destruct Hs as (l1 & l2 & -> & Hni & ->).
  apply NoDup_app in Hnd as (Hn1 & Hdis & Hn2).
  apply NoDup_cons in Hn2 as [Hc2 Hn2]. split.
  - apply NoDup_app. split; [exact Hn1|]. split; [|exact Hn2].
    intros x Hx Hx2. apply (Hdis x Hx). now right.
  - intros d. rewrite !elem_of_app, elem_of_cons. split.
    + intros [Hd|Hd].
      * split; [now left|]. intros ->. contradiction.
      * split; [right; now right|]. intros ->. contradiction.
    + intros [[Hd|[->|Hd]] Hne]; [now left|contradiction|now right].
Qed.

Lemma unlink_is_Some (c : nat) (l : list nat) : c ∈ l → is_Some (unlink c l).
Proof.
  intros Hc. pose proof (unlink_split c l) as Hs.
  destruct (unlink c l); [eauto|contradiction].
Qed.

Lemma at_view_put_view (s : State) (m v : nat) (vw : View) (c m' v' : nat) :
  at_view (put_view m v vw s) c m' v' ↔ at_view s c m' v'.
Proof. unfold at_view. now rewrite heap_put_view. Qed.

Lemma at_view_unique (s : State) (c m v m' v' : nat) :
  at_view s c m v → at_view s c m' v' → m = m' ∧ v = v'.
Proof.
  intros (cl & H1 & <- & <-) (cl' & H2 & <- & <-).
  rewrite H1 in H2. injection H2 as <-. auto.
Qed.

(** Replacing the lists of one view by lists of clients of that view. *)
Lemma relink_wf (s : State) (m v : nat) (vw vw' : View) :
  lists_ok s → paired s → get_view s m v = Some vw →
  NoDup (v_stack vw') → NoDup (v_clients vw') →
  (∀ d, d ∈ v_clients vw' ↔ d ∈ v_stack vw') →
  (∀ d, d ∈ v_stack vw' → at_view s d m v) →
  lists_ok (put_view m v vw' s) ∧ paired (put_view m v vw' s).
Proof.
  intros (Hshape & Hstack & Hcl) Hp Hv Hns Hnc Hag Hat.
  assert (Hgv : ∀ m' v', get_view (put_view m v vw' s) m' v'
                         = if decide (m = m' ∧ v = v') then Some vw'
                           else get_view s m' v')
    by (intros; apply get_view_put_view; eauto).
  split; [split; [|split]|].
  - now apply put_view_shape.
  - intros m' v' w Hw. rewrite Hgv in Hw.
    destruct (decide (m = m' ∧ v = v')) as [[<- <-]|Hne].
    + injection Hw as <-. split; [exact Hns|].
      intros d Hd. apply at_view_put_view. auto.
    + destruct (Hstack _ _ _ Hw) as [? Hown]. split; [assumption|].
      intros d Hd. apply at_view_put_view. auto.
  - intros m' v' w Hw d Hd. rewrite Hgv in Hw. apply at_view_put_view.
    destruct (decide (m = m' ∧ v = v')) as [[<- <-]|Hne].
    + injection Hw as <-. apply Hat, Hag, Hd.
    + eapply Hcl; eauto.
  - intros m' v' w Hw. rewrite Hgv in Hw.
    destruct (decide (m = m' ∧ v = v')) as [[<- <-]|Hne].
    + injection Hw as <-. auto.
    + eapply Hp; eauto.
Qed.

(** The record of a client that is in no list can be replaced. *)
Lemma store_unlinked_wf (s : State) (c : nat) (cl : Client) :
  lists_ok s → paired s → unlinked s c →
  lists_ok (store c cl s) ∧ paired (store c cl s) ∧ unlinked (store c cl s) c.
Proof.
  intros (Hshape & Hstack & Hcl) Hp Hun.
  assert (Hat : ∀ d m v, d ≠ c → at_view s d m v → at_view (store c cl s) d m v).
  { intros d m v Hne (dl & Hd & ?). exists dl. rewrite heap_store.
    rewrite lookup_insert_ne by congruence. auto. }
  split; [split; [|split]|split].
  - exact Hshape.
  - intros m v vw Hv. rewrite get_view_store in Hv.
    destruct (Hstack _ _ _ Hv) as [Hnd Hown]. split; [exact Hnd|].
    intros d Hd. apply Hat; [|auto]. intros ->.
    destruct (Hun _ _ _ Hv); contradiction.
  - intros m v vw Hv d Hd. rewrite get_view_store in Hv.
    apply Hat; [|eapply Hcl; eauto]. intros ->.
    destruct (Hun _ _ _ Hv); contradiction.
  - exact Hp.
  - exact Hun.
Qed.


(** [detach] followed by [detachstack] on a linked client. *)
Lemma unlink_both (s : State) (c : nat) (cl : Client) (vw : View) :
  lists_ok s → paired s → heap s !! c = Some cl →
  get_view s (c_mon cl) (c_view cl) = Some vw → c ∈ v_clients vw →
  ∃ lc ls vw2,
    unlink c (v_clients vw) = Some lc ∧ unlink c (v_stack vw) = Some ls
    ∧ vw2 = (if decide (v_sel vw = Some c)
             then set_v_sel (head ls) (set_v_stack ls (set_v_clients lc vw))
             else set_v_stack ls (set_v_clients lc vw))
    ∧ (detach c s ≫= detachstack c)
      = Some (put_view (c_mon cl) (c_view cl) vw2 s)
    ∧ lists_ok (put_view (c_mon cl) (c_view cl) vw2 s)
    ∧ paired (put_view (c_mon cl) (c_view cl) vw2 s)
    ∧ unlinked (put_view (c_mon cl) (c_view cl) vw2 s) c.
Proof.
  intros Hwf Hp Hc Hv Hin.
  pose proof Hwf as (Hshape & Hstack & Hcl).
  destruct (Hp _ _ _ Hv) as [Hndc Hag].
  destruct (Hstack _ _ _ Hv) as [Hnds Hown].
  destruct (unlink_is_Some c (v_clients vw) Hin) as [lc Hlc].
  destruct (unlink_is_Some c (v_stack vw)) as [ls Hls]; [now apply Hag|].
  destruct (unlink_members _ _ _ Hlc Hndc) as [Hnlc Hmc].
  destruct (unlink_members _ _ _ Hls Hnds) as [Hnls Hms].
  eexists lc, ls, _. split; [exact Hlc|]. split; [exact Hls|].
  split; [reflexivity|].
  set (vw2 := if decide (v_sel vw = Some c)
              then set_v_sel (head ls) (set_v_stack ls (set_v_clients lc vw))
              else set_v_stack ls (set_v_clients lc vw)).
  assert (Hl2 : v_clients vw2 = lc ∧ v_stack vw2 = ls)
    by (unfold vw2; destruct (decide (v_sel vw = Some c)); auto).
  destruct Hl2 as [Hc2 Hs2].
  split.
  { unfold detach. rewrite Hc. cbn [mbind option_bind]. rewrite Hv.
    cbn [mbind option_bind]. rewrite Hlc. cbn [mbind option_bind].
    erewrite detachstack_eq;
      [|rewrite heap_put_view; exact Hc
       |rewrite get_view_put_view by eauto; now rewrite decide_True
       |exact Hls].
    now rewrite put_view_put_view. }
  destruct (relink_wf s (c_mon cl) (c_view cl) vw vw2 Hwf Hp Hv)
    as [Hwf2 Hp2].
  { now rewrite Hs2. }
  { now rewrite Hc2. }
  { intros d. rewrite Hc2, Hs2, Hmc, Hms, Hag. tauto. }
  { intros d. rewrite Hs2, Hms. intros [Hd _]. auto. }
  split; [exact Hwf2|]. split; [exact Hp2|].
  intros m v w Hw.
  rewrite get_view_put_view in Hw by eauto.
  destruct (decide (c_mon cl = m ∧ c_view cl = v)) as [[<- <-]|Hne].
  - injection Hw as <-. rewrite Hc2, Hs2, Hmc, Hms. tauto.
  - assert (Hno : ¬ at_view s c m v).
    { intros Hat. apply Hne.
      apply (at_view_unique s c); [|exact Hat]. exists cl. auto. }
    split.
    + intros Hd. apply Hno. eapply Hcl; eauto.
    + intros Hd. apply Hno. destruct (Hstack _ _ _ Hw) as [_ Ho]. auto.
Qed.

(** The selection that [focus] finds once [c] is out of its lists is
    another client, provided [c], if it was that selection, was a
    client of the selected view. *)
Lemma unlink_both_sel (s : State) (c : nat) (cl : Client) (vw vw2 : View)
    (lc ls : list nat) :
  lists_ok s → heap s !! c = Some cl →
  get_view s (c_mon cl) (c_view cl) = Some vw →
  unlink c (v_stack vw) = Some ls →
  vw2 = (if decide (v_sel vw = Some c)
         then set_v_sel (head ls) (set_v_stack ls (set_v_clients lc vw))
         else set_v_stack ls (set_v_clients lc vw)) →
  sel_live s →
  (∀ sv, SELVIEW s (selmon s) = Some sv → v_sel sv = Some c →
         c ∈ v_stack sv) →
  ∀ sv2 q,
    SELVIEW (put_view (c_mon cl) (c_view cl) vw2 s) (selmon s) = Some sv2 →
    v_sel sv2 = Some q → q ≠ c ∧ is_Some (heap s !! q).
Proof.
  intros Hwf Hc Hv Hls Hvw2 Hlive Hhome sv2 q Hsv2 Hq.
  rewrite SELVIEW_put_view in Hsv2 by eauto.
  destruct (mons s !! selmon s) as [mon|] eqn:Hmon; [|discriminate].
  cbn [mbind option_bind] in Hsv2.
  pose proof Hwf as (_ & Hstack & _).
  destruct (decide (c_mon cl = selmon s ∧ c_view cl = m_selview mon))
    as [[Em Ev]|Hne].
  - injection Hsv2 as <-.
    assert (Hsv : SELVIEW s (selmon s) = Some vw).
    { unfold SELVIEW. rewrite Hmon. cbn [mbind option_bind].
      unfold get_view in Hv. rewrite Em, Hmon in Hv. now rewrite <- Ev. }
    destruct (Hstack _ _ _ Hv) as [Hnds Hown].
    destruct (unlink_members _ _ _ Hls Hnds) as [_ Hms].
    rewrite Hvw2 in Hq.
    destruct (decide (v_sel vw = Some c)) as [Hs|Hs];
      cbn [v_sel set_v_sel set_v_stack set_v_clients] in Hq.
    + assert (Hql : q ∈ ls)
        by (destruct ls; [discriminate|]; injection Hq as ->; now left).
      apply Hms in Hql as [Hql Hqc]. split; [exact Hqc|].
      destruct (Hown q Hql) as (? & ? & _). eauto.
    + split; [congruence|]. eapply Hlive; eauto.
  - assert (Hsv : SELVIEW s (selmon s) = Some sv2)
      by (unfold SELVIEW; rewrite Hmon; exact Hsv2).
    split; [|eapply Hlive; eauto]. intros ->. apply Hne.
    assert (Hgv : get_view s (selmon s) (m_selview mon) = Some sv2)
      by (unfold get_view; rewrite Hmon; exact Hsv2).
    destruct (Hstack _ _ _ Hgv) as [_ Hown].
    destruct (Hown c (Hhome sv2 Hsv Hq)) as (cl0 & Hc0 & ? & ?).
    rewrite Hc in Hc0. injection Hc0 as <-. auto.
Qed.

(** A selection that heads its focus stack is a client of its view. *)
Lemma head_home (s : State) (c : nat) :
  sel_is_head s (selmon s) →
  ∀ sv, SELVIEW s (selmon s) = Some sv → v_sel sv = Some c → c ∈ v_stack sv.
Proof.
  intros (vw & Hvw & Hh) sv Hsv Hc. rewrite Hvw in Hsv. injection Hsv as <-.
  destruct Hh as [Hh|Hh]; [congruence|]. rewrite Hc in Hh.
  destruct (v_stack vw); [discriminate|]. injection Hh as ->. now left.
Qed.

(** [attach] followed by [attachstack] on a client that is in no list,
    after its record has been written. *)
Lemma link_head (s : State) (c : nat) (cl : Client) (tv : View) :
  lists_ok s → paired s → unlinked s c →
  get_view s (c_mon cl) (c_view cl) = Some tv →
  let s4 := put_view (c_mon cl) (c_view cl)
              (set_v_stack (c :: v_stack tv)
                 (set_v_clients (c :: v_clients tv) tv))
              (store c cl s) in
  (attach c (store c cl s) ≫= attachstack c) = Some s4
  ∧ lists_ok s4 ∧ paired s4.
Proof.
  intros Hwf Hp Hun Hv s4.
  destruct (store_unlinked_wf s c cl Hwf Hp Hun) as (Hwf3 & Hp3 & Hun3).
  assert (Hv3 : get_view (store c cl s) (c_mon cl) (c_view cl) = Some tv)
    by (now rewrite get_view_store).
  assert (Hc3 : heap (store c cl s) !! c = Some cl)
    by (rewrite heap_store; apply lookup_insert_eq).
  split.
  { rewrite (attach_eq _ c cl tv Hc3 Hv3) by (intros; eapply Hun3; eauto).
    cbn [mbind option_bind].
    erewrite attachstack_eq;
      [|rewrite heap_put_view; exact Hc3
       |rewrite get_view_put_view by eauto; now rewrite decide_True
       |].
    - now rewrite put_view_put_view.
    - intros m v vw Hw. rewrite get_view_put_view in Hw by eauto.
      destruct (decide (c_mon cl = m ∧ c_view cl = v)) as [_|_].
      + injection Hw as <-. apply (Hun3 _ _ _ Hv3).
      + apply (Hun3 _ _ _ Hw). }
  destruct (Hun3 _ _ _ Hv3) as [Hnc Hns].
  destruct (Hp3 _ _ _ Hv3) as [Hndc Hag].
  pose proof Hwf3 as (_ & Hstack3 & _).
  destruct (Hstack3 _ _ _ Hv3) as [Hnds Hown].
  apply (relink_wf _ _ _ tv); auto; cbn [v_stack v_clients set_v_stack
                                           set_v_clients].
  - apply NoDup_cons. auto.
  - apply NoDup_cons. auto.
  - intros d. rewrite !elem_of_cons, Hag. tauto.
  - intros d Hd. apply elem_of_cons in Hd as [->|Hd]; [|auto].
    exists cl. auto.
Qed.

Lemma arranged_shape (s s' : State) : arranged s s' → shape_ok s → shape_ok s'.
Proof.
  intros (Hsel & _ & m & v & sv & x & Hv & Hmons) Hshape.
  pose proof (put_view_shape s m v (set_v_sel x sv) Hshape) as [H1 H2].
  unfold shape_ok. rewrite Hsel, Hmons. split; [exact H1|exact H2].
Qed.

Lemma arranged_at_view (s s' : State) (c m v : nat) :
  arranged s s' → at_view s c m v → at_view s' c m v.
Proof.
  intros Harr (cl & Hc & ? & ?).
  destruct (arranged_client _ _ _ _ Harr Hc) as (cl' & Hc' & Ha). attrs Ha.
  exists cl'. split; [exact Hc'|]. split; congruence.
Qed.

Lemma arranged_wf (s s' : State) : arranged s s' → lists_ok s → lists_ok s'.
Proof.
  intros Harr (Hshape & Hstack & Hcl). split; [|split].
  - eapply arranged_shape; eauto.
  - intros m v vw' Hv'.
    destruct (arranged_lists _ _ _ _ _ Harr Hv') as (vw & Hv & _ & Hs).
    destruct (Hstack _ _ _ Hv) as [Hnd Hown]. rewrite Hs.
    split; [exact Hnd|]. intros c Hc. eapply arranged_at_view; eauto.
  - intros m v vw' Hv' c Hc.
    destruct (arranged_lists _ _ _ _ _ Harr Hv') as (vw & Hv & Hcs & _).
    rewrite Hcs in Hc. eapply arranged_at_view; eauto.
Qed.

Lemma arranged_paired (s s' : State) : arranged s s' → paired s → paired s'.
Proof.
  intros Harr Hp m v vw' Hv'.
  destruct (arranged_lists _ _ _ _ _ Harr Hv') as (vw & Hv & Hcs & Hs).
  rewrite Hcs, Hs. eapply Hp; eauto.
Qed.





Lemma put_view_mons_Some (s : State) (m v : nat) (vw : View) (m' : nat) :
  is_Some (mons s !! m') → is_Some (mons (put_view m v vw s) !! m').
Proof.
  intros H. apply lookup_lt_is_Some. unfold put_view. simpl.
  rewrite length_alter. now apply lookup_lt_is_Some.
Qed.

(** [focus(NULL)] on a state with sound focus stacks. *)
Lemma focus_None_arranged (s : State) :
  shape_ok s → stack_ok s → sel_live s →
  ∃ s', focus None s = Some s' ∧ arranged s s' ∧ sel_is_head s' (selmon s').
Proof.
  intros Hshape Hstack Hlive.
  destruct (focus_None_spec s Hshape Hstack Hlive)
    as (s' & mon & sv & Ef & Hmon & Hsv & Hsel & Hmons & Hheap).
  assert (Hgv : get_view s (selmon s) (m_selview mon) = Some sv)
    by (unfold get_view; rewrite Hmon; exact Hsv).
  exists s'. split; [exact Ef|]. split.
  - split; [exact Hsel|]. split.
    + intros c. destruct (Hheap c) as [->|(cl & Hc & ->)]; [reflexivity|].
      rewrite Hc. simpl. now rewrite forget_urgent.
    + exists (selmon s), (m_selview mon), sv, (head (v_stack sv)). auto.
  - exists (set_v_sel (head (v_stack sv)) sv). split; [|right; reflexivity].
    unfold SELVIEW. rewrite Hsel, Hmons.
    rewrite (put_view_mon_eq _ _ _ _ _ Hmon). simpl.
    apply list_lookup_insert_eq. eapply lookup_lt_Some; eauto.
Qed.

Section Unmanage.

Variable cfg : Config.
Variable scr : Screen.

Lemma arrange_arranged (m : nat) (s : State) :
  lists_ok s → sel_live s → is_Some (mons s !! m) →
  ∃ s', arrange cfg scr (Some m) s = Some s' ∧ arranged s s'
        ∧ sel_is_head s' (selmon s').
Proof.
  intros Hwf Hlive Hm.
  destruct (arrange_total cfg scr m s Hwf Hlive Hm) as [s' Hs'].
  pose proof Hwf as (Hshape & Hstack & _).
  destruct (arrange_inv cfg scr _ _ _ Hshape Hstack Hs') as (Harr & Hh & _).
  eauto.
Qed.



End Unmanage.


(** The selection of the selected view need not be a client of that
    view: [focus] for [W1] while the second view is selected makes
    [W1], a client of the first view, the selection of the second.
    The state has sound lists and an allocated selection;
    [detachstack] does not reset this selection, and [unmanage] hands
    it to [unfocus] after [free]. *)
Example unmanage_foreign_selection :
  let s := default Scenario.two_tiled_state
             (s ← view Scenario.cfg Scenario.scr 1%nat
                    Scenario.two_tiled_state;
              focus (Some 0%nat) s) in
  wfb s = true ∧ pairedb s = true
  ∧ (v_sel <$> SELVIEW s (selmon s)) = Some (Some 0%nat)
  ∧ (c_view <$> heap s !! 0%nat) = Some 0%nat
  ∧ (m_selview <$> mons s !! selmon s) = Some 1%nat
  ∧ unmanage Scenario.cfg Scenario.scr 0%nat s = None.
Proof. repeat split; by_compute. Qed.

Section Tag.

Variable cfg : Config.
Variable scr : Screen.

Lemma tag_spec (s : State) (ui : nat) (sv : View) :
  lists_ok s → paired s → sel_is_head s (selmon s) →
  SELVIEW s (selmon s) = Some sv → (ui < NUMVIEWS)%nat →
  match v_sel sv with
  | None => tag cfg scr ui s = Some s
  | Some c =>
      ∃ s' cl cl' tv,
        tag cfg scr ui s = Some s'
        ∧ lists_ok s' ∧ paired s' ∧ sel_is_head s' (selmon s')
        ∧ selmon s' = selmon s
        ∧ heap s !! c = Some cl ∧ heap s' !! c = Some cl'
        ∧ c_mon cl = selmon s ∧ c_mon cl' = selmon s ∧ c_view cl' = ui
        ∧ c_win cl' = c_win cl ∧ c_isfloating cl' = c_isfloating cl
        ∧ get_view s' (selmon s) ui = Some tv
        ∧ head (v_clients tv) = Some c ∧ head (v_stack tv) = Some c
        ∧ ∀ d dl, d ≠ c → heap s !! d = Some dl →
            ∃ dl', heap s' !! d = Some dl' ∧ same_attrs dl dl'
  end.
Proof.
  intros Hwf Hp Hhd Hsv Hui. pose proof Hhd as (sv0 & Hsv0 & Hsel).
  rewrite Hsv in Hsv0. injection Hsv0 as <-.
  destruct (v_sel sv) as [c|] eqn:Hc.
  2: { unfold tag. rewrite Hsv. cbn [mbind option_bind]. now rewrite Hc. }
  destruct Hsel as [Hsel|Hsel]; [discriminate|].
  pose proof Hwf as (Hshape & Hstack & Hcl).
  unfold SELVIEW in Hsv.
  destruct (mons s !! selmon s) as [mon|] eqn:Hmon; [|discriminate].
  cbn [mbind option_bind] in Hsv.
  assert (Hgv : get_view s (selmon s) (m_selview mon) = Some sv)
    by (unfold get_view; rewrite Hmon; exact Hsv).
  destruct (Hstack _ _ _ Hgv) as [_ Hown].
  assert (Hins : c ∈ v_stack sv).
  { destruct (v_stack sv) as [|d rest]; [discriminate|].
    simpl in Hsel. injection Hsel as ->. now left. }
  destruct (Hown c Hins) as (cl & Hcl0 & Hcm & Hcv).
  assert (Hinc : c ∈ v_clients sv) by (now apply (Hp _ _ _ Hgv)).
  rewrite <- Hcm, <- Hcv in Hgv.
  destruct (unlink_both s c cl sv Hwf Hp Hcl0 Hgv Hinc)
    as (lc & ls & vw2 & _ & Hls & Hvw2 & Hdd & Hwf2 & Hp2 & Hun2).
  set (s2 := put_view (c_mon cl) (c_view cl) vw2 s) in *.
  assert (Hc2 : heap s2 !! c = Some cl)
    by (unfold s2; now rewrite heap_put_view).
  assert (Hlive2 : sel_live s2).
  { intros sv2 q Hsv2 Hq.
    destruct (unlink_both_sel s c cl sv vw2 lc ls Hwf Hcl0 Hgv Hls Hvw2
                (head_live s Hstack Hhd) (head_home s c Hhd) sv2 q Hsv2 Hq)
      as [_ Hs].
    unfold s2. now rewrite heap_put_view. }
  assert (Htv : ∃ tv0, get_view s2 (selmon s) ui = Some tv0).
  { pose proof Hwf2 as ((_ & Hall) & _).
    destruct (put_view_mons_Some s (c_mon cl) (c_view cl) vw2 (selmon s))
      as [mon2 Hmon2]; [eauto|].
    fold s2 in Hmon2. destruct (Hall _ _ Hmon2) as [Hlen _].
    destruct (lookup_lt_is_Some_2 (m_views mon2) ui) as [tv0 Htv0];
      [now rewrite Hlen|].
    exists tv0. unfold get_view. now rewrite Hmon2. }
  destruct Htv as [tv0 Htv0].
  set (cl2 := set_c_view ui cl).
  destruct (link_head s2 c cl2 tv0 Hwf2 Hp2 Hun2) as (Hlk & Hwf4 & Hp4).
  { unfold cl2. simpl. now rewrite Hcm. }
  cbn [c_mon c_view cl2 set_c_view] in Hlk, Hwf4, Hp4.
  change (c_mon cl2) with (c_mon cl) in Hlk, Hwf4, Hp4.
  change (c_view cl2) with ui in Hlk, Hwf4, Hp4.
  set (s4 := put_view (c_mon cl) ui
               (set_v_stack (c :: v_stack tv0)
                  (set_v_clients (c :: v_clients tv0) tv0))
               (store c cl2 s2)) in *.
  assert (Hsel4 : selmon s4 = selmon s) by reflexivity.
  assert (Hm4 : is_Some (mons s4 !! selmon s4)) by apply Hwf4.
  assert (Hlive4 : sel_live s4).
  { unfold s4. eapply sel_live_put_view_sel;
      [rewrite get_view_store, Hcm; exact Htv0|reflexivity
      |apply sel_live_store, Hlive2]. }
  destruct (arrange_arranged cfg scr (selmon s4) s4 Hwf4 Hlive4 Hm4)
    as (s5 & Ha & Harr5 & Hh5).
  assert (Hc4 : heap s4 !! c = Some cl2).
  { unfold s4. rewrite heap_put_view, heap_store. apply lookup_insert_eq. }
  destruct (arranged_client _ _ _ _ Harr5 Hc4) as (cl5 & Hc5 & A5).
  attrs A5.
  assert (Hgv4 : get_view s4 (selmon s) ui
                 = Some (set_v_stack (c :: v_stack tv0)
                           (set_v_clients (c :: v_clients tv0) tv0))).
  { unfold s4. rewrite get_view_put_view
      by (rewrite get_view_store, Hcm; eauto).
    rewrite decide_True; auto. }
  pose proof (arranged_get_view s4 s5 (selmon s) ui Harr5) as Hg5.
  rewrite Hgv4 in Hg5. destruct Hg5 as (tv & Htv & _ & Hcs & Hss & _).
  exists s5, cl, cl5, tv. split.
  { unfold tag. unfold SELVIEW. rewrite Hmon. cbn [mbind option_bind].
    rewrite Hsv. cbn [mbind option_bind]. rewrite Hc.
    destruct (detach c s) as [s1|]; [|discriminate Hdd].
    cbn [mbind option_bind] in Hdd |- *. rewrite Hdd.
    cbn [mbind option_bind]. fold s2. rewrite Hc2. cbn [mbind option_bind].
    fold cl2.
    destruct (attach c (store c cl2 s2)) as [s3|]; [|discriminate Hlk].
    cbn [mbind option_bind] in Hlk |- *. rewrite Hlk.
    cbn [mbind option_bind]. exact Ha. }
  split; [eapply arranged_wf; eauto|].
  split; [eapply arranged_paired; eauto|].
  split; [exact Hh5|].
  split; [destruct Harr5 as (-> & _); exact Hsel4|].
  split; [exact Hcl0|]. split; [exact Hc5|].
  split; [exact Hcm|]. split; [unfold cl2 in *; simpl in *; congruence|].
  split; [unfold cl2 in *; simpl in *; congruence|].
  split; [unfold cl2 in *; simpl in *; congruence|].
  split; [unfold cl2 in *; simpl in *; congruence|].
  split; [exact Htv|].
  split; [now rewrite Hcs|]. split; [now rewrite Hss|].
  intros d dl Hne Hd.
  apply (arranged_client _ _ _ _ Harr5).
  unfold s4. rewrite heap_put_view, heap_store.
  rewrite lookup_insert_ne by congruence.
  unfold s2. now rewrite heap_put_view.
Qed.

(** [tag] on a sound state whose selection heads its focus stack:
    without a selection nothing happens; otherwise the selected client
    is given the view asked for, heads the client list and the focus
    stack of that view on the selected monitor, and the state returned
    is sound; the other clients keep their attributes other than the
    rectangle, the saved rectangle and the urgency flag, which
    [arrange] may rewrite. *)
Theorem tag_moves_selection (s : State) (ui : nat) (sv : View) :
  wf s → paired s → sel_is_head s (selmon s) →
  SELVIEW s (selmon s) = Some sv → (ui < NUMVIEWS)%nat →
  match v_sel sv with
  | None => tag cfg scr ui s = Some s
  | Some c =>
      ∃ s' cl cl' tv,
        tag cfg scr ui s = Some s'
        ∧ wf s' ∧ paired s' ∧ sel_is_head s' (selmon s')
        ∧ selmon s' = selmon s
        ∧ heap s !! c = Some cl ∧ heap s' !! c = Some cl'
        ∧ c_mon cl = selmon s ∧ c_mon cl' = selmon s ∧ c_view cl' = ui
        ∧ c_win cl' = c_win cl ∧ c_isfloating cl' = c_isfloating cl
        ∧ get_view s' (selmon s) ui = Some tv
        ∧ head (v_clients tv) = Some c ∧ head (v_stack tv) = Some c
        ∧ ∀ d dl, d ≠ c → heap s !! d = Some dl →
            ∃ dl', heap s' !! d = Some dl' ∧ same_attrs dl dl'
  end.
Proof.
  intros [Hwf _] Hp Hh Hsv Hui.
  pose proof (tag_spec s ui sv Hwf Hp Hh Hsv Hui) as H.
  destruct (v_sel sv); [|exact H].
  destruct H as (s' & cl & cl' & tv & Ht & Hwf' & Hp' & Hh' & Hrest).
  exists s', cl, cl', tv. split; [exact Ht|].
  split; [now apply head_wf|]. auto.
Qed.

End Tag.

Lemma tag_moves_selection_witness :
  let s := Scenario.two_tiled_state in
  let sv := Scenario.selview_at 0%nat s in
  match v_sel sv with
  | None => tag Scenario.cfg Scenario.scr 3%nat s = Some s
  | Some c =>
      ∃ s' cl cl' tv,
        tag Scenario.cfg Scenario.scr 3%nat s = Some s'
        ∧ wf s' ∧ paired s' ∧ sel_is_head s' (selmon s')
        ∧ selmon s' = selmon s
        ∧ heap s !! c = Some cl ∧ heap s' !! c = Some cl'
        ∧ c_mon cl = selmon s ∧ c_mon cl' = selmon s ∧ c_view cl' = 3%nat
        ∧ c_win cl' = c_win cl ∧ c_isfloating cl' = c_isfloating cl
        ∧ get_view s' (selmon s) 3%nat = Some tv
        ∧ head (v_clients tv) = Some c ∧ head (v_stack tv) = Some c
        ∧ ∀ d dl, d ≠ c → heap s !! d = Some dl →
            ∃ dl', heap s' !! d = Some dl' ∧ same_attrs dl dl'
  end.
Proof.
  intros s sv.
  apply (tag_moves_selection Scenario.cfg Scenario.scr s 3%nat sv).
  - apply wfb_wf. by_compute.
  - apply pairedb_paired. by_compute.
  - eexists. split; [by_compute|]. right. by_compute.
  - by_compute.
  - unfold NUMVIEWS. lia.
Defined.

(** ** Selecting a view, toggling the bar *)

(** The fields of a monitor other than its views. *)
Definition frame (m : Monitor) :=
  (m_num m, m_by m, m_mx m, m_my m, m_mw m, m_mh m, m_wx m, m_wy m,
   m_ww m, m_wh m, m_showbar m, m_topbar m, m_barwin m, m_selview m).

Lemma arranged_frame (s s' : State) (m : nat) (mon : Monitor) :
  arranged s s' → mons s !! m = Some mon →
  ∃ mon', mons s' !! m = Some mon' ∧ frame mon' = frame mon.
Proof.
  intros (_ & _ & m0 & v & sv & x & _ & ->) Hm.
  destruct (decide (m0 = m)) as [->|Hne].
  - rewrite (put_view_mon_eq _ _ _ _ _ Hm). eexists. split; [reflexivity|].
    reflexivity.
  - rewrite put_view_mon_ne by assumption. eauto.
Qed.

(** Replacing a monitor by one with the same views. *)
Lemma set_monitor_wf (s : State) (m : nat) (mon mon' : Monitor) :
  lists_ok s → mons s !! m = Some mon →
  m_views mon' = m_views mon → (m_selview mon' < NUMVIEWS)%nat →
  let s1 := set_mons (<[m := mon']> (mons s)) s in
  lists_ok s1 ∧ (paired s → paired s1)
  ∧ ∀ m' v, get_view s1 m' v = get_view s m' v.
Proof.
  intros (Hshape & Hstack & Hcl) Hm Hviews Hsv s1.
  assert (Hlt : (m < length (mons s))%nat) by (eapply lookup_lt_Some; eauto).
  assert (Hgv : ∀ m' v, get_view s1 m' v = get_view s m' v).
  { intros m' v. unfold get_view, s1. simpl.
    destruct (decide (m = m')) as [<-|Hne].
    - rewrite list_lookup_insert_eq by exact Hlt. rewrite Hm. simpl.
      now rewrite Hviews.
    - now rewrite list_lookup_insert_ne. }
  split; [split; [|split]|split].
  - destruct Hshape as [Hsel Hall]. split.
    + apply lookup_lt_is_Some. unfold s1. simpl. rewrite length_insert.
      now apply lookup_lt_is_Some.
    + intros m' mon0 Hm'. unfold s1 in Hm'. simpl in Hm'.
      destruct (decide (m = m')) as [<-|Hne].
      * rewrite list_lookup_insert_eq in Hm' by exact Hlt.
        injection Hm' as <-. rewrite Hviews.
        split; [apply (Hall _ _ Hm)|exact Hsv].
      * rewrite list_lookup_insert_ne in Hm' by assumption. eauto.
  - intros m' v vw Hv. rewrite Hgv in Hv. apply (Hstack _ _ _ Hv).
  - intros m' v vw Hv. rewrite Hgv in Hv. apply (Hcl _ _ _ Hv).
  - intros Hp m' v vw Hv. rewrite Hgv in Hv. apply (Hp _ _ _ Hv).
  - exact Hgv.
Qed.

Lemma SELVIEW_set_monitor (s : State) (m : nat) (mon mon' : Monitor)
    (m' : nat) :
  mons s !! m = Some mon →
  SELVIEW (set_mons (<[m := mon']> (mons s)) s) m'
  = if decide (m = m') then m_views mon' !! m_selview mon'
    else SELVIEW s m'.
Proof.
  intros Hm. unfold SELVIEW. simpl.
  destruct (decide (m = m')) as [<-|Hne].
  - rewrite list_lookup_insert_eq by (eapply lookup_lt_Some; eauto).
    reflexivity.
  - now rewrite list_lookup_insert_ne.
Qed.

Section ViewBar.

Variable cfg : Config.
Variable scr : Screen.

Lemma view_eq (ui : nat) (s : State) (mon : Monitor) :
  mons s !! selmon s = Some mon →
  view cfg scr ui s
  = if decide (ui = m_selview mon) then Some s
    else arrange cfg scr (Some (selmon s))
           (set_mons (<[selmon s := set_m_selview ui mon]> (mons s)) s).
Proof.
  intros Hm. unfold view. rewrite Hm. cbn [mbind option_bind].
  destruct (decide (ui = m_selview mon)); [reflexivity|].
  do 2 f_equal. unfold set_mons. f_equal. apply list_eq. intros i.
  destruct (decide (i = selmon s)) as [->|Hne].
  - rewrite list_lookup_alter_eq, Hm.
    rewrite list_lookup_insert_eq by (eapply lookup_lt_Some; eauto).
    reflexivity.
  - rewrite list_lookup_alter_ne, list_lookup_insert_ne by congruence.
    reflexivity.
Qed.

(** [view] on a sound state, for a view whose selection is null or
    allocated: the view that is selected already is answered with the
    state as it is; another view of the monitor becomes the selected
    one, no client changes its list or its attributes other than
    rectangles and urgency flag, and the selection of the new view is
    the head of its focus stack; an index beyond the views of the
    monitor is used as it is and leaves the array. *)
Theorem view_selects (s : State) (ui : nat) :
  wf s →
  (∀ vw c, get_view s (selmon s) ui = Some vw → v_sel vw = Some c →
           is_Some (heap s !! c)) →
  ∃ mon,
    mons s !! selmon s = Some mon
    ∧ if decide (ui = m_selview mon) then view cfg scr ui s = Some s
      else if decide (ui < NUMVIEWS)%nat then
        ∃ s' mon',
          view cfg scr ui s = Some s'
          ∧ wf s' ∧ selmon s' = selmon s
          ∧ mons s' !! selmon s = Some mon' ∧ m_selview mon' = ui
          ∧ sel_is_head s' (selmon s')
          ∧ (∀ c cl, heap s !! c = Some cl →
               ∃ cl', heap s' !! c = Some cl' ∧ same_attrs cl cl')
          ∧ ∀ m v vw, get_view s m v = Some vw →
              ∃ vw', get_view s' m v = Some vw'
                     ∧ v_clients vw' = v_clients vw
                     ∧ v_stack vw' = v_stack vw
      else view cfg scr ui s = None.
Proof.
  intros [Hwf _] Hnew. pose proof Hwf as ((Hsel & Hall) & _).
  destruct Hsel as [mon Hmon]. exists mon. split; [exact Hmon|].
  rewrite (view_eq ui s mon Hmon).
  destruct (decide (ui = m_selview mon)) as [Heq|Hne]; [reflexivity|].
  set (s1 := set_mons (<[selmon s := set_m_selview ui mon]> (mons s)) s).
  assert (Hlt : (selmon s < length (mons s))%nat)
    by (eapply lookup_lt_Some; eauto).
  assert (Hm1 : mons s1 !! selmon s = Some (set_m_selview ui mon))
    by (unfold s1; simpl; now apply list_lookup_insert_eq).
  destruct (decide (ui < NUMVIEWS)%nat) as [Hui|Hui].
  - destruct (set_monitor_wf s (selmon s) mon (set_m_selview ui mon) Hwf Hmon)
      as (Hwf1 & _ & Hgv1); [reflexivity|exact Hui|]. fold s1 in Hwf1, Hgv1.
    assert (Hlive1 : sel_live s1).
    { intros sv c Hsv Hc. unfold s1 in Hsv.
      rewrite (SELVIEW_set_monitor s _ mon _ _ Hmon) in Hsv.
      change (selmon (set_mons _ s)) with (selmon s) in Hsv.
      rewrite decide_True in Hsv by reflexivity.
      apply (Hnew sv c); [|exact Hc]. unfold get_view. now rewrite Hmon. }
    destruct (arrange_arranged cfg scr (selmon s) s1 Hwf1 Hlive1)
      as (s' & Ha & Harr & Hh); [eauto|].
    destruct (arranged_frame _ _ _ _ Harr Hm1) as (mon' & Hmon' & Hfr).
    exists s', mon'. split; [exact Ha|].
    split; [apply head_wf; [eapply arranged_wf; eauto|exact Hh]|].
    split; [apply Harr|]. split; [exact Hmon'|].
    split; [now injection Hfr|]. split; [exact Hh|]. split.
    + intros c cl Hc. apply (arranged_client _ _ _ _ Harr). exact Hc.
    + intros m v vw Hv. rewrite <- Hgv1 in Hv.
      pose proof (arranged_get_view s1 s' m v Harr) as Hg.
      rewrite Hv in Hg. destruct Hg as (vw' & ? & _ & ? & ? & _). eauto.
  - unfold arrange, showhide_mon, SELVIEW. rewrite Hm1.
    cbn [mbind option_bind m_views m_selview set_m_selview].
    rewrite lookup_ge_None_2; [reflexivity|].
    destruct (Hall _ _ Hmon) as [-> _]. lia.
Qed.

(** [togglebar] twice on a sound state: the bar is hidden or shown and
    then back as it was, and the window area and the position of the
    bar are those [updatebarpos] computes for the monitor as it was. *)
Theorem togglebar_twice (s : State) :
  wf s →
  ∃ mon s1 mon1 s2 mon2,
    mons s !! selmon s = Some mon
    ∧ togglebar cfg scr s = Some s1
    ∧ mons s1 !! selmon s = Some mon1
    ∧ m_showbar mon1 = negb (m_showbar mon)
    ∧ frame mon1
      = frame (updatebarpos scr (set_m_showbar (negb (m_showbar mon)) mon))
    ∧ togglebar cfg scr s1 = Some s2
    ∧ mons s2 !! selmon s = Some mon2
    ∧ frame mon2 = frame (updatebarpos scr mon)
    ∧ wf s2
    ∧ ∀ m v vw, get_view s m v = Some vw →
        ∃ vw', get_view s2 m v = Some vw'
               ∧ v_clients vw' = v_clients vw ∧ v_stack vw' = v_stack vw.
Proof.
  intros Hwf. pose proof Hwf as (((Hsel & Hall) & _) & _).
  destruct Hsel as [mon Hmon].
  assert (Hstep : ∀ s0 mon0,
            wf s0 → mons s0 !! selmon s0 = Some mon0 →
            ∃ s1 mon1,
              togglebar cfg scr s0 = Some s1 ∧ wf s1
              ∧ selmon s1 = selmon s0
              ∧ mons s1 !! selmon s0 = Some mon1
              ∧ frame mon1
                = frame (updatebarpos scr
                           (set_m_showbar (negb (m_showbar mon0)) mon0))
              ∧ ∀ m v vw, get_view s0 m v = Some vw →
                  ∃ vw', get_view s1 m v = Some vw'
                         ∧ v_clients vw' = v_clients vw
                         ∧ v_stack vw' = v_stack vw).
  { intros s0 mon0 [Hwf0 Hlive0] Hmon0.
    set (monb := updatebarpos scr
                   (set_m_showbar (negb (m_showbar mon0)) mon0)).
    assert (Hv : m_views monb = m_views mon0
                 ∧ m_selview monb = m_selview mon0).
    { unfold monb, updatebarpos. simpl.
      destruct (negb (m_showbar mon0)); split; reflexivity. }
    destruct Hv as [Hviews Hselv].
    pose proof Hwf0 as ((_ & Hall0) & _).
    destruct (set_monitor_wf s0 (selmon s0) mon0 monb Hwf0 Hmon0 Hviews)
      as (Hwf1 & _ & Hgv1).
    { rewrite Hselv. apply (Hall0 _ _ Hmon0). }
    set (sb := set_mons (<[selmon s0 := monb]> (mons s0)) s0) in *.
    assert (Hmb : mons sb !! selmon s0 = Some monb).
    { unfold sb. simpl. apply list_lookup_insert_eq.
      eapply lookup_lt_Some; eauto. }
    assert (Hliveb : sel_live sb).
    { intros sv c Hsv Hc. unfold sb in Hsv.
      rewrite (SELVIEW_set_monitor s0 _ mon0 _ _ Hmon0) in Hsv.
      change (selmon (set_mons _ s0)) with (selmon s0) in Hsv.
      rewrite decide_True, Hviews, Hselv in Hsv by reflexivity.
      apply (Hlive0 sv c); [|exact Hc]. unfold SELVIEW. now rewrite Hmon0. }
    destruct (arrange_arranged cfg scr (selmon s0) sb Hwf1 Hliveb)
      as (s1 & Ha & Harr & Hh1); [eauto|].
    destruct (arranged_frame _ _ _ _ Harr Hmb) as (mon1 & Hmon1 & Hfr).
    exists s1, mon1. split.
    { unfold togglebar. rewrite Hmon0. exact Ha. }
    split; [apply head_wf; [eapply arranged_wf; eauto|exact Hh1]|].
    split; [apply Harr|].
    split; [exact Hmon1|]. split; [exact Hfr|].
    intros m v vw Hvw. rewrite <- Hgv1 in Hvw.
    pose proof (arranged_get_view sb s1 m v Harr) as Hg.
    rewrite Hvw in Hg. destruct Hg as (vw' & ? & _ & ? & ? & _). eauto. }
  destruct (Hstep s mon Hwf Hmon) as (s1 & mon1 & Ht1 & Hwf1 & Hs1 & Hm1
                                     & Hf1 & Hl1).
  rewrite <- Hs1 in Hm1.
  destruct (Hstep s1 mon1 Hwf1 Hm1) as (s2 & mon2 & Ht2 & Hwf2 & Hs2 & Hm2
                                       & Hf2 & Hl2).
  rewrite Hs1 in Hm1, Hm2.
  assert (Hsb : m_showbar mon1 = negb (m_showbar mon)).
  { unfold frame, updatebarpos in Hf1. simpl in Hf1.
    destruct (negb (m_showbar mon)); now injection Hf1. }
  exists mon, s1, mon1, s2, mon2.
  split; [exact Hmon|]. split; [exact Ht1|]. split; [exact Hm1|].
  split; [exact Hsb|]. split; [exact Hf1|]. split; [exact Ht2|].
  split; [exact Hm2|]. split.
  - assert (Hfields : m_num mon1 = m_num mon ∧ m_mx mon1 = m_mx mon
                      ∧ m_my mon1 = m_my mon ∧ m_mw mon1 = m_mw mon
                      ∧ m_mh mon1 = m_mh mon ∧ m_wx mon1 = m_wx mon
                      ∧ m_ww mon1 = m_ww mon ∧ m_topbar mon1 = m_topbar mon
                      ∧ m_barwin mon1 = m_barwin mon
                      ∧ m_selview mon1 = m_selview mon).
    { unfold frame, updatebarpos in Hf1. simpl in Hf1.
      destruct (negb (m_showbar mon)); injection Hf1; intros;
        repeat split; assumption. }
    destruct Hfields as (F1 & F2 & F3 & F4 & F5 & F6 & F7 & F8 & F9 & F10).
    rewrite Hf2. unfold frame, updatebarpos. simpl.
    rewrite Hsb, negb_involutive.
    rewrite F1, F2, F3, F4, F5, F6, F7, F8, F9, F10.
    destruct (m_showbar mon); reflexivity.
  - split; [exact Hwf2|]. intros m v vw Hv.
    destruct (Hl1 m v vw Hv) as (vw1 & Hv1 & Hc1 & Hk1).
    destruct (Hl2 m v vw1 Hv1) as (vw2 & Hv2 & Hc2 & Hk2).
    exists vw2. split; [exact Hv2|]. split; congruence.
Qed.

End ViewBar.

(** The first view is selected again after the second one had been
    selected: its selection [W2] is still allocated. *)
Lemma view_selects_witness :
  let s := default Scenario.two_tiled_state
             (view Scenario.cfg Scenario.scr 1%nat Scenario.two_tiled_state) in
  ∃ mon,
    mons s !! selmon s = Some mon
    ∧ if decide (0%nat = m_selview mon)
      then view Scenario.cfg Scenario.scr 0%nat s = Some s
      else if decide (0 < NUMVIEWS)%nat then
        ∃ s' mon',
          view Scenario.cfg Scenario.scr 0%nat s = Some s'
          ∧ wf s' ∧ selmon s' = selmon s
          ∧ mons s' !! selmon s = Some mon' ∧ m_selview mon' = 0%nat
          ∧ sel_is_head s' (selmon s')
          ∧ (∀ c cl, heap s !! c = Some cl →
               ∃ cl', heap s' !! c = Some cl' ∧ same_attrs cl cl')
          ∧ ∀ m v vw, get_view s m v = Some vw →
              ∃ vw', get_view s' m v = Some vw'
                     ∧ v_clients vw' = v_clients vw
                     ∧ v_stack vw' = v_stack vw
      else view Scenario.cfg Scenario.scr 0%nat s = None.
Proof.
  intros s. apply (view_selects Scenario.cfg Scenario.scr s 0%nat).
  - apply wfb_wf. by_compute.
  - intros vw c Hv Hc. vm_compute in Hv. injection Hv as <-.
    vm_compute in Hc. injection Hc as <-. vm_compute. eauto.
Defined.

(** A view can keep a selection that has been freed: [W1] becomes the
    selection of the second view, the third view is selected and [W1]
    is unmanaged, which resets the selection of the first view only.
    The state is one the event loop can take, but [view] for the
    second view hands the freed client to [unfocus]. *)
Example view_freed_selection :
  let s := default Scenario.empty1
             (s ← manage Scenario.cfg Scenario.scr Scenario.W1
                    Scenario.wa_small None None Scenario.empty1;
              s ← view Scenario.cfg Scenario.scr 1%nat s;
              s ← focus (Some 0%nat) s;
              s ← view Scenario.cfg Scenario.scr 2%nat s;
              unmanage Scenario.cfg Scenario.scr 0%nat s) in
  wfb s = true
  ∧ (v_sel <$> get_view s 0%nat 1%nat) = Some (Some 0%nat)
  ∧ heap s !! 0%nat = None
  ∧ view Scenario.cfg Scenario.scr 1%nat s = None.
Proof. repeat split; by_compute. Qed.

Lemma togglebar_twice_witness :
  let s := Scenario.two_tiled_state in
  ∃ mon s1 mon1 s2 mon2,
    mons s !! selmon s = Some mon
    ∧ togglebar Scenario.cfg Scenario.scr s = Some s1
    ∧ mons s1 !! selmon s = Some mon1
    ∧ m_showbar mon1 = negb (m_showbar mon)
    ∧ frame mon1
      = frame (updatebarpos Scenario.scr
                 (set_m_showbar (negb (m_showbar mon)) mon))
    ∧ togglebar Scenario.cfg Scenario.scr s1 = Some s2
    ∧ mons s2 !! selmon s = Some mon2
    ∧ frame mon2 = frame (updatebarpos Scenario.scr mon)
    ∧ wf s2
    ∧ ∀ m v vw, get_view s m v = Some vw →
        ∃ vw', get_view s2 m v = Some vw'
               ∧ v_clients vw' = v_clients vw ∧ v_stack vw' = v_stack vw.
Proof.
  intros s. apply (togglebar_twice Scenario.cfg Scenario.scr s).
  apply wfb_wf. by_compute.
Defined.

(** With the bar hidden the two tiled windows share the whole screen. *)
Example togglebar_tiles_full_height :
  (s ← togglebar Scenario.cfg Scenario.scr Scenario.two_tiled_state;
   Some (Scenario.rect_of Scenario.W2 s, Scenario.rect_of Scenario.W1 s))
  = Some (Some (mkRect 0 0 1054 1078), Some (mkRect 1056 0 862 1078)).
Proof. by_compute. Qed.

(** ** Arranging *)

Section ArrangeSound.

Variable cfg : Config.
Variable scr : Screen.


End ArrangeSound.


(** ** Focusing a client *)

Lemma set_selmon_id (s : State) : set_selmon (selmon s) s = s.
Proof. now destruct s. Qed.

Lemma store_id (s : State) (c : nat) (cl : Client) :
  heap s !! c = Some cl → store c cl s = s.
Proof.
  intros H. unfold store, set_heap. rewrite insert_id by exact H.
  now destruct s.
Qed.

Lemma set_selmon_wf (s : State) (m : nat) :
  lists_ok s → is_Some (mons s !! m) → lists_ok (set_selmon m s).
Proof.
  intros ((_ & Hall) & Hstack & Hcl) Hm.
  split; [split; [exact Hm|exact Hall]|split; [exact Hstack|exact Hcl]].
Qed.

Lemma set_selmon_paired (s : State) (m : nat) :
  paired s → paired (set_selmon m s).
Proof. intros H. exact H. Qed.

(** Replacing the lists of one view by lists of clients of that view,
    without the pairing of the lists. *)
Lemma relink_wf0 (s : State) (m v : nat) (vw vw' : View) :
  lists_ok s → get_view s m v = Some vw →
  NoDup (v_stack vw') →
  (∀ d, d ∈ v_stack vw' → at_view s d m v) →
  (∀ d, d ∈ v_clients vw' → at_view s d m v) →
  lists_ok (put_view m v vw' s).
Proof.
  intros (Hshape & Hstack & Hcl) Hv Hns Hat Hatc.
  assert (Hgv : ∀ m' v', get_view (put_view m v vw' s) m' v'
                         = if decide (m = m' ∧ v = v') then Some vw'
                           else get_view s m' v')
    by (intros; apply get_view_put_view; eauto).
  split; [|split].
  - now apply put_view_shape.
  - intros m' v' w Hw. rewrite Hgv in Hw.
    destruct (decide (m = m' ∧ v = v')) as [[<- <-]|Hne].
    + injection Hw as <-. split; [exact Hns|].
      intros d Hd. apply at_view_put_view. auto.
    + destruct (Hstack _ _ _ Hw) as [? Hown]. split; [assumption|].
      intros d Hd. apply at_view_put_view. auto.
  - intros m' v' w Hw d Hd. rewrite Hgv in Hw. apply at_view_put_view.
    destruct (decide (m = m' ∧ v = v')) as [[<- <-]|Hne].
    + injection Hw as <-. auto.
    + eapply Hcl; eauto.
Qed.

Lemma set_c_isurgent_id (cl : Client) :
  c_isurgent cl = false → set_c_isurgent false cl = cl.
Proof. destruct cl. simpl. now intros ->. Qed.

Lemma focus_client (s : State) (c : nat) (cl : Client) (mon : Monitor)
    (vw : View) :
  lists_ok s → sel_live s →
  heap s !! c = Some cl → mons s !! c_mon cl = Some mon →
  c_view cl = m_selview mon →
  get_view s (c_mon cl) (c_view cl) = Some vw → c ∈ v_stack vw →
  ∃ s' ls vw',
    focus (Some c) s = Some s'
    ∧ unlink c (v_stack vw) = Some ls
    ∧ vw' = mkView (v_mfact vw) (v_clients vw) (Some c) (c :: ls) (v_lt vw)
    ∧ s' = put_view (c_mon cl) (c_view cl) vw'
             (store c (set_c_isurgent false cl) (set_selmon (c_mon cl) s))
    ∧ lists_ok s' ∧ (paired s → paired s') ∧ sel_is_head s' (selmon s').
Proof.
  intros Hwf Hlive Hc Hmon Hcv Hv Hin.
  pose proof Hwf as (([smon Hsmon] & Hall) & Hstack & Hcl).
  destruct (wf_selview s (selmon s) smon Hwf Hsmon) as (ssv & Hssv & _).
  destruct (Hstack _ _ _ Hv) as [Hnd Hown].
  destruct (unlink_is_Some c (v_stack vw) Hin) as [ls Hls].
  destruct (unlink_members _ _ _ Hls Hnd) as [Hnls Hms].
  set (clu := set_c_isurgent false cl).
  set (sB := store c clu (set_selmon (c_mon cl) s)).
  set (vw' := mkView (v_mfact vw) (v_clients vw) (Some c) (c :: ls) (v_lt vw)).
  assert (HwfB : lists_ok sB).
  { unfold sB. apply (store_wf _ c clu cl); auto.
    apply set_selmon_wf; eauto. }
  assert (HcB : heap sB !! c = Some clu)
    by (unfold sB; rewrite heap_store; apply lookup_insert_eq).
  assert (HvB : get_view sB (c_mon cl) (c_view cl) = Some vw) by exact Hv.
  assert (Hurg : (if c_isurgent cl
                  then clearurgent c
                         (if decide (c_mon cl = selmon s) then s
                          else set_selmon (c_mon cl) s)
                  else Some (if decide (c_mon cl = selmon s) then s
                             else set_selmon (c_mon cl) s))
                 = Some sB).
  { assert (Hsa : (if decide (c_mon cl = selmon s) then s
                   else set_selmon (c_mon cl) s) = set_selmon (c_mon cl) s).
    { destruct (decide (c_mon cl = selmon s)) as [->|]; [|reflexivity].
      now rewrite set_selmon_id. }
    rewrite Hsa. destruct (c_isurgent cl) eqn:Hu.
    - unfold clearurgent. cbn [heap set_selmon]. rewrite Hc. reflexivity.
    - unfold sB, clu. rewrite (set_c_isurgent_id cl Hu).
      now rewrite store_id. }
  set (vw2 := if decide (v_sel vw = Some c)
              then set_v_sel (head ls) (set_v_stack ls vw)
              else set_v_stack ls vw).
  assert (Hds : detachstack c sB
                = Some (put_view (c_mon cl) (c_view cl) vw2 sB)).
  { apply (detachstack_eq sB c clu vw ls HcB HvB Hls). }
  assert (Has : attachstack c (put_view (c_mon cl) (c_view cl) vw2 sB)
                = Some (put_view (c_mon cl) (c_view cl)
                          (set_v_stack (c :: v_stack vw2) vw2) sB)).
  { erewrite attachstack_eq;
      [|rewrite heap_put_view; exact HcB
       |change (c_mon clu) with (c_mon cl);
        change (c_view clu) with (c_view cl);
        rewrite get_view_put_view by eauto; now rewrite decide_True
       |].
    - change (c_mon clu) with (c_mon cl).
      change (c_view clu) with (c_view cl).
      now rewrite put_view_put_view.
    - apply (unstacked_put_view sB c clu vw2); [apply HwfB|exact HcB|eauto|].
      assert (Hs2 : v_stack vw2 = ls)
        by (unfold vw2; destruct (decide (v_sel vw = Some c)); reflexivity).
      rewrite Hs2, Hms. tauto. }
  set (vw3 := set_v_stack (c :: v_stack vw2) vw2) in *.
  set (sD := put_view (c_mon cl) (c_view cl) vw3 sB) in *.
  assert (HmB : mons sB !! c_mon cl = Some mon) by exact Hmon.
  assert (HmD : mons sD !! selmon sD
                = Some (set_m_views (<[c_view cl := vw3]> (m_views mon)) mon)).
  { unfold sD. rewrite selmon_put_view. change (selmon sB) with (c_mon cl).
    now apply put_view_mon_eq. }
  assert (Hlen : (c_view cl < length (m_views mon))%nat).
  { unfold get_view in Hv. rewrite Hmon in Hv. simpl in Hv.
    eapply lookup_lt_Some; eauto. }
  assert (HvwF : set_v_sel (Some c) vw3 = vw').
  { unfold vw3, vw2, vw'. destruct (decide (v_sel vw = Some c)); reflexivity. }
  exists (put_view (c_mon cl) (c_view cl) vw' sB), ls, vw'.
  split.
  { assert (Hsel : SELVIEW s (selmon s) = Some ssv)
      by (unfold SELVIEW; rewrite Hsmon; exact Hssv).
    unfold focus. rewrite Hsel. cbn [mbind option_bind].
    rewrite unfocus_live by (intros q Hq; right; eapply Hlive; eauto).
    cbn [mbind option_bind]. rewrite Hc.
    cbn [mbind option_bind]. rewrite Hurg. cbn [mbind option_bind].
    rewrite Hds. cbn [mbind option_bind]. rewrite Has.
    cbn [mbind option_bind]. fold vw3. fold sD. rewrite HmD.
    cbn [mbind option_bind m_views m_selview set_m_views].
    rewrite <- Hcv. rewrite list_lookup_insert_eq by exact Hlen.
    cbn [mbind option_bind]. unfold sD. rewrite selmon_put_view.
    change (selmon sB) with (c_mon cl).
    rewrite put_view_put_view. now rewrite HvwF. }
  split; [exact Hls|]. split; [reflexivity|]. split; [reflexivity|].
  assert (HatB : ∀ d m v, at_view s d m v → at_view sB d m v).
  { intros d m v Hat. unfold sB. apply (at_view_store _ d c clu cl); auto. }
  split; [|split].
  - apply (relink_wf0 sB _ _ vw vw' HwfB HvB); cbn [v_stack v_clients vw'].
    + apply NoDup_cons. split; [|exact Hnls]. rewrite Hms. tauto.
    + intros d Hd. apply elem_of_cons in Hd as [->|Hd].
      * apply HatB. auto.
      * apply HatB, Hown. now apply Hms.
    + intros d Hd. apply HatB. eapply Hcl; eauto.
  - intros Hp m v w Hw.
    rewrite get_view_put_view in Hw by eauto.
    destruct (decide (c_mon cl = m ∧ c_view cl = v)) as [[<- <-]|Hne].
    + injection Hw as <-. cbn [v_stack v_clients vw'].
      destruct (Hp _ _ _ Hv) as [Hndc Hag]. split; [exact Hndc|].
      intros d. rewrite elem_of_cons, Hms, Hag.
      destruct (decide (d = c)) as [->|]; tauto.
    + apply (Hp _ _ _ Hw).
  - exists vw'. split; [|right; reflexivity].
    unfold SELVIEW. rewrite selmon_put_view. change (selmon sB) with (c_mon cl).
    rewrite (put_view_mon_eq _ _ _ _ _ HmB).
    cbn [mbind option_bind m_views m_selview set_m_views].
    rewrite <- Hcv. now apply list_lookup_insert_eq.
Qed.

(** [focus(c)] for a client of the selected view of its monitor: the
    monitor becomes the selected one, the client becomes the selection
    of its view and moves to the head of the focus stack, whose other
    members keep their order; its urgency flag is cleared; no other
    view and no other client changes. *)
Theorem focus_raises_client (s : State) (c : nat) (cl : Client)
    (mon : Monitor) (vw : View) :
  wf s → heap s !! c = Some cl → mons s !! c_mon cl = Some mon →
  c_view cl = m_selview mon →
  get_view s (c_mon cl) (c_view cl) = Some vw → c ∈ v_stack vw →
  ∃ s' ls vw',
    focus (Some c) s = Some s'
    ∧ wf s' ∧ selmon s' = c_mon cl
    ∧ sel_is_head s' (selmon s')
    ∧ unlink c (v_stack vw) = Some ls
    ∧ get_view s' (c_mon cl) (c_view cl) = Some vw'
    ∧ v_sel vw' = Some c ∧ v_stack vw' = c :: ls
    ∧ v_clients vw' = v_clients vw
    ∧ (∀ m v, (m, v) ≠ (c_mon cl, c_view cl) →
              get_view s' m v = get_view s m v)
    ∧ heap s' !! c = Some (set_c_isurgent false cl)
    ∧ ∀ d, d ≠ c → heap s' !! d = heap s !! d.
Proof.
  intros [Hwf Hlive] Hc Hmon Hcv Hv Hin.
  destruct (focus_client s c cl mon vw Hwf Hlive Hc Hmon Hcv Hv Hin)
    as (s' & ls & vw' & Hf & Hls & Hvw' & Hs' & Hwf' & _ & Hh').
  assert (Hgv : ∀ m v, get_view s' m v
                       = if decide (c_mon cl = m ∧ c_view cl = v)
                         then Some vw' else get_view s m v).
  { intros m v. rewrite Hs'. rewrite get_view_put_view; [reflexivity|].
    rewrite get_view_store. eauto. }
  assert (Hown : get_view s' (c_mon cl) (c_view cl) = Some vw')
    by (rewrite Hgv, decide_True; auto).
  exists s', ls, vw'. split; [exact Hf|]. split; [now apply head_wf|].
  split; [now rewrite Hs'|]. split; [exact Hh'|].
  split; [exact Hls|]. split; [exact Hown|].
  split; [now rewrite Hvw'|]. split; [now rewrite Hvw'|].
  split; [now rewrite Hvw'|]. split.
  - intros m v Hne. rewrite Hgv. rewrite decide_False; [reflexivity|].
    intros [<- <-]. now apply Hne.
  - rewrite Hs', heap_put_view, heap_store. cbn [heap set_selmon].
    split; [apply lookup_insert_eq|].
    intros d Hd. now apply lookup_insert_ne.
Qed.

Lemma focus_raises_client_witness :
  let s := Scenario.two_tiled_state in
  let cl := Scenario.client_at 0%nat s in
  let vw := Scenario.selview_at 0%nat s in
  ∃ s' ls vw',
    focus (Some 0%nat) s = Some s'
    ∧ wf s' ∧ selmon s' = c_mon cl
    ∧ sel_is_head s' (selmon s')
    ∧ unlink 0%nat (v_stack vw) = Some ls
    ∧ get_view s' (c_mon cl) (c_view cl) = Some vw'
    ∧ v_sel vw' = Some 0%nat ∧ v_stack vw' = 0%nat :: ls
    ∧ v_clients vw' = v_clients vw
    ∧ (∀ m v, (m, v) ≠ (c_mon cl, c_view cl) →
              get_view s' m v = get_view s m v)
    ∧ heap s' !! 0%nat = Some (set_c_isurgent false cl)
    ∧ ∀ d, d ≠ 0%nat → heap s' !! d = heap s !! d.
Proof.
  intros s cl vw.
  apply (focus_raises_client s 0%nat cl (Scenario.monitor_at 0%nat s) vw).
  - apply wfb_wf. by_compute.
  - by_compute.
  - by_compute.
  - by_compute.
  - by_compute.
  - apply (bool_decide_unpack _). by_compute.
Defined.

(** ** Zooming *)

Section Zoom.

Variable cfg : Config.
Variable scr : Screen.

(** After [arrange] the selection of the selected view is the head of
    its focus stack. *)
Lemma arrange_selects_head (m : nat) (s : State) :
  lists_ok s → sel_live s → is_Some (mons s !! m) →
  ∃ s' vw,
    arrange cfg scr (Some m) s = Some s' ∧ arranged s s'
    ∧ SELVIEW s' (selmon s') = Some vw ∧ v_sel vw = head (v_stack vw).
Proof.
  intros Hwf Hlive Hm.
  destruct (arrange_total cfg scr m s Hwf Hlive Hm) as [s' Hs'].
  pose proof Hwf as (Hshape & Hstack & _).
  destruct (arrange_inv cfg scr _ _ _ Hshape Hstack Hs') as (Harr & _).
  pose proof Hs' as H. unfold arrange in H.
  bind_inv H. rename s0 into s1. bind_inv H. rename s0 into s2.
  pose proof (showhide_mon_geom _ _ _ _ _ E) as G1.
  destruct (focus_None_spec s1 (geom_only_shape _ _ G1 Hshape)
              (geom_only_stack _ _ G1 Hstack)
              (focus_None_live _ _ (geom_only_stack _ _ G1 Hstack) E0))
    as (s2' & mon & sv & Ef & Hmon & Hsv & Hsel & Hmons & _).
  rewrite Ef in E0. injection E0 as ->.
  apply arrangemon_tiled_only in H as [G2 _].
  exists s', (set_v_sel (head (v_stack sv)) sv).
  split; [exact Hs'|]. split; [exact Harr|]. split; [|reflexivity].
  rewrite (geom_only_SELVIEW _ _ _ G2).
  destruct G2 as (_ & -> & _).
  unfold SELVIEW. rewrite Hsel, Hmons.
  rewrite (put_view_mon_eq _ _ _ _ _ Hmon). simpl.
  apply list_lookup_insert_eq. eapply lookup_lt_Some; eauto.
Qed.

(** The tail of [zoom]: [detach], [attach], [focus], [arrange] on a
    client of the selected view of the selected monitor. *)
Lemma zoom_body (s : State) (t : nat) (mon : Monitor) (sv : View) :
  lists_ok s → sel_live s → paired s → mons s !! selmon s = Some mon →
  get_view s (selmon s) (m_selview mon) = Some sv → t ∈ v_clients sv →
  ∃ s' lc ls tv,
    (s1 ← detach t s; s2 ← attach t s1; s3 ← focus (Some t) s2;
     cl ← heap s3 !! t; arrange cfg scr (Some (c_mon cl)) s3) = Some s'
    ∧ wf s' ∧ paired s' ∧ selmon s' = selmon s
    ∧ unlink t (v_clients sv) = Some lc
    ∧ unlink t (v_stack sv) = Some ls
    ∧ SELVIEW s' (selmon s') = Some tv
    ∧ v_clients tv = t :: lc ∧ v_stack tv = t :: ls ∧ v_sel tv = Some t
    ∧ ∀ d dl, heap s !! d = Some dl →
        ∃ dl', heap s' !! d = Some dl' ∧ same_attrs dl dl'.
Proof.
  intros Hwf Hlive Hp Hmon Hv Hin.
  pose proof Hwf as (Hshape & Hstack & Hcl).
  destruct (Hcl _ _ _ Hv t Hin) as (tl & Ht & Htm & Htv).
  destruct (Hp _ _ _ Hv) as [Hndc Hag].
  destruct (Hstack _ _ _ Hv) as [Hnds Hown].
  destruct (unlink_is_Some t (v_clients sv) Hin) as [lc Hlc].
  destruct (unlink_members _ _ _ Hlc Hndc) as [Hnlc Hmc].
  set (vwA := set_v_clients (t :: lc) sv).
  set (s2 := put_view (selmon s) (m_selview mon) vwA s).
  assert (Hda : (detach t s ≫= attach t) = Some s2).
  { unfold detach. rewrite Ht. cbn [mbind option_bind]. rewrite Htm, Htv, Hv.
    cbn [mbind option_bind]. rewrite Hlc. cbn [mbind option_bind].
    erewrite attach_eq;
      [|rewrite heap_put_view; exact Ht
       |rewrite Htm, Htv, get_view_put_view by eauto;
        now rewrite decide_True
       |].
    - rewrite Htm, Htv. now rewrite put_view_put_view.
    - intros m v vw Hw. rewrite get_view_put_view in Hw by eauto.
      destruct (decide (selmon s = m ∧ m_selview mon = v)) as [_|Hne].
      + injection Hw as <-. cbn [v_clients set_v_clients]. rewrite Hmc. tauto.
      + intros Hd. apply Hne.
        destruct (Hcl _ _ _ Hw t Hd) as (tl' & Ht' & ? & ?).
        rewrite Ht in Ht'. injection Ht' as <-. split; congruence. }
  destruct (relink_wf s (selmon s) (m_selview mon) sv vwA Hwf Hp Hv)
    as [Hwf2 Hp2]; cbn [vwA v_stack v_clients set_v_clients]; auto.
  { apply NoDup_cons. split; [|exact Hnlc]. rewrite Hmc. tauto. }
  { intros d. rewrite elem_of_cons, Hmc, <- Hag.
    destruct (decide (d = t)) as [->|]; tauto. }
  fold s2 in Hwf2, Hp2.
  assert (Ht2 : heap s2 !! t = Some tl)
    by (unfold s2; now rewrite heap_put_view).
  assert (Hmon2 : mons s2 !! c_mon tl
                  = Some (set_m_views (<[m_selview mon := vwA]> (m_views mon))
                            mon)).
  { rewrite Htm. unfold s2. now apply put_view_mon_eq. }
  assert (Hv2 : get_view s2 (c_mon tl) (c_view tl) = Some vwA).
  { rewrite Htm, Htv. unfold s2. rewrite get_view_put_view by eauto.
    now rewrite decide_True. }
  assert (Hins : t ∈ v_stack vwA) by (now apply Hag).
  assert (Hlive2 : sel_live s2).
  { unfold s2. eapply sel_live_put_view_sel; eauto. }
  destruct (focus_client s2 t tl _ vwA Hwf2 Hlive2 Ht2 Hmon2 Htv Hv2 Hins)
    as (s3 & ls & vw3 & Hf & Hls & Hvw3 & Hs3 & Hwf3 & Hp3 & Hh3).
  specialize (Hp3 Hp2).
  assert (Hlive3 : sel_live s3) by (apply head_live; [apply Hwf3|exact Hh3]).
  assert (Hsel3 : selmon s3 = selmon s) by (rewrite Hs3; exact Htm).
  assert (Ht3 : heap s3 !! t = Some (set_c_isurgent false tl)).
  { rewrite Hs3, heap_put_view, heap_store. apply lookup_insert_eq. }
  assert (Hgv3 : get_view s3 (selmon s) (m_selview mon) = Some vw3).
  { rewrite Hs3, Htm, Htv. rewrite get_view_put_view
      by (rewrite get_view_store; rewrite <- Htm, <- Htv; eauto).
    now rewrite decide_True. }
  assert (Hm3 : is_Some (mons s3 !! selmon s)).
  { apply (get_view_mon s3 _ (m_selview mon)). eauto. }
  destruct (arrange_selects_head (selmon s) s3 Hwf3 Hlive3 Hm3)
    as (s4 & tv & Ha & Harr & Hsv4 & Hhead).
  assert (Hsel4 : selmon s4 = selmon s)
    by (destruct Harr as (-> & _); exact Hsel3).
  destruct Hm3 as [mon3 Hmon3].
  assert (Hsv3 : m_selview mon3 = m_selview mon).
  { pose proof (put_view_selview
                  (store t (set_c_isurgent false tl)
                     (set_selmon (c_mon tl) s2))
                  (c_mon tl) (selmon s) (c_view tl) vw3) as Hps.
    rewrite <- Hs3, Hmon3 in Hps. rewrite mons_store in Hps.
    change (mons (set_selmon (c_mon tl) s2)) with (mons s2) in Hps.
    rewrite <- Htm in Hps. rewrite Hmon2 in Hps. simpl in Hps.
    now injection Hps. }
  destruct (arranged_frame _ _ _ _ Harr Hmon3) as (mon4 & Hmon4 & Hfr).
  assert (Hsv4' : m_selview mon4 = m_selview mon)
    by (rewrite <- Hsv3; now injection Hfr).
  assert (Hgv4 : get_view s4 (selmon s) (m_selview mon) = Some tv).
  { unfold SELVIEW in Hsv4. rewrite Hsel4, Hmon4 in Hsv4.
    cbn [mbind option_bind] in Hsv4. unfold get_view. rewrite Hmon4.
    cbn [mbind option_bind]. now rewrite <- Hsv4'. }
  destruct (arranged_lists _ _ _ _ _ Harr Hgv4) as (w3 & Hw3 & Hc4 & Hs4).
  rewrite Hgv3 in Hw3. injection Hw3 as <-.
  assert (Hls0 : unlink t (v_stack sv) = Some ls) by exact Hls.
  exists s4, lc, ls, tv. split.
  { destruct (detach t s) as [s1|]; [|discriminate Hda].
    cbn [mbind option_bind] in Hda |- *. rewrite Hda.
    cbn [mbind option_bind]. rewrite Hf. cbn [mbind option_bind].
    rewrite Ht3. cbn [mbind option_bind].
    change (c_mon (set_c_isurgent false tl)) with (c_mon tl).
    rewrite Htm. exact Ha. }
  split.
  { apply head_wf; [eapply arranged_wf; eauto|].
    exists tv. split; [exact Hsv4|]. right. exact Hhead. }
  split; [eapply arranged_paired; eauto|].
  split; [exact Hsel4|]. split; [exact Hlc|]. split; [exact Hls0|].
  split; [exact Hsv4|].
  split; [rewrite Hc4, Hvw3; reflexivity|].
  split; [rewrite Hs4, Hvw3; reflexivity|].
  split; [rewrite Hhead, Hs4, Hvw3; reflexivity|].
  intros d dl Hd.
  assert (Hd3 : ∃ d3, heap s3 !! d = Some d3 ∧ same_attrs dl d3).
  { rewrite Hs3, heap_put_view, heap_store.
    destruct (decide (t = d)) as [<-|Hne].
    - rewrite lookup_insert_eq.
      assert (Hdl : heap s2 !! t = Some dl)
        by (unfold s2; now rewrite heap_put_view).
      rewrite Ht2 in Hdl. injection Hdl as <-. eauto with dwm.
    - rewrite lookup_insert_ne by assumption. cbn [heap set_selmon].
      exists dl. split; [|auto with dwm]. unfold s2.
      now rewrite heap_put_view. }
  destruct Hd3 as (d3 & Hd3 & A3).
  destruct (arranged_client _ _ _ _ Harr Hd3) as (d4 & Hd4 & A4).
  exists d4. split; [exact Hd4|]. eapply same_attrs_trans; eauto.
Qed.

(** [zoom] on a sound state whose selected view is tiled: without a
    selection the null pointer is handed to [detach]; a floating
    selection is left alone; otherwise the selection, or the next tiled
    client when the selection is the first tiled client already, moves
    to the head of the client list and becomes the selection at the
    head of the focus stack; when the selection is the only tiled
    client nothing happens. *)
Theorem zoom_promotes (s : State) (sv : View) :
  wf s → paired s → sel_is_head s (selmon s) →
  SELVIEW s (selmon s) = Some sv →
  lt_arrange (v_lt sv) = Some Tile ∨ lt_arrange (v_lt sv) = Some Mirrortile →
  match v_sel sv with
  | None => zoom cfg scr s = None
  | Some c =>
      ∃ cl, heap s !! c = Some cl
        ∧ if c_isfloating cl then zoom cfg scr s = Some s
          else
            ∃ nt target,
              nexttiled (heap s) (v_clients sv) = Some nt
              ∧ (if bool_decide (head nt = Some c)
                 then ∃ nt', nexttiled (heap s) (tail nt) = Some nt'
                             ∧ target = head nt'
                 else target = Some c)
              ∧ match target with
                | None => zoom cfg scr s = Some s
                | Some t =>
                    ∃ s' lc ls tv,
                      zoom cfg scr s = Some s'
                      ∧ wf s' ∧ paired s' ∧ selmon s' = selmon s
                      ∧ unlink t (v_clients sv) = Some lc
                      ∧ unlink t (v_stack sv) = Some ls
                      ∧ SELVIEW s' (selmon s') = Some tv
                      ∧ v_clients tv = t :: lc ∧ v_stack tv = t :: ls
                      ∧ v_sel tv = Some t
                      ∧ ∀ d dl, heap s !! d = Some dl →
                          ∃ dl', heap s' !! d = Some dl' ∧ same_attrs dl dl'
                end
  end.
Proof.
  intros [Hwf Hlv] Hp (sv0 & Hsv0 & Hsel) Hsv Htile.
  rewrite Hsv in Hsv0. injection Hsv0 as <-.
  assert (Hz : zoom cfg scr s
               = (fl ← match v_sel sv with
                       | Some c => c_isfloating <$> heap s !! c
                       | None => Some false
                       end;
                  if negb fl then
                    target ← match v_sel sv
                                   return option (option (option nat)) with
                             | None => Some (Some None)
                             | Some c =>
                                 nt ← nexttiled (heap s) (v_clients sv);
                                 if bool_decide (head nt = Some c) then
                                   nt' ← nexttiled (heap s) (tail nt);
                                   match nt' with
                                   | [] => Some None
                                   | d :: _ => Some (Some (Some d))
                                   end
                                 else Some (Some (Some c))
                             end;
                    match target with
                    | None => Some s
                    | Some None => None
                    | Some (Some c) =>
                        s1 ← detach c s; s2 ← attach c s1;
                        s3 ← focus (Some c) s2;
                        cl ← heap s3 !! c;
                        arrange cfg scr (Some (c_mon cl)) s3
                    end
                  else Some s)).
  { unfold zoom. rewrite Hsv. cbn [mbind option_bind].
    destruct Htile as [->| ->]; reflexivity. }
  rewrite Hz. clear Hz.
  destruct (v_sel sv) as [c|] eqn:Hc; [|reflexivity].
  destruct Hsel as [Hsel|Hsel]; [discriminate|].
  pose proof Hwf as (Hshape & Hstack & Hcl).
  unfold SELVIEW in Hsv.
  destruct (mons s !! selmon s) as [mon|] eqn:Hmon; [|discriminate].
  cbn [mbind option_bind] in Hsv.
  assert (Hgv : get_view s (selmon s) (m_selview mon) = Some sv)
    by (unfold get_view; rewrite Hmon; exact Hsv).
  destruct (Hstack _ _ _ Hgv) as [_ Hown].
  assert (Hins : c ∈ v_stack sv).
  { destruct (v_stack sv) as [|d rest]; [discriminate|].
    simpl in Hsel. injection Hsel as ->. now left. }
  destruct (Hown c Hins) as (cl & Hcl0 & Hcm & Hcv).
  assert (Hinc : c ∈ v_clients sv) by (now apply (Hp _ _ _ Hgv)).
  exists cl. split; [exact Hcl0|]. rewrite Hcl0. cbn [fmap option_fmap
    option_map mbind option_bind].
  destruct (c_isfloating cl); [reflexivity|]. cbn [negb].
  assert (Hlive : ∀ d, d ∈ v_clients sv → is_Some (heap s !! d)).
  { intros d Hd. destruct (Hcl _ _ _ Hgv d Hd) as (dl & -> & _). eauto. }
  destruct (nexttiled_total (heap s) (v_clients sv) Hlive) as [nt Hnt].
  rewrite Hnt. cbn [mbind option_bind].
  destruct (nexttiled_split _ _ _ Hnt) as (pre & Hpre & _ & _).
  assert (Hsub : ∀ d, d ∈ nt → d ∈ v_clients sv).
  { intros d Hd. rewrite Hpre, elem_of_app. now right. }
  destruct (bool_decide (head nt = Some c)) eqn:Hhd.
  - assert (Hlive2 : ∀ d, d ∈ tail nt → is_Some (heap s !! d)).
    { intros d Hd. apply Hlive, Hsub. destruct nt; [exact Hd|now right]. }
    destruct (nexttiled_total (heap s) (tail nt) Hlive2) as [nt' Hnt'].
    rewrite Hnt'. cbn [mbind option_bind].
    destruct (nexttiled_split _ _ _ Hnt') as (pre' & Hpre' & _ & _).
    exists nt, (head nt'). split; [reflexivity|]. rewrite Hhd.
    split; [exists nt'; auto|].
    destruct nt' as [|t rest]; cbn [head mbind option_bind]; [reflexivity|].
    apply (zoom_body s t mon sv Hwf Hlv Hp Hmon Hgv).
    apply Hsub. destruct nt as [|x nt0]; simpl in Hpre'.
    + destruct pre'; discriminate.
    + right. rewrite Hpre', elem_of_app. right. now left.
  - exists nt, (Some c). split; [reflexivity|]. rewrite Hhd.
    split; [reflexivity|]. cbn [mbind option_bind].
    apply (zoom_body s c mon sv Hwf Hlv Hp Hmon Hgv Hinc).
Qed.

End Zoom.

(** [W1] is the second tiled client of [Scenario.two_tiled_state]; with
    [W1] focused, [zoom] makes it the master. *)
Definition w1_focused : State :=
  default Scenario.empty1 (focus (Some 0%nat) Scenario.two_tiled_state).

Lemma zoom_promotes_witness :
  let s := w1_focused in
  let sv := Scenario.selview_at 0%nat s in
  match v_sel sv with
  | None => zoom Scenario.cfg Scenario.scr s = None
  | Some c =>
      ∃ cl, heap s !! c = Some cl
        ∧ if c_isfloating cl then zoom Scenario.cfg Scenario.scr s = Some s
          else
            ∃ nt target,
              nexttiled (heap s) (v_clients sv) = Some nt
              ∧ (if bool_decide (head nt = Some c)
                 then ∃ nt', nexttiled (heap s) (tail nt) = Some nt'
                             ∧ target = head nt'
                 else target = Some c)
              ∧ match target with
                | None => zoom Scenario.cfg Scenario.scr s = Some s
                | Some t =>
                    ∃ s' lc ls tv,
                      zoom Scenario.cfg Scenario.scr s = Some s'
                      ∧ wf s' ∧ paired s' ∧ selmon s' = selmon s
                      ∧ unlink t (v_clients sv) = Some lc
                      ∧ unlink t (v_stack sv) = Some ls
                      ∧ SELVIEW s' (selmon s') = Some tv
                      ∧ v_clients tv = t :: lc ∧ v_stack tv = t :: ls
                      ∧ v_sel tv = Some t
                      ∧ ∀ d dl, heap s !! d = Some dl →
                          ∃ dl', heap s' !! d = Some dl' ∧ same_attrs dl dl'
                end
  end.
Proof.
  intros s sv.
  apply (zoom_promotes Scenario.cfg Scenario.scr s sv).
  - apply wfb_wf. by_compute.
  - apply pairedb_paired. by_compute.
  - eexists. split; [by_compute|]. right. by_compute.
  - by_compute.
  - left. by_compute.
Defined.

(** The two windows swap their rectangles, and on an empty screen
    [zoom] hands the null pointer to [detach]. *)
Example zoom_swaps_and_fails :
  (s ← zoom Scenario.cfg Scenario.scr w1_focused;
   Some (Scenario.rect_of Scenario.W1 s, Scenario.rect_of Scenario.W2 s))
  = Some (Some (mkRect 0 14 1054 1064), Some (mkRect 1056 14 862 1064))
  ∧ zoom Scenario.cfg Scenario.scr Scenario.empty1 = None.
Proof. split; by_compute. Qed.

(** ** The [monocle] arranger *)

(** The window area meets the screen of the monitor. *)
Definition area_ok (m : Monitor) : bool :=
  (m_wx m <=? m_mx m + m_mw m) && (m_wy m <=? m_my m + m_mh m)
  && (m_mx m <=? m_wx m + m_ww m) && (m_my m <=? m_wy m + m_wh m).

(** The client is one of monitor [m] and, unless it is floating, the
    window area without the client's border is not smaller than one
    pixel or than the bar height. *)
Definition monocle_fits (scr : Screen) (s : State) (m : nat) (mon : Monitor)
    (c : nat) : bool :=
  match heap s !! c with
  | Some cl =>
      bool_decide (c_mon cl = m)
      && (c_isfloating cl
          || (Z.max 1 (bh scr) <=? m_ww mon - 2 * c_bw cl)
             && (Z.max 1 (bh scr) <=? m_wh mon - 2 * c_bw cl))
  | None => false
  end.

(** The rectangle [monocle] asks for. *)
Definition monocle_rect (mon : Monitor) (cl : Client) : Rect :=
  mkRect (m_wx mon) (m_wy mon) (m_ww mon - 2 * c_bw cl)
    (m_wh mon - 2 * c_bw cl).

Section Monocle.

Variable cfg : Config.
Variable scr : Screen.

Lemma monocle_loop_spec (m : nat) (mon : Monitor) (l : list nat) :
  resizehints cfg = false → area_ok mon = true →
  ∀ s, mons s !! m = Some mon →
    forallb (monocle_fits scr s m mon) l = true →
    ∃ s', monocle_loop cfg scr mon l s = Some s'
      ∧ mons s' = mons s ∧ selmon s' = selmon s
      ∧ ∀ c cl, heap s !! c = Some cl →
          ∃ cl', heap s' !! c = Some cl' ∧ same_attrs cl cl'
            ∧ if bool_decide (c ∈ l) && negb (c_isfloating cl)
              then c_rect cl' = monocle_rect mon cl
              else cl' = cl.
Proof.
  intros Hrh Harea.
  unfold area_ok in Harea. rewrite !andb_true_iff, !Z.leb_le in Harea.
  destruct Harea as (((A1 & A2) & A3) & A4).
  induction l as [|c l IH]; intros s Hmon Hfit.
  - exists s. split; [reflexivity|]. split; [reflexivity|].
    split; [reflexivity|]. intros c cl Hc. exists cl.
    split; [exact Hc|]. split; [auto with dwm|].
    rewrite bool_decide_eq_false_2 by apply not_elem_of_nil. reflexivity.
  - cbn [forallb] in Hfit. apply andb_true_iff in Hfit as [Hc Hl].
    unfold monocle_fits in Hc.
    destruct (heap s !! c) as [cl0|] eqn:Hc0; [|discriminate].
    apply andb_true_iff in Hc as [Hcm Hsz].
    apply bool_decide_eq_true in Hcm.
    cbn [monocle_loop]. rewrite Hc0. cbn [mbind option_bind].
    destruct (c_isfloating cl0) eqn:Hfl.
    + destruct (IH s Hmon Hl) as (s' & Hs' & Hm' & Hsel' & Hall).
      exists s'. split; [exact Hs'|]. split; [exact Hm'|].
      split; [exact Hsel'|]. intros d dl Hd.
      destruct (Hall d dl Hd) as (dl' & Hd' & Ha & Hr).
      exists dl'. split; [exact Hd'|]. split; [exact Ha|].
      destruct (decide (d = c)) as [->|Hne].
      * rewrite Hc0 in Hd. injection Hd as <-. rewrite Hfl in Hr |- *.
        rewrite andb_false_r in Hr |- *. exact Hr.
      * destruct (bool_decide (d ∈ l)) eqn:Hin.
        -- rewrite bool_decide_eq_true_2
             by (right; now apply bool_decide_eq_true in Hin).
           exact Hr.
        -- rewrite bool_decide_eq_false_2; [exact Hr|].
           apply bool_decide_eq_false in Hin.
           rewrite elem_of_cons. tauto.
    + cbn [orb] in Hsz. apply andb_true_iff in Hsz as [Hw Hh].
      apply Z.leb_le in Hw, Hh.
      assert (Hmon0 : mons s !! c_mon cl0 = Some mon) by (now rewrite Hcm).
      destruct (resize_spec cfg scr c (m_wx mon) (m_wy mon)
                  (m_ww mon - 2 * c_bw cl0) (m_wh mon - 2 * c_bw cl0) false
                  s cl0 mon Hc0 Hmon0)
        as (s1 & cl1 & Hr1 & Hm1 & Hsel1 & Hh1 & Hrect1 & Ha1).
      rewrite applysizehints_plain in Hrect1 by (auto; lia).
      rewrite Hr1. cbn [mbind option_bind]. attrs Ha1.
      assert (Hfit1 : forallb (monocle_fits scr s1 m mon) l = true).
      { rewrite forallb_forall in Hl |- *. intros d Hd.
        specialize (Hl d Hd). unfold monocle_fits in Hl |- *.
        rewrite Hh1. destruct (decide (c = d)) as [<-|Hne].
        - rewrite lookup_insert_eq. rewrite Hc0 in Hl.
          repeat match goal with
                 | H : _ cl0 = _ cl1 |- _ => rewrite <- H
                 end.
          exact Hl.
        - now rewrite lookup_insert_ne. }
      assert (Hmon1 : mons s1 !! m = Some mon) by (now rewrite Hm1).
      destruct (IH s1 Hmon1 Hfit1) as (s' & Hs' & Hm' & Hsel' & Hall).
      exists s'. split; [exact Hs'|]. split; [congruence|].
      split; [congruence|]. intros d dl Hd.
      destruct (decide (d = c)) as [->|Hne].
      * rewrite Hc0 in Hd. injection Hd as <-.
        assert (Hc1 : heap s1 !! c = Some cl1)
          by (rewrite Hh1; apply lookup_insert_eq).
        destruct (Hall c cl1 Hc1) as (cl' & Hc' & Ha' & Hr').
        exists cl'. split; [exact Hc'|].
        split; [eapply same_attrs_trans; eauto|].
        rewrite bool_decide_eq_true_2 by now left.
        rewrite Hfl. cbn [negb andb].
        assert (Hmr : monocle_rect mon cl1 = monocle_rect mon cl0).
        { unfold monocle_rect.
          repeat match goal with
                 | H : c_bw cl0 = c_bw cl1 |- _ => rewrite <- H
                 end.
          reflexivity. }
        destruct (bool_decide (c ∈ l) && negb (c_isfloating cl1)).
        -- now rewrite Hr', Hmr.
        -- now rewrite Hr', Hrect1.
      * assert (Hd1 : heap s1 !! d = Some dl)
          by (rewrite Hh1; now rewrite lookup_insert_ne).
        destruct (Hall d dl Hd1) as (dl' & Hd' & Ha' & Hr').
        exists dl'. split; [exact Hd'|]. split; [exact Ha'|].
        destruct (bool_decide (d ∈ l)) eqn:Hin.
        -- rewrite bool_decide_eq_true_2
             by (right; now apply bool_decide_eq_true in Hin).
           exact Hr'.
        -- rewrite bool_decide_eq_false_2; [exact Hr'|].
           apply bool_decide_eq_false in Hin.
           rewrite elem_of_cons. tauto.
Qed.

(** [monocle] gives every client of the selected view that is not
    floating the whole window area of the monitor, less the client's
    border, when size hints are not applied to tiled clients and the
    area is not smaller than a pixel or than the bar height; floating
    clients and the clients of other views are not touched. *)
Theorem monocle_fills_window_area (m : nat) (s : State) (mon : Monitor)
    (vw : View) :
  resizehints cfg = false → area_ok mon = true →
  mons s !! m = Some mon → m_views mon !! m_selview mon = Some vw →
  forallb (monocle_fits scr s m mon) (v_clients vw) = true →
  ∃ s', monocle cfg scr m s = Some s'
    ∧ mons s' = mons s ∧ selmon s' = selmon s
    ∧ ∀ c cl, heap s !! c = Some cl →
        ∃ cl', heap s' !! c = Some cl' ∧ same_attrs cl cl'
          ∧ if bool_decide (c ∈ v_clients vw) && negb (c_isfloating cl)
            then c_rect cl' = monocle_rect mon cl
            else cl' = cl.
Proof.
  intros Hrh Harea Hmon Hvw Hfit. unfold monocle. rewrite Hmon.
  cbn [mbind option_bind]. rewrite Hvw. cbn [mbind option_bind].
  now apply (monocle_loop_spec m mon).
Qed.

End Monocle.

Module MonocleExample.
Import Scenario.

Definition lt_monocle : Layout := mkLayout "[M]" (Some Monocle).

(** The first view of [two_tiled_state] under the monocle layout. *)
Definition monocle_view : State :=
  put_view 0%nat 0%nat
    (set_v_lt lt_monocle (selview_at 0%nat two_tiled_state)) two_tiled_state.

End MonocleExample.

Lemma monocle_fills_window_area_witness :
  let s := MonocleExample.monocle_view in
  let mon := Scenario.monitor_at 0%nat s in
  let vw := Scenario.selview_at 0%nat s in
  ∃ s', monocle Scenario.cfg Scenario.scr 0%nat s = Some s'
    ∧ mons s' = mons s ∧ selmon s' = selmon s
    ∧ ∀ c cl, heap s !! c = Some cl →
        ∃ cl', heap s' !! c = Some cl' ∧ same_attrs cl cl'
          ∧ if bool_decide (c ∈ v_clients vw) && negb (c_isfloating cl)
            then c_rect cl' = monocle_rect mon cl
            else cl' = cl.
Proof.
  intros s mon vw.
  apply (monocle_fills_window_area Scenario.cfg Scenario.scr 0%nat s mon vw);
    by_compute.
Defined.

Example monocle_two_windows :
  (s ← arrange Scenario.cfg Scenario.scr (Some 0%nat)
         MonocleExample.monocle_view;
   Some (Scenario.rect_of Scenario.W1 s, Scenario.rect_of Scenario.W2 s))
  = Some (Some (mkRect 0 14 1918 1064), Some (mkRect 0 14 1918 1064)).
Proof. by_compute. Qed.

(** ** Arranging every monitor *)

Section ArrangeAll.

Variable cfg : Config.
Variable scr : Screen.

Lemma for_mons_total (f : nat → State → option State) :
  (∀ m s, lists_ok s → is_Some (mons s !! m) →
          ∃ s', f m s = Some s' ∧ geom_only s s') →
  ∀ ms s, lists_ok s → (∀ m, m ∈ ms → is_Some (mons s !! m)) →
    ∃ s', for_mons f ms s = Some s' ∧ geom_only s s'.
Proof.
  intros Hf ms. induction ms as [|m ms IH]; intros s Hwf Hms.
  - exists s. split; [reflexivity|apply geom_only_refl].
  - destruct (Hf m s Hwf) as (s1 & E1 & G1); [apply Hms; now left|].
    destruct (IH s1) as (s2 & E2 & G2).
    + eapply geom_only_wf; eauto.
    + intros m' Hm'. destruct G1 as (-> & _). apply Hms. now right.
    + exists s2. split; [cbn [for_mons]; rewrite E1; exact E2|].
      eapply geom_only_trans; eauto.
Qed.

Lemma all_mons_valid (s : State) (m : nat) :
  m ∈ all_mons s → is_Some (mons s !! m).
Proof.
  unfold all_mons. rewrite elem_of_seq. intros [_ H].
  apply lookup_lt_is_Some. lia.
Qed.

Lemma showhide_mon_total (m : nat) (s : State) :
  lists_ok s → is_Some (mons s !! m) →
  ∃ s', showhide_mon cfg scr m s = Some s' ∧ geom_only s s'.
Proof.
  intros Hwf [mon Hm]. destruct (wf_selview s m mon Hwf Hm) as (vw & Hv & Hgv).
  destruct Hwf as (_ & Hstack & _).
  destruct (showhide_total cfg scr (v_stack vw) s) as [s' E].
  { intros c Hc. eapply at_view_live; [|eapply Hstack; eauto]. eauto. }
  exists s'. split.
  - unfold showhide_mon, SELVIEW. rewrite Hm. cbn [mbind option_bind].
    rewrite Hv. exact E.
  - eapply showhide_geom; eauto.
Qed.

Lemma arrangemon_geom_total (m : nat) (s : State) :
  lists_ok s → is_Some (mons s !! m) →
  ∃ s', arrangemon cfg scr m s = Some s' ∧ geom_only s s'.
Proof.
  intros (Hshape & _ & Hcl) Hm.
  destruct (arrangemon_total cfg scr m s Hshape Hcl Hm) as [s' E].
  exists s'. split; [exact E|].
  apply tiled_only_geom. eapply arrangemon_tiled_only; eauto.
Qed.

(** [arrange(NULL)] on a sound state. *)
Lemma arrange_None_arranged (s : State) :
  lists_ok s → sel_live s →
  ∃ s', arrange cfg scr None s = Some s' ∧ arranged s s'
        ∧ sel_is_head s' (selmon s').
Proof.
  intros Hwf Hlive.
  destruct (for_mons_total (showhide_mon cfg scr) showhide_mon_total
              (all_mons s) s Hwf (all_mons_valid s)) as (s1 & E1 & G1).
  pose proof (geom_only_wf _ _ G1 Hwf) as Hwf1.
  pose proof Hwf1 as (Hshape1 & Hstack1 & _).
  destruct (focus_None_arranged s1 Hshape1 Hstack1
              (geom_only_sel_live _ _ G1 Hlive)) as (s2 & E2 & A2 & _).
  pose proof (arranged_wf _ _ A2 Hwf1) as Hwf2.
  destruct (for_mons_total (arrangemon cfg scr) arrangemon_geom_total
              (all_mons s2) s2 Hwf2 (all_mons_valid s2)) as (s3 & E3 & G3).
  assert (Ha : arrange cfg scr None s = Some s3).
  { unfold arrange. rewrite E1. cbn [mbind option_bind]. rewrite E2.
    cbn [mbind option_bind]. exact E3. }
  pose proof Hwf as (Hshape & Hstack & _).
  destruct (arrange_inv cfg scr None s s3 Hshape Hstack Ha) as (Harr & Hh & _).
  eauto.
Qed.

(** [focusmon] on a sound state in which the selection of the selected
    view of every monitor is null or allocated: the neighbouring
    monitor becomes the selected one and the head of the focus stack
    of its selected view becomes the selection of that view; with one
    monitor nothing happens.  No client changes its list or its
    attributes other than the urgency flag. *)
Theorem focusmon_selects_neighbour (i : Z) (s : State) :
  wf s →
  (∀ m sv c, SELVIEW s m = Some sv → v_sel sv = Some c →
             is_Some (heap s !! c)) →
  ∃ m s',
    dirtomon i s = Some m
    ∧ focusmon i s = Some s'
    ∧ wf s' ∧ selmon s' = m
    ∧ (m = selmon s → s' = s)
    ∧ (m ≠ selmon s →
       ∃ sv sv', SELVIEW s m = Some sv ∧ SELVIEW s' m = Some sv'
                 ∧ v_sel sv' = head (v_stack sv))
    ∧ (∀ c cl, heap s !! c = Some cl →
         ∃ cl', heap s' !! c = Some cl' ∧ same_attrs cl cl'
                ∧ c_rect cl' = c_rect cl ∧ c_old cl' = c_old cl)
    ∧ ∀ m' v vw, get_view s m' v = Some vw →
        ∃ vw', get_view s' m' v = Some vw'
               ∧ v_clients vw' = v_clients vw ∧ v_stack vw' = v_stack vw.
Proof.
  intros [Hwf Hlive] Hall. pose proof Hwf as ((Hsel & _) & _).
  destruct (dirtomon_valid i s Hsel) as (m & Hd & Hm & _).
  exists m. unfold focusmon. rewrite Hd. cbn [mbind option_bind].
  destruct (decide (m = selmon s)) as [Heq|Hne].
  - exists s. split; [reflexivity|]. split; [reflexivity|].
    split; [split; assumption|]. split; [now symmetry|].
    split; [reflexivity|]. split; [contradiction|]. split; eauto 6 with dwm.
  - destruct Hsel as [smon Hsmon].
    destruct (wf_selview s (selmon s) smon Hwf Hsmon) as (ssv & Hssv & _).
    assert (Hsv : SELVIEW s (selmon s) = Some ssv)
      by (unfold SELVIEW; rewrite Hsmon; exact Hssv).
    rewrite Hsv. cbn [mbind option_bind].
    assert (Hun : unfocus (v_sel ssv) s = Some s).
    { unfold unfocus. destruct (v_sel ssv) as [q|] eqn:Hq; [|reflexivity].
      destruct (Hlive ssv q Hsv Hq) as [ql ->]. reflexivity. }
    rewrite Hun. cbn [mbind option_bind].
    pose proof (set_selmon_wf s m Hwf Hm) as Hwf1.
    pose proof Hwf1 as (Hshape1 & Hstack1 & _).
    assert (Hlive1 : sel_live (set_selmon m s)).
    { intros sv c Hs Hc. apply (Hall m sv c); assumption. }
    destruct (focus_None_spec (set_selmon m s) Hshape1 Hstack1 Hlive1)
      as (s' & mon & sv & Ef & Hmon & Hsvm & Hsel' & Hmons & Hheap).
    cbn [selmon mons heap set_selmon] in Hmon, Hsel', Hmons, Hheap.
    assert (Hgv : get_view s m (m_selview mon) = Some sv)
      by (unfold get_view; rewrite Hmon; exact Hsvm).
    assert (Harr : arranged (set_selmon m s) s').
    { split; [exact Hsel'|]. split.
      - intros c. destruct (Hheap c) as [->|(cl & Hc & ->)]; [reflexivity|].
        cbn [heap set_selmon]. rewrite Hc. simpl. now rewrite forget_urgent.
      - exists m, (m_selview mon), sv, (head (v_stack sv)). auto. }
    assert (Hsv' : SELVIEW s' m = Some (set_v_sel (head (v_stack sv)) sv)).
    { unfold SELVIEW. rewrite Hmons.
      change (mons (put_view m (m_selview mon)
                      (set_v_sel (head (v_stack sv)) sv) (set_selmon m s)))
        with (mons (put_view m (m_selview mon)
                      (set_v_sel (head (v_stack sv)) sv) s)).
      rewrite (put_view_mon_eq _ _ _ _ _ Hmon). simpl.
      apply list_lookup_insert_eq. eapply lookup_lt_Some; eauto. }
    exists s'. split; [reflexivity|]. split; [exact Ef|]. split.
    { apply head_wf; [eapply arranged_wf; eauto|].
      rewrite Hsel'. eexists. split; [exact Hsv'|]. right. reflexivity. }
    split; [exact Hsel'|]. split; [contradiction|]. split.
    { intros _. exists sv, (set_v_sel (head (v_stack sv)) sv).
      split; [unfold SELVIEW; rewrite Hmon; exact Hsvm|].
      split; [exact Hsv'|reflexivity]. }
    split.
    + intros c cl Hc. destruct (Hheap c) as [Hh|(cl0 & Hc0 & Hh)].
      * exists cl. rewrite Hh. auto with dwm.
      * rewrite Hc in Hc0. injection Hc0 as <-. eexists.
        split; [exact Hh|]. auto with dwm.
    + intros m' v vw Hv.
      pose proof (arranged_get_view (set_selmon m s) s' m' v Harr) as Hg.
      change (get_view (set_selmon m s) m' v) with (get_view s m' v) in Hg.
      rewrite Hv in Hg. destruct Hg as (vw' & ? & _ & ? & ? & _). eauto.
Qed.

End ArrangeAll.

(** ** Sending a client to another monitor *)

Section SendMon.

Variable cfg : Config.
Variable scr : Screen.

Lemma sendmon_spec (s : State) (c m : nat) (cl : Client) (vw : View) :
  lists_ok s → paired s → heap s !! c = Some cl →
  get_view s (c_mon cl) (c_view cl) = Some vw → c ∈ v_clients vw →
  is_Some (mons s !! m) → m ≠ c_mon cl →
  sel_live s →
  (∀ sv, SELVIEW s (selmon s) = Some sv → v_sel sv = Some c →
         c ∈ v_stack sv) →
  ∃ s' mon tv0 tv cl',
    sendmon cfg scr c m s = Some s'
    ∧ lists_ok s' ∧ paired s'
    ∧ selmon s' = selmon s ∧ sel_is_head s' (selmon s')
    ∧ mons s !! m = Some mon
    ∧ get_view s m (m_selview mon) = Some tv0
    ∧ get_view s' m (m_selview mon) = Some tv
    ∧ v_clients tv = c :: v_clients tv0 ∧ v_stack tv = c :: v_stack tv0
    ∧ heap s' !! c = Some cl'
    ∧ c_mon cl' = m ∧ c_view cl' = m_selview mon
    ∧ c_win cl' = c_win cl ∧ c_isfloating cl' = c_isfloating cl
    ∧ ∀ d dl, d ≠ c → heap s !! d = Some dl →
        ∃ dl', heap s' !! d = Some dl' ∧ same_attrs dl dl'.
Proof.
  intros Hwf Hp Hc Hv Hin [mon Hmon] Hne Hlive Hhome.
  destruct (unlink_both s c cl vw Hwf Hp Hc Hv Hin)
    as (lc & ls & vw2 & _ & Hls & Hvw2 & Hdd & Hwf2 & Hp2 & Hun2).
  set (s2 := put_view (c_mon cl) (c_view cl) vw2 s) in *.
  assert (Hc2 : heap s2 !! c = Some cl)
    by (unfold s2; now rewrite heap_put_view).
  assert (Hlive2 : sel_live s2).
  { intros sv2 q Hsv2 Hq.
    destruct (unlink_both_sel s c cl vw vw2 lc ls Hwf Hc Hv Hls Hvw2 Hlive
                Hhome sv2 q Hsv2 Hq) as [_ Hs].
    unfold s2. now rewrite heap_put_view. }
  assert (Hmon2 : mons s2 !! m = Some mon).
  { unfold s2. rewrite put_view_mon_ne by congruence. exact Hmon. }
  destruct (wf_selview s m mon Hwf Hmon) as (tv0 & _ & Htv0).
  assert (Htv2 : get_view s2 m (m_selview mon) = Some tv0).
  { unfold s2. rewrite get_view_put_view by eauto.
    rewrite decide_False; [exact Htv0|]. intros [E _]. congruence. }
  set (cl2 := set_c_view (m_selview mon) (set_c_mon m cl)).
  destruct (link_head s2 c cl2 tv0 Hwf2 Hp2 Hun2 Htv2) as (Hlk & Hwf4 & Hp4).
  change (c_mon cl2) with m in Hlk, Hwf4, Hp4.
  change (c_view cl2) with (m_selview mon) in Hlk, Hwf4, Hp4.
  set (s4 := put_view m (m_selview mon)
               (set_v_stack (c :: v_stack tv0)
                  (set_v_clients (c :: v_clients tv0) tv0))
               (store c cl2 s2)) in *.
  pose proof Hwf4 as (Hshape4 & Hstack4 & _).
  assert (Hlive4 : sel_live s4).
  { unfold s4. eapply sel_live_put_view_sel;
      [rewrite get_view_store; exact Htv2|reflexivity
      |apply sel_live_store, Hlive2]. }
  destruct (focus_None_arranged s4 Hshape4 Hstack4 Hlive4)
    as (s5 & Ef & A5 & Hh5).
  pose proof (arranged_wf _ _ A5 Hwf4) as Hwf5.
  assert (Hlive5 : sel_live s5) by (apply head_live; [apply Hwf5|exact Hh5]).
  destruct (arrange_None_arranged cfg scr s5 Hwf5 Hlive5)
    as (s6 & Ea & A6 & Hh6).
  assert (Hc4 : heap s4 !! c = Some cl2).
  { unfold s4. rewrite heap_put_view, heap_store. apply lookup_insert_eq. }
  destruct (arranged_client _ _ _ _ A5 Hc4) as (cl5 & Hc5 & At5).
  destruct (arranged_client _ _ _ _ A6 Hc5) as (cl6 & Hc6 & At6).
  attrs At5. attrs At6.
  assert (Hgv4 : get_view s4 m (m_selview mon)
                 = Some (set_v_stack (c :: v_stack tv0)
                           (set_v_clients (c :: v_clients tv0) tv0))).
  { unfold s4. rewrite get_view_put_view
      by (rewrite get_view_store; eauto).
    now rewrite decide_True. }
  pose proof (arranged_get_view s4 s5 m (m_selview mon) A5) as Hg5.
  rewrite Hgv4 in Hg5. destruct Hg5 as (tv5 & Htv5 & _ & Hcs5 & Hss5 & _).
  pose proof (arranged_get_view s5 s6 m (m_selview mon) A6) as Hg6.
  rewrite Htv5 in Hg6. destruct Hg6 as (tv6 & Htv6 & _ & Hcs6 & Hss6 & _).
  exists s6, mon, tv0, tv6, cl6. split.
  { unfold sendmon. rewrite Hc. cbn [mbind option_bind].
    rewrite decide_False by congruence.
    destruct (detach c s) as [s1|]; [|discriminate Hdd].
    cbn [mbind option_bind] in Hdd |- *. rewrite Hdd.
    cbn [mbind option_bind]. fold s2. rewrite Hmon2.
    cbn [mbind option_bind]. rewrite Hc2. cbn [mbind option_bind].
    fold cl2.
    destruct (attach c (store c cl2 s2)) as [s3|]; [|discriminate Hlk].
    cbn [mbind option_bind] in Hlk |- *. rewrite Hlk.
    cbn [mbind option_bind]. rewrite Ef. exact Ea. }
  split; [eapply arranged_wf; eauto|].
  split; [eapply arranged_paired; eauto using arranged_paired|].
  split.
  { destruct A6 as (-> & _). destruct A5 as (-> & _). reflexivity. }
  split; [exact Hh6|]. split; [exact Hmon|]. split; [exact Htv0|].
  split; [exact Htv6|].
  split; [rewrite Hcs6, Hcs5; reflexivity|].
  split; [rewrite Hss6, Hss5; reflexivity|].
  split; [exact Hc6|].
  split; [unfold cl2 in *; simpl in *; congruence|].
  split; [unfold cl2 in *; simpl in *; congruence|].
  split; [unfold cl2 in *; simpl in *; congruence|].
  split; [unfold cl2 in *; simpl in *; congruence|].
  intros d dl Hnd Hd.
  assert (Hd4 : heap s4 !! d = Some dl).
  { unfold s4. rewrite heap_put_view, heap_store.
    rewrite lookup_insert_ne by congruence.
    unfold s2. now rewrite heap_put_view. }
  destruct (arranged_client _ _ _ _ A5 Hd4) as (d5 & Hd5 & B5).
  destruct (arranged_client _ _ _ _ A6 Hd5) as (d6 & Hd6 & B6).
  exists d6. split; [exact Hd6|]. eapply same_attrs_trans; eauto.
Qed.

(** [tagmon] on a sound state whose selection heads its focus stack:
    without a selection, and with one monitor, nothing happens;
    otherwise the selected client moves to the selected view of the
    neighbouring monitor, where it heads the client list and the focus
    stack; the selected monitor stays selected, and the state returned
    is sound. *)
Theorem tagmon_sends_selection (i : Z) (s : State) (sv : View) :
  wf s → paired s → sel_is_head s (selmon s) →
  SELVIEW s (selmon s) = Some sv →
  match v_sel sv with
  | None => tagmon cfg scr i s = Some s
  | Some c =>
      ∃ m, dirtomon i s = Some m
        ∧ if decide (m = selmon s) then tagmon cfg scr i s = Some s
          else
            ∃ s' cl mon tv0 tv cl',
              tagmon cfg scr i s = Some s'
              ∧ wf s' ∧ paired s'
              ∧ selmon s' = selmon s ∧ sel_is_head s' (selmon s')
              ∧ heap s !! c = Some cl ∧ c_mon cl = selmon s
              ∧ mons s !! m = Some mon
              ∧ get_view s m (m_selview mon) = Some tv0
              ∧ get_view s' m (m_selview mon) = Some tv
              ∧ v_clients tv = c :: v_clients tv0
              ∧ v_stack tv = c :: v_stack tv0
              ∧ heap s' !! c = Some cl'
              ∧ c_mon cl' = m ∧ c_view cl' = m_selview mon
              ∧ c_win cl' = c_win cl ∧ c_isfloating cl' = c_isfloating cl
              ∧ ∀ d dl, d ≠ c → heap s !! d = Some dl →
                  ∃ dl', heap s' !! d = Some dl' ∧ same_attrs dl dl'
  end.
Proof.
  intros [Hwf Hlive] Hp Hhd Hsv. pose proof Hhd as (sv0 & Hsv0 & Hsel).
  rewrite Hsv in Hsv0. injection Hsv0 as <-.
  unfold tagmon. rewrite Hsv. cbn [mbind option_bind].
  destruct (v_sel sv) as [c|] eqn:Hc; [|reflexivity].
  destruct Hsel as [Hsel|Hsel]; [discriminate|].
  pose proof Hwf as ((Hsm & _) & Hstack & _).
  destruct (dirtomon_valid i s Hsm) as (m & Hd & Hm & _).
  exists m. split; [exact Hd|]. rewrite Hd. cbn [mbind option_bind].
  unfold SELVIEW in Hsv.
  destruct (mons s !! selmon s) as [smon|] eqn:Hsmon; [|discriminate].
  cbn [mbind option_bind] in Hsv.
  assert (Hgv : get_view s (selmon s) (m_selview smon) = Some sv)
    by (unfold get_view; rewrite Hsmon; exact Hsv).
  destruct (Hstack _ _ _ Hgv) as [_ Hown].
  assert (Hins : c ∈ v_stack sv).
  { destruct (v_stack sv) as [|d rest]; [discriminate|].
    simpl in Hsel. injection Hsel as ->. now left. }
  destruct (Hown c Hins) as (cl & Hcl0 & Hcm & Hcv).
  assert (Hinc : c ∈ v_clients sv) by (now apply (Hp _ _ _ Hgv)).
  destruct (decide (m = selmon s)) as [Heq|Hne].
  - unfold sendmon. rewrite Hcl0. cbn [mbind option_bind].
    rewrite decide_True by congruence. reflexivity.
  - rewrite <- Hcm, <- Hcv in Hgv.
    destruct (sendmon_spec s c m cl sv Hwf Hp Hcl0 Hgv Hinc Hm)
      as (s' & mon & tv0 & tv & cl' & Hs & H);
      [congruence|exact Hlive|exact (head_home s c Hhd)|].
    exists s', cl, mon, tv0, tv, cl'. split; [exact Hs|].
    destruct H as (? & ? & ? & Hh' & ? & ? & ? & ? & ? & ? & ? & ? & ? & ?
                   & ?).
    split; [now apply head_wf|].
    repeat (split; [assumption|]). assumption.
Qed.

End SendMon.

Module TwoMonitors.
Import Scenario.

(** Two windows on the first of two monitors, one window on the
    second. *)
Definition three_windows : option State :=
  s ← manage cfg scr W1 wa_small None None empty2;
  s ← focusmon 1 s;
  s ← manage cfg scr W2 wa_small None None s;
  s ← focusmon 1 s;
  manage cfg scr W3 wa_small None None s.

Definition three_windows_state : State := default empty2 three_windows.

End TwoMonitors.

(** From the first monitor, where [W3] is selected, to the second,
    where [W2] heads the focus stack. *)
Lemma focusmon_selects_neighbour_witness :
  let s := TwoMonitors.three_windows_state in
  ∃ m s',
    dirtomon 1 s = Some m
    ∧ focusmon 1 s = Some s'
    ∧ wf s' ∧ selmon s' = m
    ∧ (m = selmon s → s' = s)
    ∧ (m ≠ selmon s →
       ∃ sv sv', SELVIEW s m = Some sv ∧ SELVIEW s' m = Some sv'
                 ∧ v_sel sv' = head (v_stack sv))
    ∧ (∀ c cl, heap s !! c = Some cl →
         ∃ cl', heap s' !! c = Some cl' ∧ same_attrs cl cl'
                ∧ c_rect cl' = c_rect cl ∧ c_old cl' = c_old cl)
    ∧ ∀ m' v vw, get_view s m' v = Some vw →
        ∃ vw', get_view s' m' v = Some vw'
               ∧ v_clients vw' = v_clients vw ∧ v_stack vw' = v_stack vw.
Proof.
  intros s. apply (focusmon_selects_neighbour 1 s).
  - apply wfb_wf. by_compute.
  - intros m sv c Hsv Hc.
    destruct m as [|[|m]]; vm_compute in Hsv; [| |discriminate Hsv];
      injection Hsv as <-; vm_compute in Hc; injection Hc as <-;
      vm_compute; eauto.
Defined.

Lemma tagmon_sends_selection_witness :
  let s := TwoMonitors.three_windows_state in
  let sv := Scenario.selview_at 0%nat s in
  match v_sel sv with
  | None => tagmon Scenario.cfg Scenario.scr 1 s = Some s
  | Some c =>
      ∃ m, dirtomon 1 s = Some m
        ∧ if decide (m = selmon s)
          then tagmon Scenario.cfg Scenario.scr 1 s = Some s
          else
            ∃ s' cl mon tv0 tv cl',
              tagmon Scenario.cfg Scenario.scr 1 s = Some s'
              ∧ wf s' ∧ paired s'
              ∧ selmon s' = selmon s ∧ sel_is_head s' (selmon s')
              ∧ heap s !! c = Some cl ∧ c_mon cl = selmon s
              ∧ mons s !! m = Some mon
              ∧ get_view s m (m_selview mon) = Some tv0
              ∧ get_view s' m (m_selview mon) = Some tv
              ∧ v_clients tv = c :: v_clients tv0
              ∧ v_stack tv = c :: v_stack tv0
              ∧ heap s' !! c = Some cl'
              ∧ c_mon cl' = m ∧ c_view cl' = m_selview mon
              ∧ c_win cl' = c_win cl ∧ c_isfloating cl' = c_isfloating cl
              ∧ ∀ d dl, d ≠ c → heap s !! d = Some dl →
                  ∃ dl', heap s' !! d = Some dl' ∧ same_attrs dl dl'
  end.
Proof.
  intros s sv.
  apply (tagmon_sends_selection Scenario.cfg Scenario.scr 1 s sv).
  - apply wfb_wf. by_compute.
  - apply pairedb_paired. by_compute.
  - eexists. split; [by_compute|]. right. by_compute.
  - by_compute.
Defined.

(** On the monitor that receives the client the selection of the view
    is left as it was: [W3], sent to the second monitor, heads the
    focus stack there while [W2] is still the selection. *)
Example tagmon_keeps_receiving_selection :
  let s := TwoMonitors.three_windows_state in
  TwoMonitors.three_windows = Some s
  ∧ selmon s = 0%nat
  ∧ (Scenario.client_of Scenario.W3 s ≫= λ cl, Some (c_mon cl)) = Some 0%nat
  ∧ ∃ s' vw,
      tagmon Scenario.cfg Scenario.scr 1 s = Some s'
      ∧ SELVIEW s' 1%nat = Some vw
      ∧ wintoclient s' Scenario.W3 = Some (head (v_stack vw))
      ∧ wintoclient s' Scenario.W2 = Some (v_sel vw)
      ∧ v_sel vw ≠ None ∧ v_sel vw ≠ head (v_stack vw).
Proof.
  intros s. split; [by_compute|]. split; [by_compute|]. split; [by_compute|].
  destruct (tagmon Scenario.cfg Scenario.scr 1 s) as [s'|] eqn:E;
    [|vm_compute in E; discriminate E].
  destruct (SELVIEW s' 1%nat) as [vw|] eqn:Ev;
    [|vm_compute in E; injection E as <-; vm_compute in Ev; discriminate Ev].
  exists s', vw. split; [reflexivity|]. split; [exact Ev|].
  vm_compute in E. injection E as <-. vm_compute in Ev. injection Ev as <-.
  repeat split; try by_compute; vm_compute; discriminate.
Qed.

(** ** The selection and the head of the focus stack *)


Section Selection.

Variable cfg : Config.
Variable scr : Screen.










End Selection.


(** What the actions of the witness return: [W3] sent to the second
    monitor leaves [W1] selected on the first, and [W1] is what
    [unmanage] of [W3] and [focus] of [W1] select. *)
Example selection_after_actions :
  let s := TwoMonitors.three_windows_state in
  let sel := λ r : option State,
               s' ← r; sv ← SELVIEW s' (selmon s');
               Some (selmon s', v_sel sv, v_stack sv) in
  sel (Some s) = Some (0%nat, Some 2%nat, [2%nat; 0%nat])
  ∧ sel (tagmon Scenario.cfg Scenario.scr 1 s)
    = Some (0%nat, Some 0%nat, [0%nat])
  ∧ sel (unmanage Scenario.cfg Scenario.scr 2%nat s)
    = Some (0%nat, Some 0%nat, [0%nat])
  ∧ sel (focus (Some 0%nat) s) = Some (0%nat, Some 0%nat, [0%nat; 2%nat])
  ∧ sel (focus (Some 1%nat) s) = Some (1%nat, Some 1%nat, [1%nat]).
Proof.
  intros s sel. split; [by_compute|]. split; [by_compute|].
  split; [by_compute|]. split; by_compute.
Qed.


(** ** Windows that go away, windows that become transient *)

Section Events.

Variable cfg : Config.
Variable scr : Screen.


(** [propertynotify] for [WM_TRANSIENT_FOR] on a sound state: a client
    that is floating stays as it is; a client that is not floating
    becomes floating exactly when the window it is transient for has a
    client, and then the monitor is arranged; nothing else changes but
    rectangles and urgency flags. *)
Theorem propertynotify_transient (s : State) (ev : XPropertyEvent)
    (rp : PropertyReply) (c : nat) (cl : Client) :
  wf s → pe_atom ev = XA_WM_TRANSIENT_FOR → pe_state ev ≠ PropertyDelete →
  wintoclient s (pe_window ev) = Some (Some c) → heap s !! c = Some cl →
  ∃ s' cl' t,
    propertynotify cfg scr ev rp s = Some s'
    ∧ wintoclient s (pr_transient rp) = Some t
    ∧ wf s'
    ∧ heap s' !! c = Some cl'
    ∧ c_isfloating cl' = c_isfloating cl || bool_decide (is_Some t)
    ∧ (c_isfloating cl = true ∨ t = None → s' = s)
    ∧ ∀ d dl, d ≠ c → heap s !! d = Some dl →
        ∃ dl', heap s' !! d = Some dl' ∧ same_attrs dl dl'.
Proof.
  intros [Hwf Hlive] Hat Hst Hw Hc.
  destruct (wintoclient_total s (pr_transient rp) Hwf) as [t Ht].
  assert (Hpn : propertynotify cfg scr ev rp s
                = if negb (c_isfloating cl) then
                    let s1 := store c (set_c_isfloating
                                         (bool_decide (is_Some t)) cl) s in
                    if bool_decide (is_Some t)
                    then arrange cfg scr (Some (c_mon cl)) s1
                    else Some s1
                  else Some s).
  { unfold propertynotify. rewrite Hat.
    rewrite (bool_decide_eq_false_2 (XA_WM_TRANSIENT_FOR = XA_WM_NAME))
      by discriminate.
    rewrite andb_false_r.
    rewrite (bool_decide_eq_false_2 (pe_state ev = PropertyDelete))
      by exact Hst.
    rewrite Hw. cbn [mbind option_bind].
    rewrite (bool_decide_eq_true_2
               (XA_WM_TRANSIENT_FOR = XA_WM_TRANSIENT_FOR)) by reflexivity.
    rewrite Hc. cbn [mbind option_bind].
    destruct (negb (c_isfloating cl)); [|reflexivity].
    rewrite Ht. reflexivity. }
  rewrite Hpn. clear Hpn.
  destruct (c_isfloating cl) eqn:Hfl; cbn [negb orb].
  - exists s, cl, t. split; [reflexivity|]. split; [exact Ht|].
    split; [split; assumption|]. split; [exact Hc|]. split; [exact Hfl|].
    split; [reflexivity|]. eauto with dwm.
  - cbv zeta. destruct t as [tc|].
    + rewrite bool_decide_eq_true_2 by eauto.
      set (cl1 := set_c_isfloating true cl).
      set (s1 := store c cl1 s).
      assert (Hwf1 : lists_ok s1) by (apply (store_wf s c cl1 cl); auto).
      destruct (wintoclient_found s _ c Hwf Hw) as (cl0 & vw & Hc0 & _ & Hv & _).
      rewrite Hc in Hc0. injection Hc0 as <-.
      assert (Hm : is_Some (mons s1 !! c_mon cl))
        by (apply (get_view_mon s _ (c_view cl)); eauto).
      destruct (arrange_arranged cfg scr (c_mon cl) s1 Hwf1
                  (sel_live_store s c cl1 Hlive) Hm)
        as (s' & Ha & Harr & Hh').
      assert (Hc1 : heap s1 !! c = Some cl1)
        by (unfold s1; rewrite heap_store; apply lookup_insert_eq).
      destruct (arranged_client _ _ _ _ Harr Hc1) as (cl' & Hc' & A).
      attrs A.
      exists s', cl', (Some tc). split; [exact Ha|]. split; [exact Ht|].
      split; [apply head_wf; [eapply arranged_wf; eauto|exact Hh']|].
      split; [exact Hc'|].
      split.
      { rewrite bool_decide_eq_true_2 by eauto.
        unfold cl1 in *; simpl in *; congruence. }
      split; [intros [?|?]; discriminate|].
      intros d dl Hne Hd. apply (arranged_client _ _ _ _ Harr).
      unfold s1. rewrite heap_store. now rewrite lookup_insert_ne.
    + rewrite bool_decide_eq_false_2 by (intros [? ?]; discriminate).
      assert (Hid : set_c_isfloating false cl = cl)
        by (destruct cl; simpl in *; now subst).
      rewrite Hid, (store_id s c cl Hc).
      exists s, cl, None. split; [reflexivity|]. split; [exact Ht|].
      split; [split; assumption|]. split; [exact Hc|].
      split.
      { rewrite bool_decide_eq_false_2 by (intros [? ?]; discriminate).
        exact Hfl. }
      split; [reflexivity|]. eauto with dwm.
Qed.

End Events.


(** [W2] becomes transient for [W1]. *)
Lemma propertynotify_transient_witness :
  let s := Scenario.two_tiled_state in
  let ev := mkXPropertyEvent Scenario.W2 XA_WM_TRANSIENT_FOR 0 in
  let rp := mkPropertyReply Scenario.W1 None None in
  let cl := Scenario.client_at 1%nat s in
  ∃ s' cl' t,
    propertynotify Scenario.cfg Scenario.scr ev rp s = Some s'
    ∧ wintoclient s (pr_transient rp) = Some t
    ∧ wf s'
    ∧ heap s' !! 1%nat = Some cl'
    ∧ c_isfloating cl' = c_isfloating cl || bool_decide (is_Some t)
    ∧ (c_isfloating cl = true ∨ t = None → s' = s)
    ∧ ∀ d dl, d ≠ 1%nat → heap s !! d = Some dl →
        ∃ dl', heap s' !! d = Some dl' ∧ same_attrs dl dl'.
Proof.
  intros s ev rp cl.
  apply (propertynotify_transient Scenario.cfg Scenario.scr s ev rp 1%nat cl).
  - apply wfb_wf. by_compute.
  - reflexivity.
  - discriminate.
  - by_compute.
  - by_compute.
Defined.

(** ** Cycling the focus *)

Lemma after_app (p : nat) (l1 l2 : list nat) :
  p ∉ l1 → after p (l1 ++ p :: l2) = Some l2.
Proof.
  induction l1 as [|x l1 IH]; simpl; intros H.
  - now rewrite decide_True.
  - rewrite not_elem_of_cons in H. destruct H as [Hne H].
    rewrite decide_False by congruence. auto.
Qed.

Lemma walk_to_app (q : nat) (l1 l2 : list nat) :
  q ∉ l1 →
  ∀ c, walk_to q (l1 ++ q :: l2) c
       = Some (match last l1 with Some d => Some d | None => c end).
Proof.
  induction l1 as [|x l1 IH]; simpl; intros H c.
  - now rewrite decide_True.
  - rewrite not_elem_of_cons in H. destruct H as [Hne H].
    rewrite decide_False by congruence. rewrite (IH H).
    destruct l1 as [|y l1]; [reflexivity|].
    rewrite last_cons_cons.
    destruct (last (y :: l1)) eqn:E; [reflexivity|].
    apply last_None in E. discriminate.
Qed.

(** The neighbour that [focusstack] picks with a positive argument and
    the one it picks otherwise. *)
Definition cyc_next (p : nat) (l : list nat) : option nat :=
  match after p l with
  | Some (d :: _) => Some d
  | Some [] => head l
  | None => None
  end.

Definition cyc_prev (q : nat) (l : list nat) : option nat :=
  match walk_to q l None with
  | Some (Some d) => Some d
  | Some None => nx ← after q l; last (q :: nx)
  | None => None
  end.

Lemma cyc_next_prev (p : nat) (l : list nat) :
  NoDup l → p ∈ l →
  ∃ q, cyc_next p l = Some q ∧ q ∈ l ∧ cyc_prev q l = Some p.
Proof.
  intros Hnd Hp. apply list_elem_of_split in Hp as (l1 & l2 & ->).
  apply NoDup_app in Hnd as (Hn1 & Hdis & Hn2).
  apply NoDup_cons in Hn2 as [Hp2 Hn2].
  assert (Hp1 : p ∉ l1) by (intros H; apply (Hdis p H); now left).
  unfold cyc_next. rewrite (after_app p l1 l2 Hp1).
  destruct l2 as [|q l2].
  - destruct l1 as [|x l1].
    + exists p. split; [reflexivity|]. split; [now left|].
      unfold cyc_prev. simpl. rewrite !decide_True by reflexivity.
      reflexivity.
    + exists x. split; [reflexivity|]. split; [now left|].
      unfold cyc_prev. simpl. rewrite !decide_True by reflexivity.
      cbn [mbind option_bind]. rewrite last_cons.
      rewrite last_snoc. reflexivity.
  - exists q. split; [reflexivity|].
    split; [rewrite elem_of_app; right; right; now left|].
    unfold cyc_prev.
    replace (l1 ++ p :: q :: l2) with ((l1 ++ [p]) ++ q :: l2)
      by (now rewrite <- app_assoc).
    rewrite walk_to_app.
    + now rewrite last_snoc.
    + rewrite elem_of_app, list_elem_of_singleton. intros [H| ->].
      * apply (Hdis q H). right. now left.
      * apply Hp2. now left.
Qed.

Section FocusStack.

Variable cfg : Config.
Variable scr : Screen.

Lemma focusstack_eq (i : Z) (s : State) (sv : View) (p : nat) (pl : Client) :
  SELVIEW s (selmon s) = Some sv → v_sel sv = Some p →
  heap s !! p = Some pl → get_view s (c_mon pl) (c_view pl) = Some sv →
  focusstack i s
  = match (if i >? 0 then cyc_next p (v_clients sv)
           else cyc_prev p (v_clients sv)) with
    | Some d => focus (Some d) s
    | None => if i >? 0 then
                match after p (v_clients sv) with
                | Some _ => Some s
                | None => None
                end
              else None
    end.
Proof.
  intros Hsv Hsel Hp Hv. unfold focusstack. rewrite Hsv.
  cbn [mbind option_bind]. rewrite Hsel.
  destruct (i >? 0).
  - rewrite Hp. cbn [mbind option_bind]. rewrite Hv. cbn [mbind option_bind].
    unfold cyc_next. destruct (after p (v_clients sv)) as [[|d nx]|];
      cbn [mbind option_bind]; [|reflexivity|reflexivity].
    destruct (head (v_clients sv)); reflexivity.
  - unfold cyc_prev.
    destruct (walk_to p (v_clients sv) None) as [[d|]|];
      cbn [mbind option_bind]; [reflexivity| |reflexivity].
    destruct (after p (v_clients sv)) as [nx|]; cbn [mbind option_bind];
      [|reflexivity].
    destruct (last (p :: nx)) eqn:E; [reflexivity|].
    apply last_None in E. discriminate E.
Qed.

Lemma focusstack_step (i : Z) (s : State) (sv : View) (p q : nat) :
  lists_ok s → paired s →
  SELVIEW s (selmon s) = Some sv → v_sel sv = Some p → p ∈ v_clients sv →
  (if i >? 0 then cyc_next p (v_clients sv)
   else cyc_prev p (v_clients sv)) = Some q →
  q ∈ v_clients sv →
  ∃ s' sv' ls,
    focusstack i s = Some s'
    ∧ wf s' ∧ paired s' ∧ selmon s' = selmon s
    ∧ SELVIEW s' (selmon s') = Some sv'
    ∧ v_sel sv' = Some q ∧ v_clients sv' = v_clients sv
    ∧ unlink q (v_stack sv) = Some ls ∧ v_stack sv' = q :: ls
    ∧ ∀ d dl, heap s !! d = Some dl →
        ∃ dl', heap s' !! d = Some dl' ∧ same_attrs dl dl'.
Proof.
  intros Hwf Hp Hsv Hsel Hpin Hq Hqin.
  pose proof Hwf as (Hshape & Hstack & Hcl).
  pose proof Hsv as Hsv0. unfold SELVIEW in Hsv0.
  destruct (mons s !! selmon s) as [mon|] eqn:Hmon; [|discriminate].
  cbn [mbind option_bind] in Hsv0.
  assert (Hgv : get_view s (selmon s) (m_selview mon) = Some sv)
    by (unfold get_view; rewrite Hmon; exact Hsv0).
  destruct (Hcl _ _ _ Hgv p Hpin) as (pl & Hpl & Hpm & Hpv).
  destruct (Hcl _ _ _ Hgv q Hqin) as (ql & Hql & Hqm & Hqv).
  assert (Hgvp : get_view s (c_mon pl) (c_view pl) = Some sv)
    by (now rewrite Hpm, Hpv).
  rewrite (focusstack_eq i s sv p pl Hsv Hsel Hpl Hgvp), Hq.
  assert (Hgvq : get_view s (c_mon ql) (c_view ql) = Some sv)
    by (now rewrite Hqm, Hqv).
  assert (Hmq : mons s !! c_mon ql = Some mon) by (now rewrite Hqm).
  assert (Hqs : q ∈ v_stack sv) by (now apply (Hp _ _ _ Hgv)).
  assert (Hlive : sel_live s).
  { intros sv1 c1 Hsv1 Hc1. rewrite Hsv in Hsv1. injection Hsv1 as <-.
    rewrite Hsel in Hc1. injection Hc1 as <-. eauto. }
  destruct (focus_client s q ql mon sv Hwf Hlive Hql Hmq Hqv Hgvq Hqs)
    as (s' & ls & vw' & Hf & Hls & Hvw' & Hs' & Hwf' & Hp' & Hh').
  assert (Hsel' : selmon s' = selmon s) by (rewrite Hs'; exact Hqm).
  exists s', vw', ls. split; [exact Hf|]. split; [now apply head_wf|].
  split; [auto|]. split; [exact Hsel'|]. split.
  { rewrite Hsel'. unfold SELVIEW. rewrite Hs'.
    rewrite Hqm, Hqv.
    erewrite put_view_mon_eq by (rewrite mons_store; exact Hmon).
    cbn [mbind option_bind m_views m_selview set_m_views].
    apply list_lookup_insert_eq. eapply lookup_lt_Some; eauto. }
  split; [now rewrite Hvw'|]. split; [now rewrite Hvw'|].
  split; [exact Hls|]. split; [now rewrite Hvw'|].
  intros d dl Hd. rewrite Hs', heap_put_view, heap_store.
  cbn [heap set_selmon]. destruct (decide (q = d)) as [<-|Hne].
  - rewrite lookup_insert_eq. rewrite Hql in Hd. injection Hd as <-.
    eauto with dwm.
  - rewrite lookup_insert_ne by assumption. eauto with dwm.
Qed.

(** [focusstack] forwards and then backwards on a sound state whose
    selection is a client of the selected view: the first call selects
    the client behind the selection in the client list (the first
    client behind the last one), the second call selects the client
    that was selected before; the client list of the view is never
    reordered, and the selection heads the focus stack. *)
Theorem focusstack_forth_and_back (i j : Z) (s : State) (sv : View)
    (p : nat) :
  wf s → paired s →
  SELVIEW s (selmon s) = Some sv → v_sel sv = Some p → p ∈ v_clients sv →
  0 < i → j <= 0 →
  ∃ q s1 sv1 s2 sv2,
    cyc_next p (v_clients sv) = Some q
    ∧ focusstack i s = Some s1
    ∧ SELVIEW s1 (selmon s1) = Some sv1
    ∧ v_sel sv1 = Some q ∧ head (v_stack sv1) = Some q
    ∧ v_clients sv1 = v_clients sv
    ∧ focusstack j s1 = Some s2
    ∧ SELVIEW s2 (selmon s2) = Some sv2
    ∧ v_sel sv2 = Some p ∧ head (v_stack sv2) = Some p
    ∧ v_clients sv2 = v_clients sv
    ∧ wf s2 ∧ paired s2 ∧ selmon s2 = selmon s
    ∧ ∀ d dl, heap s !! d = Some dl →
        ∃ dl', heap s2 !! d = Some dl' ∧ same_attrs dl dl'.
Proof.
  intros [Hwf _] Hp Hsv Hsel Hpin Hi Hj.
  assert (Hgv : ∃ mon, get_view s (selmon s) (m_selview mon) = Some sv).
  { unfold SELVIEW in Hsv.
    destruct (mons s !! selmon s) as [mon|] eqn:Hmon; [|discriminate].
    exists mon. unfold get_view. now rewrite Hmon. }
  destruct Hgv as [mon Hgv].
  destruct (Hp _ _ _ Hgv) as [Hnd _].
  destruct (cyc_next_prev p (v_clients sv) Hnd Hpin) as (q & Hn & Hqin & Hpr).
  assert (Hi' : (i >? 0) = true) by lia.
  assert (Hj' : (j >? 0) = false) by lia.
  destruct (focusstack_step i s sv p q Hwf Hp Hsv Hsel Hpin)
    as (s1 & sv1 & ls1 & Hf1 & Hwf1 & Hp1 & Hs1 & Hsv1 & Hq1 & Hc1 & _ & Hst1
        & Ha1); [now rewrite Hi'|exact Hqin|].
  destruct (focusstack_step j s1 sv1 q p (proj1 Hwf1) Hp1 Hsv1 Hq1)
    as (s2 & sv2 & ls2 & Hf2 & Hwf2 & Hp2 & Hs2 & Hsv2 & Hq2 & Hc2 & _ & Hst2
        & Ha2).
  { now rewrite Hc1. }
  { now rewrite Hj', Hc1. }
  { now rewrite Hc1. }
  exists q, s1, sv1, s2, sv2.
  split; [exact Hn|]. split; [exact Hf1|]. split; [exact Hsv1|].
  split; [exact Hq1|]. split; [now rewrite Hst1|]. split; [exact Hc1|].
  split; [exact Hf2|]. split; [exact Hsv2|]. split; [exact Hq2|].
  split; [now rewrite Hst2|]. split; [congruence|].
  split; [exact Hwf2|]. split; [exact Hp2|]. split; [congruence|].
  intros d dl Hd. destruct (Ha1 d dl Hd) as (d1 & Hd1 & A1).
  destruct (Ha2 d d1 Hd1) as (d2 & Hd2 & A2).
  exists d2. split; [exact Hd2|]. eapply same_attrs_trans; eauto.
Qed.

End FocusStack.

Lemma focusstack_forth_and_back_witness :
  let s := Scenario.two_tiled_state in
  let sv := Scenario.selview_at 0%nat s in
  ∃ q s1 sv1 s2 sv2,
    cyc_next 1%nat (v_clients sv) = Some q
    ∧ focusstack 1 s = Some s1
    ∧ SELVIEW s1 (selmon s1) = Some sv1
    ∧ v_sel sv1 = Some q ∧ head (v_stack sv1) = Some q
    ∧ v_clients sv1 = v_clients sv
    ∧ focusstack (-1) s1 = Some s2
    ∧ SELVIEW s2 (selmon s2) = Some sv2
    ∧ v_sel sv2 = Some 1%nat ∧ head (v_stack sv2) = Some 1%nat
    ∧ v_clients sv2 = v_clients sv
    ∧ wf s2 ∧ paired s2 ∧ selmon s2 = selmon s
    ∧ ∀ d dl, heap s !! d = Some dl →
        ∃ dl', heap s2 !! d = Some dl' ∧ same_attrs dl dl'.
Proof.
  intros s sv.
  apply (focusstack_forth_and_back 1 (-1) s sv 1%nat).
  - apply wfb_wf. by_compute.
  - apply pairedb_paired. by_compute.
  - by_compute.
  - by_compute.
  - apply (bool_decide_unpack _). by_compute.
  - lia.
  - lia.
Defined.

(** ** The tag labels of the bar *)

Lemma hasurgentclient_total (hp : gmap nat Client) (l : list nat) :
  (∀ c, c ∈ l → is_Some (hp !! c)) → is_Some (hasurgentclient hp l).
Proof.
  induction l as [|c l IH]; intros H; simpl; [eauto|].
  destruct (H c) as [cl ->]; [now left|]. simpl.
  destruct (c_isurgent cl); [eauto|]. apply IH. intros d Hd. apply H.
  now right.
Qed.

(** [drawbar] on a monitor of a sound state draws one label for every
    view.  The label of a view has the colours of the selection
    exactly when the view is the selected one, is inverted exactly
    when a client of the view is urgent, and carries the filled square
    exactly when the monitor is the selected one, the view is the
    selected one and has a selection. *)
Theorem drawbar_tags_labels (m : nat) (s : State) (mon : Monitor) :
  lists_ok s → mons s !! m = Some mon →
  ∃ labels,
    drawbar_tags m s = Some labels
    ∧ length labels = NUMVIEWS
    ∧ ∀ i vw lab, m_views mon !! i = Some vw → labels !! i = Some lab →
        (tl_selected lab = true ↔ i = m_selview mon)
        ∧ (tl_invert lab = true
           ↔ ∃ c cl, c ∈ v_clients vw ∧ heap s !! c = Some cl
                     ∧ c_isurgent cl = true)
        ∧ (tl_square lab = Some FilledSquare
           ↔ m = selmon s ∧ is_Some (v_sel vw) ∧ i = m_selview mon).
Proof.
  intros Hwf Hmon. pose proof Hwf as ((_ & Hall) & _ & Hcl).
  destruct (Hall _ _ Hmon) as [Hlen _].
  unfold drawbar_tags. rewrite Hmon. cbn [mbind option_bind].
  assert (Htot : is_Some (mapM (drawbar_tag s m mon) (seq 0 NUMVIEWS))).
  { apply mapM_is_Some. apply Forall_forall. intros i Hi.
    apply elem_of_seq in Hi as [_ Hi]. unfold compose, drawbar_tag.
    destruct (lookup_lt_is_Some_2 (m_views mon) i) as [vw Hv];
      [rewrite Hlen; lia|].
    rewrite Hv. cbn [mbind option_bind].
    destruct (hasurgentclient_total (heap s) (v_clients vw)) as [u ->];
      [|simpl; eauto].
    intros c Hc.
    assert (Hgv : get_view s m i = Some vw)
      by (unfold get_view; now rewrite Hmon).
    destruct (Hcl _ _ _ Hgv c Hc) as (cl & -> & _). eauto. }
  destruct Htot as [labels Hl]. exists labels. split; [exact Hl|].
  pose proof (length_mapM _ _ _ Hl) as Hlen2. rewrite length_seq in Hlen2.
  split; [now symmetry|].
  intros i vw lab Hv Hlab. apply mapM_Some_1 in Hl.
  destruct (Forall2_lookup_r _ _ _ _ _ Hl Hlab) as (j & Hj & Hd).
  apply lookup_seq in Hj as [-> _]. cbn [Nat.add] in Hd.
  unfold drawbar_tag in Hd. rewrite Hv in Hd. cbn [mbind option_bind] in Hd.
  destruct (hasurgentclient (heap s) (v_clients vw)) as [u|] eqn:Hu;
    [|discriminate].
  cbn [mbind option_bind] in Hd. injection Hd as <-.
  cbn [tl_selected tl_invert tl_square].
  split; [apply bool_decide_eq_true|].
  split; [apply (hasurgentclient_spec _ _ _ Hu)|].
  unfold drawsquare.
  destruct (bool_decide (m = selmon s)) eqn:E1;
    destruct (bool_decide (is_Some (v_sel vw))) eqn:E2;
    destruct (bool_decide (i = m_selview mon)) eqn:E3; cbn [andb];
    try apply bool_decide_eq_true in E1;
    try apply bool_decide_eq_true in E2;
    try apply bool_decide_eq_true in E3;
    try apply bool_decide_eq_false in E1;
    try apply bool_decide_eq_false in E2;
    try apply bool_decide_eq_false in E3;
    (split; [|tauto]);
    try (destruct (bool_decide (v_clients vw = [])));
    intros H; try discriminate H; auto.
Qed.

Lemma drawbar_tags_labels_witness :
  let s := Scenario.two_tiled_state in
  let mon := Scenario.monitor_at 0%nat s in
  ∃ labels,
    drawbar_tags 0%nat s = Some labels
    ∧ length labels = NUMVIEWS
    ∧ ∀ i vw lab, m_views mon !! i = Some vw → labels !! i = Some lab →
        (tl_selected lab = true ↔ i = m_selview mon)
        ∧ (tl_invert lab = true
           ↔ ∃ c cl, c ∈ v_clients vw ∧ heap s !! c = Some cl
                     ∧ c_isurgent cl = true)
        ∧ (tl_square lab = Some FilledSquare
           ↔ 0%nat = selmon s ∧ is_Some (v_sel vw) ∧ i = m_selview mon).
Proof.
  intros s mon. apply (drawbar_tags_labels 0%nat s mon).
  - apply wfb_lists_ok. by_compute.
  - by_compute.
Defined.
